(* ===== verification/_CoqProject ===== *)
-Q . S2P
Prelude.v
Effects.v
Crc16.v
Hiutil.v
Hiarray.v
Resp.v
Format.v
Command.v
CommandParser.v
CommandSpec.v
Reply.v
ClusterSlot.v
ClusterFragment.v
ClusterFragmentSpec.v
ClusterMerge.v
ClusterRoute.v
Sds.v
SdsSpec.v
SdsText.v
SdsTextSpec.v
Dict.v
DictSpec.v
Adlist.v
AdlistSpec.v
AdlistRefines.v
Reader.v
ReaderSpec.v
ReaderStream.v
ReaderApi.v
ReaderTyping.v
ReplyFree.v
Vformat.v
VformatSpec.v
Net.v
NetSpec.v
NetScript.v
HiutilIo.v
Context.v
ContextSpec.v
ContextPipeline.v
Async.v
AsyncSpec.v
AsyncOrder.v
AsyncDeliver.v
AsyncFaults.v
AsyncWatch.v
AsyncFrame.v
ClusterNode.v
ClusterTopology.v
ClusterUpdate.v
Script.v
ClusterExec.v
ClusterPipeline.v
ClusterFrame.v
ClusterExecSpec.v
ClusterTopologySpec.v
ClusterUpdateSpec.v
ClusterRefreshSpec.v
ClusterFaults.v
ClusterSafe.v
ClusterSafeParse.v
ClusterSafeApi.v
ClusterAsync.v
ClusterAsyncScript.v
ClusterAsyncSpec.v
ClusterAsyncRun.v
ClusterAsyncSend.v
ClusterAsyncFaults.v
Adapters.v
AdapterSpec.v
AdapterFaults.v
