(* ===== verification/Prelude.v ===== *)
(** * hiredis-vip: a verification development (root file)

    hiredis-vip is a C client library for Redis and Redis Cluster.  A command is
    written in the wire format of the protocol (hiredis.c), its keys are found by
    reading that text back (command.c), the hash slot of the keys (crc16.c,
    hircluster.c) selects a server through a table that the client learns from the
    servers (hircluster.c), the command is sent there, split into one command per
    slot when its keys are on several, and the answer is read (read.c),
    redirections are followed and the answers of the parts are merged
    (hircluster.c).  Below are the data structures: dynamic strings (sds.c), hash
    tables (dict.c), growing arrays (hiarray.c), number conversions (hiutil.c).

    ** Files

    Prelude (this file): bytes, machine integers as [Z] with their wrap-around,
    decimal numerals, list lemmas, tactics.  Effects: programs with a state and
    [goto error], with a total ([wp]) and a partial ([wlp]) weakest precondition.

    Data structures.
    - Hiutil (hiutil.c, hiutil.h): [_hi_atoi], [_hi_itoa], [_uint_len], ports.
      HiutilIo: the allocator, options of sockets, [_hi_sendn], [_hi_recvn].
    - Hiarray (hiarray.c): [struct hiarray]; pushing keeps the elements.
    - Sds, SdsSpec (sds.c): the header and the array with bounds checked stores;
      each operation against the byte string it stands for.  SdsText, SdsTextSpec:
      [sdscatfmt] and the formatter of commands on it, case, integers.
    - Adlist, AdlistSpec, AdlistRefines (adlist.c): nodes of a heap; [seg] is the
      chain of a list, [list_refines_sequence] what a client sees.
    - Dict, DictSpec (dict.c): buckets, growing, the iterator; [dict_map] is the
      finite map a table implements and [dict_wf] its invariant.
    - Crc16 (crc16.c): the table driven checksum and the polynomial division.

    Commands and replies.
    - Resp: requests of the protocol, the abstract specification that Format,
      CommandSpec and ClusterFragmentSpec share.
    - Format (hiredis.c): [redisFormatCommandArgv], [redisFormatSdsCommandArgv].
      Vformat, VformatSpec (hiredis.c, sds.c): the printf-like
      [redisvFormatCommand], one definition per kind of conversion.
    - Command (command.h, command.c): command types, names, [struct cmd].
    - CommandParser, CommandSpec (command.c): [redis_parse_cmd] as a state
      machine, one definition per [case]; its specification [spec_parse].
    - Reply (hiredis.h, hiredis.c): reply objects and their classification.
    - Reader (read.c): the task stack and the object under construction.
      ReaderSpec is the same step on the unread bytes, ReaderStream the decoder
      it computes, ReaderApi feeding and taking replies; ReaderTyping the shape of
      the replies on any bytes.  ReplyFree (hiredis.c): [freeReplyObject].

    Connections.
    - Net (net.c): the context [redisContext] of one connection and every function
      of net.c, over the system calls, which are the class [Posix].  NetSpec: what
      is assumed of the descriptors ([PosixLaws]) and the specification of
      connecting.  NetScript: a system that follows a script.
    - Context (hiredis.c): constructors, freeing, both buffers, requests, replies.
      ContextSpec: results of the constructors, descriptors.  ContextPipeline:
      the commands and replies of a client on a scripted system.
    - Async (async.c): the context with callbacks; code of the user is a parameter
      that runs on the same state.  AsyncSpec: lists of callbacks as queues, regular
      commands.  AsyncOrder: the order of callbacks for any client and any system;
      AsyncDeliver: the event loop of a client; AsyncFaults: runs that go wrong.
      AsyncFrame: async.c keeps a preorder of its system that its callbacks keep.
      AsyncWatch: what the hooks of the event loop asked for.
    - Adapters (src/adapters: ae.h, libev.h, libevent.h, libuv.h, glib.h): the object
      of an adapter, its hooks, attaching, the handlers; the event libraries are
      classes.  AdapterSpec: what async.c needs of an adapter ([LawfulAdapter]) and
      that the five have it; AdapterFaults: runs that go wrong.

    The cluster client (hircluster.c).
    - ClusterSlot: [keyHashSlot], the slot table and the sorted regions.
    - ClusterFragment, ClusterFragmentSpec: [command_pre_fragment].
    - ClusterMerge: [command_post_fragment].  ClusterRoute:
      [command_format_by_slot].
    - ClusterNode: the context [redisClusterContext] and the heap of nodes, the
      contexts of hiredis.c behind the interface [Transport], those of async.c that
      a node can hold behind [AsyncConns] (in the synchronous client there are none:
      [no_async]).
    - ClusterTopology, ClusterTopologySpec: [parse_cluster_nodes],
      [parse_cluster_slots].
    - ClusterUpdate, ClusterUpdateSpec, ClusterRefreshSpec:
      [cluster_update_route] and its parts, connecting, options, freeing.
    - ClusterExec, ClusterExecSpec: sending and redirections
      ([redis_cluster_command_execute], [redisClusterFormattedCommand]).
    - ClusterPipeline: [redisClusterAppendFormattedCommand],
      [redisClusterGetReply], [redisClusterReset].
    - ClusterFrame: what functions keep because their parts keep it.
      ClusterSafe, ClusterSafeParse, ClusterSafeApi: the memory invariant.
    - Script: an instance of [Transport] whose servers follow a script;
      ClusterFaults: runs that go wrong.
    - ClusterAsync: the asynchronous client.  Its state is that of the cluster client
      with a table of states of Async, one per connection, and the requests that
      wait; [redisClusterAsyncCallback] and its labels are a definition each.
      ClusterAsyncSpec: what is counted of a request in the log of a run, and that
      every function keeps the accounts; ClusterAsyncRun: whole runs;
      ClusterAsyncSend: a command that is sent; ClusterAsyncScript and
      ClusterAsyncFaults: a scripted cluster and runs on it.

    ** What the theorems show

    - The route.  After [cluster_update_route_by_addr] every slot maps to a live
      node with the address of the master that the server reported as its owner;
      connections to addresses that stay are kept.  From a new context no
      sequence of calls of the synchronous interface, whatever the servers send
      and whichever allocations fail, leaves a dangling node in the dictionary or
      the slot table.
    - Execution ends within the bound on redirections and its result is not a
      redirection.
    - Parsing.  [redis_parse_cmd] is safe on any bytes; on requests it computes
      [spec_parse], and the positions it records hold the keys.
    - Splitting and merging.  The fragments are exactly the requests of the keys
      of each slot; the merged reply of MGET is in the order of the keys, that of
      DEL is the sum, an error of a fragment is the error of the whole.
    - Formatting writes exactly the request, inside its block; the reader gives
      back exactly the replies that were encoded, however the stream is cut, and
      on any other bytes an error or replies of the right shape, which
      [freeReplyObject] frees completely.
    - Connections.  Every constructor returns NULL, a connected context or one with
      an error; [redisFree] closes the descriptor of the context and no other; on
      a blocking connection the calls of a pipelining client return the replies of
      the peer in order, however the bytes are cut and interrupted.
    - Asynchronous connections.  Callbacks are called in the order of the commands,
      at most once, and exactly once when the context is freed, whatever the client,
      its callbacks and the server do; the event loop ends and gives each callback
      the reply to its command.  The event loop waits for the events that the hooks
      asked for, with each of the adapters, and for writing whenever there is output.
      (Only hooks are counted: an event of libevent that happens is not pending until
      its handler has added it again.)
    - Asynchronous cluster client.  In every run, whatever the servers and the user's
      callbacks do, a request that was handed to a connection waits or has ended
      exactly once, its callback is called at most once, and it is sent at most
      [max_redirect_count] times again.  A command goes to the connection of its slot.
    - The hash table answers every sequence of operations as a finite map does, the
      linked list as a sequence does;
      strings, arrays, numerals and the checksum compute what their
      specifications say, within their blocks and their machine integers.

    ** Conventions

    [None] of a program is a memory fault: an access outside an object, through
    NULL or through a freed pointer, or a failed [assert].  Errors that the code
    handles are values: a NULL is [None] of an inner option, a return code is a
    number, an error field is part of the state.  Allocations that the code
    checks take an argument that says which ones succeed ([alloc], [malloc_ok],
    [realloc_ok]); unchecked ones succeed.  An object that can be aliased is
    named by its pointer in a heap; the others are values.

    Fuel.  Loops that are not structural have fuel that is shown to be enough:
    the parser and the reader as many steps as bytes or items are left, the
    traversal of a dictionary one more than its entries, execution
    [max_redirect_count] less the retries done, plus two, freeing a node as many
    steps as there are live nodes, the retries of a connect [REDIS_CONNECT_RETRIES],
    processing callbacks one step more than bytes in the reader's buffer, freeing an
    asynchronous context one more than nodes and entries, and the [do ... while]
    loops of [redisGetReply] as many steps as there are
    answers of the system and bytes to write.  The same loops of the cluster client
    have as many steps as its interface [Transport] allows.  Callbacks of the
    asynchronous client that call it again, and connections freed inside
    callbacks, nest as deep as the argument [depth] of a run says: a deeper run is
    [None], and what is shown of runs is shown for every depth.

    ** Not modelled

    - The system calls: the classes [Posix] and [Sockets].  What printf prints for one conversion:
      a parameter of Vformat.
    - The event libraries: classes of Adapters, with what they document as laws; the
      callbacks of the user: parameters of Async and ClusterAsync.
    - Example programs and the test driver.
    - The lists of slaves and of slots that hircluster.c keeps are Rocq lists.
    - [cluster_update_route_with_nodes_old], which nothing calls; functions that
      print, dump or trace, and those that only free memory but [freeReplyObject]; the
      [data] fields for the user.
    - [qsort]: [hiarray_sort] is a merge sort, which gives a sorted permutation
      by the same comparison. *)

From Stdlib Require Export ZArith Lia Ascii.
From stdpp Require Export base list gmap strings numbers fin_maps.

#[global] Open Scope Z_scope.

(** ** Bytes and C integers

    A C [char] is a Stdlib [ascii] (exactly the 256 byte values); a byte
    string is a list of them.  Integers are [Z] with the wrap-around of the C
    type written out. *)

Abbreviation bytes := (list ascii).

(** Byte string literals: [s "GET"]. *)
Definition s (x : string) : bytes := String.list_ascii_of_string x.

Definition code (c : ascii) : Z := Z.of_N (Ascii.N_of_ascii c).
Definition chr (z : Z) : ascii := Ascii.ascii_of_N (Z.to_N z).

Definition LF : ascii := "010"%char.
Definition CR : ascii := "013"%char.
Definition NUL : ascii := "000"%char.
Definition CRLF : bytes := [CR; LF].

Definition u16 (z : Z) : Z := z mod 2 ^ 16.
Definition u32 (z : Z) : Z := z mod 2 ^ 32.
Definition u64 (z : Z) : Z := z mod 2 ^ 64.
Definition i32 (z : Z) : Z := (z + 2 ^ 31) mod 2 ^ 32 - 2 ^ 31.
Definition i64 (z : Z) : Z := (z + 2 ^ 63) mod 2 ^ 64 - 2 ^ 63.

Definition zlen {A} (l : list A) : Z := Z.of_nat (length l).

Arguments zlen : simpl never.
Arguments u16 : simpl never.
Arguments u32 : simpl never.
Arguments u64 : simpl never.
Arguments i32 : simpl never.
Arguments i64 : simpl never.

(** [isdigit] of <ctype.h> and the value of a digit. *)
Definition isdigit (c : ascii) : bool := (48 <=? code c) && (code c <=? 57).
Definition digit_val (c : ascii) : Z := code c - 48.
Definition digit (d : Z) : ascii := chr (48 + d).

(** [tolower] and [toupper] of the C locale. *)
Definition tolower (c : ascii) : ascii :=
  if (65 <=? code c) && (code c <=? 90) then chr (code c + 32) else c.
Definition toupper (c : ascii) : ascii :=
  if (97 <=? code c) && (code c <=? 122) then chr (code c - 32) else c.

(** A read of one byte at an offset of a buffer; [None] is a read outside. *)
Definition byte_at (b : bytes) (i : Z) : option ascii :=
  if (0 <=? i) && (i <? zlen b) then b !! Z.to_nat i else None.

(** The bytes of [b] from offset [i] up to, not including, offset [j]. *)
Definition slice (b : bytes) (i j : Z) : bytes :=
  take (Z.to_nat (j - i)) (drop (Z.to_nat i) b).

(** What the conversions [%d], [%u] and [%zu] of printf print for a
    non-negative value. *)
Fixpoint dec_aux (fuel : nat) (n : Z) (acc : bytes) : bytes :=
  match fuel with
  | O => acc
  | S f => if n <? 10 then digit n :: acc
           else dec_aux f (n / 10) (digit (n mod 10) :: acc)
  end.
Definition dec (n : Z) : bytes := dec_aux (S (Z.to_nat (Z.log2 n))) n [].
Arguments dec : simpl never.

(** [%d] of a signed value. *)
Definition dec_signed (n : Z) : bytes :=
  if n <? 0 then "-"%char :: dec (- n) else dec n.

(** The value accumulated by [v = v * 10 + (c - '0')] over a digit string,
    without wrap-around. *)
Definition dec_value (l : bytes) : Z :=
  fold_left (fun v c => v * 10 + digit_val c) l 0.

(** The C string held in a buffer: the bytes before its first NUL. *)
Fixpoint c_string (b : bytes) : option bytes :=
  match b with
  | [] => None
  | c :: b' => if decide (c = NUL) then Some [] else cons c <$> c_string b'
  end.

(** ** Outcomes

    A function of the C code that can fail returns an error of its own, or it
    reads or writes outside an object: the two are kept apart. *)

Inductive outcome (E A : Type) :=
| Ok (a : A)
| Err (e : E)
| Bad.
Arguments Ok {E A}.
Arguments Err {E A}.
Arguments Bad {E A}.

Definition outcome_bind {E A B} (x : outcome E A) (k : A -> outcome E B) : outcome E B :=
  match x with Ok a => k a | Err e => Err e | Bad => Bad end.
Notation "'let!' x := e 'in' k" := (outcome_bind e (fun x => k))
  (at level 10, x pattern, e at level 200, k at level 200).

(** A memory access of the model. *)
Definition access {E A} (x : option A) : outcome E A :=
  match x with Some a => Ok a | None => Bad end.

(** ** Automation *)

Create HintDb hv.

(** Case analysis on the boolean and [decide] tests of the goal. *)
Ltac cases :=
  repeat match goal with
  | |- context [decide ?P] => destruct (decide P)
  | |- context [Z.eqb ?a ?b] => destruct (Z.eqb_spec a b)
  | |- context [Z.ltb ?a ?b] => destruct (Z.ltb_spec a b)
  | |- context [Z.leb ?a ?b] => destruct (Z.leb_spec a b)
  end.

(** The same in a hypothesis. *)
Ltac cases_in H :=
  repeat match type of H with
  | context [decide ?P] => destruct (decide P)
  | context [Z.eqb ?a ?b] => destruct (Z.eqb_spec a b)
  | context [Z.ltb ?a ?b] => destruct (Z.ltb_spec a b)
  | context [Z.leb ?a ?b] => destruct (Z.leb_spec a b)
  end.

(** Closed (in)equalities and conjunctions of them, by evaluation. *)
Ltac zcompute :=
  repeat match goal with |- _ /\ _ => split end;
  solve [vm_compute; reflexivity | vm_compute; discriminate].

(** Closed decisions, by evaluation. *)
Ltac compute_decide :=
  repeat match goal with
  | H : context [@bool_decide ?P ?D] |- _ =>
      let b := eval vm_compute in (@bool_decide P D) in
      lazymatch b with true => idtac | false => idtac end;
      change (@bool_decide P D) with b in H
  | |- context [@bool_decide ?P ?D] =>
      let b := eval vm_compute in (@bool_decide P D) in
      lazymatch b with true => idtac | false => idtac end;
      change (@bool_decide P D) with b
  end.

(** ** Lemmas on bytes and integers *)

Lemma code_range c : 0 <= code c < 256.
Proof.
  unfold code. destruct c as [b0 b1 b2 b3 b4 b5 b6 b7].
  destruct b0, b1, b2, b3, b4, b5, b6, b7; vm_compute; split; congruence.
Qed.

Lemma code_inj c d : code c = code d -> c = d.
Proof.
  unfold code. intros H%N2Z.inj.
  rewrite <- (Ascii.ascii_N_embedding c), <- (Ascii.ascii_N_embedding d).
  by rewrite H.
Qed.

Lemma code_chr z : 0 <= z < 256 -> code (chr z) = z.
Proof.
  intros H. unfold code, chr. rewrite Ascii.N_ascii_embedding by lia. lia.
Qed.

Lemma chr_code c : chr (code c) = c.
Proof.
  unfold code, chr. rewrite N2Z.id. apply Ascii.ascii_N_embedding.
Qed.

Lemma u32_small z : 0 <= z < 2 ^ 32 -> u32 z = z.
Proof. intros. unfold u32. by apply Z.mod_small. Qed.

Lemma u32_range z : 0 <= u32 z < 2 ^ 32.
Proof. unfold u32. by apply Z.mod_pos_bound. Qed.

Lemma i32_small z : - 2 ^ 31 <= z < 2 ^ 31 -> i32 z = z.
Proof. intros. unfold i32. rewrite Z.mod_small; lia. Qed.

Lemma i64_small z : - 2 ^ 63 <= z < 2 ^ 63 -> i64 z = z.
Proof. intros. unfold i64. rewrite Z.mod_small; lia. Qed.
Lemma i32_range z : - 2 ^ 31 <= i32 z < 2 ^ 31.
Proof. unfold i32. pose proof (Z.mod_pos_bound (z + 2 ^ 31) (2 ^ 32)). lia. Qed.

Lemma zlen_nil {A} : zlen (@nil A) = 0.
Proof. done. Qed.

Lemma zlen_cons {A} (x : A) l : zlen (x :: l) = 1 + zlen l.
Proof. unfold zlen. simpl. lia. Qed.

Lemma zlen_singleton {A} (x : A) : zlen [x] = 1.
Proof. done. Qed.

Lemma zlen_app {A} (l k : list A) : zlen (l ++ k) = zlen l + zlen k.
Proof. unfold zlen. rewrite length_app. lia. Qed.

Lemma zlen_nonneg {A} (l : list A) : 0 <= zlen l.
Proof. unfold zlen. lia. Qed.

Create Rewrite HintDb zlen.
#[export] Hint Rewrite @zlen_nil @zlen_singleton @zlen_cons @zlen_app : zlen.
#[export] Hint Resolve zlen_nonneg : hv.

(** Normalise lengths, add their non-negativity, finish with [lia]. *)
Ltac zlen_lia :=
  autorewrite with zlen in *;
  repeat match goal with
  | |- context [zlen ?l] =>
      lazymatch goal with
      | _ : 0 <= zlen l |- _ => fail
      | _ => pose proof (zlen_nonneg l)
      end
  | _ : context [zlen ?l] |- _ =>
      lazymatch goal with
      | _ : 0 <= zlen l |- _ => fail
      | _ => pose proof (zlen_nonneg l)
      end
  end; lia.

(** ** Digits *)

Lemma isdigit_range c : isdigit c = true <-> 0 <= digit_val c <= 9.
Proof. unfold isdigit, digit_val. lia. Qed.

Lemma digit_val_digit d : 0 <= d <= 9 -> digit_val (digit d) = d.
Proof. intros. unfold digit_val, digit. rewrite code_chr; lia. Qed.

Lemma isdigit_digit d : 0 <= d <= 9 -> isdigit (digit d) = true.
Proof. intros. apply isdigit_range. rewrite digit_val_digit; lia. Qed.

Lemma not_isdigit_CR : isdigit CR = false.
Proof. done. Qed.

(** ** Decimal numerals *)

Lemma dec_aux_acc f : forall n acc, dec_aux f n acc = dec_aux f n [] ++ acc.
Proof.
  induction f as [|f IH]; intros n acc; simpl; [done|].
  destruct (n <? 10); [done|].
  rewrite IH. symmetry. rewrite IH. by rewrite <- app_assoc.
Qed.

Lemma dec_aux_fuel f g n acc :
  0 <= n -> n < 2 ^ Z.of_nat (S f) -> n < 2 ^ Z.of_nat (S g) ->
  dec_aux (S f) n acc = dec_aux (S g) n acc.
Proof.
  revert g n acc. induction f as [|f IH]; intros g n acc Hn Hf Hg.
  - change (2 ^ Z.of_nat 1) with 2 in Hf. cbn [dec_aux].
    destruct (Z.ltb_spec n 10); [done|lia].
  - destruct g as [|g].
    + change (2 ^ Z.of_nat 1) with 2 in Hg. cbn [dec_aux].
      destruct (Z.ltb_spec n 10); [done|lia].
    + remember (S f) as f'. remember (S g) as g'.
      cbn [dec_aux]. subst. destruct (Z.ltb_spec n 10); [done|].
      rewrite Nat2Z.inj_succ, Z.pow_succ_r in Hf, Hg by lia.
      apply IH.
      * apply Z.div_pos; lia.
      * apply Z.div_lt_upper_bound; lia.
      * apply Z.div_lt_upper_bound; lia.
Qed.

Lemma dec_small n : 0 <= n < 10 -> dec n = [digit n].
Proof. intros. unfold dec. cbn [dec_aux]. destruct (Z.ltb_spec n 10); [done|lia]. Qed.

Lemma log2_fuel n : 0 <= n -> n < 2 ^ Z.of_nat (S (Z.to_nat (Z.log2 n))).
Proof.
  intros Hn. rewrite Nat2Z.inj_succ, Z2Nat.id by apply Z.log2_nonneg.
  destruct (decide (n = 0)) as [->|]; [done|].
  apply Z.log2_spec. lia.
Qed.

Lemma dec_step n : 10 <= n -> dec n = dec (n / 10) ++ [digit (n mod 10)].
Proof.
  intros Hn. unfold dec at 1. cbn [dec_aux].
  destruct (Z.ltb_spec n 10); [lia|]. rewrite dec_aux_acc. f_equal.
  assert (Hl : exists k, Z.to_nat (Z.log2 n) = S k).
  { pose proof (Z.log2_le_mono 2 n ltac:(lia)).
    change (Z.log2 2) with 1 in *. exists (Z.to_nat (Z.log2 n - 1)). lia. }
  pose proof (log2_fuel n ltac:(lia)) as Hu.
  destruct Hl as [k Hk]. rewrite Hk in *. unfold dec. apply dec_aux_fuel.
  - apply Z.div_pos; lia.
  - rewrite Nat2Z.inj_succ, Z.pow_succ_r in Hu by lia.
    apply Z.div_lt_upper_bound; lia.
  - apply log2_fuel. apply Z.div_pos; lia.
Qed.

(** Induction on a numeral: one digit, or a numeral and a last digit. *)
Lemma dec_ind (P : Z -> bytes -> Prop) :
  (forall d, 0 <= d < 10 -> P d [digit d]) ->
  (forall n d, 0 < n -> 0 <= d < 10 -> P n (dec n) ->
     P (n * 10 + d) (dec n ++ [digit d])) ->
  forall n, 0 <= n -> P n (dec n).
Proof.
  intros H1 H2. apply (Zlt_0_ind (fun n => P n (dec n))).
  intros n IH Hn.
  destruct (decide (n < 10)).
  - rewrite dec_small by lia. apply H1. lia.
  - rewrite dec_step by lia.
    pose proof (Z.mod_pos_bound n 10 ltac:(lia)).
    pose proof (Z.div_mod n 10 ltac:(lia)).
    assert (0 < n / 10) by (apply Z.div_str_pos; lia).
    replace n with (n / 10 * 10 + n mod 10) at 1 by lia.
    apply H2; [done|lia|]. apply IH. lia.
Qed.

Lemma dec_digits n : 0 <= n -> Forall (fun c => isdigit c = true) (dec n).
Proof.
  revert n. apply (dec_ind (fun n l => Forall (fun c => isdigit c = true) l)).
  - intros. repeat constructor. apply isdigit_digit. lia.
  - intros. apply Forall_app. split; [done|].
    repeat constructor. apply isdigit_digit. lia.
Qed.

Lemma dec_value_dec n : 0 <= n -> dec_value (dec n) = n.
Proof.
  revert n. apply (dec_ind (fun n l => dec_value l = n)).
  - intros. unfold dec_value. cbn [fold_left]. rewrite digit_val_digit; lia.
  - intros n d ? ? IH. unfold dec_value in *. rewrite fold_left_app, IH.
    cbn [fold_left]. rewrite digit_val_digit; lia.
Qed.

Lemma dec_nonempty n : dec n <> [].
Proof.
  unfold dec. cbn [dec_aux]. destruct (n <? 10); [done|].
  rewrite dec_aux_acc. by destruct (dec_aux _ _ []).
Qed.

Lemma dec_inj n m : 0 <= n -> 0 <= m -> dec n = dec m -> n = m.
Proof.
  intros Hn Hm H. rewrite <- (dec_value_dec n), <- (dec_value_dec m) by done.
  by rewrite H.
Qed.

(** The value never decreases while digits are read. *)
Lemma dec_fold_ge l : forall v,
  Forall (fun c => isdigit c = true) l -> 0 <= v ->
  v <= fold_left (fun v c => v * 10 + digit_val c) l v.
Proof.
  induction l as [|c l IH]; intros v Hd Hv; cbn [fold_left]; [lia|].
  apply Forall_cons in Hd as [Hc Hd].
  pose proof (proj1 (isdigit_range c) Hc).
  specialize (IH (v * 10 + digit_val c) Hd ltac:(lia)). lia.
Qed.

(** The number of digits: [10 ^ (length - 1) <= n < 10 ^ length]. *)
Lemma dec_length n :
  0 <= n -> 1 <= zlen (dec n) /\ n < 10 ^ zlen (dec n) /\
            (0 < n -> 10 ^ (zlen (dec n) - 1) <= n).
Proof.
  revert n. apply (dec_ind (fun n l => 1 <= zlen l /\ n < 10 ^ zlen l /\
                                (0 < n -> 10 ^ (zlen l - 1) <= n))).
  - intros d ?. change (zlen [digit d]) with 1. simpl. lia.
  - intros n d ? ? (? & ? & Hp). rewrite zlen_app. change (zlen [digit d]) with 1.
    specialize (Hp ltac:(lia)).
    rewrite Z.pow_add_r by lia. rewrite Z.add_simpl_r.
    replace (zlen (dec n)) with (Z.succ (zlen (dec n) - 1)) at 3 by lia.
    rewrite Z.pow_succ_r by lia. change (10 ^ 1) with 10. lia.
Qed.

(** ** Reading a buffer *)

Lemma byte_at_app pre c rest : byte_at (pre ++ c :: rest) (zlen pre) = Some c.
Proof.
  unfold byte_at. destruct (Z.leb_spec 0 (zlen pre)); [|zlen_lia].
  destruct (Z.ltb_spec (zlen pre) (zlen (pre ++ c :: rest))); [|zlen_lia].
  simpl. unfold zlen. rewrite Nat2Z.id. by apply list_lookup_middle.
Qed.

Lemma byte_at_Some b i c : byte_at b i = Some c -> 0 <= i < zlen b.
Proof. unfold byte_at. intros. case_match eqn:E; [lia|done]. Qed.

Lemma byte_at_is_Some b i : 0 <= i < zlen b -> exists c, byte_at b i = Some c.
Proof.
  intros Hi. unfold byte_at.
  replace ((0 <=? i) && (i <? zlen b)) with true by lia.
  apply lookup_lt_is_Some. unfold zlen in Hi. lia.
Qed.

Lemma slice_app pre l rest :
  slice (pre ++ l ++ rest) (zlen pre) (zlen pre + zlen l) = l.
Proof.
  unfold slice, zlen. rewrite Nat2Z.id.
  replace (Z.to_nat _) with (length l) by lia.
  by rewrite drop_app_length, take_app_length.
Qed.

Lemma c_string_app l rest :
  Forall (fun c => c <> NUL) l -> c_string (l ++ NUL :: rest) = Some l.
Proof.
  induction 1 as [|c l Hc _ IH]; simpl; [done|].
  case_decide; [done|]. by rewrite IH.
Qed.

(** The two shapes of a list that a section fixes. *)
Lemma list_shape {A} (l : list A) : l = [] \/ exists x l', l = x :: l'.
Proof. destruct l; eauto. Qed.

(** ** Loops over a list *)

(** An invariant of the loop body is an invariant of the loop. *)
Lemma fold_left_inv {A B} (P : A -> Prop) (f : A -> B -> A) (l : list B) a :
  (forall a b, P a -> P (f a b)) -> P a -> P (fold_left f l a).
Proof. intros Hf. revert a. induction l as [|b l IH]; simpl; auto. Qed.

(** Two loop bodies that agree under an invariant give the same loop. *)
Lemma fold_left_inv_ext {A B} (P : A -> Prop) (f g : A -> B -> A) (l : list B) a :
  (forall a b, P a -> f a b = g a b) -> (forall a b, P a -> P (f a b)) ->
  P a -> fold_left f l a = fold_left g l a.
Proof.
  intros He Hf. revert a. induction l as [|b l IH]; intros a Ha; simpl; [done|].
  rewrite <- He by done. apply IH. auto.
Qed.

(** ** Writing a buffer *)

(** One byte stored at an offset; [None] is a store outside the buffer. *)
Definition poke (b : bytes) (i : Z) (c : ascii) : option bytes :=
  if (0 <=? i) && (i <? zlen b) then Some (<[Z.to_nat i := c]> b) else None.

(** [memcpy] of [l] to offset [i]; [None] is a copy that leaves the buffer. *)
Definition blit (b : bytes) (i : Z) (l : bytes) : option bytes :=
  if (0 <=? i) && (i + zlen l <=? zlen b)
  then Some (take (Z.to_nat i) b ++ l ++ drop (Z.to_nat (i + zlen l)) b)
  else None.

Lemma poke_app pre x c rest :
  poke (pre ++ x :: rest) (zlen pre) c = Some (pre ++ c :: rest).
Proof.
  unfold poke.
  replace ((0 <=? zlen pre) && (zlen pre <? zlen (pre ++ x :: rest)))
    with true by (symmetry; zlen_lia).
  f_equal. unfold zlen. rewrite Nat2Z.id.
  replace (length pre) with (length pre + 0)%nat by lia.
  by rewrite insert_app_r.
Qed.

Lemma blit_app pre x l rest :
  zlen x = zlen l ->
  blit (pre ++ x ++ rest) (zlen pre) l = Some (pre ++ l ++ rest).
Proof.
  intros Hl. unfold blit.
  replace ((0 <=? zlen pre) && (zlen pre + zlen l <=? zlen (pre ++ x ++ rest)))
    with true by (symmetry; zlen_lia).
  f_equal. unfold zlen in *. rewrite Nat2Z.id, take_app_length.
  do 2 f_equal.
  replace (Z.to_nat _) with (length (pre ++ x)) by (rewrite length_app; lia).
  by rewrite app_assoc, drop_app_length.
Qed.

Lemma blit_length b i l b' : blit b i l = Some b' -> zlen b' = zlen b.
Proof.
  unfold blit. intros H. case_match eqn:E; [|done]. simplify_eq.
  unfold zlen in *. rewrite !length_app, length_take, length_drop. lia.
Qed.
