(* ===== verification/Effects.v ===== *)
(** * Programs with a state

    [prog S A] is a program that transforms a state and returns a value;
    [None] is an access to memory that is not there (a null or dangling pointer,
    an index outside an object).  [flow] is the result of a piece of code that may
    [goto error].  [wp m Q s]: the program runs without such an access and ends in
    [Q]; [wlp m Q s]: if it does not fault, it ends in [Q]. *)

From S2P Require Import Prelude.

Definition prog (S A : Type) : Type := S -> option (A * S).

#[global] Instance prog_ret {S} : MRet (prog S) := fun A a s => Some (a, s).
#[global] Instance prog_bind {S} : MBind (prog S) := fun A B f m s =>
  match m s with
  | Some (a, s') => f a s'
  | None => None
  end.

Definition gets {S A} (f : S -> A) : prog S A := fun s => Some (f s, s).
Definition modify {S} (f : S -> S) : prog S () := fun s => Some ((), f s).
Definition fault {S A} : prog S A := fun _ => None.
(** A memory access; [None] faults. *)
Definition lift {S A} (x : option A) : prog S A := fun s => (., s) <$> x.

(** A call whose result is not looked at. *)
Definition ignore {S A} (m : prog S A) : prog S () := _ ← m; mret ().

(** [for] over a list, in order. *)
Fixpoint each {S A} (l : list A) (f : A -> prog S ()) : prog S () :=
  match l with
  | [] => mret ()
  | a :: l' => _ ← f a; each l' f
  end.

(** Code with a jump to its error label: go on, or stop with the locals as
    they were. *)
Inductive flow (L : Type) :=
| Go (l : L)
| Stop (l : L).
Arguments Go {L}.
Arguments Stop {L}.

Definition locals {L} (r : flow L) : L := match r with Go l => l | Stop l => l end.

(** A loop whose body may jump to the error label. *)
Fixpoint each_flow {S A L} (l : list A) (f : L -> A -> prog S (flow L)) (x : L)
  : prog S (flow L) :=
  match l with
  | [] => mret (Go x)
  | a :: l' =>
      r ← f x a;
      match r with
      | Go x => each_flow l' f x
      | Stop x => mret (Stop x)
      end
  end.

(** ** Reasoning *)

Section reasoning.
Context {S : Type}.
Implicit Types (st : S).

Definition wlp {A} (m : prog S A) (Q : A -> S -> Prop) st : Prop :=
  forall a st', m st = Some (a, st') -> Q a st'.
Definition wp {A} (m : prog S A) (Q : A -> S -> Prop) st : Prop :=
  exists a st', m st = Some (a, st') /\ Q a st'.

Lemma wp_wlp {A} (m : prog S A) Q st : wp m Q st -> wlp m Q st.
Proof. intros (a & st' & Hm & HQ) b st'' Hb. rewrite Hm in Hb. by simplify_eq. Qed.

Lemma wlp_mono {A} (m : prog S A) (Q Q' : A -> S -> Prop) st :
  wlp m Q st -> (forall a st', Q a st' -> Q' a st') -> wlp m Q' st.
Proof. intros Hm HQ a st' Ha. by apply HQ, Hm. Qed.

Lemma wp_mono {A} (m : prog S A) (Q Q' : A -> S -> Prop) st :
  wp m Q st -> (forall a st', Q a st' -> Q' a st') -> wp m Q' st.
Proof. intros (a & st' & Ha & Hq) HQ. exists a, st'. auto. Qed.

Lemma wlp_ret {A} (a : A) (Q : A -> S -> Prop) st : Q a st -> wlp (mret a) Q st.
Proof. intros HQ b st' Hb. cbv in Hb. by simplify_eq. Qed.

Lemma wp_ret {A} (a : A) (Q : A -> S -> Prop) st : Q a st -> wp (mret a) Q st.
Proof. intros HQ. by exists a, st. Qed.

Lemma bind_eq {A B} (m : prog S A) (f : A -> prog S B) st a st' :
  m st = Some (a, st') -> (m ≫= f) st = f a st'.
Proof. intros Hm. unfold mbind, prog_bind. by rewrite Hm. Qed.

Lemma ret_inv {A} (a b : A) st st' : mret (M := prog S) a st = Some (b, st') -> b = a /\ st' = st.
Proof. intros E. unfold mret, prog_ret in E. by simplify_eq. Qed.

Lemma bind_inv {A B} (m : prog S A) (f : A -> prog S B) st b st' :
  (m ≫= f) st = Some (b, st') -> exists a st1, m st = Some (a, st1) /\ f a st1 = Some (b, st').
Proof.
  intros E. unfold mbind, prog_bind in E. destruct (m st) as [[a st1]|]; [|done]. by exists a, st1.
Qed.

Lemma wlp_bind {A B} (m : prog S A) (f : A -> prog S B) Q st :
  wlp m (fun a st' => wlp (f a) Q st') st -> wlp (m ≫= f) Q st.
Proof.
  intros Hm b st' Hb. unfold mbind, prog_bind in Hb.
  destruct (m st) as [[a st1]|] eqn:E; [|done]. by apply (Hm a st1 E).
Qed.

Lemma wp_bind {A B} (m : prog S A) (f : A -> prog S B) Q st :
  wp m (fun a st' => wp (f a) Q st') st -> wp (m ≫= f) Q st.
Proof.
  intros (a & st1 & Hm & b & st2 & Hf & HQ). exists b, st2.
  by rewrite (bind_eq _ _ _ _ _ Hm).
Qed.

Lemma wlp_gets {A} (f : S -> A) (Q : A -> S -> Prop) st : Q (f st) st -> wlp (gets f) Q st.
Proof. intros HQ a st' Ha. unfold gets in Ha. by simplify_eq. Qed.

Lemma wp_gets {A} (f : S -> A) (Q : A -> S -> Prop) st : Q (f st) st -> wp (gets f) Q st.
Proof. intros HQ. by exists (f st), st. Qed.

Lemma wlp_modify (f : S -> S) (Q : () -> S -> Prop) st : Q () (f st) -> wlp (modify f) Q st.
Proof. intros HQ a st' Ha. unfold modify in Ha. by simplify_eq. Qed.

Lemma wp_modify (f : S -> S) (Q : () -> S -> Prop) st : Q () (f st) -> wp (modify f) Q st.
Proof. intros HQ. by exists (), (f st). Qed.

Lemma wlp_fault {A} (Q : A -> S -> Prop) st : wlp fault Q st.
Proof. by intros a st' Ha. Qed.

Lemma wlp_lift {A} (x : option A) (Q : A -> S -> Prop) st :
  (forall a, x = Some a -> Q a st) -> wlp (lift x) Q st.
Proof.
  intros HQ a st' Ha. unfold lift in Ha. destruct x as [a'|]; [|done].
  cbn in Ha. simplify_eq. by apply HQ.
Qed.

Lemma wp_lift {A} (x : option A) a (Q : A -> S -> Prop) st :
  x = Some a -> Q a st -> wp (lift x) Q st.
Proof. intros -> HQ. by exists a, st. Qed.

Lemma wlp_each {A} (I : S -> Prop) (l : list A) (f : A -> prog S ()) st :
  (forall a st, a ∈ l -> I st -> wlp (f a) (fun _ => I) st) ->
  I st -> wlp (each l f) (fun _ => I) st.
Proof.
  revert st. induction l as [|a l IH]; intros st Hf HI; cbn [each]; [by apply wlp_ret|].
  apply wlp_bind. eapply wlp_mono; [apply Hf; [left|done]|]. intros a' st' HI'.
  apply IH; [|done]. intros b st'' Hb. apply Hf. by right.
Qed.

Lemma wlp_each_flow {A L} (I : L -> S -> Prop) (l : list A) (f : L -> A -> prog S (flow L)) x st :
  (forall x a st, a ∈ l -> I x st -> wlp (f x a) (fun r => I (locals r)) st) ->
  I x st -> wlp (each_flow l f x) (fun r => I (locals r)) st.
Proof.
  revert x st. induction l as [|a l IH]; intros x st Hf HI; cbn [each_flow]; [by apply wlp_ret|].
  apply wlp_bind. eapply wlp_mono; [apply Hf; [left|done]|]. intros [y|y] st' HI'; cbn in HI'.
  - apply IH; [|done]. intros z b st'' Hb. apply Hf. by right.
  - by apply wlp_ret.
Qed.
End reasoning.

(** One step of a partial correctness proof. *)
Ltac wlp_step :=
  lazymatch goal with
  | |- wlp (mret _) _ _ => apply wlp_ret
  | |- wlp (mbind _ _) _ _ => apply wlp_bind
  | |- wlp (gets _) _ _ => apply wlp_gets
  | |- wlp (modify _) _ _ => apply wlp_modify
  | |- wlp fault _ _ => apply wlp_fault
  | |- wlp (lift _) _ _ => apply wlp_lift; intros ? ?
  | |- wlp (if ?b then _ else _) _ _ => destruct b eqn:?
  | |- wlp (match ?x with _ => _ end) _ _ => destruct x eqn:?
  end.
Ltac wlp_steps := repeat (wlp_step; cbn beta iota).

(** ** Frame properties

    [keeps R m]: every run of [m] relates its first state to its last one by
    [R]; with a preorder it composes, so it holds of a program when it holds of
    the assignments in it. *)
Section keeps.
Context {S : Type} (R : relation S) `{!PreOrder R}.

Definition keeps {A} (m : prog S A) : Prop := forall st a st', m st = Some (a, st') -> R st st'.

Lemma keeps_ret {A} (a : A) : keeps (mret a).
Proof. intros st b st' Hb. cbv in Hb. by simplify_eq. Qed.

Lemma keeps_bind {A B} (m : prog S A) (f : A -> prog S B) :
  keeps m -> (forall a, keeps (f a)) -> keeps (m ≫= f).
Proof.
  intros Hm Hf st b st' Hb. unfold mbind, prog_bind in Hb.
  destruct (m st) as [[a st1]|] eqn:E; [|done]. etrans; [by eapply Hm|by eapply Hf].
Qed.

Lemma keeps_gets {A} (f : S -> A) : keeps (gets f).
Proof. intros st b st' Hb. unfold gets in Hb. by simplify_eq. Qed.

Lemma keeps_modify (f : S -> S) : (forall st, R st (f st)) -> keeps (modify f).
Proof. intros Hf st b st' Hb. unfold modify in Hb. by simplify_eq. Qed.

Lemma keeps_ignore {A} (m : prog S A) : keeps m -> keeps (ignore m).
Proof. intros Hm. apply keeps_bind; [done|]. intros a. apply keeps_ret. Qed.

Lemma keeps_fault {A} : keeps (fault (A := A)).
Proof. by intros st b st' Hb. Qed.

Lemma keeps_lift {A} (x : option A) : keeps (lift x).
Proof. intros st b st' Hb. unfold lift in Hb. destruct x; cbn in Hb; by simplify_eq. Qed.

Lemma keeps_each {A} (l : list A) f : (forall a, keeps (f a)) -> keeps (each l f).
Proof.
  intros Hf. induction l as [|a l IH]; cbn [each]; [apply keeps_ret|].
  apply keeps_bind; [apply Hf|done].
Qed.
End keeps.

Create HintDb keeps.
#[export] Hint Resolve keeps_ret keeps_gets keeps_fault keeps_lift keeps_each keeps_ignore : keeps.

(** Go through a program; the programs it calls are found in the database. *)
Ltac keeps_steps :=
  repeat lazymatch goal with
  | |- keeps ?R (mbind _ _) => apply (keeps_bind R); [|intros ?]
  | |- keeps _ (if ?b then _ else _) => destruct b
  | |- keeps _ (match ?x with _ => _ end) => destruct x
  | |- keeps ?R (each _ _) => apply (keeps_each R); intros ?
  | |- forall _, _ => intros ?
  | |- keeps _ _ => solve [eauto with keeps typeclass_instances]
  end.

(** ** Programs without faults

    [total m]: every run of [m] returns. *)
Section total.
Context {S : Type}.

Definition total {A} (m : prog S A) : Prop := forall st, exists a st', m st = Some (a, st').

Lemma total_ret {A} (a : A) : total (mret (M := prog S) a).
Proof. intros st. by exists a, st. Qed.
Lemma total_bind {A B} (m : prog S A) (f : A -> prog S B) :
  total m -> (forall a, total (f a)) -> total (m ≫= f).
Proof.
  intros Hm Hf st. destruct (Hm st) as (a & st1 & E). rewrite (bind_eq _ _ _ _ _ E). apply Hf.
Qed.
Lemma total_gets {A} (f : S -> A) : total (gets f).
Proof. intros st. by exists (f st), st. Qed.
Lemma total_modify (f : S -> S) : total (modify f).
Proof. intros st. by exists (), (f st). Qed.
Lemma total_lift {A} (a : A) : total (lift (S := S) (Some a)).
Proof. intros st. by exists a, st. Qed.

Lemma wlp_total {A} (m : prog S A) Q st : total m -> wlp m Q st -> wp m Q st.
Proof. intros Hm HQ. destruct (Hm st) as (a & st' & E). exists a, st'. auto. Qed.
End total.

Create HintDb total.
#[export] Hint Resolve total_ret total_gets total_modify total_lift : total.

Ltac total_steps :=
  repeat lazymatch goal with
  | |- total (mbind _ _) => apply total_bind; [|intros ?]
  | |- total (if ?b then _ else _) => destruct b eqn:?
  | |- total (match ?x with _ => _ end) => destruct x eqn:?
  | |- forall _, _ => intros ?
  | |- total _ => solve [eauto with total]
  end.
