(* ===== verification/Crc16.v ===== *)
(** * crc16.c: the CRC16 of the cluster hash slots

    [crc16tab] and [crc16] as the file has them, and a reference definition
    that shifts the polynomial x^16 + x^12 + x^5 + 1 bit by bit.  The theorems
    show that the table driven routine computes the reference for every input,
    and that the result is a 16-bit value. *)

From S2P Require Import Prelude.

Definition crc16tab : list Z :=
  [0x0000; 0x1021; 0x2042; 0x3063; 0x4084; 0x50a5; 0x60c6; 0x70e7;
   0x8108; 0x9129; 0xa14a; 0xb16b; 0xc18c; 0xd1ad; 0xe1ce; 0xf1ef;
   0x1231; 0x0210; 0x3273; 0x2252; 0x52b5; 0x4294; 0x72f7; 0x62d6;
   0x9339; 0x8318; 0xb37b; 0xa35a; 0xd3bd; 0xc39c; 0xf3ff; 0xe3de;
   0x2462; 0x3443; 0x0420; 0x1401; 0x64e6; 0x74c7; 0x44a4; 0x5485;
   0xa56a; 0xb54b; 0x8528; 0x9509; 0xe5ee; 0xf5cf; 0xc5ac; 0xd58d;
   0x3653; 0x2672; 0x1611; 0x0630; 0x76d7; 0x66f6; 0x5695; 0x46b4;
   0xb75b; 0xa77a; 0x9719; 0x8738; 0xf7df; 0xe7fe; 0xd79d; 0xc7bc;
   0x48c4; 0x58e5; 0x6886; 0x78a7; 0x0840; 0x1861; 0x2802; 0x3823;
   0xc9cc; 0xd9ed; 0xe98e; 0xf9af; 0x8948; 0x9969; 0xa90a; 0xb92b;
   0x5af5; 0x4ad4; 0x7ab7; 0x6a96; 0x1a71; 0x0a50; 0x3a33; 0x2a12;
   0xdbfd; 0xcbdc; 0xfbbf; 0xeb9e; 0x9b79; 0x8b58; 0xbb3b; 0xab1a;
   0x6ca6; 0x7c87; 0x4ce4; 0x5cc5; 0x2c22; 0x3c03; 0x0c60; 0x1c41;
   0xedae; 0xfd8f; 0xcdec; 0xddcd; 0xad2a; 0xbd0b; 0x8d68; 0x9d49;
   0x7e97; 0x6eb6; 0x5ed5; 0x4ef4; 0x3e13; 0x2e32; 0x1e51; 0x0e70;
   0xff9f; 0xefbe; 0xdfdd; 0xcffc; 0xbf1b; 0xaf3a; 0x9f59; 0x8f78;
   0x9188; 0x81a9; 0xb1ca; 0xa1eb; 0xd10c; 0xc12d; 0xf14e; 0xe16f;
   0x1080; 0x00a1; 0x30c2; 0x20e3; 0x5004; 0x4025; 0x7046; 0x6067;
   0x83b9; 0x9398; 0xa3fb; 0xb3da; 0xc33d; 0xd31c; 0xe37f; 0xf35e;
   0x02b1; 0x1290; 0x22f3; 0x32d2; 0x4235; 0x5214; 0x6277; 0x7256;
   0xb5ea; 0xa5cb; 0x95a8; 0x8589; 0xf56e; 0xe54f; 0xd52c; 0xc50d;
   0x34e2; 0x24c3; 0x14a0; 0x0481; 0x7466; 0x6447; 0x5424; 0x4405;
   0xa7db; 0xb7fa; 0x8799; 0x97b8; 0xe75f; 0xf77e; 0xc71d; 0xd73c;
   0x26d3; 0x36f2; 0x0691; 0x16b0; 0x6657; 0x7676; 0x4615; 0x5634;
   0xd94c; 0xc96d; 0xf90e; 0xe92f; 0x99c8; 0x89e9; 0xb98a; 0xa9ab;
   0x5844; 0x4865; 0x7806; 0x6827; 0x18c0; 0x08e1; 0x3882; 0x28a3;
   0xcb7d; 0xdb5c; 0xeb3f; 0xfb1e; 0x8bf9; 0x9bd8; 0xabbb; 0xbb9a;
   0x4a75; 0x5a54; 0x6a37; 0x7a16; 0x0af1; 0x1ad0; 0x2ab3; 0x3a92;
   0xfd2e; 0xed0f; 0xdd6c; 0xcd4d; 0xbdaa; 0xad8b; 0x9de8; 0x8dc9;
   0x7c26; 0x6c07; 0x5c64; 0x4c45; 0x3ca2; 0x2c83; 0x1ce0; 0x0cc1;
   0xef1f; 0xff3e; 0xcf5d; 0xdf7c; 0xaf9b; 0xbfba; 0x8fd9; 0x9ff8;
   0x6e17; 0x7e36; 0x4e55; 0x5e74; 0x2e93; 0x3eb2; 0x0ed1; 0x1ef0].

(** A [char] promoted to [int]: plain [char] is signed on the platforms the
    Makefile targets. *)
Definition char_to_int (c : ascii) : Z :=
  if code c <? 128 then code c else code c - 256.

(** [crc = (crc<<8) ^ crc16tab[((crc>>8) ^ *buf++)&0x00FF]], stored in a
    [uint16_t]. *)
Definition crc16_step (crc : Z) (c : ascii) : Z :=
  let i := Z.land (Z.lxor (Z.shiftr crc 8) (char_to_int c)) 0x00FF in
  u16 (Z.lxor (Z.shiftl crc 8) (default 0 (crc16tab !! Z.to_nat i))).

(** The loop [for (counter = 0; counter < len; counter++)]. *)
Definition crc16 (buf : bytes) (len : Z) : Z :=
  fold_left crc16_step (take (Z.to_nat len) buf) 0.

(** ** Reference: one shift register, one bit at a time *)

Definition crc_bit (x : Z) : Z :=
  Z.land (Z.lxor (Z.shiftl x 1) (if Z.testbit x 15 then 0x1021 else 0)) 0xFFFF.

Definition crc_byte (crc : Z) (c : ascii) : Z :=
  Nat.iter 8 crc_bit (Z.lxor crc (Z.shiftl (code c) 8)).

Definition crc16_spec (msg : bytes) : Z := fold_left crc_byte msg 0.

(** ** The table *)

Lemma crc16tab_length : length crc16tab = 256%nat.
Proof. reflexivity. Qed.

Lemma seqZ_forallb (f : Z -> bool) n x :
  forallb f (seqZ 0 n) = true -> 0 <= x < n -> f x = true.
Proof.
  intros H Hx. rewrite forallb_forall in H. apply H.
  apply list_elem_of_In. apply elem_of_seqZ. lia.
Qed.

(** Every entry is the register after shifting its index through. *)
Lemma crc16tab_entry i :
  0 <= i < 256 ->
  default 0 (crc16tab !! Z.to_nat i) = Nat.iter 8 crc_bit (Z.shiftl i 8).
Proof.
  intros Hi. apply Z.eqb_eq.
  apply (seqZ_forallb (fun i => default 0 (crc16tab !! Z.to_nat i) =?
                         Nat.iter 8 crc_bit (Z.shiftl i 8)) 256); [|done].
  vm_compute. reflexivity.
Qed.

Lemma iter_low_byte lo : 0 <= lo < 256 -> Nat.iter 8 crc_bit lo = Z.shiftl lo 8.
Proof.
  intros Hi. apply Z.eqb_eq.
  apply (seqZ_forallb (fun lo =>
    Nat.iter 8 crc_bit lo =? Z.shiftl lo 8) 256); [|done].
  vm_compute. reflexivity.
Qed.

(** ** Linearity of the register *)

Lemma crc_bit_lxor x y : crc_bit (Z.lxor x y) = Z.lxor (crc_bit x) (crc_bit y).
Proof.
  unfold crc_bit. rewrite Z.lxor_spec, Z.shiftl_lxor.
  apply Z.bits_inj'. intros n Hn.
  repeat (rewrite Z.land_spec || rewrite Z.lxor_spec).
  destruct (Z.testbit x 15), (Z.testbit y 15); simpl xorb;
    rewrite ?Z.bits_0;
    destruct (Z.testbit (Z.shiftl x 1) n), (Z.testbit (Z.shiftl y 1) n),
      (Z.testbit 0x1021 n), (Z.testbit 0xFFFF n); reflexivity.
Qed.

Lemma crc_iter_lxor k x y :
  Nat.iter k crc_bit (Z.lxor x y) =
  Z.lxor (Nat.iter k crc_bit x) (Nat.iter k crc_bit y).
Proof.
  induction k as [|k IH]; [done|]. cbn [Nat.iter nat_rect].
  change (nat_rect _ ?a _ k) with (Nat.iter k crc_bit a).
  by rewrite IH, crc_bit_lxor.
Qed.

Lemma crc_bit_range x : 0 <= crc_bit x < 2 ^ 16.
Proof.
  unfold crc_bit. change 0xFFFF with (Z.ones 16). rewrite Z.land_ones by lia.
  by apply Z.mod_pos_bound.
Qed.

Lemma crc_iter_range k x : (k <> 0)%nat -> 0 <= Nat.iter k crc_bit x < 2 ^ 16.
Proof. destruct k as [|k]; [done|]. intros _. apply crc_bit_range. Qed.

(** ** Bytes of a 16-bit register *)

Lemma char_to_int_land c :
  Z.land (char_to_int c) 0xFF = code c.
Proof.
  change 0xFF with (Z.ones 8). rewrite Z.land_ones by lia.
  pose proof (code_range c). unfold char_to_int.
  destruct (Z.ltb_spec (code c) 128).
  - apply Z.mod_small. lia.
  - rewrite <- (Z.mod_add _ 1) by lia. rewrite Z.mod_small; lia.
Qed.

(** The index the routine computes is the high byte xor the input byte. *)
Lemma crc_index crc c :
  0 <= crc < 2 ^ 16 ->
  Z.land (Z.lxor (Z.shiftr crc 8) (char_to_int c)) 0x00FF =
  Z.lxor (Z.shiftr crc 8) (code c).
Proof.
  intros Hc. rewrite <- (char_to_int_land c).
  apply Z.bits_inj'. intros n Hn.
  repeat (rewrite Z.land_spec || rewrite Z.lxor_spec).
  assert (Z.testbit (Z.shiftr crc 8) n && negb (Z.testbit 0xFF n) = false) as Hh.
  { change 0xFF with (Z.ones 8). rewrite Z.testbit_ones_nonneg by lia.
    destruct (Z.ltb_spec n 8); [by rewrite andb_false_r|].
    rewrite Z.shiftr_spec by lia. rewrite Z.bits_above_log2; [done|lia|].
    destruct (decide (crc = 0)) as [->|]; [simpl; lia|].
    apply Z.log2_lt_pow2; [lia|].
    eapply Z.lt_le_trans; [apply Hc|]. apply Z.pow_le_mono_r; lia. }
  destruct (Z.testbit (Z.shiftr crc 8) n), (Z.testbit 0xFF n),
    (Z.testbit (char_to_int c) n); simpl in *; congruence.
Qed.

(** A register splits into its high byte, shifted, and its low byte. *)
Lemma crc_split crc :
  0 <= crc -> crc = Z.lxor (Z.shiftl (Z.shiftr crc 8) 8) (Z.land crc 0xFF).
Proof.
  intros Hc. apply Z.bits_inj'. intros n Hn. rewrite Z.lxor_spec, Z.land_spec.
  change 0xFF with (Z.ones 8). rewrite Z.testbit_ones_nonneg by lia.
  rewrite Z.shiftl_spec by lia.
  destruct (Z.ltb_spec n 8).
  - rewrite (Z.testbit_neg_r _ (n - 8)) by lia. by rewrite andb_true_r.
  - rewrite Z.shiftr_spec by lia. rewrite andb_false_r, xorb_false_r.
    f_equal. lia.
Qed.

Lemma lxor_byte_range a b : 0 <= a < 256 -> 0 <= b < 256 -> 0 <= Z.lxor a b < 256.
Proof.
  intros Ha Hb.
  assert (Z.lxor a b = Z.land (Z.lxor a b) (Z.ones 8)) as ->.
  { rewrite (Z.land_comm _ (Z.ones 8)).
    rewrite <- (Z.mod_small a 256), <- (Z.mod_small b 256) at 1 by lia.
    change 256 with (2 ^ 8). rewrite <- !Z.land_ones by lia.
    apply Z.bits_inj'. intros n Hn.
    repeat (rewrite Z.land_spec || rewrite Z.lxor_spec).
    destruct (Z.testbit a n), (Z.testbit b n), (Z.testbit (Z.ones 8) n); done. }
  rewrite Z.land_ones by lia. by apply Z.mod_pos_bound.
Qed.

Lemma shiftr8_range crc : 0 <= crc < 2 ^ 16 -> 0 <= Z.shiftr crc 8 < 256.
Proof.
  intros H. rewrite Z.shiftr_div_pow2 by lia. change (2 ^ 8) with 256. split.
  - apply Z.div_pos; lia.
  - apply Z.div_lt_upper_bound; lia.
Qed.

(** ** One byte of input *)

(** The shifted register, truncated to 16 bits, keeps the low byte only. *)
Lemma crc_combine crc v :
  0 <= v < 2 ^ 16 ->
  u16 (Z.lxor (Z.shiftl crc 8) v) = Z.lxor v (Z.shiftl (Z.land crc 0xFF) 8).
Proof.
  intros Hv. unfold u16. rewrite <- Z.land_ones by lia.
  assert (Ht : v = Z.land v (Z.ones 16)).
  { rewrite Z.land_ones by lia. by rewrite Z.mod_small. }
  rewrite (Z.lxor_comm v).
  apply Z.bits_inj'. intros n Hn.
  apply (f_equal (fun z => Z.testbit z n)) in Ht. rewrite Z.land_spec in Ht.
  change 0xFF with (Z.ones 8).
  repeat (rewrite Z.land_spec || rewrite Z.lxor_spec || rewrite Z.shiftl_spec by lia).
  destruct (Z.ltb_spec n 8).
  - rewrite !(Z.testbit_neg_r _ (n - 8)) by lia.
    destruct (Z.testbit v n), (Z.testbit (Z.ones 16) n);
      cbn [andb xorb] in *; congruence.
  - rewrite !Z.testbit_ones_nonneg in * by lia.
    destruct (Z.ltb_spec n 16), (Z.ltb_spec (n - 8) 8); try lia;
    destruct (Z.testbit v n), (Z.testbit crc (n - 8));
      cbn [andb xorb] in *; congruence.
Qed.

Lemma crc_merge crc c :
  0 <= crc ->
  Z.lxor (Z.shiftl (Z.lxor (Z.shiftr crc 8) (code c)) 8) (Z.land crc 0xFF) =
  Z.lxor crc (Z.shiftl (code c) 8).
Proof.
  intros Hc. rewrite (crc_split crc) at 3 by done.
  rewrite Z.shiftl_lxor, !Z.lxor_assoc. f_equal. apply Z.lxor_comm.
Qed.

Lemma low_byte_range crc : 0 <= Z.land crc 0xFF < 256.
Proof.
  change 0xFF with (Z.ones 8). rewrite Z.land_ones by lia.
  by apply Z.mod_pos_bound.
Qed.

(** The routine, with its table entry as the shifted index. *)
Lemma crc16_step_shift crc c :
  0 <= crc < 2 ^ 16 ->
  crc16_step crc c =
  u16 (Z.lxor (Z.shiftl crc 8)
    (Nat.iter 8 crc_bit (Z.shiftl (Z.lxor (Z.shiftr crc 8) (code c)) 8))).
Proof.
  intros Hc. unfold crc16_step. rewrite crc_index by done.
  rewrite crc16tab_entry; [reflexivity|].
  apply lxor_byte_range; [by apply shiftr8_range | apply code_range].
Qed.

(** The register after the input byte, split by linearity. *)
Lemma crc_byte_shift crc c :
  0 <= crc ->
  crc_byte crc c =
  Z.lxor (Nat.iter 8 crc_bit (Z.shiftl (Z.lxor (Z.shiftr crc 8) (code c)) 8))
    (Z.shiftl (Z.land crc 0xFF) 8).
Proof.
  intros Hc. unfold crc_byte.
  rewrite <- crc_merge by done. rewrite crc_iter_lxor.
  by rewrite (iter_low_byte _ (low_byte_range crc)).
Qed.

Lemma crc16_step_spec crc c :
  0 <= crc < 2 ^ 16 -> crc16_step crc c = crc_byte crc c.
Proof.
  intros Hc. rewrite crc16_step_shift by done. rewrite crc_byte_shift by lia.
  apply crc_combine. by apply crc_iter_range.
Qed.

Lemma crc16_step_range crc c : 0 <= crc16_step crc c < 2 ^ 16.
Proof. unfold crc16_step, u16. by apply Z.mod_pos_bound. Qed.

Lemma crc16_fold_spec l crc :
  0 <= crc < 2 ^ 16 -> fold_left crc16_step l crc = fold_left crc_byte l crc.
Proof.
  apply (fold_left_inv_ext (fun crc => 0 <= crc < 2 ^ 16)).
  - intros. by apply crc16_step_spec.
  - intros. apply crc16_step_range.
Qed.

Lemma crc16_fold_range l crc :
  0 <= crc < 2 ^ 16 -> 0 <= fold_left crc16_step l crc < 2 ^ 16.
Proof.
  apply (fold_left_inv (fun crc => 0 <= crc < 2 ^ 16)).
  intros. apply crc16_step_range.
Qed.

(** The result fits the return type [uint16_t]. *)
Lemma crc16_range buf len : 0 <= crc16 buf len < 2 ^ 16.
Proof. by apply crc16_fold_range. Qed.

(** C25: [crc16] (the table driven loop of crc16.c) computes, for every buffer
    and length, the bit by bit CRC with polynomial 0x1021 and initial value 0
    of the first [len] bytes, and the result fits [uint16_t]. *)
Theorem crc16_correct (buf : bytes) (len : Z) :
  crc16 buf len = crc16_spec (take (Z.to_nat len) buf) /\
  0 <= crc16 buf len < 2 ^ 16.
Proof. split; [by apply crc16_fold_spec | apply crc16_range]. Qed.

(** The check value of the CRC-16/XMODEM parameter set. *)
Example crc16_check : crc16 (s "123456789") 9 = 0x31C3.
Proof. reflexivity. Qed.
