(* ===== verification/Hiutil.v ===== *)
(** * hiutil.c: number conversion and the other pure helpers

    [_hi_atoi], [_hi_itoa] (on an explicit buffer, with its in place
    reversal), [_uint_len], [hi_valid_port], [_vscnprintf] and the
    [strNicmp] macros of hiutil.h.  [_hi_itoa] is shown to print the decimal
    numeral of every positive [int] and [_uint_len] to count its digits. *)

From S2P Require Import Prelude.

Definition HI_OK : Z := 0.
Definition HI_ERROR : Z := -1.
Definition UINT16_MAX : Z := 65535.

(** ** _hi_atoi *)

(** The loop [for (value = 0; n--; line++)]; [int] arithmetic wraps. *)
Fixpoint hi_atoi_loop (line : bytes) (value : Z) : Z :=
  match line with
  | [] => if value <? 0 then -1 else value
  | c :: line' =>
      if (code c <? 48) || (57 <? code c) then -1
      else hi_atoi_loop line' (i32 (value * 10 + (code c - 48)))
  end.

Definition hi_atoi (line : bytes) (n : Z) : Z :=
  if n =? 0 then -1 else hi_atoi_loop (take (Z.to_nat n) line) 0.

(** ** _hi_itoa *)

(** [while(num % 10 || num / 10)]: the digits, least significant first; every
    iteration also copies [s[len]] to [s[len+1]]. *)
Fixpoint hi_itoa_digits (fuel : nat) (b : bytes) (num len : Z)
  : option (bytes * Z) :=
  if (Z.rem num 10 =? 0) && (Z.quot num 10 =? 0) then Some (b, len) else
  match fuel with
  | O => None
  | S f =>
      let c := chr (Z.rem num 10 + 48) in
      x ← byte_at b len;
      b ← poke b (len + 1) x;
      b ← poke b len c;
      hi_itoa_digits f b (Z.quot num 10) (len + 1)
  end.

(** [for(i = 0; i < len/2; i ++)]: exchange [s[i]] and [s[len-i-1]]. *)
Fixpoint hi_itoa_reverse (steps : nat) (b : bytes) (i len : Z) : option bytes :=
  match steps with
  | O => Some b
  | S k =>
      c ← byte_at b i;
      d ← byte_at b (len - i - 1);
      b ← poke b i d;
      b ← poke b (len - i - 1) c;
      hi_itoa_reverse k b (i + 1) len
  end.

(** The buffer after [_hi_itoa(s, num)]; [None] is an access outside it.  An
    [int] has at most ten digits, the fuel of the digit loop. *)
Definition hi_itoa (b : bytes) (num : Z) : option bytes :=
  if num =? 0 then poke b 0 "0" (* returns before the terminator is stored *)
  else
    let sign := num <? 0 in
    let num := if sign then i32 (Z.abs num) else num in
    r ← hi_itoa_digits 10 b num 0;
    let '(b, len) := r in
    r ← (if sign then b ← poke b len "-"; Some (b, len + 1) else Some (b, len));
    let '(b, len) := r in
    b ← poke b len NUL;
    hi_itoa_reverse (Z.to_nat (len / 2)) b 0 len.

(** ** Small helpers *)

Definition hi_valid_port (n : Z) : bool :=
  if (n <? 1) || (UINT16_MAX <? n) then false else true.

(** [while(num != 0) { n++; num /= 10; }] *)
Fixpoint uint_len_loop (fuel : nat) (num n : Z) : Z :=
  match fuel with
  | O => n
  | S f => if num =? 0 then n else uint_len_loop f (num / 10) (n + 1)
  end.
(** A [uint32_t] has at most ten digits. *)
Definition uint_len (num : Z) : Z :=
  if num =? 0 then 1 else uint_len_loop 10 num 0.

(** [_vscnprintf]: what [vsnprintf] stored of the formatted text [out] in a
    buffer of [size] bytes, and the returned count. *)
Definition vscnprintf (size : Z) (out : bytes) : bytes * Z :=
  let n := zlen out in
  if n <=? 0 then ([], 0)
  else if n <? size then (out, n)
  else (take (Z.to_nat (size - 1)) out, size - 1).

(** The [strNicmp] macros: [m[i] == c || m[i] == (c ^ 0x20)] for each
    character of the pattern; [None] is a read outside the buffer. *)
Fixpoint stricmp (b : bytes) (m : Z) (pat : bytes) : option bool :=
  match pat with
  | [] => Some true
  | c :: pat' =>
      x ← byte_at b m;
      if (code x =? code c) || (code x =? Z.lxor (code c) 0x20)
      then stricmp b (m + 1) pat' else Some false
  end.

(** ** [_hi_atoi] inverts the decimal numeral *)

Lemma hi_atoi_loop_digits l : forall v,
  Forall (fun c => isdigit c = true) l -> 0 <= v ->
  fold_left (fun v c => v * 10 + digit_val c) l v < 2 ^ 31 ->
  hi_atoi_loop l v = fold_left (fun v c => v * 10 + digit_val c) l v.
Proof.
  induction l as [|c l IH]; intros v Hd Hv Hb; cbn [fold_left hi_atoi_loop] in *.
  - destruct (Z.ltb_spec v 0); lia.
  - apply Forall_cons in Hd as [Hc Hd].
    pose proof (proj1 (isdigit_range c) Hc) as Hr. unfold digit_val in *.
    replace ((code c <? 48) || (57 <? code c)) with false by lia.
    pose proof (dec_fold_ge l (v * 10 + (code c - 48)) Hd ltac:(lia)) as Hge.
    rewrite i32_small by (unfold digit_val in *; lia).
    apply IH; [done|lia|done].
Qed.

Lemma hi_atoi_numeral (n : Z) :
  0 <= n < 2 ^ 31 -> hi_atoi (dec n) (zlen (dec n)) = n.
Proof.
  intros Hn. unfold hi_atoi. pose proof (dec_length n ltac:(lia)).
  destruct (Z.eqb_spec (zlen (dec n)) 0); [lia|].
  replace (Z.to_nat (zlen (dec n))) with (length (dec n)) by (unfold zlen; lia).
  rewrite take_ge by lia.
  pose proof (dec_value_dec n ltac:(lia)) as Hv. unfold dec_value in Hv.
  rewrite hi_atoi_loop_digits; rewrite ?Hv; try lia. apply dec_digits. lia.
Qed.

(** [_hi_atoi] reads back every non-negative [int] from the bytes of its
    decimal numeral. *)
Theorem hi_atoi_dec (n : Z) :
  0 <= n < 2 ^ 31 -> hi_atoi (dec n) (zlen (dec n)) = n.
Proof. apply hi_atoi_numeral. Qed.

Lemma hi_atoi_dec_witness : 0 <= 16383 < 2 ^ 31 /\ hi_atoi (s "16383") 5 = 16383.
Proof. split; [lia|]. apply (hi_atoi_dec 16383). lia. Defined.

(** A byte that is not a digit makes [_hi_atoi] return -1. *)
Lemma hi_atoi_loop_bad l c r : forall v,
  Forall (fun c => isdigit c = true) l -> isdigit c = false ->
  hi_atoi_loop (l ++ c :: r) v = -1.
Proof.
  induction l as [|d l IH]; intros v Hd Hc; cbn [hi_atoi_loop app].
  - unfold isdigit in Hc. by replace ((code c <? 48) || (57 <? code c)) with true by lia.
  - apply Forall_cons in Hd as [Hd1 Hd]. unfold isdigit in Hd1.
    replace ((code d <? 48) || (57 <? code d)) with false by lia. by apply IH.
Qed.

(** ** [_uint_len] counts the digits *)

Lemma uint_len_loop_dec f : forall num n,
  0 < num < 10 ^ Z.of_nat f -> uint_len_loop f num n = n + zlen (dec num).
Proof.
  induction f as [|f IH]; intros num n Hn; [simpl in Hn; lia|].
  cbn [uint_len_loop]. destruct (Z.eqb_spec num 0); [lia|].
  rewrite Nat2Z.inj_succ, Z.pow_succ_r in Hn by lia.
  destruct (decide (num < 10)).
  - rewrite Z.div_small by lia. rewrite dec_small by lia.
    destruct f; cbn [uint_len_loop]; reflexivity.
  - rewrite IH.
    + rewrite (dec_step num) by lia. rewrite zlen_app. change (zlen [_]) with 1. lia.
    + split; [apply Z.div_str_pos; lia|]. apply Z.div_lt_upper_bound; lia.
Qed.

Lemma uint_len_dec num : 0 <= num < 2 ^ 32 -> uint_len num = zlen (dec num).
Proof.
  intros Hn. unfold uint_len. destruct (Z.eqb_spec num 0) as [->|]; [done|].
  rewrite uint_len_loop_dec; [lia|].
  change (10 ^ Z.of_nat 10) with 10000000000. lia.
Qed.

(** ** [_hi_itoa] prints the decimal numeral *)

Lemma rem_quot_zero num :
  0 <= num -> (Z.rem num 10 =? 0) && (Z.quot num 10 =? 0) = (num =? 0).
Proof.
  intros H. rewrite Z.rem_mod_nonneg, Z.quot_div_nonneg by lia.
  pose proof (Z.div_mod num 10). pose proof (Z.mod_pos_bound num 10).
  pose proof (Z.div_pos num 10). lia.
Qed.

(** One iteration of the digit loop on a buffer split at [len]. *)
Lemma hi_itoa_digits_step f pre x y tl num :
  0 < num ->
  hi_itoa_digits (S f) (pre ++ x :: y :: tl) num (zlen pre) =
  hi_itoa_digits f (pre ++ [digit (num mod 10)] ++ x :: tl) (num / 10)
    (zlen (pre ++ [digit (num mod 10)])).
Proof.
  intros Hn. cbn [hi_itoa_digits]. rewrite rem_quot_zero by lia.
  destruct (Z.eqb_spec num 0); [lia|].
  rewrite byte_at_app. simpl mbind.
  replace (pre ++ x :: y :: tl) with ((pre ++ [x]) ++ y :: tl)
    by (by rewrite <- app_assoc).
  replace (zlen pre + 1) with (zlen (pre ++ [x])) by zlen_lia.
  rewrite poke_app. simpl mbind. rewrite <- app_assoc. cbn [app].
  rewrite poke_app. simpl mbind.
  rewrite Z.rem_mod_nonneg, Z.quot_div_nonneg by lia.
  unfold digit. rewrite (Z.add_comm 48). f_equal.
  zlen_lia.
Qed.

Lemma hi_itoa_digits_dec f : forall num pre x tl,
  0 < num < 10 ^ Z.of_nat f -> zlen (dec num) <= zlen tl ->
  hi_itoa_digits f (pre ++ x :: tl) num (zlen pre) =
  Some (pre ++ rev (dec num) ++ x :: drop (length (dec num)) tl,
        zlen pre + zlen (dec num)).
Proof.
  induction f as [|f IH]; intros num pre x tl Hn Hl; [simpl in Hn; lia|].
  rewrite Nat2Z.inj_succ, Z.pow_succ_r in Hn by lia.
  pose proof (dec_length num ltac:(lia)).
  destruct tl as [|y tl]; [change (zlen []) with 0 in Hl; lia|].
  rewrite hi_itoa_digits_step by lia. rewrite zlen_cons in Hl.
  destruct (decide (num < 10)).
  - rewrite dec_small in * by lia. rewrite Z.mod_small, Z.div_small by lia.
    rewrite zlen_app. destruct f; reflexivity.
  - rewrite (dec_step num) in * by lia.
    set (c := digit (num mod 10)) in *. rewrite zlen_app in *.
    change (zlen [c]) with 1 in *.
    replace (pre ++ [c] ++ x :: tl) with ((pre ++ [c]) ++ x :: tl)
      by (by rewrite <- app_assoc).
    replace (zlen pre + 1) with (zlen (pre ++ [c])) by zlen_lia.
    rewrite IH; [| |lia].
    + rewrite rev_app_distr, length_app, <- app_assoc. cbn [rev app length].
      f_equal. f_equal; [|zlen_lia].
      do 4 f_equal. replace (length (dec (num / 10)) + 1)%nat
        with (S (length (dec (num / 10)))) by lia. done.
    + split; [apply Z.div_str_pos; lia|]. apply Z.div_lt_upper_bound; lia.
Qed.

(** The exchange loop reverses the middle of the buffer. *)
Lemma hi_itoa_reverse_spec k : forall a m b rest,
  length a = length b -> (length m = 2 * k \/ length m = 2 * k + 1)%nat ->
  hi_itoa_reverse k (a ++ m ++ b ++ rest) (zlen a) (zlen (a ++ m ++ b)) =
  Some (a ++ rev m ++ b ++ rest).
Proof.
  induction k as [|k IH]; intros a m b rest Hab Hm; cbn [hi_itoa_reverse].
  - destruct m as [|x [|y m]]; [done|done|simpl in Hm; lia].
  - destruct m as [|x m]; [simpl in Hm; lia|].
    assert (m <> []) as Hne by (destruct m; [simpl in Hm; lia | done]).
    destruct (exists_last Hne) as (m' & y & ->). clear Hne.
    cbn [app]. rewrite byte_at_app. simpl mbind.
    replace (a ++ x :: (m' ++ [y]) ++ b ++ rest)
      with ((a ++ x :: m') ++ y :: b ++ rest) by (by rewrite <- !app_assoc).
    assert (zlen (a ++ x :: (m' ++ [y]) ++ b) - zlen a - 1 = zlen (a ++ x :: m'))
      as ->.
    { unfold zlen. repeat (rewrite length_app || cbn [length]). lia. }
    rewrite byte_at_app. simpl mbind.
    replace ((a ++ x :: m') ++ y :: b ++ rest)
      with (a ++ x :: m' ++ y :: b ++ rest) by (by rewrite <- !app_assoc).
    rewrite poke_app. simpl mbind.
    replace (a ++ y :: m' ++ y :: b ++ rest)
      with ((a ++ y :: m') ++ y :: b ++ rest) by (by rewrite <- !app_assoc).
    replace (zlen (a ++ x :: m')) with (zlen (a ++ y :: m')) by zlen_lia.
    rewrite poke_app. simpl mbind.
    specialize (IH (a ++ [y]) m' (x :: b) rest).
    rewrite <- !app_assoc in IH. cbn [app] in IH. rewrite <- !app_assoc. cbn [app].
    replace (zlen a + 1) with (zlen (a ++ [y])) by zlen_lia.
    replace (zlen (a ++ x :: m' ++ y :: b)) with (zlen (a ++ y :: m' ++ x :: b))
      by zlen_lia.
    rewrite IH.
    + cbn [rev]. rewrite rev_app_distr. cbn [rev app]. by rewrite <- !app_assoc.
    + rewrite length_app. simpl. lia.
    + simpl in Hm. rewrite length_app in Hm. simpl in Hm. lia.
Qed.

(** The reversal of a whole buffer prefix. *)
Lemma hi_itoa_reverse_all m rest :
  hi_itoa_reverse (Z.to_nat (zlen m / 2)) (m ++ rest) 0 (zlen m) = Some (rev m ++ rest).
Proof.
  pose proof (hi_itoa_reverse_spec (Z.to_nat (zlen m / 2)) [] m [] rest) as Hr.
  cbn [app] in Hr. rewrite app_nil_r in Hr. apply Hr; [done|]. unfold zlen.
  pose proof (Z.div_mod (Z.of_nat (length m)) 2 ltac:(lia)).
  pose proof (Z.mod_pos_bound (Z.of_nat (length m)) 2 ltac:(lia)). lia.
Qed.

Lemma hi_itoa_digits_start b num :
  0 < num < 2 ^ 31 -> zlen (dec num) < zlen b ->
  exists x tl, hi_itoa_digits 10 b num 0 = Some (rev (dec num) ++ x :: tl, zlen (dec num)) /\
               tl = drop (S (length (dec num))) b.
Proof.
  intros Hn Hb. destruct b as [|x tl]; [zlen_lia|]. rewrite zlen_cons in Hb.
  exists x, (drop (length (dec num)) tl). split; [|done].
  apply (hi_itoa_digits_dec 10 num [] x tl); [|lia].
  change (10 ^ Z.of_nat 10) with 10000000000. lia.
Qed.

Lemma zlen_rev {A} (l : list A) : zlen (rev l) = zlen l.
Proof. unfold zlen. by rewrite length_rev. Qed.

(** The whole buffer after [_hi_itoa] of a number that is not zero. *)
Lemma hi_itoa_buffer b num :
  num <> 0 -> - 2 ^ 31 < num < 2 ^ 31 -> zlen (dec_signed num) < zlen b ->
  hi_itoa b num =
  Some (dec_signed num ++ NUL :: drop (S (length (dec_signed num))) b).
Proof.
  intros Hnz Hn Hb. unfold hi_itoa, dec_signed in *.
  destruct (Z.eqb_spec num 0); [done|]. destruct (Z.ltb_spec num 0).
  - rewrite (i32_small (Z.abs num)), Z.abs_neq by lia. rewrite zlen_cons in Hb.
    destruct (hi_itoa_digits_start b (- num)) as (x & tl & -> & Htl); [lia|zlen_lia|].
    cbn [mbind option_bind]. rewrite <- (zlen_rev (dec (- num))), poke_app.
    cbn [mbind option_bind]. cbn [length drop].
    destruct tl as [|y tl].
    { exfalso. apply (f_equal length) in Htl. rewrite length_drop in Htl. cbn in Htl.
      unfold zlen in Hb. lia. }
    rewrite cons_middle, app_assoc.
    replace (zlen (rev (dec (- num))) + 1) with (zlen (rev (dec (- num)) ++ ["-"%char]))
      by zlen_lia.
    rewrite poke_app. cbn [mbind option_bind]. rewrite hi_itoa_reverse_all.
    rewrite rev_app_distr, rev_involutive. cbn [rev app].
    do 4 f_equal. replace (S (S (length (dec (- num))))) with (S (length (dec (- num))) + 1)%nat
      by lia. by rewrite <- drop_drop, <- Htl.
  - destruct (hi_itoa_digits_start b num) as (x & tl & -> & ->); [lia|done|].
    cbn [mbind option_bind]. rewrite <- (zlen_rev (dec num)), poke_app.
    cbn [mbind option_bind]. rewrite hi_itoa_reverse_all, rev_involutive. done.
Qed.

Lemma digit_not_NUL c : isdigit c = true -> c <> NUL.
Proof. intros H ->. done. Qed.

Lemma dec_signed_no_NUL num : Forall (fun c => c <> NUL) (dec_signed num).
Proof.
  unfold dec_signed. destruct (Z.ltb_spec num 0); [constructor; [done|]|];
    (eapply Forall_impl; [apply dec_digits; lia|apply digit_not_NUL]).
Qed.

(** C29: [_hi_itoa] on a buffer with room for the numeral and the terminator
    stores the C string of the decimal numeral, sign included, of every [int]
    but zero and the smallest one; it stays inside the buffer and leaves what
    follows the terminator alone. *)
Theorem hi_itoa_correct (b : bytes) (num : Z) :
  num <> 0 -> - 2 ^ 31 < num < 2 ^ 31 -> zlen (dec_signed num) < zlen b ->
  exists b', hi_itoa b num = Some b' /\ c_string b' = Some (dec_signed num) /\
    zlen b' = zlen b /\
    drop (S (length (dec_signed num))) b' = drop (S (length (dec_signed num))) b.
Proof.
  intros Hnz Hn Hb. eexists. split; [by apply hi_itoa_buffer|].
  split; [apply c_string_app, dec_signed_no_NUL|].
  set (d := dec_signed num) in *. split.
  - rewrite zlen_app, zlen_cons. unfold zlen in *. rewrite length_drop. lia.
  - rewrite cons_middle, app_assoc.
    replace (S (length d)) with (length (d ++ [NUL])) by (rewrite length_app; cbn; lia).
    by rewrite drop_app_length.
Qed.

Lemma hi_itoa_correct_witness :
  exists b', hi_itoa (replicate 12 NUL) (-120) = Some b' /\ c_string b' = Some (s "-120") /\
    zlen b' = 12 /\ drop 5 b' = replicate 7 NUL.
Proof.
  destruct (hi_itoa_correct (replicate 12 NUL) (-120)) as (b' & H1 & H2 & H3 & H4);
    [done|zcompute|zcompute|].
  exists b'. exact (conj H1 (conj H2 (conj H3 H4))).
Defined.

(** Zero stores the digit and returns before the terminator: what follows in
    the buffer stays part of the string. *)
Lemma hi_itoa_zero b : 0 < zlen b -> hi_itoa b 0 = Some ("0"%char :: drop 1 b).
Proof.
  intros Hb. destruct b as [|x tl]; [change (zlen []) with 0 in Hb; lia|].
  unfold hi_itoa. rewrite Z.eqb_refl. exact (poke_app [] x "0" tl).
Qed.

Example hi_itoa_zero_unterminated :
  c_string <$> hi_itoa (s "120" ++ replicate 9 NUL) 0 = Some (Some (s "020")).
Proof. reflexivity. Qed.

(** [_vscnprintf] never returns more than the buffer holds; it returns -1, not
    0, for a buffer of size 0. *)
Lemma vscnprintf_bounds size out :
  0 < size -> 0 <= snd (vscnprintf size out) < size /\
              fst (vscnprintf size out) = take (Z.to_nat (snd (vscnprintf size out))) out.
Proof.
  intros Hs. unfold vscnprintf. pose proof (zlen_nonneg out).
  destruct (Z.leb_spec (zlen out) 0); [done|].
  destruct (Z.ltb_spec (zlen out) size); simpl; split; try lia; [|done].
  rewrite take_ge; [done|]. unfold zlen. lia.
Qed.

Example vscnprintf_size_zero : snd (vscnprintf 0 (s "x")) = -1.
Proof. reflexivity. Qed.
