(* ===== verification/Hiarray.v ===== *)
(** * hiarray.c: the growing array

    [struct hiarray] over elements of a type [A].  [elem] holds the [nelem]
    live elements; [nalloc] is the number of elements the block has room for.
    [hiarray_push] returns a pointer to a fresh cell that every caller fills at
    once, so the model's push takes the element.  A store outside the block is
    a result of its own.  [realloc_ok] says for which byte counts the
    allocator succeeds.  [ASSERT] is compiled out by the Makefile, so an access
    it would reject is [None] or [PushOutOfBounds] here. *)

From S2P Require Import Prelude Hiutil.

Record hiarray (A : Type) := mk_hiarray {
  elem : list A;
  nelem : Z;
  esize : Z;
  nalloc : Z
}.
Arguments mk_hiarray {A}.
Arguments elem {A}.
Arguments nelem {A}.
Arguments esize {A}.
Arguments nalloc {A}.

(** What a push can do: the grown array, [NULL] (nothing changed), or a cell
    outside the allocated block. *)
Inductive push_result (A : Type) :=
| Pushed (a : hiarray A)
| PushNull
| PushOutOfBounds.
Arguments Pushed {A}.
Arguments PushNull {A}.
Arguments PushOutOfBounds {A}.

Section hiarray.
Context {A : Type} (realloc_ok : Z -> bool).
Implicit Types (a : hiarray A) (x : A).

Definition hiarray_create (n size : Z) : option (hiarray A) :=
  if realloc_ok (u64 (n * size))
  then Some {| elem := []; nelem := 0; esize := size; nalloc := n |}
  else None.

(** The array is the caller's; [HI_ENOMEM] leaves it as it was. *)
Definition HI_ENOMEM : Z := -3.
Definition hiarray_init (old : hiarray A) (n size : Z) : Z * hiarray A :=
  if realloc_ok (u64 (n * size))
  then (HI_OK, {| elem := []; nelem := 0; esize := size; nalloc := n |})
  else (HI_ENOMEM, old).

(** The index of the element [off] bytes behind the first one. *)
Definition hiarray_idx a (off : Z) : Z := u32 off / u32 (esize a).

Definition hiarray_push a x : push_result A :=
  let put (nalloc' : Z) :=
    if nelem a <? nalloc'
    then Pushed {| elem := elem a ++ [x]; nelem := u32 (nelem a + 1);
                   esize := esize a; nalloc := nalloc' |}
    else PushOutOfBounds in
  if nelem a =? nalloc a then
    let size := u64 (esize a * nalloc a) in
    if realloc_ok (u64 (2 * size)) then put (u32 (nalloc a * 2)) else PushNull
  else put (nalloc a).

(** [hiarray_pop]: the last element and the array without it. *)
Definition hiarray_pop a : option (A * hiarray A) :=
  let n := u32 (nelem a - 1) in
  x ← elem a !! Z.to_nat n;
  if nelem a =? 0 then None else
  Some (x, {| elem := take (Z.to_nat n) (elem a); nelem := n;
              esize := esize a; nalloc := nalloc a |}).

Definition hiarray_get a (idx : Z) : option A :=
  if (0 <=? idx) && (idx <? nelem a) then elem a !! Z.to_nat idx else None.

Definition hiarray_top a : option A := hiarray_get a (u32 (nelem a - 1)).

Definition hiarray_n a : Z := nelem a.

Definition hiarray_swap a b : hiarray A * hiarray A := (b, a).

(** [hiarray_each]: [func] on each element until one fails; [func] threads
    the caller's [data]. *)
Fixpoint hiarray_each_loop {D} (func : A -> D -> Z * D) (l : list A) (d : D)
  : Z * D :=
  match l with
  | [] => (HI_OK, d)
  | x :: l' => let '(status, d') := func x d in
               if status =? HI_OK then hiarray_each_loop func l' d'
               else (status, d')
  end.
Definition hiarray_each {D} a (func : A -> D -> Z * D) (d : D) : Z * D :=
  hiarray_each_loop func (elem a) d.

(** A well formed array: the block is not empty, small enough for the 32-bit
    counters, and holds [nelem] elements. *)
Definition hiarray_wf a : Prop :=
  nelem a = zlen (elem a) /\ nelem a <= nalloc a /\ 0 < nalloc a < 2 ^ 31.

Lemma hiarray_create_wf n size a :
  0 < n < 2 ^ 31 -> hiarray_create n size = Some a ->
  hiarray_wf a /\ elem a = [].
Proof.
  unfold hiarray_create. intros Hn H. case_match; simplify_eq.
  split; [|done]. repeat split; simpl; lia.
Qed.

(** A push on a well formed array appends the element or changes nothing; it
    never writes outside the block. *)
Lemma hiarray_push_spec a x :
  hiarray_wf a ->
  match hiarray_push a x with
  | Pushed a' => elem a' = elem a ++ [x] /\ nelem a' = zlen (elem a') /\
                 nelem a' <= nalloc a' /\ esize a' = esize a /\
                 (nalloc a' = nalloc a \/
                  nelem a = nalloc a /\ nalloc a' = 2 * nalloc a)
  | PushNull => nelem a = nalloc a /\
                realloc_ok (u64 (2 * u64 (esize a * nalloc a))) = false
  | PushOutOfBounds => False
  end.
Proof.
  intros (Hn & Hle & Hr). unfold hiarray_push.
  pose proof (zlen_nonneg (elem a)).
  destruct (Z.eqb_spec (nelem a) (nalloc a)).
  - destruct (realloc_ok _) eqn:E; [|done].
    rewrite (u32_small (nalloc a * 2)) by lia.
    destruct (Z.ltb_spec (nelem a) (nalloc a * 2)); [|lia]. cbn.
    rewrite u32_small by lia. rewrite zlen_app. change (zlen [x]) with 1.
    repeat split; lia.
  - destruct (Z.ltb_spec (nelem a) (nalloc a)); [|lia]. cbn.
    rewrite u32_small by lia. rewrite zlen_app. change (zlen [x]) with 1.
    repeat split; lia.
Qed.

Lemma hiarray_idx_spec a k : 0 <= k < nelem a -> 0 < esize a -> nelem a * esize a < 2 ^ 32 ->
  hiarray_idx a (k * esize a) = k.
Proof. intros Hk He Hb. unfold hiarray_idx. rewrite !u32_small by nia. apply Z.div_mul. lia. Qed.

Lemma hiarray_get_spec a idx :
  hiarray_wf a -> 0 <= idx < nelem a ->
  hiarray_get a idx = elem a !! Z.to_nat idx.
Proof.
  intros Hw Hi. unfold hiarray_get.
  by replace ((0 <=? idx) && (idx <? nelem a)) with true by lia.
Qed.

(** Pushing and popping gives the element and the elements back. *)
Lemma hiarray_push_pop a x a' :
  hiarray_wf a -> hiarray_push a x = Pushed a' ->
  exists a'', hiarray_pop a' = Some (x, a'') /\ elem a'' = elem a /\
              nelem a'' = nelem a.
Proof.
  intros Hw Hp. pose proof (hiarray_push_spec a x Hw) as Hs. rewrite Hp in Hs.
  destruct Hw as (Hn & Hle & Hr). destruct Hs as (He & Hn' & Hle' & _ & Ha).
  pose proof (zlen_nonneg (elem a)).
  assert (nelem a' = nelem a + 1) as Hn1.
  { rewrite Hn', He, zlen_app. change (zlen [x]) with 1. lia. }
  unfold hiarray_pop. rewrite Hn1, Z.add_simpl_r, u32_small, He by lia.
  assert (Z.to_nat (nelem a) = length (elem a)) as -> by (unfold zlen in *; lia).
  rewrite list_lookup_middle by done. simpl.
  destruct (Z.eqb_spec (nelem a + 1) 0); [lia|].
  eexists. split; [reflexivity|]. simpl. by rewrite take_app_length.
Qed.

(** [hiarray_push] over a list of elements. *)
Fixpoint hiarray_push_all a (l : list A) : push_result A :=
  match l with
  | [] => Pushed a
  | x :: l' => match hiarray_push a x with
               | Pushed a' => hiarray_push_all a' l'
               | r => r
               end
  end.
End hiarray.

(** C30: pushing any list on a well formed array, with an allocator that
    succeeds, stores exactly that list after the old elements as long as the
    32-bit capacity is not exhausted. *)
Theorem hiarray_push_all_elems {A} (realloc_ok : Z -> bool) (l : list A) (a : hiarray A) :
  (forall n, realloc_ok n = true) -> hiarray_wf a ->
  2 * (nelem a + zlen l) < 2 ^ 31 ->
  exists a', hiarray_push_all realloc_ok a l = Pushed a' /\
             elem a' = elem a ++ l /\ hiarray_wf a'.
Proof.
  intros Hok. revert a. induction l as [|x l IH]; intros a Hw Hc.
  { exists a. by rewrite app_nil_r. }
  cbn [hiarray_push_all]. rewrite zlen_cons in Hc. pose proof (zlen_nonneg l).
  pose proof (hiarray_push_spec realloc_ok a x Hw) as Hs.
  destruct (hiarray_push realloc_ok a x) as [a'| |]; [|rewrite Hok in Hs; by destruct Hs|done].
  destruct Hs as (He & Hn & Hle & _ & Ha). destruct Hw as (Hn0 & Hle0 & Hr).
  pose proof (zlen_nonneg (elem a)).
  assert (nelem a' = nelem a + 1) as Hn1.
  { rewrite Hn, He, zlen_app. change (zlen [x]) with 1. lia. }
  destruct (IH a') as (a'' & Hp & He' & Hw').
  - repeat split; lia.
  - lia.
  - exists a''. rewrite He', He, <- app_assoc. done.
Qed.

Lemma hiarray_push_all_elems_witness :
  exists a', hiarray_push_all (fun _ => true)
    {| elem := []; nelem := 0; esize := 24; nalloc := 1 |} [7; 8; 9] = Pushed a'
    /\ elem a' = [7; 8; 9] /\ hiarray_wf a'.
Proof.
  apply (hiarray_push_all_elems (fun _ => true) [7; 8; 9]
           {| elem := []; nelem := 0; esize := 24; nalloc := 1 |});
    [done | unfold hiarray_wf; zcompute | zcompute].
Defined.

(** An array created for no element writes outside its block at its first
    push: doubling a capacity of 0 leaves 0. *)
Example hiarray_push_zero_capacity :
  hiarray_push (fun _ => true)
    {| elem := []; nelem := 0; esize := 8; nalloc := 0 |} 7 = PushOutOfBounds.
Proof. reflexivity. Qed.
