(* ===== verification/Resp.v ===== *)
(** * The Redis protocol: requests

    The abstract specification the other files share: a request is an array of
    bulk strings.  [redisFormatCommandArgv] produces [request], the parser
    [redis_parse_cmd] reads it, and the cluster code re-encodes parts of it. *)

From S2P Require Import Prelude.

(** ["$<length>\r\n"], the header of a bulk string. *)
Definition bulk_header (a : bytes) : bytes := "$"%char :: dec (zlen a) ++ CRLF.

(** One bulk string: header, data, CR LF. *)
Definition bulk (a : bytes) : bytes := bulk_header a ++ a ++ CRLF.

Definition bulks (args : list bytes) : bytes := concat (map bulk args).

(** ["*<count>\r\n"]. *)
Definition request_header (n : Z) : bytes := "*"%char :: dec n ++ CRLF.

Definition request (args : list bytes) : bytes :=
  request_header (zlen args) ++ bulks args.

(** Offset of the data of argument [i] in the request. *)
Definition arg_offset (args : list bytes) (i : nat) : Z :=
  zlen (request_header (zlen args)) + zlen (bulks (take i args)) +
  zlen (bulk_header (default [] (args !! i))).

Lemma bulks_cons a args : bulks (a :: args) = bulk a ++ bulks args.
Proof. done. Qed.

Lemma bulks_app l k : bulks (l ++ k) = bulks l ++ bulks k.
Proof. unfold bulks. by rewrite map_app, concat_app. Qed.

Lemma zlen_CRLF : zlen CRLF = 2.
Proof. done. Qed.

Lemma zlen_bulk_header a : zlen (bulk_header a) = 3 + zlen (dec (zlen a)).
Proof. unfold bulk_header. rewrite zlen_cons, zlen_app, zlen_CRLF. lia. Qed.

Lemma zlen_bulk a : zlen (bulk a) = 5 + zlen (dec (zlen a)) + zlen a.
Proof.
  unfold bulk. rewrite !zlen_app, zlen_bulk_header, zlen_CRLF. lia.
Qed.

Lemma zlen_request_header n : zlen (request_header n) = 3 + zlen (dec n).
Proof. unfold request_header. rewrite zlen_cons, zlen_app, zlen_CRLF. lia. Qed.

#[export] Hint Rewrite zlen_CRLF zlen_bulk_header zlen_bulk zlen_request_header
  : zlen.

(** Every argument and the number of arguments are shorter than the request. *)
Lemma zlen_bulks_ge args : zlen args <= zlen (bulks args).
Proof.
  induction args as [|a args IH]; [done|]. rewrite bulks_cons. zlen_lia.
Qed.

Lemma zlen_bulks_in a args : a ∈ args -> zlen a <= zlen (bulks args).
Proof.
  induction args as [|b args IH]; [by intros ?%elem_of_nil|].
  rewrite bulks_cons. intros [->|H]%elem_of_cons; [zlen_lia|].
  specialize (IH H). zlen_lia.
Qed.

(** The bytes at an argument's offset are the argument. *)
Lemma slice_arg args i a :
  args !! i = Some a ->
  slice (request args) (arg_offset args i) (arg_offset args i + zlen a) = a.
Proof.
  intros Hi. unfold arg_offset, request. rewrite Hi. cbn [default from_option id].
  rewrite <- (take_drop_middle args i a Hi) at 2.
  rewrite bulks_app, bulks_cons. unfold bulk.
  set (h := request_header _). set (t := bulks (take i args)).
  replace (h ++ t ++ (bulk_header a ++ a ++ CRLF) ++ bulks (drop (S i) args))
    with ((h ++ t ++ bulk_header a) ++ a ++ CRLF ++ bulks (drop (S i) args))
    by (by rewrite <- !app_assoc).
  replace (zlen h + zlen t + zlen (bulk_header a)) with (zlen (h ++ t ++ bulk_header a))
    by (rewrite !zlen_app; lia).
  apply slice_app.
Qed.
