(* ===== verification/Format.v ===== *)
(** * hiredis.c: formatting commands

    [countDigits], [bulklen], [redisFormatCommandArgv] and
    [redisFormatSdsCommandArgv].  The output buffer is a block returned by
    [malloc] and every [sprintf], [memcpy] and store is a bounds checked write
    into it, so that a total length that does not fit [int] shows as a write
    outside the block.  The theorems show that both functions produce the
    request of [Resp] and its length. *)

From S2P Require Import Prelude Resp.

(** ** countDigits and bulklen *)

Fixpoint countDigits_loop (fuel : nat) (v result : Z) : Z :=
  match fuel with
  | O => result
  | S f =>
      if v <? 10 then result
      else if v <? 100 then result + 1
      else if v <? 1000 then result + 2
      else if v <? 10000 then result + 3
      else countDigits_loop f (v / 10000) (u32 (result + 4))
  end.
(** A [uint64_t] has at most 20 digits: five rounds. *)
Definition countDigits (v : Z) : Z := countDigits_loop 6 v 1.

Definition bulklen (len : Z) : Z := u64 (1 + countDigits len + 2 + len + 2).

Lemma dec_length_div4 v : 10000 <= v -> zlen (dec v) = zlen (dec (v / 10000)) + 4.
Proof.
  intros Hv. rewrite (dec_step v) by lia. rewrite (dec_step (v / 10)).
  2:{ apply Z.div_le_lower_bound; lia. }
  rewrite (dec_step (v / 10 / 10)).
  2:{ rewrite Z.div_div by lia. apply Z.div_le_lower_bound; lia. }
  rewrite (dec_step (v / 10 / 10 / 10)).
  2:{ rewrite !Z.div_div by lia. apply Z.div_le_lower_bound; lia. }
  rewrite !zlen_app, !zlen_singleton, !Z.div_div by lia.
  change (10 * (10 * (10 * 10))) with 10000. lia.
Qed.

Lemma dec_length_unique v k :
  0 < v -> 1 <= k -> 10 ^ (k - 1) <= v < 10 ^ k -> zlen (dec v) = k.
Proof.
  intros Hv Hk Hr. pose proof (dec_length v ltac:(lia)) as (H1 & H2 & H3).
  specialize (H3 Hv).
  assert (zlen (dec v) - 1 < k) by (apply (Z.pow_lt_mono_r_iff 10); lia).
  assert (k - 1 < zlen (dec v)) by (apply (Z.pow_lt_mono_r_iff 10); lia).
  lia.
Qed.

Lemma countDigits_loop_dec f : forall v r,
  0 <= v < 10000 ^ Z.of_nat f -> 1 <= r -> r + 4 * Z.of_nat f < 2 ^ 32 ->
  countDigits_loop f v r = r - 1 + zlen (dec v) \/ (f = O).
Proof.
  induction f as [|f IH]; intros v r Hv Hr Hb; [by right|]. left.
  cbn [countDigits_loop].
  destruct (Z.ltb_spec v 10). { rewrite dec_small by lia. rewrite zlen_singleton. lia. }
  destruct (Z.ltb_spec v 100). { rewrite (dec_length_unique v 2); lia. }
  destruct (Z.ltb_spec v 1000). { rewrite (dec_length_unique v 3); lia. }
  destruct (Z.ltb_spec v 10000). { rewrite (dec_length_unique v 4); lia. }
  rewrite Nat2Z.inj_succ, Z.pow_succ_r in Hv by lia.
  rewrite u32_small by lia.
  destruct (IH (v / 10000) (r + 4)) as [->| ->].
  - split; [apply Z.div_pos; lia|]. apply Z.div_lt_upper_bound; lia.
  - lia.
  - lia.
  - rewrite (dec_length_div4 v) by lia. lia.
  - simpl in Hv. lia.
Qed.

Lemma countDigits_dec v : 0 <= v < 2 ^ 64 -> countDigits v = zlen (dec v).
Proof.
  intros Hv. unfold countDigits.
  destruct (countDigits_loop_dec 6 v 1) as [->|?]; [|lia|lia|lia|done].
  change (10000 ^ Z.of_nat 6) with 1000000000000000000000000. lia.
Qed.

Lemma bulklen_bulk a : zlen a < 2 ^ 32 -> bulklen (zlen a) = zlen (bulk a).
Proof.
  intros Ha. pose proof (zlen_nonneg a). unfold bulklen.
  rewrite countDigits_dec by lia. rewrite zlen_bulk.
  assert (zlen (dec (zlen a)) <= 10).
  { destruct (decide (zlen a = 0)) as [->|]; [by vm_compute|].
    pose proof (dec_length (zlen a) ltac:(lia)) as (? & ? & Hd).
    specialize (Hd ltac:(lia)).
    assert (zlen (dec (zlen a)) - 1 < 10); [|lia].
    apply (Z.pow_lt_mono_r_iff 10); [lia..|]. change (10 ^ 10) with 10000000000. lia. }
  pose proof (zlen_nonneg (dec (zlen a))).
  unfold u64. rewrite Z.mod_small; lia.
Qed.

(** ** redisFormatCommandArgv *)

(** The result of a formatting function: the command with its length, or the
    error value; [FmtOverflow] is a write outside the allocated block. *)
Inductive fmt_result :=
| FmtOk (target : bytes) (len : Z)
| FmtError (code : Z)
| FmtOverflow.

(** [len = argvlen ? argvlen[j] : strlen(argv[j])]; the memory at [argv[j]] is
    a byte string, in the second case one without its terminating NUL. *)
Definition arg_len (argv : list bytes) (argvlen : option (list Z)) (j : nat) : Z :=
  match argvlen with
  | Some l => default 0 (l !! j)
  | None => zlen (default [] (argv !! j))
  end.

(** The [len] bytes [memcpy] reads. *)
Definition arg_bytes (argv : list bytes) (argvlen : option (list Z)) (j : nat) : bytes :=
  take (Z.to_nat (arg_len argv argvlen j)) (default [] (argv !! j)).

(** [sprintf] stores its output and a terminating NUL. *)
Definition sprintf (b : bytes) (pos : Z) (out : bytes) : option (bytes * Z) :=
  b ← blit b pos (out ++ [NUL]);
  Some (b, pos + zlen out).

Section format.
(** A block of the given size with arbitrary contents, or [NULL]. *)
Context (malloc : Z -> option bytes).

(** One argument: its header, its bytes and CR LF. *)
Definition format_arg (len : Z) (a : bytes) (b : bytes) (pos : Z)
  : option (bytes * Z) :=
  r ← sprintf b pos ("$"%char :: dec len ++ CRLF);
  let '(b, pos) := r in
  b ← blit b pos a;
  let pos := pos + len in
  b ← poke b pos CR;
  b ← poke b (pos + 1) LF;
  Some (b, pos + 2).

Fixpoint format_args (argv : list bytes) (argvlen : option (list Z))
  (js : list nat) (b : bytes) (pos : Z) : option (bytes * Z) :=
  match js with
  | [] => Some (b, pos)
  | j :: js =>
      r ← format_arg (arg_len argv argvlen j) (arg_bytes argv argvlen j) b pos;
      format_args argv argvlen js r.1 r.2
  end.

(** [totlen], an [int]. *)
Definition format_totlen (argc : Z) (argv : list bytes) (argvlen : option (list Z)) : Z :=
  fold_left (fun totlen j => i32 (totlen + bulklen (arg_len argv argvlen j)))
    (seq 0 (Z.to_nat argc)) (i32 (1 + countDigits argc + 2)).

Definition redisFormatCommandArgv (argc : Z) (argv : list bytes)
  (argvlen : option (list Z)) : fmt_result :=
  let totlen := format_totlen argc argv argvlen in
  match malloc (u64 (totlen + 1)) with
  | None => FmtError (-1)
  | Some cmd =>
      match
        r ← sprintf cmd 0 ("*"%char :: dec_signed argc ++ CRLF);
        r ← format_args argv argvlen (seq 0 (Z.to_nat argc)) r.1 r.2;
        b ← poke r.1 r.2 NUL;
        Some (b, r.2)
      with
      | None => FmtOverflow
      | Some (b, pos) => FmtOk b totlen
      end
  end.

(** [redisFormatSdsCommandArgv] appends to an sds string, which grows as
    needed; [None] of [sds_room] is the allocation failing. *)
Definition redisFormatSdsCommandArgv (sds_room : Z -> bool) (argc : Z)
  (argv : list bytes) (argvlen : option (list Z)) : fmt_result :=
  let totlen :=
    fold_left (fun totlen j => u64 (totlen + bulklen (arg_len argv argvlen j)))
      (seq 0 (Z.to_nat argc)) (u64 (1 + countDigits argc + 2)) in
  if sds_room totlen then
    let cmd :=
      fold_left (fun cmd j =>
          cmd ++ ("$"%char :: dec (arg_len argv argvlen j) ++ CRLF) ++
          arg_bytes argv argvlen j ++ CRLF)
        (seq 0 (Z.to_nat argc)) ("*"%char :: dec_signed argc ++ CRLF) in
    FmtOk cmd (i32 totlen)
  else FmtError (-1).
End format.

(** ** Both produce the request *)

(** [argv] and [argvlen] describe [args]. *)
Definition describes (args argv : list bytes) (argvlen : option (list Z)) : Prop :=
  match argvlen with
  | None => argv = args
  | Some l => l = map zlen args /\ length argv = length args /\
              forall j a, args !! j = Some a -> exists junk, argv !! j = Some (a ++ junk)
  end.

Lemma describes_arg args argv argvlen j a :
  describes args argv argvlen -> args !! j = Some a ->
  arg_len argv argvlen j = zlen a /\ arg_bytes argv argvlen j = a.
Proof.
  unfold describes, arg_bytes, arg_len. intros Hd Hj. destruct argvlen as [l|].
  - destruct Hd as (-> & _ & Hd). destruct (Hd j a Hj) as [junk ->].
    rewrite list_lookup_fmap, Hj. cbn. split; [done|].
    unfold zlen. by rewrite Nat2Z.id, take_app_length.
  - subst argv. rewrite Hj. cbn. split; [done|].
    rewrite take_ge; [done|]. unfold zlen. lia.
Qed.

Lemma sprintf_app pre out x rest :
  zlen x = zlen out + 1 ->
  sprintf (pre ++ x ++ rest) (zlen pre) out =
  Some (pre ++ out ++ [NUL] ++ rest, zlen (pre ++ out)).
Proof.
  intros Hx. unfold sprintf. rewrite blit_app by zlen_lia. cbn [mbind option_bind].
  by rewrite <- app_assoc, zlen_app.
Qed.

(** Splitting off the next [n] bytes of a block. *)
Lemma split_block (b : bytes) n :
  0 <= n <= zlen b -> exists x y, b = x ++ y /\ zlen x = n.
Proof.
  intros Hn. exists (take (Z.to_nat n) b), (drop (Z.to_nat n) b).
  split; [by rewrite take_drop|]. unfold zlen in *. rewrite length_take. lia.
Qed.

Lemma format_arg_app pre a rest :
  zlen (bulk a) < zlen rest ->
  exists rest', zlen rest' = zlen rest - zlen (bulk a) /\
    format_arg (zlen a) a (pre ++ rest) (zlen pre) =
    Some ((pre ++ bulk a) ++ rest', zlen (pre ++ bulk a)).
Proof.
  intros Hr. set (h := bulk_header a).
  assert (zlen (bulk a) = zlen h + zlen a + 2) as Hb.
  { unfold bulk. fold h. rewrite !zlen_app, zlen_CRLF. lia. }
  pose proof (zlen_nonneg h). pose proof (zlen_nonneg a).
  destruct (split_block rest (zlen h + 1)) as (x & y & -> & Hx); [lia|].
  rewrite zlen_app in Hr.
  unfold format_arg. change ("$"%char :: dec (zlen a) ++ CRLF) with h.
  rewrite sprintf_app by done. cbn [mbind option_bind].
  destruct (split_block ([NUL] ++ y) (zlen a)) as (d & y2 & Hd & Hdl); [zlen_lia|].
  replace (pre ++ h ++ [NUL] ++ y) with ((pre ++ h) ++ d ++ y2)
    by (by rewrite <- Hd, <- app_assoc).
  apply (f_equal zlen) in Hd. rewrite !zlen_app, zlen_singleton in Hd.
  rewrite blit_app by done. cbn [mbind option_bind].
  destruct y2 as [|c1 [|c2 y3]]; [zlen_lia|zlen_lia|].
  replace ((pre ++ h) ++ a ++ c1 :: c2 :: y3)
    with ((pre ++ h ++ a) ++ c1 :: c2 :: y3) by (by rewrite <- !app_assoc).
  replace (zlen (pre ++ h) + zlen a) with (zlen (pre ++ h ++ a)) by zlen_lia.
  rewrite poke_app. cbn [mbind option_bind].
  replace ((pre ++ h ++ a) ++ CR :: c2 :: y3)
    with ((pre ++ h ++ a ++ [CR]) ++ c2 :: y3) by (by rewrite <- !app_assoc).
  replace (zlen (pre ++ h ++ a) + 1) with (zlen (pre ++ h ++ a ++ [CR])) by zlen_lia.
  rewrite poke_app. cbn [mbind option_bind]. exists y3.
  rewrite !zlen_cons in Hd. rewrite !zlen_app. split; [lia|].
  unfold bulk. fold h. f_equal. f_equal; [by rewrite <- !app_assoc|].
  rewrite !zlen_app, zlen_CRLF. lia.
Qed.

Lemma format_args_app args argv argvlen todo : forall done pre rest,
  describes args argv argvlen -> args = done ++ todo ->
  zlen (bulks todo) < zlen rest ->
  exists rest', zlen rest' = zlen rest - zlen (bulks todo) /\
    format_args argv argvlen (seq (length done) (length todo)) (pre ++ rest) (zlen pre) =
    Some ((pre ++ bulks todo) ++ rest', zlen (pre ++ bulks todo)).
Proof.
  induction todo as [|a todo IH]; intros dn pre rest Hd He Hr.
  { exists rest. cbn. change (bulks []) with (@nil ascii). rewrite app_nil_r.
    rewrite zlen_nil. split; [lia|done]. }
  rewrite bulks_cons, zlen_app in Hr. cbn [length seq format_args].
  assert (args !! length dn = Some a) as Ha by (rewrite He; by apply list_lookup_middle).
  destruct (describes_arg args argv argvlen _ a Hd Ha) as [-> ->].
  pose proof (zlen_nonneg (bulks todo)).
  destruct (format_arg_app pre a rest) as (rest1 & Hl1 & ->); [lia|].
  cbn [mbind option_bind fst snd].
  destruct (IH (dn ++ [a]) (pre ++ bulk a) rest1) as (rest2 & Hl2 & Hf);
    [done | by rewrite <- app_assoc | lia |].
  rewrite length_app, Nat.add_comm in Hf. cbn [length plus] in Hf. rewrite Hf.
  exists rest2. rewrite bulks_cons, zlen_app. split; [lia|].
  by rewrite <- !app_assoc.
Qed.

(** Summing the bulk lengths, for a wrap-around that is the identity below
    [M]. *)
Lemma totlen_sum (w : Z -> Z) (M : Z) args argv argvlen todo :
  (forall x, 0 <= x < M -> w x = x) -> M <= 2 ^ 64 ->
  (forall a, a ∈ args -> zlen a < 2 ^ 32) -> describes args argv argvlen ->
  forall done t, args = done ++ todo -> 0 <= t -> t + zlen (bulks todo) < M ->
  fold_left (fun t j => w (t + bulklen (arg_len argv argvlen j)))
    (seq (length done) (length todo)) t = t + zlen (bulks todo).
Proof.
  intros Hw HM Hsmall Hd. induction todo as [|a todo IH]; intros dn t He Ht Hb.
  { change (zlen (bulks [])) with 0 in *. cbn [length seq fold_left]. lia. }
  rewrite bulks_cons, zlen_app in *. cbn [length seq fold_left].
  assert (args !! length dn = Some a) as Ha by (rewrite He; by apply list_lookup_middle).
  destruct (describes_arg args argv argvlen _ a Hd Ha) as [-> _].
  pose proof (zlen_nonneg (bulks todo)). pose proof (zlen_nonneg (bulk a)).
  rewrite bulklen_bulk by (apply Hsmall; by apply (list_elem_of_lookup_2 args (length dn))).
  rewrite Hw by lia.
  specialize (IH (dn ++ [a]) (t + zlen (bulk a))).
  rewrite length_app, Nat.add_comm in IH. cbn [length plus] in IH.
  rewrite IH; [lia | by rewrite <- app_assoc | lia | lia].
Qed.

Lemma request_args_small args a :
  zlen (request args) < 2 ^ 31 -> a ∈ args -> zlen a < 2 ^ 32.
Proof.
  intros Hr Ha. pose proof (zlen_bulks_in a args Ha).
  unfold request in Hr. rewrite zlen_app in Hr.
  pose proof (zlen_nonneg (request_header (zlen args))). lia.
Qed.

(** The header and the counters of a request shorter than 2 GiB. *)
Lemma format_header args :
  zlen (request args) < 2 ^ 31 - 1 ->
  "*"%char :: dec_signed (zlen args) ++ CRLF = request_header (zlen args) /\
  1 + countDigits (zlen args) + 2 = zlen (request_header (zlen args)) /\
  Z.to_nat (zlen args) = length args /\
  0 <= zlen (request_header (zlen args)) <= zlen (request args).
Proof.
  intros Hr. pose proof (zlen_nonneg args). pose proof (zlen_bulks_ge args).
  unfold request in *. rewrite zlen_app in *.
  pose proof (zlen_nonneg (request_header (zlen args))).
  unfold dec_signed. destruct (Z.ltb_spec (zlen args) 0); [lia|].
  split; [done|]. rewrite countDigits_dec, zlen_request_header by lia.
  split; [lia|]. split; [unfold zlen; lia|].
  rewrite zlen_request_header in *. lia.
Qed.

Lemma describes_length args argv argvlen :
  describes args argv argvlen -> length argv = length args.
Proof. unfold describes. destruct argvlen; [by intros (_ & ? & _)|by intros ->]. Qed.

(** C22: [redisFormatCommandArgv] writes the request of its arguments, NUL
    terminated, into the block it allocates, never outside it, and returns the
    request's length, for every request that fits an [int]; with [argvlen] and
    without. *)
Theorem redisFormatCommandArgv_correct (malloc : Z -> option bytes)
  (args argv : list bytes) (argvlen : option (list Z)) (blk : bytes) :
  describes args argv argvlen ->
  zlen (request args) < 2 ^ 31 - 1 ->
  malloc (zlen (request args) + 1) = Some blk ->
  zlen blk = zlen (request args) + 1 ->
  redisFormatCommandArgv malloc (zlen args) argv argvlen =
  FmtOk (request args ++ [NUL]) (zlen (request args)).
Proof.
  intros Hd Hr Hm Hb.
  destruct (format_header args Hr) as (Hh & Hc & Hn & Hhl).
  set (h := request_header (zlen args)) in *.
  assert (zlen (request args) = zlen h + zlen (bulks args)) as Hrl.
  { unfold request. by rewrite zlen_app. }
  pose proof (zlen_nonneg (bulks args)).
  assert (format_totlen (zlen args) argv argvlen = zlen (request args)) as Ht.
  { unfold format_totlen. rewrite Hc, Hn, (i32_small (zlen h)) by lia.
    rewrite (totlen_sum i32 (2 ^ 31) args argv argvlen args) with (done := []);
      [lia| | |intros a; apply request_args_small; lia|done|done|lia|lia].
    - intros x ?. apply i32_small. lia.
    - lia. }
  unfold redisFormatCommandArgv. rewrite Ht.
  unfold u64. rewrite Z.mod_small by lia. rewrite Hm, Hh, Hn.
  destruct (split_block blk (zlen h + 1)) as (x & y & -> & Hx); [lia|].
  rewrite zlen_app in Hb.
  pose proof (sprintf_app [] h x y Hx) as Hs. cbn [app] in Hs.
  rewrite zlen_nil in Hs. rewrite Hs. cbn [mbind option_bind fst snd].
  destruct (format_args_app args argv argvlen args [] h (NUL :: y))
    as (rest & Hl & Hf); [done|done|zlen_lia|].
  cbn [length] in Hf. rewrite Hf. cbn [mbind option_bind fst snd].
  rewrite zlen_cons in Hl. destruct rest as [|c [|? ?]]; [zlen_lia| |zlen_lia].
  fold (request args). rewrite poke_app. done.
Qed.

Lemma redisFormatCommandArgv_correct_witness :
  redisFormatCommandArgv (fun n => Some (replicate (Z.to_nat n) NUL)) 2
    [s "GET"; s "foo"] None =
  FmtOk (s "*2" ++ CRLF ++ s "$3" ++ CRLF ++ s "GET" ++ CRLF ++
         s "$3" ++ CRLF ++ s "foo" ++ CRLF ++ [NUL]) 22.
Proof.
  apply (redisFormatCommandArgv_correct
    (fun n => Some (replicate (Z.to_nat n) NUL)) [s "GET"; s "foo"]
    [s "GET"; s "foo"] None (replicate 23 NUL));
    [done | zcompute | reflexivity | zcompute].
Defined.

(** The sds variant produces the same bytes without the terminator. *)
Lemma redisFormatSdsCommandArgv_correct sds_room args argv argvlen :
  describes args argv argvlen -> zlen (request args) < 2 ^ 31 - 1 ->
  sds_room (zlen (request args)) = true ->
  redisFormatSdsCommandArgv sds_room (zlen args) argv argvlen =
  FmtOk (request args) (zlen (request args)).
Proof.
  intros Hd Hr Hm. destruct (format_header args Hr) as (Hh & Hc & Hn & Hhl).
  set (h := request_header (zlen args)) in *.
  assert (zlen (request args) = zlen h + zlen (bulks args)) as Hrl.
  { unfold request. by rewrite zlen_app. }
  pose proof (zlen_nonneg (bulks args)).
  unfold redisFormatSdsCommandArgv. rewrite Hc, Hn, Hh.
  assert (u64 (zlen h) = zlen h) as -> by (unfold u64; rewrite Z.mod_small; lia).
  rewrite (totlen_sum u64 (2 ^ 64) args argv argvlen args) with (done := []);
    [| |lia|intros a; apply request_args_small; lia|done|done|lia|lia].
  2:{ intros x ?. unfold u64. by apply Z.mod_small. }
  rewrite <- Hrl, Hm, i32_small by lia. f_equal. unfold request. fold h.
  assert (forall todo done acc, args = done ++ todo ->
    fold_left (fun cmd j => cmd ++ ("$"%char :: dec (arg_len argv argvlen j) ++ CRLF) ++
      arg_bytes argv argvlen j ++ CRLF) (seq (length done) (length todo)) acc =
    acc ++ bulks todo) as Hf; [|exact (Hf args [] h eq_refl)].
  induction todo as [|a todo IH]; intros dn acc He; [by rewrite app_nil_r|].
  cbn [length seq fold_left].
  assert (args !! length dn = Some a) as Ha by (rewrite He; by apply list_lookup_middle).
  destruct (describes_arg args argv argvlen _ a Hd Ha) as [-> ->].
  specialize (IH (dn ++ [a])). rewrite length_app, Nat.add_comm in IH.
  cbn [length plus] in IH. rewrite IH by (by rewrite <- app_assoc).
  rewrite bulks_cons. unfold bulk, bulk_header. by rewrite <- !app_assoc.
Qed.
