(* ===== verification/Command.v ===== *)
(** * command.h and the tables of command.c: command types, arity, names

    The enumeration of command types, [struct cmd] and [struct keypos], the
    arity predicates [redis_arg*], and the command names that
    [redis_parse_cmd] recognises, as one ordered table per name length (one
    [if (strNicmp(...))] each).  Pointers into the command buffer are offsets. *)

From S2P Require Import Prelude Hiutil Hiarray.

Inductive cmd_parse_result :=
| CMD_PARSE_OK | CMD_PARSE_ENOMEM | CMD_PARSE_ERROR | CMD_PARSE_REPAIR
| CMD_PARSE_AGAIN.

(** [cmd_type_t], in the order of [CMD_TYPE_CODEC]. *)
Inductive cmd_type :=
| CMD_UNKNOWN | CMD_REQ_REDIS_DEL | CMD_REQ_REDIS_EXISTS
| CMD_REQ_REDIS_EXPIRE | CMD_REQ_REDIS_EXPIREAT | CMD_REQ_REDIS_PEXPIRE
| CMD_REQ_REDIS_PEXPIREAT | CMD_REQ_REDIS_PERSIST | CMD_REQ_REDIS_PTTL
| CMD_REQ_REDIS_SORT | CMD_REQ_REDIS_TTL | CMD_REQ_REDIS_TYPE
| CMD_REQ_REDIS_APPEND | CMD_REQ_REDIS_BITCOUNT | CMD_REQ_REDIS_DECR
| CMD_REQ_REDIS_DECRBY | CMD_REQ_REDIS_DUMP | CMD_REQ_REDIS_GET
| CMD_REQ_REDIS_GETBIT | CMD_REQ_REDIS_GETRANGE | CMD_REQ_REDIS_GETSET
| CMD_REQ_REDIS_INCR | CMD_REQ_REDIS_INCRBY | CMD_REQ_REDIS_INCRBYFLOAT
| CMD_REQ_REDIS_MGET | CMD_REQ_REDIS_MSET | CMD_REQ_REDIS_PSETEX
| CMD_REQ_REDIS_RESTORE | CMD_REQ_REDIS_SET | CMD_REQ_REDIS_SETBIT
| CMD_REQ_REDIS_SETEX | CMD_REQ_REDIS_SETNX | CMD_REQ_REDIS_SETRANGE
| CMD_REQ_REDIS_STRLEN | CMD_REQ_REDIS_HDEL | CMD_REQ_REDIS_HEXISTS
| CMD_REQ_REDIS_HGET | CMD_REQ_REDIS_HGETALL | CMD_REQ_REDIS_HINCRBY
| CMD_REQ_REDIS_HINCRBYFLOAT | CMD_REQ_REDIS_HKEYS | CMD_REQ_REDIS_HLEN
| CMD_REQ_REDIS_HMGET | CMD_REQ_REDIS_HMSET | CMD_REQ_REDIS_HSET
| CMD_REQ_REDIS_HSETNX | CMD_REQ_REDIS_HSCAN | CMD_REQ_REDIS_HVALS
| CMD_REQ_REDIS_LINDEX | CMD_REQ_REDIS_LINSERT | CMD_REQ_REDIS_LLEN
| CMD_REQ_REDIS_LPOP | CMD_REQ_REDIS_LPUSH | CMD_REQ_REDIS_LPUSHX
| CMD_REQ_REDIS_LRANGE | CMD_REQ_REDIS_LREM | CMD_REQ_REDIS_LSET
| CMD_REQ_REDIS_LTRIM | CMD_REQ_REDIS_PFADD | CMD_REQ_REDIS_PFCOUNT
| CMD_REQ_REDIS_PFMERGE | CMD_REQ_REDIS_RPOP | CMD_REQ_REDIS_RPOPLPUSH
| CMD_REQ_REDIS_RPUSH | CMD_REQ_REDIS_RPUSHX | CMD_REQ_REDIS_SADD
| CMD_REQ_REDIS_SCARD | CMD_REQ_REDIS_SDIFF | CMD_REQ_REDIS_SDIFFSTORE
| CMD_REQ_REDIS_SINTER | CMD_REQ_REDIS_SINTERSTORE
| CMD_REQ_REDIS_SISMEMBER | CMD_REQ_REDIS_SMEMBERS | CMD_REQ_REDIS_SMOVE
| CMD_REQ_REDIS_SPOP | CMD_REQ_REDIS_SRANDMEMBER | CMD_REQ_REDIS_SREM
| CMD_REQ_REDIS_SUNION | CMD_REQ_REDIS_SUNIONSTORE | CMD_REQ_REDIS_SSCAN
| CMD_REQ_REDIS_ZADD | CMD_REQ_REDIS_ZCARD | CMD_REQ_REDIS_ZCOUNT
| CMD_REQ_REDIS_ZINCRBY | CMD_REQ_REDIS_ZINTERSTORE
| CMD_REQ_REDIS_ZLEXCOUNT | CMD_REQ_REDIS_ZRANGE
| CMD_REQ_REDIS_ZRANGEBYLEX | CMD_REQ_REDIS_ZRANGEBYSCORE
| CMD_REQ_REDIS_ZRANK | CMD_REQ_REDIS_ZREM | CMD_REQ_REDIS_ZREMRANGEBYRANK
| CMD_REQ_REDIS_ZREMRANGEBYLEX | CMD_REQ_REDIS_ZREMRANGEBYSCORE
| CMD_REQ_REDIS_ZREVRANGE | CMD_REQ_REDIS_ZREVRANGEBYSCORE
| CMD_REQ_REDIS_ZREVRANK | CMD_REQ_REDIS_ZSCORE | CMD_REQ_REDIS_ZUNIONSTORE
| CMD_REQ_REDIS_ZSCAN | CMD_REQ_REDIS_EVAL | CMD_REQ_REDIS_EVALSHA
| CMD_REQ_REDIS_PING | CMD_REQ_REDIS_QUIT | CMD_REQ_REDIS_AUTH
| CMD_RSP_REDIS_STATUS | CMD_RSP_REDIS_ERROR | CMD_RSP_REDIS_INTEGER
| CMD_RSP_REDIS_BULK | CMD_RSP_REDIS_MULTIBULK | CMD_SENTINEL.

(** The numeric value of the enumeration constants. *)
Definition cmd_type_num (t : cmd_type) : Z :=
  match t with
  | CMD_UNKNOWN => 0 | CMD_REQ_REDIS_DEL => 1 | CMD_REQ_REDIS_EXISTS => 2
  | CMD_REQ_REDIS_EXPIRE => 3 | CMD_REQ_REDIS_EXPIREAT => 4
  | CMD_REQ_REDIS_PEXPIRE => 5 | CMD_REQ_REDIS_PEXPIREAT => 6
  | CMD_REQ_REDIS_PERSIST => 7 | CMD_REQ_REDIS_PTTL => 8
  | CMD_REQ_REDIS_SORT => 9 | CMD_REQ_REDIS_TTL => 10
  | CMD_REQ_REDIS_TYPE => 11 | CMD_REQ_REDIS_APPEND => 12
  | CMD_REQ_REDIS_BITCOUNT => 13 | CMD_REQ_REDIS_DECR => 14
  | CMD_REQ_REDIS_DECRBY => 15 | CMD_REQ_REDIS_DUMP => 16
  | CMD_REQ_REDIS_GET => 17 | CMD_REQ_REDIS_GETBIT => 18
  | CMD_REQ_REDIS_GETRANGE => 19 | CMD_REQ_REDIS_GETSET => 20
  | CMD_REQ_REDIS_INCR => 21 | CMD_REQ_REDIS_INCRBY => 22
  | CMD_REQ_REDIS_INCRBYFLOAT => 23 | CMD_REQ_REDIS_MGET => 24
  | CMD_REQ_REDIS_MSET => 25 | CMD_REQ_REDIS_PSETEX => 26
  | CMD_REQ_REDIS_RESTORE => 27 | CMD_REQ_REDIS_SET => 28
  | CMD_REQ_REDIS_SETBIT => 29 | CMD_REQ_REDIS_SETEX => 30
  | CMD_REQ_REDIS_SETNX => 31 | CMD_REQ_REDIS_SETRANGE => 32
  | CMD_REQ_REDIS_STRLEN => 33 | CMD_REQ_REDIS_HDEL => 34
  | CMD_REQ_REDIS_HEXISTS => 35 | CMD_REQ_REDIS_HGET => 36
  | CMD_REQ_REDIS_HGETALL => 37 | CMD_REQ_REDIS_HINCRBY => 38
  | CMD_REQ_REDIS_HINCRBYFLOAT => 39 | CMD_REQ_REDIS_HKEYS => 40
  | CMD_REQ_REDIS_HLEN => 41 | CMD_REQ_REDIS_HMGET => 42
  | CMD_REQ_REDIS_HMSET => 43 | CMD_REQ_REDIS_HSET => 44
  | CMD_REQ_REDIS_HSETNX => 45 | CMD_REQ_REDIS_HSCAN => 46
  | CMD_REQ_REDIS_HVALS => 47 | CMD_REQ_REDIS_LINDEX => 48
  | CMD_REQ_REDIS_LINSERT => 49 | CMD_REQ_REDIS_LLEN => 50
  | CMD_REQ_REDIS_LPOP => 51 | CMD_REQ_REDIS_LPUSH => 52
  | CMD_REQ_REDIS_LPUSHX => 53 | CMD_REQ_REDIS_LRANGE => 54
  | CMD_REQ_REDIS_LREM => 55 | CMD_REQ_REDIS_LSET => 56
  | CMD_REQ_REDIS_LTRIM => 57 | CMD_REQ_REDIS_PFADD => 58
  | CMD_REQ_REDIS_PFCOUNT => 59 | CMD_REQ_REDIS_PFMERGE => 60
  | CMD_REQ_REDIS_RPOP => 61 | CMD_REQ_REDIS_RPOPLPUSH => 62
  | CMD_REQ_REDIS_RPUSH => 63 | CMD_REQ_REDIS_RPUSHX => 64
  | CMD_REQ_REDIS_SADD => 65 | CMD_REQ_REDIS_SCARD => 66
  | CMD_REQ_REDIS_SDIFF => 67 | CMD_REQ_REDIS_SDIFFSTORE => 68
  | CMD_REQ_REDIS_SINTER => 69 | CMD_REQ_REDIS_SINTERSTORE => 70
  | CMD_REQ_REDIS_SISMEMBER => 71 | CMD_REQ_REDIS_SMEMBERS => 72
  | CMD_REQ_REDIS_SMOVE => 73 | CMD_REQ_REDIS_SPOP => 74
  | CMD_REQ_REDIS_SRANDMEMBER => 75 | CMD_REQ_REDIS_SREM => 76
  | CMD_REQ_REDIS_SUNION => 77 | CMD_REQ_REDIS_SUNIONSTORE => 78
  | CMD_REQ_REDIS_SSCAN => 79 | CMD_REQ_REDIS_ZADD => 80
  | CMD_REQ_REDIS_ZCARD => 81 | CMD_REQ_REDIS_ZCOUNT => 82
  | CMD_REQ_REDIS_ZINCRBY => 83 | CMD_REQ_REDIS_ZINTERSTORE => 84
  | CMD_REQ_REDIS_ZLEXCOUNT => 85 | CMD_REQ_REDIS_ZRANGE => 86
  | CMD_REQ_REDIS_ZRANGEBYLEX => 87 | CMD_REQ_REDIS_ZRANGEBYSCORE => 88
  | CMD_REQ_REDIS_ZRANK => 89 | CMD_REQ_REDIS_ZREM => 90
  | CMD_REQ_REDIS_ZREMRANGEBYRANK => 91
  | CMD_REQ_REDIS_ZREMRANGEBYLEX => 92
  | CMD_REQ_REDIS_ZREMRANGEBYSCORE => 93 | CMD_REQ_REDIS_ZREVRANGE => 94
  | CMD_REQ_REDIS_ZREVRANGEBYSCORE => 95 | CMD_REQ_REDIS_ZREVRANK => 96
  | CMD_REQ_REDIS_ZSCORE => 97 | CMD_REQ_REDIS_ZUNIONSTORE => 98
  | CMD_REQ_REDIS_ZSCAN => 99 | CMD_REQ_REDIS_EVAL => 100
  | CMD_REQ_REDIS_EVALSHA => 101 | CMD_REQ_REDIS_PING => 102
  | CMD_REQ_REDIS_QUIT => 103 | CMD_REQ_REDIS_AUTH => 104
  | CMD_RSP_REDIS_STATUS => 105 | CMD_RSP_REDIS_ERROR => 106
  | CMD_RSP_REDIS_INTEGER => 107 | CMD_RSP_REDIS_BULK => 108
  | CMD_RSP_REDIS_MULTIBULK => 109 | CMD_SENTINEL => 110
  end.

Definition all_cmd_types : list cmd_type :=
  [
   CMD_UNKNOWN; CMD_REQ_REDIS_DEL; CMD_REQ_REDIS_EXISTS;
   CMD_REQ_REDIS_EXPIRE; CMD_REQ_REDIS_EXPIREAT; CMD_REQ_REDIS_PEXPIRE;
   CMD_REQ_REDIS_PEXPIREAT; CMD_REQ_REDIS_PERSIST; CMD_REQ_REDIS_PTTL;
   CMD_REQ_REDIS_SORT; CMD_REQ_REDIS_TTL; CMD_REQ_REDIS_TYPE;
   CMD_REQ_REDIS_APPEND; CMD_REQ_REDIS_BITCOUNT; CMD_REQ_REDIS_DECR;
   CMD_REQ_REDIS_DECRBY; CMD_REQ_REDIS_DUMP; CMD_REQ_REDIS_GET;
   CMD_REQ_REDIS_GETBIT; CMD_REQ_REDIS_GETRANGE; CMD_REQ_REDIS_GETSET;
   CMD_REQ_REDIS_INCR; CMD_REQ_REDIS_INCRBY; CMD_REQ_REDIS_INCRBYFLOAT;
   CMD_REQ_REDIS_MGET; CMD_REQ_REDIS_MSET; CMD_REQ_REDIS_PSETEX;
   CMD_REQ_REDIS_RESTORE; CMD_REQ_REDIS_SET; CMD_REQ_REDIS_SETBIT;
   CMD_REQ_REDIS_SETEX; CMD_REQ_REDIS_SETNX; CMD_REQ_REDIS_SETRANGE;
   CMD_REQ_REDIS_STRLEN; CMD_REQ_REDIS_HDEL; CMD_REQ_REDIS_HEXISTS;
   CMD_REQ_REDIS_HGET; CMD_REQ_REDIS_HGETALL; CMD_REQ_REDIS_HINCRBY;
   CMD_REQ_REDIS_HINCRBYFLOAT; CMD_REQ_REDIS_HKEYS; CMD_REQ_REDIS_HLEN;
   CMD_REQ_REDIS_HMGET; CMD_REQ_REDIS_HMSET; CMD_REQ_REDIS_HSET;
   CMD_REQ_REDIS_HSETNX; CMD_REQ_REDIS_HSCAN; CMD_REQ_REDIS_HVALS;
   CMD_REQ_REDIS_LINDEX; CMD_REQ_REDIS_LINSERT; CMD_REQ_REDIS_LLEN;
   CMD_REQ_REDIS_LPOP; CMD_REQ_REDIS_LPUSH; CMD_REQ_REDIS_LPUSHX;
   CMD_REQ_REDIS_LRANGE; CMD_REQ_REDIS_LREM; CMD_REQ_REDIS_LSET;
   CMD_REQ_REDIS_LTRIM; CMD_REQ_REDIS_PFADD; CMD_REQ_REDIS_PFCOUNT;
   CMD_REQ_REDIS_PFMERGE; CMD_REQ_REDIS_RPOP; CMD_REQ_REDIS_RPOPLPUSH;
   CMD_REQ_REDIS_RPUSH; CMD_REQ_REDIS_RPUSHX; CMD_REQ_REDIS_SADD;
   CMD_REQ_REDIS_SCARD; CMD_REQ_REDIS_SDIFF; CMD_REQ_REDIS_SDIFFSTORE;
   CMD_REQ_REDIS_SINTER; CMD_REQ_REDIS_SINTERSTORE;
   CMD_REQ_REDIS_SISMEMBER; CMD_REQ_REDIS_SMEMBERS; CMD_REQ_REDIS_SMOVE;
   CMD_REQ_REDIS_SPOP; CMD_REQ_REDIS_SRANDMEMBER; CMD_REQ_REDIS_SREM;
   CMD_REQ_REDIS_SUNION; CMD_REQ_REDIS_SUNIONSTORE; CMD_REQ_REDIS_SSCAN;
   CMD_REQ_REDIS_ZADD; CMD_REQ_REDIS_ZCARD; CMD_REQ_REDIS_ZCOUNT;
   CMD_REQ_REDIS_ZINCRBY; CMD_REQ_REDIS_ZINTERSTORE;
   CMD_REQ_REDIS_ZLEXCOUNT; CMD_REQ_REDIS_ZRANGE;
   CMD_REQ_REDIS_ZRANGEBYLEX; CMD_REQ_REDIS_ZRANGEBYSCORE;
   CMD_REQ_REDIS_ZRANK; CMD_REQ_REDIS_ZREM; CMD_REQ_REDIS_ZREMRANGEBYRANK;
   CMD_REQ_REDIS_ZREMRANGEBYLEX; CMD_REQ_REDIS_ZREMRANGEBYSCORE;
   CMD_REQ_REDIS_ZREVRANGE; CMD_REQ_REDIS_ZREVRANGEBYSCORE;
   CMD_REQ_REDIS_ZREVRANK; CMD_REQ_REDIS_ZSCORE; CMD_REQ_REDIS_ZUNIONSTORE;
   CMD_REQ_REDIS_ZSCAN; CMD_REQ_REDIS_EVAL; CMD_REQ_REDIS_EVALSHA;
   CMD_REQ_REDIS_PING; CMD_REQ_REDIS_QUIT; CMD_REQ_REDIS_AUTH;
   CMD_RSP_REDIS_STATUS; CMD_RSP_REDIS_ERROR; CMD_RSP_REDIS_INTEGER;
   CMD_RSP_REDIS_BULK; CMD_RSP_REDIS_MULTIBULK; CMD_SENTINEL].


Lemma all_cmd_types_lookup t : all_cmd_types !! Z.to_nat (cmd_type_num t) = Some t.
Proof. by destruct t. Qed.

Lemma cmd_type_num_inj t u : cmd_type_num t = cmd_type_num u -> t = u.
Proof.
  intros H. pose proof (all_cmd_types_lookup t) as Ht.
  rewrite H, all_cmd_types_lookup in Ht. by simplify_eq.
Qed.

#[export] Instance cmd_type_eq_dec : EqDecision cmd_type.
Proof.
  intros t u. destruct (decide (cmd_type_num t = cmd_type_num u)) as [H|H].
  - left. by apply cmd_type_num_inj.
  - right. congruence.
Defined.

(** [struct keypos]: offsets of a key in the command buffer. *)
Record keypos := mk_keypos { kp_start : Z; kp_end : Z; remain_len : Z }.

(** [struct cmd] without the fields of multi-key commands ([frag_seq], [reply]
    and [sub_commands]), which [ClusterFragment] adds. *)
Record cmd := mk_cmd {
  id : Z;
  result : cmd_parse_result;
  errstr : option bytes;
  type : cmd_type;
  cmd_buf : bytes;
  clen : Z;
  keys : hiarray keypos;
  narg_start : option Z;
  narg_end : option Z;
  narg : Z;
  quit : bool;
  noforward : bool;
  slot_num : Z
}.

(** [command_get]: a fresh command, [cmd_id] being the global counter. *)
Definition command_get (malloc_ok : Z -> bool) (cmd_id : Z) : option cmd :=
  if malloc_ok 144 then
    keys ← hiarray_create malloc_ok 1 24;
    Some {| id := u64 (cmd_id + 1); result := CMD_PARSE_OK; errstr := None;
            type := CMD_UNKNOWN; cmd_buf := []; clen := 0; keys := keys;
            narg_start := None; narg_end := None; narg := 0; quit := false;
            noforward := false; slot_num := -1 |}
  else None.

(** Assignments to one field. *)
Definition with_result (r : cmd) x := mk_cmd (id r) x (errstr r) (type r)
  (cmd_buf r) (clen r) (keys r) (narg_start r) (narg_end r) (narg r) (quit r)
  (noforward r) (slot_num r).
Definition with_errstr (r : cmd) x := mk_cmd (id r) (result r) x (type r)
  (cmd_buf r) (clen r) (keys r) (narg_start r) (narg_end r) (narg r) (quit r)
  (noforward r) (slot_num r).
Definition with_type (r : cmd) x q n := mk_cmd (id r) (result r) (errstr r) x
  (cmd_buf r) (clen r) (keys r) (narg_start r) (narg_end r) (narg r) q
  n (slot_num r).
Definition with_buf (r : cmd) b l := mk_cmd (id r) (result r) (errstr r) (type r)
  b l (keys r) (narg_start r) (narg_end r) (narg r) (quit r)
  (noforward r) (slot_num r).
Definition with_keys (r : cmd) x := mk_cmd (id r) (result r) (errstr r) (type r)
  (cmd_buf r) (clen r) x (narg_start r) (narg_end r) (narg r) (quit r)
  (noforward r) (slot_num r).
Definition with_narg_start (r : cmd) x := mk_cmd (id r) (result r) (errstr r)
  (type r) (cmd_buf r) (clen r) (keys r) x (narg_end r) (narg r) (quit r)
  (noforward r) (slot_num r).
Definition with_narg (r : cmd) x e := mk_cmd (id r) (result r) (errstr r)
  (type r) (cmd_buf r) (clen r) (keys r) (narg_start r) e x (quit r)
  (noforward r) (slot_num r).
Definition with_slot_num (r : cmd) x := mk_cmd (id r) (result r) (errstr r)
  (type r) (cmd_buf r) (clen r) (keys r) (narg_start r) (narg_end r) (narg r)
  (quit r) (noforward r) x.

(** ** Arity classes *)

Definition redis_argz (t : cmd_type) : bool :=
  match t with
  | CMD_REQ_REDIS_PING | CMD_REQ_REDIS_QUIT => true
  | _ => false
  end.

Definition redis_arg0 (t : cmd_type) : bool :=
  match t with
  | CMD_REQ_REDIS_EXISTS | CMD_REQ_REDIS_PERSIST | CMD_REQ_REDIS_PTTL
  | CMD_REQ_REDIS_SORT | CMD_REQ_REDIS_TTL | CMD_REQ_REDIS_TYPE
  | CMD_REQ_REDIS_DUMP | CMD_REQ_REDIS_DECR | CMD_REQ_REDIS_GET
  | CMD_REQ_REDIS_INCR | CMD_REQ_REDIS_STRLEN | CMD_REQ_REDIS_HGETALL
  | CMD_REQ_REDIS_HKEYS | CMD_REQ_REDIS_HLEN | CMD_REQ_REDIS_HVALS
  | CMD_REQ_REDIS_LLEN | CMD_REQ_REDIS_LPOP | CMD_REQ_REDIS_RPOP
  | CMD_REQ_REDIS_SCARD | CMD_REQ_REDIS_SMEMBERS | CMD_REQ_REDIS_SPOP
  | CMD_REQ_REDIS_ZCARD | CMD_REQ_REDIS_PFCOUNT | CMD_REQ_REDIS_AUTH => true
  | _ => false
  end.

Definition redis_arg1 (t : cmd_type) : bool :=
  match t with
  | CMD_REQ_REDIS_EXPIRE | CMD_REQ_REDIS_EXPIREAT | CMD_REQ_REDIS_PEXPIRE
  | CMD_REQ_REDIS_PEXPIREAT | CMD_REQ_REDIS_APPEND | CMD_REQ_REDIS_DECRBY
  | CMD_REQ_REDIS_GETBIT | CMD_REQ_REDIS_GETSET | CMD_REQ_REDIS_INCRBY
  | CMD_REQ_REDIS_INCRBYFLOAT | CMD_REQ_REDIS_SETNX | CMD_REQ_REDIS_HEXISTS
  | CMD_REQ_REDIS_HGET | CMD_REQ_REDIS_LINDEX | CMD_REQ_REDIS_LPUSHX
  | CMD_REQ_REDIS_RPOPLPUSH | CMD_REQ_REDIS_RPUSHX
  | CMD_REQ_REDIS_SISMEMBER | CMD_REQ_REDIS_ZRANK | CMD_REQ_REDIS_ZREVRANK
  | CMD_REQ_REDIS_ZSCORE => true
  | _ => false
  end.

Definition redis_arg2 (t : cmd_type) : bool :=
  match t with
  | CMD_REQ_REDIS_GETRANGE | CMD_REQ_REDIS_PSETEX | CMD_REQ_REDIS_SETBIT
  | CMD_REQ_REDIS_SETEX | CMD_REQ_REDIS_SETRANGE | CMD_REQ_REDIS_HINCRBY
  | CMD_REQ_REDIS_HINCRBYFLOAT | CMD_REQ_REDIS_HSET | CMD_REQ_REDIS_HSETNX
  | CMD_REQ_REDIS_LRANGE | CMD_REQ_REDIS_LREM | CMD_REQ_REDIS_LSET
  | CMD_REQ_REDIS_LTRIM | CMD_REQ_REDIS_SMOVE | CMD_REQ_REDIS_ZCOUNT
  | CMD_REQ_REDIS_ZLEXCOUNT | CMD_REQ_REDIS_ZINCRBY
  | CMD_REQ_REDIS_ZREMRANGEBYLEX | CMD_REQ_REDIS_ZREMRANGEBYRANK
  | CMD_REQ_REDIS_ZREMRANGEBYSCORE | CMD_REQ_REDIS_RESTORE => true
  | _ => false
  end.

Definition redis_arg3 (t : cmd_type) : bool :=
  match t with
  | CMD_REQ_REDIS_LINSERT => true
  | _ => false
  end.

Definition redis_argn (t : cmd_type) : bool :=
  match t with
  | CMD_REQ_REDIS_BITCOUNT | CMD_REQ_REDIS_SET | CMD_REQ_REDIS_HDEL
  | CMD_REQ_REDIS_HMGET | CMD_REQ_REDIS_HMSET | CMD_REQ_REDIS_HSCAN
  | CMD_REQ_REDIS_LPUSH | CMD_REQ_REDIS_RPUSH | CMD_REQ_REDIS_SADD
  | CMD_REQ_REDIS_SDIFF | CMD_REQ_REDIS_SDIFFSTORE | CMD_REQ_REDIS_SINTER
  | CMD_REQ_REDIS_SINTERSTORE | CMD_REQ_REDIS_SREM | CMD_REQ_REDIS_SUNION
  | CMD_REQ_REDIS_SUNIONSTORE | CMD_REQ_REDIS_SRANDMEMBER
  | CMD_REQ_REDIS_SSCAN | CMD_REQ_REDIS_PFADD | CMD_REQ_REDIS_PFMERGE
  | CMD_REQ_REDIS_ZADD | CMD_REQ_REDIS_ZINTERSTORE | CMD_REQ_REDIS_ZRANGE
  | CMD_REQ_REDIS_ZRANGEBYSCORE | CMD_REQ_REDIS_ZREM
  | CMD_REQ_REDIS_ZREVRANGE | CMD_REQ_REDIS_ZRANGEBYLEX
  | CMD_REQ_REDIS_ZREVRANGEBYSCORE | CMD_REQ_REDIS_ZUNIONSTORE
  | CMD_REQ_REDIS_ZSCAN => true
  | _ => false
  end.

Definition redis_argx (t : cmd_type) : bool :=
  match t with
  | CMD_REQ_REDIS_MGET | CMD_REQ_REDIS_DEL => true
  | _ => false
  end.

Definition redis_argkvx (t : cmd_type) : bool :=
  match t with
  | CMD_REQ_REDIS_MSET => true
  | _ => false
  end.

Definition redis_argeval (t : cmd_type) : bool :=
  match t with
  | CMD_REQ_REDIS_EVAL | CMD_REQ_REDIS_EVALSHA => true
  | _ => false
  end.

(** ** Command names *)

(** Side effect of a matching name besides setting [r->type]. *)
Inductive cmd_flag := flag_none | flag_noforward | flag_quit.
Abbreviation cmd_entry := (bytes * cmd_type * cmd_flag)%type.

Definition cmds3 : list cmd_entry :=
  [(s "get", CMD_REQ_REDIS_GET, flag_none);
   (s "set", CMD_REQ_REDIS_SET, flag_none);
   (s "ttl", CMD_REQ_REDIS_TTL, flag_none);
   (s "del", CMD_REQ_REDIS_DEL, flag_none)].

Definition cmds4 : list cmd_entry :=
  [(s "pttl", CMD_REQ_REDIS_PTTL, flag_none);
   (s "decr", CMD_REQ_REDIS_DECR, flag_none);
   (s "dump", CMD_REQ_REDIS_DUMP, flag_none);
   (s "hdel", CMD_REQ_REDIS_HDEL, flag_none);
   (s "hget", CMD_REQ_REDIS_HGET, flag_none);
   (s "hlen", CMD_REQ_REDIS_HLEN, flag_none);
   (s "hset", CMD_REQ_REDIS_HSET, flag_none);
   (s "incr", CMD_REQ_REDIS_INCR, flag_none);
   (s "llen", CMD_REQ_REDIS_LLEN, flag_none);
   (s "lpop", CMD_REQ_REDIS_LPOP, flag_none);
   (s "lrem", CMD_REQ_REDIS_LREM, flag_none);
   (s "lset", CMD_REQ_REDIS_LSET, flag_none);
   (s "rpop", CMD_REQ_REDIS_RPOP, flag_none);
   (s "sadd", CMD_REQ_REDIS_SADD, flag_none);
   (s "spop", CMD_REQ_REDIS_SPOP, flag_none);
   (s "srem", CMD_REQ_REDIS_SREM, flag_none);
   (s "type", CMD_REQ_REDIS_TYPE, flag_none);
   (s "mget", CMD_REQ_REDIS_MGET, flag_none);
   (s "mset", CMD_REQ_REDIS_MSET, flag_none);
   (s "zadd", CMD_REQ_REDIS_ZADD, flag_none);
   (s "zrem", CMD_REQ_REDIS_ZREM, flag_none);
   (s "eval", CMD_REQ_REDIS_EVAL, flag_none);
   (s "sort", CMD_REQ_REDIS_SORT, flag_none);
   (s "ping", CMD_REQ_REDIS_PING, flag_noforward);
   (s "quit", CMD_REQ_REDIS_QUIT, flag_quit);
   (s "auth", CMD_REQ_REDIS_AUTH, flag_noforward)].

Definition cmds5 : list cmd_entry :=
  [(s "hkeys", CMD_REQ_REDIS_HKEYS, flag_none);
   (s "hmget", CMD_REQ_REDIS_HMGET, flag_none);
   (s "hmset", CMD_REQ_REDIS_HMSET, flag_none);
   (s "hvals", CMD_REQ_REDIS_HVALS, flag_none);
   (s "hscan", CMD_REQ_REDIS_HSCAN, flag_none);
   (s "lpush", CMD_REQ_REDIS_LPUSH, flag_none);
   (s "ltrim", CMD_REQ_REDIS_LTRIM, flag_none);
   (s "rpush", CMD_REQ_REDIS_RPUSH, flag_none);
   (s "scard", CMD_REQ_REDIS_SCARD, flag_none);
   (s "sdiff", CMD_REQ_REDIS_SDIFF, flag_none);
   (s "setex", CMD_REQ_REDIS_SETEX, flag_none);
   (s "setnx", CMD_REQ_REDIS_SETNX, flag_none);
   (s "smove", CMD_REQ_REDIS_SMOVE, flag_none);
   (s "sscan", CMD_REQ_REDIS_SSCAN, flag_none);
   (s "zcard", CMD_REQ_REDIS_ZCARD, flag_none);
   (s "zrank", CMD_REQ_REDIS_ZRANK, flag_none);
   (s "zscan", CMD_REQ_REDIS_ZSCAN, flag_none);
   (s "pfadd", CMD_REQ_REDIS_PFADD, flag_none)].

Definition cmds6 : list cmd_entry :=
  [(s "append", CMD_REQ_REDIS_APPEND, flag_none);
   (s "decrby", CMD_REQ_REDIS_DECRBY, flag_none);
   (s "exists", CMD_REQ_REDIS_EXISTS, flag_none);
   (s "expire", CMD_REQ_REDIS_EXPIRE, flag_none);
   (s "getbit", CMD_REQ_REDIS_GETBIT, flag_none);
   (s "getset", CMD_REQ_REDIS_GETSET, flag_none);
   (s "psetex", CMD_REQ_REDIS_PSETEX, flag_none);
   (s "hsetnx", CMD_REQ_REDIS_HSETNX, flag_none);
   (s "incrby", CMD_REQ_REDIS_INCRBY, flag_none);
   (s "lindex", CMD_REQ_REDIS_LINDEX, flag_none);
   (s "lpushx", CMD_REQ_REDIS_LPUSHX, flag_none);
   (s "lrange", CMD_REQ_REDIS_LRANGE, flag_none);
   (s "rpushx", CMD_REQ_REDIS_RPUSHX, flag_none);
   (s "setbit", CMD_REQ_REDIS_SETBIT, flag_none);
   (s "sinter", CMD_REQ_REDIS_SINTER, flag_none);
   (s "strlen", CMD_REQ_REDIS_STRLEN, flag_none);
   (s "sunion", CMD_REQ_REDIS_SUNION, flag_none);
   (s "zcount", CMD_REQ_REDIS_ZCOUNT, flag_none);
   (s "zrange", CMD_REQ_REDIS_ZRANGE, flag_none);
   (s "zscore", CMD_REQ_REDIS_ZSCORE, flag_none)].

Definition cmds7 : list cmd_entry :=
  [(s "persist", CMD_REQ_REDIS_PERSIST, flag_none);
   (s "pexpire", CMD_REQ_REDIS_PEXPIRE, flag_none);
   (s "hexists", CMD_REQ_REDIS_HEXISTS, flag_none);
   (s "hgetall", CMD_REQ_REDIS_HGETALL, flag_none);
   (s "hincrby", CMD_REQ_REDIS_HINCRBY, flag_none);
   (s "linsert", CMD_REQ_REDIS_LINSERT, flag_none);
   (s "zincrby", CMD_REQ_REDIS_ZINCRBY, flag_none);
   (s "evalsha", CMD_REQ_REDIS_EVALSHA, flag_none);
   (s "restore", CMD_REQ_REDIS_RESTORE, flag_none);
   (s "pfcount", CMD_REQ_REDIS_PFCOUNT, flag_none);
   (s "pfmerge", CMD_REQ_REDIS_PFMERGE, flag_none)].

Definition cmds8 : list cmd_entry :=
  [(s "expireat", CMD_REQ_REDIS_EXPIREAT, flag_none);
   (s "bitcount", CMD_REQ_REDIS_BITCOUNT, flag_none);
   (s "getrange", CMD_REQ_REDIS_GETRANGE, flag_none);
   (s "setrange", CMD_REQ_REDIS_SETRANGE, flag_none);
   (s "smembers", CMD_REQ_REDIS_SMEMBERS, flag_none);
   (s "zrevrank", CMD_REQ_REDIS_ZREVRANK, flag_none)].

Definition cmds9 : list cmd_entry :=
  [(s "pexpireat", CMD_REQ_REDIS_PEXPIREAT, flag_none);
   (s "rpoplpush", CMD_REQ_REDIS_RPOPLPUSH, flag_none);
   (s "sismember", CMD_REQ_REDIS_SISMEMBER, flag_none);
   (s "zrevrange", CMD_REQ_REDIS_ZREVRANGE, flag_none);
   (s "zlexcount", CMD_REQ_REDIS_ZLEXCOUNT, flag_none)].

Definition cmds10 : list cmd_entry :=
  [(s "sdiffstore", CMD_REQ_REDIS_SDIFFSTORE, flag_none)].

Definition cmds11 : list cmd_entry :=
  [(s "incrbyfloat", CMD_REQ_REDIS_INCRBYFLOAT, flag_none);
   (s "sinterstore", CMD_REQ_REDIS_SINTERSTORE, flag_none);
   (s "srandmember", CMD_REQ_REDIS_SRANDMEMBER, flag_none);
   (s "sunionstore", CMD_REQ_REDIS_SUNIONSTORE, flag_none);
   (s "zinterstore", CMD_REQ_REDIS_ZINTERSTORE, flag_none);
   (s "zunionstore", CMD_REQ_REDIS_ZUNIONSTORE, flag_none);
   (s "zrangebylex", CMD_REQ_REDIS_ZRANGEBYLEX, flag_none)].

Definition cmds12 : list cmd_entry :=
  [(s "hincrbyfloat", CMD_REQ_REDIS_HINCRBYFLOAT, flag_none)].

Definition cmds13 : list cmd_entry :=
  [(s "zrangebyscore", CMD_REQ_REDIS_ZRANGEBYSCORE, flag_none)].

Definition cmds14 : list cmd_entry :=
  [(s "zremrangebylex", CMD_REQ_REDIS_ZREMRANGEBYLEX, flag_none)].

Definition cmds15 : list cmd_entry :=
  [(s "zremrangebyrank", CMD_REQ_REDIS_ZREMRANGEBYRANK, flag_none)].

Definition cmds16 : list cmd_entry :=
  [(s "zremrangebyscore", CMD_REQ_REDIS_ZREMRANGEBYSCORE, flag_none);
   (s "zrevrangebyscore", CMD_REQ_REDIS_ZREVRANGEBYSCORE, flag_none)].
(** [switch (p - m)]: the tables tried for a name of the given length, in
    order; [case 10] has no [break] and falls through to [case 11]. *)
Definition cmds_of_length (n : Z) : list cmd_entry :=
  match n with
  | 3 => cmds3 | 4 => cmds4 | 5 => cmds5 | 6 => cmds6 | 7 => cmds7
  | 8 => cmds8 | 9 => cmds9 | 10 => cmds10 ++ cmds11 | 11 => cmds11
  | 12 => cmds12 | 13 => cmds13 | 14 => cmds14 | 15 => cmds15 | 16 => cmds16
  | _ => []
  end.

(** The first entry whose pattern matches at offset [m]; the outer [None] is a
    read outside the buffer. *)
Fixpoint cmd_lookup (b : bytes) (m : Z) (l : list cmd_entry)
  : option (option cmd_entry) :=
  match l with
  | [] => Some None
  | e :: l' =>
      hit ← stricmp b m e.1.1;
      if (hit : bool) then Some (Some e) else cmd_lookup b m l'
  end.

(** ** What a name means *)

Definition all_cmds : list cmd_entry :=
  cmds3 ++ cmds4 ++ cmds5 ++ cmds6 ++ cmds7 ++ cmds8 ++ cmds9 ++ cmds10 ++
  cmds11 ++ cmds12 ++ cmds13 ++ cmds14 ++ cmds15 ++ cmds16.

(** ASCII lower case. *)
Definition lower (c : ascii) : ascii :=
  if (65 <=? code c) && (code c <=? 90) then chr (code c + 32) else c.
Definition is_lower (c : ascii) : bool := (97 <=? code c) && (code c <=? 122).

(** The first entry whose name equals [name] up to ASCII case. *)
Fixpoint find_cmd (name : bytes) (l : list cmd_entry) : option cmd_entry :=
  match l with
  | [] => None
  | e :: l' => if decide (e.1.1 = map lower name) then Some e
               else find_cmd name l'
  end.
Definition command_of_name (name : bytes) : option cmd_entry :=
  find_cmd name all_cmds.

(** The arity classes, as one value. *)
Inductive arity :=
| ArityZ | Arity0 | Arity1 | Arity2 | Arity3 | ArityN | ArityX | ArityKVX
| ArityEval.

#[export] Instance arity_eq_dec : EqDecision arity.
Proof. solve_decision. Defined.

Definition arity_of (t : cmd_type) : option arity :=
  if redis_argz t then Some ArityZ
  else if redis_arg0 t then Some Arity0
  else if redis_arg1 t then Some Arity1
  else if redis_arg2 t then Some Arity2
  else if redis_arg3 t then Some Arity3
  else if redis_argn t then Some ArityN
  else if redis_argx t then Some ArityX
  else if redis_argkvx t then Some ArityKVX
  else if redis_argeval t then Some ArityEval
  else None.

(** Rewriting with the class of a type decides every predicate. *)
Lemma arity_of_preds t a :
  arity_of t = Some a ->
  redis_argz t = bool_decide (a = ArityZ) /\
  redis_arg0 t = bool_decide (a = Arity0) /\
  redis_arg1 t = bool_decide (a = Arity1) /\
  redis_arg2 t = bool_decide (a = Arity2) /\
  redis_arg3 t = bool_decide (a = Arity3) /\
  redis_argn t = bool_decide (a = ArityN) /\
  redis_argx t = bool_decide (a = ArityX) /\
  redis_argkvx t = bool_decide (a = ArityKVX) /\
  redis_argeval t = bool_decide (a = ArityEval).
Proof.
  destruct t; intros H; vm_compute in H; simplify_eq; by vm_compute.
Qed.

(** Every name of the tables is lower case letters, has an arity class and is
    listed once. *)
Lemma all_cmds_wf e :
  e ∈ all_cmds ->
  Forall (fun c => is_lower c = true) e.1.1 /\ is_Some (arity_of e.1.2) /\
  3 <= zlen e.1.1 <= 16.
Proof.
  assert (forallb (fun e : cmd_entry => forallb is_lower e.1.1 &&
    bool_decide (is_Some (arity_of e.1.2)) && (3 <=? zlen e.1.1) &&
    (zlen e.1.1 <=? 16)) all_cmds = true) as H by (vm_compute; reflexivity).
  intros He%list_elem_of_In. rewrite forallb_forall in H. specialize (H e He).
  rewrite !andb_true_iff, forallb_forall, bool_decide_eq_true in H.
  destruct H as [[[H1 H2] H3] H4]. split; [|split; [done|lia]].
  apply Forall_forall. intros c Hc%list_elem_of_In. auto.
Qed.

Lemma all_cmds_nodup : NoDup (map (fun e : cmd_entry => e.1.1) all_cmds).
Proof. apply (bool_decide_eq_true_1 _). vm_compute. reflexivity. Qed.

Lemma command_of_name_arity name e :
  command_of_name name = Some e -> is_Some (arity_of e.1.2).
Proof.
  intros H. apply (all_cmds_wf e). unfold command_of_name in H. revert H.
  generalize all_cmds. intros l. induction l as [|x l IH]; cbn [find_cmd]; [done|].
  case_decide; [intros [= ->]; by left|]. intros H'. right. by apply IH.
Qed.


Lemma lower_match c x :
  is_lower c = true ->
  (code x =? code c) || (code x =? Z.lxor (code c) 0x20) =
  bool_decide (lower x = c).
Proof.
  destruct c as [[] [] [] [] [] [] [] []]; intros Hc; try (vm_compute in Hc; discriminate);
  destruct x as [[] [] [] [] [] [] [] []]; vm_compute; reflexivity.
Qed.

Lemma is_lower_lower x : is_lower (lower x) = true -> x <> CR.
Proof. intros H ->. vm_compute in H. discriminate. Qed.

(** A macro on a name followed by CR compares the whole name: CR stops a longer
    pattern. *)
Lemma stricmp_name pat : forall pre name rest,
  Forall (fun c => is_lower c = true) pat ->
  (length name <= length pat <= S (length name))%nat ->
  stricmp (pre ++ name ++ CR :: rest) (zlen pre) pat =
  Some (bool_decide (map lower name = pat)).
Proof.
  induction pat as [|c pat IH]; intros pre name rest Hp Hl.
  { destruct name; [done|simpl in Hl; lia]. }
  apply Forall_cons in Hp as [Hc Hp]. cbn [stricmp].
  destruct name as [|x name]; cbn [app map].
  - rewrite byte_at_app. cbn [mbind option_bind]. rewrite lower_match by done.
    rewrite bool_decide_eq_false_2; [done|].
    intros <-. vm_compute in Hc. discriminate.
  - rewrite byte_at_app. cbn [mbind option_bind]. rewrite lower_match by done.
    destruct (bool_decide_reflect (lower x = c)) as [<-|Hne].
    + simpl in Hl. specialize (IH (pre ++ [x]) name rest Hp ltac:(lia)).
      rewrite <- app_assoc in IH. cbn [app] in IH.
      replace (zlen pre + 1) with (zlen (pre ++ [x])) by zlen_lia.
      rewrite IH. f_equal. apply bool_decide_ext. split; congruence.
    + rewrite bool_decide_eq_false_2; [done|congruence].
Qed.

Lemma find_cmd_length name l :
  find_cmd name (filter (fun e : cmd_entry => zlen e.1.1 = zlen name) l) =
  find_cmd name l.
Proof.
  induction l as [|e l IH]; [done|]. rewrite filter_cons. cbn [find_cmd].
  destruct (decide (e.1.1 = map lower name)) as [Hd|Hd];
    destruct (decide (zlen e.1.1 = zlen name)) as [Hz|Hz]; cbn [find_cmd].
  - by destruct (decide (e.1.1 = map lower name)).
  - exfalso. apply Hz. rewrite Hd. unfold zlen. by rewrite length_map.
  - by destruct (decide (e.1.1 = map lower name)).
  - done.
Qed.

(** The switch on the length tries every name of that length. *)
Lemma cmds_of_length_complete n :
  filter (fun e : cmd_entry => zlen e.1.1 = n) (cmds_of_length n) =
  filter (fun e : cmd_entry => zlen e.1.1 = n) all_cmds.
Proof.
  destruct (decide (3 <= n <= 16)) as [Hn|Hn].
  - assert (n ∈ seqZ 3 14) as Hs by (apply elem_of_seqZ; lia).
    revert Hs. generalize n. apply Forall_forall.
    repeat (constructor; [vm_compute; reflexivity|]). constructor.
  - assert (filter (fun e : cmd_entry => zlen e.1.1 = n) all_cmds = []) as ->.
    { apply elem_of_nil_inv. intros e [He1 He2]%list_elem_of_filter.
      pose proof (all_cmds_wf e He2). lia. }
    assert (cmds_of_length n = []) as ->; [|done].
    unfold cmds_of_length. destruct n as [|p|p]; [done| |done].
    repeat (destruct p as [p|p|]; try done; try lia).
Qed.

(** The entries of a switch case fit the name length or exceed it by one (the
    fall through from 10 to 11). *)
Lemma cmds_of_length_wf n e :
  e ∈ cmds_of_length n ->
  Forall (fun c => is_lower c = true) e.1.1 /\ n <= zlen e.1.1 <= n + 1.
Proof.
  intros He.
  assert (forallb (fun n => forallb (fun e : cmd_entry => forallb is_lower e.1.1 &&
    (n <=? zlen e.1.1) && (zlen e.1.1 <=? n + 1)) (cmds_of_length n))
    (seqZ 3 14) = true) as H by (vm_compute; reflexivity).
  destruct (decide (3 <= n <= 16)) as [Hn|Hn].
  - rewrite forallb_forall in H. specialize (H n).
    rewrite forallb_forall in H.
    specialize (H ltac:(apply list_elem_of_In, elem_of_seqZ; lia) e
                  (proj1 (list_elem_of_In _ _) He)).
    rewrite !andb_true_iff, forallb_forall in H. destruct H as [[H1 H2] H3].
    split; [|lia]. apply Forall_forall. intros c Hc%list_elem_of_In. auto.
  - exfalso. unfold cmds_of_length in He. destruct n as [|p|p];
      [by apply elem_of_nil in He| |by apply elem_of_nil in He].
    repeat (destruct p as [p|p|]; try (by apply elem_of_nil in He); try lia).
Qed.

Lemma cmd_lookup_table pre name rest l :
  (forall e, e ∈ l -> Forall (fun c => is_lower c = true) e.1.1 /\
                      zlen name <= zlen e.1.1 <= zlen name + 1) ->
  cmd_lookup (pre ++ name ++ CR :: rest) (zlen pre) l = Some (find_cmd name l).
Proof.
  induction l as [|e l IH]; intros Hl; [done|]. cbn [cmd_lookup find_cmd].
  destruct (Hl e) as [Hlow Hlen]; [by left|].
  rewrite stricmp_name; [|done|unfold zlen in Hlen; lia]. simpl mbind.
  destruct (decide (e.1.1 = map lower name)) as [Hd|Hd].
  - by rewrite bool_decide_eq_true_2.
  - rewrite bool_decide_eq_false_2 by congruence. apply IH.
    intros e' He'. apply Hl. by right.
Qed.

(** The chain of comparisons of [redis_parse_cmd] on a name followed by CR
    finds exactly the command of that name, and reads inside the buffer. *)
Lemma cmd_lookup_name pre name rest :
  cmd_lookup (pre ++ name ++ CR :: rest) (zlen pre) (cmds_of_length (zlen name)) =
  Some (command_of_name name).
Proof.
  rewrite cmd_lookup_table by (intros e; apply cmds_of_length_wf).
  unfold command_of_name.
  rewrite <- (find_cmd_length name (cmds_of_length _)), <- (find_cmd_length name all_cmds).
  by rewrite cmds_of_length_complete.
Qed.
