(* ===== verification/CommandParser.v ===== *)
(** * command.c: redis_parse_cmd, the command parser

    The state machine that reads a formatted command and records its type and
    keys.  [fsa] holds the local variables of the C function ([p], [state],
    [token], [rlen], [rnarg]) and the command being filled in; each [case] of
    the [switch (state)] is a definition [sw_*]; [step] is the switch and
    [loop] the [for] loop over the buffer.  Lengths are [uint32_t] and wrap.
    A read outside the [clen] bytes of the buffer is a result of its own. *)

From S2P Require Import Prelude Hiutil Hiarray Command.

Inductive sw :=
| SW_START | SW_NARG | SW_NARG_LF
| SW_REQ_TYPE_LEN | SW_REQ_TYPE_LEN_LF | SW_REQ_TYPE | SW_REQ_TYPE_LF
| SW_KEY_LEN | SW_KEY_LEN_LF | SW_KEY | SW_KEY_LF
| SW_ARG1_LEN | SW_ARG1_LEN_LF | SW_ARG1 | SW_ARG1_LF
| SW_ARG2_LEN | SW_ARG2_LEN_LF | SW_ARG2 | SW_ARG2_LF
| SW_ARG3_LEN | SW_ARG3_LEN_LF | SW_ARG3 | SW_ARG3_LF
| SW_ARGN_LEN | SW_ARGN_LEN_LF | SW_ARGN | SW_ARGN_LF
| SW_SENTINEL.

(** The value of the enumeration constant, printed in the error message. *)
Definition sw_num (st : sw) : Z :=
  match st with
  | SW_START => 0 | SW_NARG => 1 | SW_NARG_LF => 2 | SW_REQ_TYPE_LEN => 3
  | SW_REQ_TYPE_LEN_LF => 4 | SW_REQ_TYPE => 5 | SW_REQ_TYPE_LF => 6
  | SW_KEY_LEN => 7 | SW_KEY_LEN_LF => 8 | SW_KEY => 9 | SW_KEY_LF => 10
  | SW_ARG1_LEN => 11 | SW_ARG1_LEN_LF => 12 | SW_ARG1 => 13 | SW_ARG1_LF => 14
  | SW_ARG2_LEN => 15 | SW_ARG2_LEN_LF => 16 | SW_ARG2 => 17 | SW_ARG2_LF => 18
  | SW_ARG3_LEN => 19 | SW_ARG3_LEN_LF => 20 | SW_ARG3 => 21 | SW_ARG3_LF => 22
  | SW_ARGN_LEN => 23 | SW_ARGN_LEN_LF => 24 | SW_ARGN => 25 | SW_ARGN_LF => 26
  | SW_SENTINEL => 27
  end.

Record fsa := mk_fsa {
  p : Z;
  state : sw;
  token : option Z;
  rlen : Z;
  rnarg : Z;
  req : cmd
}.

(** How one iteration of the loop ends: at its bottom (then [p++]), or at one
    of the labels of the function; [Outside] is a read outside the buffer. *)
Inductive step_result :=
| Continue (f : fsa)
| GotoDone (f : fsa)
| GotoEnomem (f : fsa)
| GotoError (f : fsa)
| Outside.

Section parser.
Context (realloc_ok : Z -> bool).
Implicit Types (f : fsa) (ch : ascii).

(** [r->cmd] up to [cmd_end]. *)
Definition buf f : bytes := take (Z.to_nat (clen (req f))) (cmd_buf (req f)).

Definition goto f (st : sw) : fsa :=
  mk_fsa (p f) st (token f) (rlen f) (rnarg f) (req f).

Definition sw_narg f ch : step_result :=
  match token f with
  | None =>
      if negb (bool_decide (ch = "*"%char)) then GotoError f else
      Continue (mk_fsa (p f) SW_NARG (Some (p f)) (rlen f) 0
                  (with_narg_start (req f) (Some (p f))))
  | Some _ =>
      if isdigit ch then
        Continue (mk_fsa (p f) (state f) (token f) (rlen f)
                    (u32 (rnarg f * 10 + digit_val ch)) (req f))
      else if bool_decide (ch = CR) then
        if rnarg f =? 0 then GotoError f else
        Continue (mk_fsa (p f) SW_NARG_LF None (rlen f) (rnarg f)
                    (with_narg (req f) (rnarg f) (Some (p f))))
      else GotoError f
  end.

(** The states that only expect LF and go to the next state. *)
Definition expect_lf f ch (k : fsa -> step_result) : step_result :=
  if bool_decide (ch = LF) then k f else GotoError f.

(** The shape of every [..._LEN] state: "$", digits, CR. *)
Definition bulk_len f ch (on_cr : fsa -> Z -> step_result) : step_result :=
  match token f with
  | None =>
      if negb (bool_decide (ch = "$"%char)) then GotoError f else
      Continue (mk_fsa (p f) (state f) (Some (p f)) 0 (rnarg f) (req f))
  | Some tok =>
      if isdigit ch then
        Continue (mk_fsa (p f) (state f) (token f)
                    (u32 (rlen f * 10 + digit_val ch)) (rnarg f) (req f))
      else if bool_decide (ch = CR) then on_cr f tok
      else GotoError f
  end.

(** [rnarg--; token = NULL; state = st;] *)
Definition take_arg f (st : sw) : step_result :=
  Continue (mk_fsa (p f) st None (rlen f) (u32 (rnarg f - 1)) (req f)).

Definition sw_req_type_len f ch : step_result :=
  bulk_len f ch (fun f _ =>
    if (rlen f =? 0) || (rnarg f =? 0) then GotoError f
    else take_arg f SW_REQ_TYPE_LEN_LF).

(** [m = from + rlen], checked against [cmd_end] and for the CR there; [k]
    continues with [m]. *)
Definition bulk_end f (from : Z) (k : Z -> step_result) : step_result :=
  let m := from + rlen f in
  if clen (req f) <=? m then GotoError f else
  match byte_at (buf f) m with
  | None => Outside
  | Some c => if bool_decide (c = CR) then k m else GotoError f
  end.

(** [case SW_REQ_TYPE]: find the command type of the name. *)
Definition sw_req_type f : step_result :=
  let tok := default (p f) (token f) in
  let f := mk_fsa (p f) (state f) (Some tok) (rlen f) (rnarg f) (req f) in
  bulk_end f tok (fun m =>
    let f' := mk_fsa m (state f) None 0 (rnarg f)
                (with_type (req f) CMD_UNKNOWN (quit (req f)) (noforward (req f))) in
    match cmd_lookup (buf f) tok (cmds_of_length (m - tok)) with
    | None => Outside
    | Some None => GotoError f'
    | Some (Some (_, t, flag)) =>
        let r := with_type (req f) t
          (if flag is flag_quit then true else quit (req f))
          (if flag is flag_noforward then true else noforward (req f)) in
        Continue (mk_fsa m SW_REQ_TYPE_LF None 0 (rnarg f) r)
    end).

Definition sw_req_type_lf f ch : step_result :=
  expect_lf f ch (fun f =>
    let t := type (req f) in
    if redis_argz t then GotoDone f
    else if redis_argeval t then Continue (goto f SW_ARG1_LEN)
    else Continue (goto f SW_KEY_LEN)).

Definition sw_key_len f ch : step_result :=
  bulk_len f ch (fun f _ =>
    if rnarg f =? 0 then GotoError f else take_arg f SW_KEY_LEN_LF).

(** [case SW_KEY]: record a key. *)
Definition sw_key f : step_result :=
  let tok := default (p f) (token f) in
  let f := mk_fsa (p f) (state f) (Some tok) (rlen f) (rnarg f) (req f) in
  bulk_end f tok (fun m =>
    match hiarray_push realloc_ok (keys (req f)) (mk_keypos tok m 0) with
    | PushNull => GotoEnomem (mk_fsa m (state f) None 0 (rnarg f) (req f))
    | PushOutOfBounds => Outside
    | Pushed ks => Continue (mk_fsa m SW_KEY_LF None 0 (rnarg f)
                               (with_keys (req f) ks))
    end).

Definition sw_key_lf f ch : step_result :=
  expect_lf f ch (fun f =>
    let t := type (req f) in
    if redis_arg0 t then
      if negb (rnarg f =? 0) then GotoError f else GotoDone f
    else if redis_arg1 t then
      if negb (rnarg f =? 1) then GotoError f else Continue (goto f SW_ARG1_LEN)
    else if redis_arg2 t then
      if negb (rnarg f =? 2) then GotoError f else Continue (goto f SW_ARG1_LEN)
    else if redis_arg3 t then
      if negb (rnarg f =? 3) then GotoError f else Continue (goto f SW_ARG1_LEN)
    else if redis_argn t then
      if rnarg f =? 0 then GotoDone f else Continue (goto f SW_ARG1_LEN)
    else if redis_argx t then
      if rnarg f =? 0 then GotoDone f else Continue (goto f SW_KEY_LEN)
    else if redis_argkvx t then
      if rnarg f =? 0 then GotoDone f
      else if narg (req f) mod 2 =? 0 then GotoError f
      else Continue (goto f SW_ARG1_LEN)
    else if redis_argeval t then
      if rnarg f =? 0 then GotoDone f else Continue (goto f SW_ARGN_LEN)
    else GotoError f).

(** [if ((p - token) <= 1 || rnarg == 0) goto error;] of the argument
    length states. *)
Definition arg_len (next : sw) f ch : step_result :=
  bulk_len f ch (fun f tok =>
    if (p f - tok <=? 1) || (rnarg f =? 0) then GotoError f
    else take_arg f next).

(** Skip the [rlen] bytes of an argument. *)
Definition arg_body (next : sw) f : step_result :=
  bulk_end f (p f) (fun m =>
    Continue (mk_fsa m next (token f) 0 (rnarg f) (req f))).

Definition sw_arg1_len f ch : step_result := arg_len SW_ARG1_LEN_LF f ch.
Definition sw_arg1 f : step_result := arg_body SW_ARG1_LF f.

Definition sw_arg1_lf f ch : step_result :=
  expect_lf f ch (fun f =>
    let t := type (req f) in
    if redis_arg1 t then
      if negb (rnarg f =? 0) then GotoError f else GotoDone f
    else if redis_arg2 t then
      if negb (rnarg f =? 1) then GotoError f else Continue (goto f SW_ARG2_LEN)
    else if redis_arg3 t then
      if negb (rnarg f =? 2) then GotoError f else Continue (goto f SW_ARG2_LEN)
    else if redis_argn t then
      if rnarg f =? 0 then GotoDone f else Continue (goto f SW_ARGN_LEN)
    else if redis_argeval t then
      if rnarg f <? 2 then GotoError f else Continue (goto f SW_ARG2_LEN)
    else if redis_argkvx t then
      if rnarg f =? 0 then GotoDone f else Continue (goto f SW_KEY_LEN)
    else GotoError f).

Definition sw_arg2_len f ch : step_result := arg_len SW_ARG2_LEN_LF f ch.

(** [for (nkey = 0, chp = token; chp < p; chp++)]: the number of keys of
    EVAL; [None] is a byte that is not a digit. *)
Fixpoint eval_nkey (l : bytes) (nkey : Z) : option Z :=
  match l with
  | [] => Some nkey
  | c :: l' => if isdigit c then eval_nkey l' (u32 (nkey * 10 + digit_val c))
               else None
  end.

(** [case SW_ARG2]: for EVAL and EVALSHA the argument must be a positive
    number. *)
Definition sw_arg2 f : step_result :=
  let eval := redis_argeval (type (req f)) in
  let tok := match token f with
             | None => if eval then Some (p f) else None
             | Some tok => Some tok
             end in
  let f := mk_fsa (p f) (state f) tok (rlen f) (rnarg f) (req f) in
  bulk_end f (p f) (fun m =>
    let f' := mk_fsa m (state f) tok 0 (rnarg f) (req f) in
    if eval then
      let tok := default (p f) tok in
      if m - tok <? 1 then GotoError f' else
      match eval_nkey (slice (buf f) tok m) 0 with
      | None => GotoError f'
      | Some nkey => if nkey =? 0 then GotoError f' else
                     Continue (mk_fsa m SW_ARG2_LF None 0 (rnarg f) (req f))
      end
    else Continue (goto f' SW_ARG2_LF)).

Definition sw_arg2_lf f ch : step_result :=
  expect_lf f ch (fun f =>
    let t := type (req f) in
    if redis_arg2 t then
      if negb (rnarg f =? 0) then GotoError f else GotoDone f
    else if redis_arg3 t then
      if negb (rnarg f =? 1) then GotoError f else Continue (goto f SW_ARG3_LEN)
    else if redis_argn t then
      if rnarg f =? 0 then GotoDone f else Continue (goto f SW_ARGN_LEN)
    else if redis_argeval t then
      if rnarg f <? 1 then GotoError f else Continue (goto f SW_KEY_LEN)
    else GotoError f).

Definition sw_arg3_len f ch : step_result := arg_len SW_ARG3_LEN_LF f ch.
Definition sw_arg3 f : step_result := arg_body SW_ARG3_LF f.

Definition sw_arg3_lf f ch : step_result :=
  expect_lf f ch (fun f =>
    let t := type (req f) in
    if redis_arg3 t then
      if negb (rnarg f =? 0) then GotoError f else GotoDone f
    else if redis_argn t then
      if rnarg f =? 0 then GotoDone f else Continue (goto f SW_ARGN_LEN)
    else GotoError f).

Definition sw_argn_len f ch : step_result := arg_len SW_ARGN_LEN_LF f ch.
Definition sw_argn f : step_result := arg_body SW_ARGN_LF f.

Definition sw_argn_lf f ch : step_result :=
  expect_lf f ch (fun f =>
    let t := type (req f) in
    if redis_argn t || redis_argeval t then
      if rnarg f =? 0 then GotoDone f else Continue (goto f SW_ARGN_LEN)
    else GotoError f).

(** [switch (state)]. *)
Definition step f ch : step_result :=
  match state f with
  | SW_START | SW_NARG => sw_narg f ch
  | SW_NARG_LF => expect_lf f ch (fun f => Continue (goto f SW_REQ_TYPE_LEN))
  | SW_REQ_TYPE_LEN => sw_req_type_len f ch
  | SW_REQ_TYPE_LEN_LF => expect_lf f ch (fun f => Continue (goto f SW_REQ_TYPE))
  | SW_REQ_TYPE => sw_req_type f
  | SW_REQ_TYPE_LF => sw_req_type_lf f ch
  | SW_KEY_LEN => sw_key_len f ch
  | SW_KEY_LEN_LF => expect_lf f ch (fun f => Continue (goto f SW_KEY))
  | SW_KEY => sw_key f
  | SW_KEY_LF => sw_key_lf f ch
  | SW_ARG1_LEN => sw_arg1_len f ch
  | SW_ARG1_LEN_LF => expect_lf f ch (fun f => Continue (goto f SW_ARG1))
  | SW_ARG1 => sw_arg1 f
  | SW_ARG1_LF => sw_arg1_lf f ch
  | SW_ARG2_LEN => sw_arg2_len f ch
  | SW_ARG2_LEN_LF => expect_lf f ch (fun f => Continue (goto f SW_ARG2))
  | SW_ARG2 => sw_arg2 f
  | SW_ARG2_LF => sw_arg2_lf f ch
  | SW_ARG3_LEN => sw_arg3_len f ch
  | SW_ARG3_LEN_LF => expect_lf f ch (fun f => Continue (goto f SW_ARG3))
  | SW_ARG3 => sw_arg3 f
  | SW_ARG3_LF => sw_arg3_lf f ch
  | SW_ARGN_LEN => sw_argn_len f ch
  | SW_ARGN_LEN_LF => expect_lf f ch (fun f => Continue (goto f SW_ARGN))
  | SW_ARGN => sw_argn f
  | SW_ARGN_LF => sw_argn_lf f ch
  | SW_SENTINEL => Continue f
  end.

(** The label [error]: the message is cut to the 100 bytes of the buffer. *)
Definition parse_error f : cmd :=
  let msg := s "Parse command error. Cmd type: " ++
    dec_signed (cmd_type_num (type (req f))) ++ s ", state: " ++
    dec_signed (sw_num (state f)) ++ s ", break position: " ++
    dec_signed (i32 (p f)) ++ s "." in
  with_errstr (with_result (req f) CMD_PARSE_ERROR)
    (Some (vscnprintf 100 msg).1).

Inductive parse_outcome :=
| Parsed (r : cmd)
| ReadOutside
| OutOfFuel.

Definition advance f : fsa :=
  mk_fsa (p f + 1) (state f) (token f) (rlen f) (rnarg f) (req f).

(** [for (p = r->cmd; p < cmd_end; p++)]; leaving the loop at its condition
    returns with [r->result] as it was. *)
Fixpoint loop (fuel : nat) f : parse_outcome :=
  match fuel with
  | O => OutOfFuel
  | S fuel' =>
      if p f <? clen (req f) then
        match byte_at (buf f) (p f) with
        | None => ReadOutside
        | Some ch =>
            match step f ch with
            | Continue f' => loop fuel' (advance f')
            | GotoDone f' => Parsed (with_result (req f') CMD_PARSE_OK)
            | GotoEnomem f' => Parsed (with_result (req f') CMD_PARSE_ENOMEM)
            | GotoError f' => Parsed (parse_error f')
            | Outside => ReadOutside
            end
        end
      else Parsed (req f)
  end.

Definition initial (r : cmd) : fsa := mk_fsa 0 SW_START None 0 0 r.

(** [redis_parse_cmd]: every iteration advances [p], so [clen + 1]
    iterations are enough. *)
Definition redis_parse_cmd (r : cmd) : parse_outcome :=
  loop (S (Z.to_nat (clen r))) (initial r).
End parser.

(** ** Safety: the parser stays in its buffer, terminates, and records several
    keys only for MGET, DEL and MSET *)

Definition multi_key (t : cmd_type) : bool := redis_argx t || redis_argkvx t.

(** What the state says about the number of keys recorded so far. *)
Definition keys_ok (f : fsa) : Prop :=
  let n := nelem (keys (req f)) in
  let t := type (req f) in
  match state f with
  | SW_START | SW_NARG | SW_NARG_LF | SW_REQ_TYPE_LEN | SW_REQ_TYPE_LEN_LF
  | SW_REQ_TYPE | SW_REQ_TYPE_LF => n = 0
  | SW_KEY_LEN | SW_KEY_LEN_LF | SW_KEY => n = 0 \/ multi_key t = true
  | SW_ARG1_LEN | SW_ARG1_LEN_LF | SW_ARG1 | SW_ARG1_LF
  | SW_ARG2_LEN | SW_ARG2_LEN_LF | SW_ARG2 | SW_ARG2_LF =>
      (redis_argeval t = true -> n = 0) /\ (n <= 1 \/ multi_key t = true)
  | _ => n <= 1 \/ multi_key t = true
  end.

(** The states that are only reached with [token == NULL]. *)
Definition token_free (st : sw) : bool :=
  match st with
  | SW_REQ_TYPE_LEN_LF | SW_REQ_TYPE | SW_KEY_LEN_LF | SW_KEY => true
  | _ => false
  end.

(** The bounds on the locals: [token] and [rlen] never point backwards or below
    the buffer, and the key array grows slower than the position. *)
Definition fsa_ok (f : fsa) : Prop :=
  0 <= p f /\ 0 <= rlen f /\
  (forall tok, token f = Some tok -> 0 <= tok <= p f) /\
  (token_free (state f) = true -> token f = None) /\
  clen (req f) <= zlen (cmd_buf (req f)) /\ clen (req f) <= 2 ^ 30 /\
  hiarray_wf (keys (req f)) /\ nelem (keys (req f)) <= p f /\
  nalloc (keys (req f)) <= 2 * nelem (keys (req f)) + 1 /\
  keys_ok f.

(** What every result of the function satisfies. *)
Definition cmd_ok (r : cmd) : Prop :=
  nelem (keys r) <= 1 \/ multi_key (type r) = true.

Definition same_buffer (f f' : fsa) : Prop :=
  clen (req f') = clen (req f) /\ cmd_buf (req f') = cmd_buf (req f).

Definition step_ok (f : fsa) (sr : step_result) : Prop :=
  match sr with
  | Continue f' => p f <= p f' /\ same_buffer f f' /\ fsa_ok (advance f')
  | GotoDone f' | GotoEnomem f' | GotoError f' => cmd_ok (req f')
  | Outside => False
  end.

Lemma keys_ok_cmd_ok f : keys_ok f -> cmd_ok (req f).
Proof. unfold keys_ok, cmd_ok. destruct (state f); lia || tauto || intros []; lia || tauto. Qed.

Lemma eval_disjoint t :
  redis_arg1 t || redis_arg2 t || redis_arg3 t || redis_argn t || redis_argkvx t = true ->
  redis_argeval t = false.
Proof. by destruct t. Qed.

Lemma zlen_buf f : 0 <= clen (req f) <= zlen (cmd_buf (req f)) -> zlen (buf f) = clen (req f).
Proof. intros H. unfold buf, zlen in *. rewrite length_take. lia. Qed.

Lemma fsa_ok_rlen f : fsa_ok f -> 0 <= rlen f.
Proof. by intros (_ & H & _). Qed.
Lemma fsa_ok_p f : fsa_ok f -> 0 <= p f.
Proof. by intros (H & _). Qed.
Lemma fsa_ok_keys f : fsa_ok f -> keys_ok f.
Proof. by intros (_ & _ & _ & _ & _ & _ & _ & _ & _ & H). Qed.
Lemma fsa_ok_token f : fsa_ok f -> token_free (state f) = true -> token f = None.
Proof. by intros (_ & _ & _ & H & _). Qed.
Lemma fsa_ok_cmd f : fsa_ok f -> cmd_ok (req f).
Proof. intros H. by apply keys_ok_cmd_ok, fsa_ok_keys. Qed.
#[export] Hint Resolve fsa_ok_rlen fsa_ok_p fsa_ok_keys fsa_ok_cmd : hv.

(** Continuing with the same keys. *)
Lemma continue_ok f f' :
  fsa_ok f -> p f <= p f' -> 0 <= rlen f' ->
  (forall tok, token f' = Some tok -> token f = Some tok \/ tok = p f) ->
  (token_free (state f') = true -> token f' = None) ->
  same_buffer f f' -> keys (req f') = keys (req f) -> keys_ok f' ->
  step_ok f (Continue f').
Proof.
  intros (Hp & Hr & Ht & Htf & Hc & Hcl & Hw & Hn & Ha & Hk) Hp' Hr' Ht' Htf' Hb He Hk'.
  destruct Hb as [Hb1 Hb2]. split; [done|]. split; [done|].
  unfold fsa_ok, advance. cbn. rewrite Hb1, Hb2, He.
  repeat split; try lia; try done.
  - destruct (Ht' _ H) as [Hx| ->]; [|lia]. specialize (Ht _ Hx). lia.
  - destruct (Ht' _ H) as [Hx| ->]; [|lia]. specialize (Ht _ Hx). lia.
  - apply Hw.
  - apply Hw.
  - apply Hw.
  - apply Hw.
Qed.

(** Continuing in another state only. *)
Lemma goto_ok f st :
  fsa_ok f -> (token_free st = true -> token f = None) -> keys_ok (goto f st) ->
  step_ok f (Continue (goto f st)).
Proof.
  intros Hf Ht Hk. apply continue_ok; try done; cbn; auto with hv.
Qed.

Lemma expect_lf_ok f ch k :
  fsa_ok f -> step_ok f (k f) -> step_ok f (expect_lf f ch k).
Proof.
  intros Hf Hk. unfold expect_lf. destruct (bool_decide _); [done|].
  by apply fsa_ok_cmd.
Qed.

Lemma bulk_len_ok f ch on_cr :
  fsa_ok f -> token_free (state f) = false ->
  (forall tok, token f = Some tok -> step_ok f (on_cr f tok)) ->
  step_ok f (bulk_len f ch on_cr).
Proof.
  intros Hf Hst Hcr. pose proof (fsa_ok_cmd f Hf).
  unfold bulk_len. destruct (token f) as [tok|] eqn:Et.
  - destruct (isdigit ch).
    { apply continue_ok; cbn; auto with hv; try done; 
        [apply u32_range|left; congruence|congruence|exact (fsa_ok_keys f Hf)]. }
    destruct (bool_decide _); [|done]. by apply Hcr.
  - destruct (negb _); [done|].
    apply continue_ok; cbn; auto with hv; try done;
      [|congruence|exact (fsa_ok_keys f Hf)].
    intros tok [= ->]. by right.
Qed.

Lemma take_arg_ok f st :
  fsa_ok f -> keys_ok (goto f st) -> step_ok f (take_arg f st).
Proof. intros Hf Hk. apply continue_ok; cbn; auto with hv; done. Qed.

Lemma arg_len_ok f ch next :
  fsa_ok f -> token_free (state f) = false -> keys_ok (goto f next) ->
  step_ok f (arg_len next f ch).
Proof.
  intros Hf Hst Hk. apply bulk_len_ok; [done..|]. intros tok _.
  destruct (_ || _); [|by apply take_arg_ok]. by apply fsa_ok_cmd.
Qed.

Lemma bulk_end_ok h f from (k : Z -> step_result) :
  fsa_ok h -> req f = req h -> rlen f = rlen h -> 0 <= from ->
  (forall m, m = from + rlen h -> m < clen (req h) -> step_ok h (k m)) ->
  step_ok h (bulk_end f from k).
Proof.
  intros Hf Hq Hl Hfr Hk. pose proof (fsa_ok_cmd h Hf) as Hok.
  unfold bulk_end, buf. rewrite Hq, Hl. fold (buf h).
  destruct (Z.leb_spec (clen (req h)) (from + rlen h)); [cbn; by rewrite Hq|].
  destruct Hf as (Hp & Hr & _ & _ & Hc & _).
  destruct (byte_at_is_Some (buf h) (from + rlen h)) as [c ->].
  { rewrite zlen_buf; lia. }
  destruct (bool_decide _); [by apply Hk | cbn; by rewrite Hq].
Qed.

Lemma arg_body_ok f next :
  fsa_ok f -> token_free next = false -> keys_ok (goto f next) ->
  step_ok f (arg_body next f).
Proof.
  intros Hf Hn Hk. apply bulk_end_ok; [done..|by apply fsa_ok_p|].
  intros m -> Hm. apply continue_ok; cbn; try done; [|auto|by rewrite Hn].
  destruct Hf as (? & ? & _). lia.
Qed.

(** Goals [keys_ok (goto f st)] from the invariant of [f]. *)
Ltac solve_keys Hf Est :=
  let Hk := fresh "Hk" in
  pose proof (fsa_ok_keys _ Hf) as Hk;
  unfold keys_ok, cmd_ok, multi_key in *; rewrite Est in Hk; cbn in *;
  repeat match goal with
         | H : ?b = true |- context [?b] => rewrite H
         | H : ?b = false |- context [?b] => rewrite H
         end;
  intuition (try lia; try congruence).

(** The dispatch after an LF: every exit keeps the invariant. *)
Ltac solve_lf Hf Est :=
  apply expect_lf_ok; [exact Hf|]; cbn zeta;
  repeat match goal with
         | |- context [if ?b then _ else _] =>
             let E := fresh "E" in
             destruct b eqn:E; try (apply fsa_ok_cmd; exact Hf)
         end;
  (apply goto_ok; [exact Hf | cbn; try done;
     try (intros _; apply (fsa_ok_token _ Hf); by rewrite Est) |]);
  repeat match goal with
         | E : redis_arg1 ?t = true |- _ =>
             pose proof (eval_disjoint t ltac:(by rewrite E)); clear E
         | E : redis_arg2 ?t = true |- _ =>
             pose proof (eval_disjoint t ltac:(by rewrite E, orb_true_r)); clear E
         | E : redis_arg3 ?t = true |- _ =>
             pose proof (eval_disjoint t ltac:(by rewrite E, !orb_true_r)); clear E
         | E : redis_argn ?t = true |- _ =>
             pose proof (eval_disjoint t ltac:(by rewrite E, !orb_true_r)); clear E
         end;
  try match goal with
      | E : redis_argkvx ?t = true |- _ =>
          pose proof (eval_disjoint t ltac:(by rewrite E, !orb_true_r))
      end;
  solve_keys Hf Est.

Lemma sw_narg_ok f ch :
  fsa_ok f -> state f = SW_START \/ state f = SW_NARG -> step_ok f (sw_narg f ch).
Proof.
  intros Hf Hst. pose proof (fsa_ok_cmd f Hf).
  assert (nelem (keys (req f)) = 0) as Hn.
  { pose proof (fsa_ok_keys f Hf) as Hk. unfold keys_ok in Hk.
    by destruct Hst as [-> | ->] in Hk. }
  unfold sw_narg. destruct (token f) as [tok|] eqn:Et.
  - destruct (isdigit ch).
    { apply continue_ok; cbn; auto with hv; try done;
        [left; congruence | by destruct Hst as [-> | ->] | exact (fsa_ok_keys f Hf)]. }
    destruct (bool_decide _); [|done]. destruct (rnarg f =? 0); [done|].
    apply continue_ok; cbn; auto with hv; done.
  - destruct (negb _); [done|]. apply continue_ok; cbn; auto with hv; try done.
    intros tok [= ->]. by right.
Qed.

(** Every name read by the lookup lies before the CR that ended it. *)
Lemma cmd_lookup_inside b m l :
  0 <= m -> (forall e, e ∈ l -> m + zlen e.1.1 <= zlen b) ->
  is_Some (cmd_lookup b m l).
Proof.
  intros Hm. induction l as [|e l IH]; intros Hl; cbn [cmd_lookup]; [eauto|].
  assert (forall pat n, 0 <= n -> n + zlen pat <= zlen b -> is_Some (stricmp b n pat)) as Hs.
  { induction pat as [|c pat IHp]; intros n Hn0 Hn; cbn [stricmp]; [eauto|].
    rewrite zlen_cons in Hn. pose proof (zlen_nonneg pat).
    destruct (byte_at_is_Some b n) as [x ->]; [lia|]. cbn [mbind option_bind].
    destruct (_ || _); [|eauto]. apply IHp; lia. }
  destruct (Hs e.1.1 m Hm) as [hit ->]; [apply Hl; by left|]. cbn [mbind option_bind].
  destruct hit; [eauto|]. apply IH. intros e' He. apply Hl. by right.
Qed.

Lemma sw_req_type_ok f :
  fsa_ok f -> state f = SW_REQ_TYPE -> step_ok f (sw_req_type f).
Proof.
  intros Hf Est. pose proof (fsa_ok_token f Hf) as Ht. rewrite Est in Ht.
  specialize (Ht eq_refl). pose proof (fsa_ok_keys f Hf) as Hk.
  unfold keys_ok in Hk. rewrite Est in Hk.
  unfold sw_req_type. rewrite Ht. cbn [default from_option id].
  apply bulk_end_ok; [done..|by apply fsa_ok_p|]. intros m -> Hm. cbn [req buf].
  set (n := p f + rlen f - p f).
  assert (is_Some (cmd_lookup (buf f) (p f) (cmds_of_length n))) as [o Ho].
  { pose proof (fsa_ok_p f Hf). apply cmd_lookup_inside; [done|].
    intros e He. destruct (cmds_of_length_wf n e He) as [_ He2].
    destruct Hf as (_ & Hr & _ & _ & Hc & _). rewrite zlen_buf by lia. lia. }
  unfold buf in *. cbn [req]. rewrite Ho.
  destruct o as [[[name t] flag]|]; [|unfold step_ok, cmd_ok; cbn; left; lia].
  apply continue_ok; cbn; try done. pose proof (fsa_ok_rlen f Hf). lia.
Qed.

Lemma sw_key_ok realloc_ok f :
  fsa_ok f -> p f < clen (req f) -> state f = SW_KEY ->
  step_ok f (sw_key realloc_ok f).
Proof.
  intros Hf Hpc Est. pose proof (fsa_ok_token f Hf) as Ht. rewrite Est in Ht.
  specialize (Ht eq_refl). pose proof (fsa_ok_keys f Hf) as Hk.
  unfold keys_ok in Hk. rewrite Est in Hk.
  unfold sw_key. rewrite Ht. cbn [default from_option id].
  apply bulk_end_ok; [done..|by apply fsa_ok_p|]. intros m -> Hm. cbn [req].
  destruct Hf as (Hp & Hr & _ & _ & Hc & Hcl & Hw & Hn & Ha & _).
  pose proof (hiarray_push_spec realloc_ok (keys (req f))
    (mk_keypos (p f) (p f + rlen f) 0) Hw) as Hs.
  destruct (hiarray_push _ _ _) as [ks| |]; [| |done].
  - destruct Hs as (He & Hn' & Hle & _ & Hal). destruct Hw as (Hw1 & Hw2 & Hw3).
    assert (nelem ks = nelem (keys (req f)) + 1) as Hn1.
    { rewrite Hn', He, zlen_app, zlen_singleton. lia. }
    split; [cbn; lia|]. split; [done|].
    unfold fsa_ok, advance, keys_ok, hiarray_wf. cbn.
    repeat split; try lia; try done. destruct Hk; [left; lia|by right].
  - cbn. unfold cmd_ok. cbn. destruct Hk; [left; lia|by right].
Qed.

Lemma sw_arg2_ok f : fsa_ok f -> state f = SW_ARG2 -> step_ok f (sw_arg2 f).
Proof.
  intros Hf Est. pose proof (fsa_ok_cmd f Hf). unfold sw_arg2.
  apply bulk_end_ok; [done..|exact (fsa_ok_p f Hf)|]. intros m -> Hm.
  pose proof (fsa_ok_rlen f Hf).
  assert (keys_ok (goto f SW_ARG2_LF)) as Hk by solve_keys Hf Est.
  destruct (redis_argeval (type (req f))) eqn:Ee.
  - destruct (_ <? 1); [done|]. destruct (eval_nkey _ _) as [nkey|]; [|done].
    destruct (nkey =? 0); [done|]. apply continue_ok; cbn; try done. lia.
  - apply continue_ok; cbn; try done; [lia|].
    intros tok. destruct (token f); [auto|done].
Qed.

Lemma step_preserves_ok realloc_ok f ch :
  fsa_ok f -> p f < clen (req f) -> step_ok f (step realloc_ok f ch).
Proof.
  intros Hf Hp. unfold step. destruct (state f) eqn:Est.
  - apply sw_narg_ok; auto.
  - apply sw_narg_ok; auto.
  - solve_lf Hf Est.
  - apply bulk_len_ok; [done|by rewrite Est|]. intros tok _.
    destruct (_ || _); [by apply fsa_ok_cmd|]. apply take_arg_ok; [done|].
    solve_keys Hf Est.
  - solve_lf Hf Est.
  - by apply sw_req_type_ok.
  - unfold sw_req_type_lf. solve_lf Hf Est.
  - apply bulk_len_ok; [done|by rewrite Est|]. intros tok _.
    destruct (_ =? 0); [by apply fsa_ok_cmd|]. apply take_arg_ok; [done|].
    solve_keys Hf Est.
  - solve_lf Hf Est.
  - by apply sw_key_ok.
  - unfold sw_key_lf. solve_lf Hf Est.
  - apply arg_len_ok; [done|by rewrite Est|]. solve_keys Hf Est.
  - solve_lf Hf Est.
  - apply arg_body_ok; [done..|]. solve_keys Hf Est.
  - unfold sw_arg1_lf. solve_lf Hf Est.
  - apply arg_len_ok; [done|by rewrite Est|]. solve_keys Hf Est.
  - solve_lf Hf Est.
  - by apply sw_arg2_ok.
  - unfold sw_arg2_lf. solve_lf Hf Est.
  - apply arg_len_ok; [done|by rewrite Est|]. solve_keys Hf Est.
  - solve_lf Hf Est.
  - apply arg_body_ok; [done..|]. solve_keys Hf Est.
  - unfold sw_arg3_lf. solve_lf Hf Est.
  - apply arg_len_ok; [done|by rewrite Est|]. solve_keys Hf Est.
  - solve_lf Hf Est.
  - apply arg_body_ok; [done..|]. solve_keys Hf Est.
  - unfold sw_argn_lf. solve_lf Hf Est.
  - replace f with (goto f SW_SENTINEL) at 2 by (destruct f; cbn in *; by subst).
    apply goto_ok; [done|done|]. solve_keys Hf Est.
Qed.

Lemma loop_ok realloc_ok fuel : forall f,
  fsa_ok f -> clen (req f) - p f < Z.of_nat fuel -> (fuel <> 0)%nat ->
  exists r, loop realloc_ok fuel f = Parsed r /\ cmd_ok r.
Proof.
  induction fuel as [|fuel IH]; intros f Hf Hfu Hnz; [done|]. cbn [loop].
  pose proof (fsa_ok_cmd f Hf) as Hok.
  destruct (Z.ltb_spec (p f) (clen (req f))); [|eauto].
  destruct (byte_at_is_Some (buf f) (p f)) as [ch ->].
  { pose proof Hf as (Hp & _ & _ & _ & Hc & _). rewrite zlen_buf; lia. }
  pose proof (step_preserves_ok realloc_ok f ch Hf ltac:(done)) as Hs.
  destruct (step realloc_ok f ch) as [f'|f'|f'|f'|]; cbn in Hs; [|eauto..|done].
  destruct Hs as (Hp' & [Hc' _] & Hf'). apply IH; [done| |].
  - cbn. lia.
  - lia.
Qed.

(** A command as [command_get] and its callers hand it to the parser. *)
Definition parse_ready (r : cmd) : Prop :=
  0 <= clen r <= zlen (cmd_buf r) /\ clen r <= 2 ^ 30 /\
  elem (keys r) = [] /\ nelem (keys r) = 0 /\ nalloc (keys r) = 1.

Lemma initial_ok r : parse_ready r -> fsa_ok (initial r).
Proof.
  intros (Hc & Hl & He & Hn & Ha). unfold fsa_ok, keys_ok, hiarray_wf. cbn.
  rewrite He, Hn, Ha. repeat split; try lia; try done.
Qed.

(** C15: on a fresh command of at most 1 GiB, whatever its bytes and whatever
    the allocator does, [redis_parse_cmd] returns (the loop ends), it reads only
    the [clen] bytes of the buffer (the name comparisons included), and more
    than one key is recorded only for a command of the MGET/DEL or MSET
    classes, the ones the cluster code can split. *)
Theorem redis_parse_cmd_safe (realloc_ok : Z -> bool) (r : cmd) :
  parse_ready r ->
  exists r', redis_parse_cmd realloc_ok r = Parsed r' /\
             (1 < nelem (keys r') -> multi_key (type r') = true).
Proof.
  intros Hr. pose proof (initial_ok r Hr) as Hf. destruct Hr as (Hc & _).
  destruct (loop_ok realloc_ok (S (Z.to_nat (clen r))) (initial r) Hf)
    as (r' & Hl & Hok); [cbn; lia|done|].
  exists r'. split; [exact Hl|]. intros Hn. destruct Hok; [lia|done].
Qed.

(** A command for the examples and witnesses. *)
Definition new_cmd (b : bytes) : cmd :=
  mk_cmd 1 CMD_PARSE_OK None CMD_UNKNOWN b (zlen b)
    (mk_hiarray [] 0 24 1) None None 0 false false (-1).

Lemma redis_parse_cmd_safe_witness :
  exists r', redis_parse_cmd (fun _ => true)
      (new_cmd (s "*3" ++ CRLF ++ s "$4" ++ CRLF ++ s "MGET" ++ CRLF ++ s "$7777777")) =
    Parsed r' /\ (1 < nelem (keys r') -> multi_key (type r') = true).
Proof. apply redis_parse_cmd_safe. unfold parse_ready. zcompute. Defined.
