(* ===== verification/CommandSpec.v ===== *)
(** * redis_parse_cmd against the protocol

    An abstract specification of the parser on well formed requests:
    [spec_parse] says which command type and which arguments are the keys, or
    that the command is rejected.  The refinement theorem shows that the state
    machine of [CommandParser] computes exactly this on every request. *)

From S2P Require Import Prelude Hiutil Hiarray Resp Command CommandParser.

(** ** The specification *)

(** The argument indices of the keys, given the arguments after the name.
    A command cut short right after its name is accepted with no key: the loop
    of the parser ends there with the result still [CMD_PARSE_OK]. *)
Definition keys_of_args (a : arity) (rest : list bytes) : option (list nat) :=
  let n := length rest in
  match a, rest with
  | ArityZ, _ => Some []
  | _, [] => Some []
  | Arity0, _ => if decide (n = 1%nat) then Some [1%nat] else None
  | Arity1, _ => if decide (n = 2%nat) then Some [1%nat] else None
  | Arity2, _ => if decide (n = 3%nat) then Some [1%nat] else None
  | Arity3, _ => if decide (n = 4%nat) then Some [1%nat] else None
  | ArityN, _ => Some [1%nat]
  | ArityX, _ => Some (seq 1 n)
  | ArityKVX, _ =>
      if decide (n = 1%nat) then Some [1%nat]
      else if Nat.even n then Some (map (fun i => 2 * i + 1)%nat (seq 0 (n / 2)))
      else None
  | ArityEval, _ :: nk :: _ :: _ =>
      match eval_nkey nk 0 with
      | Some k => if k =? 0 then None else Some [3%nat]
      | None => None
      end
  | ArityEval, _ => None
  end.

Definition spec_parse (args : list bytes) : option (cmd_type * list nat) :=
  match args with
  | [] => None
  | name :: rest =>
      e ← command_of_name name;
      a ← arity_of e.1.2;
      ks ← keys_of_args a rest;
      Some (e.1.2, ks)
  end.

(** The key position of argument [i]. *)
Definition keypos_of (args : list bytes) (i : nat) : keypos :=
  mk_keypos (arg_offset args i) (arg_offset args i + zlen (default [] (args !! i))) 0.

(** ** Running the machine *)

Definition u32_value (l : bytes) (v : Z) : Z :=
  fold_left (fun v c => u32 (v * 10 + digit_val c)) l v.

Lemma u32_value_digits l : forall v,
  Forall (fun c => isdigit c = true) l -> 0 <= v ->
  fold_left (fun v c => v * 10 + digit_val c) l v < 2 ^ 32 ->
  u32_value l v = fold_left (fun v c => v * 10 + digit_val c) l v.
Proof.
  unfold u32_value. induction l as [|c l IH]; intros v Hd Hv Hb; [done|].
  cbn [fold_left] in *. apply Forall_cons in Hd as [Hc Hd].
  pose proof (proj1 (isdigit_range c) Hc) as Hr.
  pose proof (dec_fold_ge l (v * 10 + digit_val c) Hd ltac:(lia)) as Hge.
  rewrite u32_small by lia. apply IH; [done|lia|done].
Qed.

Lemma u32_value_dec n : 0 <= n < 2 ^ 32 -> u32_value (dec n) 0 = n.
Proof.
  intros Hn. pose proof (dec_value_dec n ltac:(lia)) as Hv. unfold dec_value in Hv.
  rewrite u32_value_digits; [done|apply dec_digits; lia|lia|lia].
Qed.

Section run.
Context (realloc_ok : Z -> bool) (Q : cmd -> Prop).

(** The loop from [f] returns a command satisfying [Q]. *)
Definition Reaches (f : fsa) : Prop :=
  exists n r, loop realloc_ok n f = Parsed r /\ Q r.

Lemma loop_mono n m f r :
  (n <= m)%nat -> loop realloc_ok n f = Parsed r -> loop realloc_ok m f = Parsed r.
Proof.
  revert m f. induction n as [|n IH]; intros m f Hm Hl; [done|].
  destruct m as [|m]; [lia|]. cbn [loop] in *.
  destruct (p f <? clen (req f)); [|done]. destruct (byte_at _ _); [|done].
  destruct (step _ _ _); try done. apply IH; [lia|done].
Qed.

Context (total : bytes).
Definition holds (r : cmd) : Prop := cmd_buf r = total /\ clen r = zlen total.

Lemma buf_holds f : holds (req f) -> buf f = total.
Proof.
  intros [H1 H2]. unfold buf. rewrite H1, H2. apply take_ge. unfold zlen. lia.
Qed.

(** One iteration at a byte of the buffer. *)
Lemma reaches_iter f ch :
  holds (req f) -> byte_at total (p f) = Some ch ->
  match step realloc_ok f ch with
  | Continue f' => Reaches (advance f')
  | GotoDone f' => Q (with_result (req f') CMD_PARSE_OK)
  | GotoEnomem f' => Q (with_result (req f') CMD_PARSE_ENOMEM)
  | GotoError f' => Q (parse_error f')
  | Outside => False
  end -> Reaches f.
Proof.
  intros Hh Hb Hs. pose proof (byte_at_Some _ _ _ Hb) as Hr.
  assert (forall n, loop realloc_ok (S n) f =
    match step realloc_ok f ch with
    | Continue f' => loop realloc_ok n (advance f')
    | GotoDone f' => Parsed (with_result (req f') CMD_PARSE_OK)
    | GotoEnomem f' => Parsed (with_result (req f') CMD_PARSE_ENOMEM)
    | GotoError f' => Parsed (parse_error f')
    | Outside => ReadOutside
    end) as Hl.
  { intros n. cbn [loop]. rewrite buf_holds, Hb by done.
    destruct Hh as [_ ->]. destruct (Z.ltb_spec (p f) (zlen total)); [done|lia]. }
  destruct (step realloc_ok f ch) as [f'|f'|f'|f'|]; [|exists 1%nat; eauto..|done].
  destruct Hs as (n & r & Hn & Hq). exists (S n), r. by rewrite Hl.
Qed.

Lemma reaches_end f : holds (req f) -> p f = zlen total -> Q (req f) -> Reaches f.
Proof.
  intros [_ Hc] Hp Hq. exists 1%nat, (req f). cbn [loop].
  rewrite Hc, Hp, Z.ltb_irrefl. done.
Qed.

(** The digits of a length in any [..._LEN] state. *)
Lemma reaches_len_digits st on_cr tok rn r rest ds : forall pre rl,
  (forall f ch, state f = st -> step realloc_ok f ch = bulk_len f ch on_cr) ->
  holds r -> total = pre ++ ds ++ rest -> Forall (fun c => isdigit c = true) ds ->
  Reaches (mk_fsa (zlen (pre ++ ds)) st (Some tok) (u32_value ds rl) rn r) ->
  Reaches (mk_fsa (zlen pre) st (Some tok) rl rn r).
Proof.
  induction ds as [|c ds IH]; intros pre rl Hst Hh Ht Hd HR.
  { by rewrite app_nil_r in HR. }
  apply Forall_cons in Hd as [Hc Hd].
  apply (reaches_iter _ c); [done|rewrite Ht; apply byte_at_app|].
  rewrite Hst by done. unfold bulk_len. cbn [token]. rewrite Hc.
  unfold advance. cbn. replace (zlen pre + 1) with (zlen (pre ++ [c])) by zlen_lia.
  apply IH; [done|done| |done|].
  - by rewrite <- app_assoc.
  - by rewrite <- app_assoc.
Qed.

(** A bulk header in a [..._LEN] state followed by its [..._LEN_LF] state. *)
Lemma reaches_header st st_lf next on_cr rl rn rn' r a pre rest :
  (forall f ch, state f = st -> step realloc_ok f ch = bulk_len f ch on_cr) ->
  (forall f ch, state f = st_lf ->
     step realloc_ok f ch = expect_lf f ch (fun f => Continue (goto f next))) ->
  (forall tok, 1 <= zlen (dec (zlen a)) ->
     on_cr (mk_fsa (tok + 1 + zlen (dec (zlen a))) st (Some tok) (zlen a) rn r) tok =
     Continue (mk_fsa (tok + 1 + zlen (dec (zlen a))) st_lf None (zlen a) rn' r)) ->
  holds r -> total = pre ++ bulk_header a ++ rest -> zlen a < 2 ^ 32 ->
  Reaches (mk_fsa (zlen (pre ++ bulk_header a)) next None (zlen a) rn' r) ->
  Reaches (mk_fsa (zlen pre) st None rl rn r).
Proof.
  intros Hst Hlf Hcr Hh Ht Ha HR.
  pose proof (zlen_nonneg a). pose proof (dec_length (zlen a) ltac:(done)) as (Hd & _).
  unfold bulk_header, CRLF in Ht. cbn [app] in Ht.
  apply (reaches_iter _ "$"%char); [done|rewrite Ht; apply byte_at_app|].
  rewrite Hst by done. unfold bulk_len. cbn [token]. rewrite bool_decide_eq_true_2 by done.
  cbn [negb]. unfold advance. cbn.
  replace (zlen pre + 1) with (zlen (pre ++ ["$"%char])) by zlen_lia.
  apply (reaches_len_digits _ on_cr _ _ _ (CR :: LF :: rest) (dec (zlen a)));
    [done|done| |by apply dec_digits|].
  { rewrite Ht. by rewrite <- !app_assoc. }
  rewrite u32_value_dec by lia.
  assert (total = (pre ++ "$"%char :: dec (zlen a)) ++ CR :: LF :: rest) as Ht2
    by (rewrite Ht; by rewrite <- !app_assoc).
  replace ((pre ++ ["$"%char]) ++ dec (zlen a)) with (pre ++ "$"%char :: dec (zlen a))
    by (by rewrite <- app_assoc).
  apply (reaches_iter _ CR); [done|cbn [p]; rewrite Ht2; apply byte_at_app|].
  rewrite Hst by done. unfold bulk_len. cbn [token].
  rewrite not_isdigit_CR, bool_decide_eq_true_2 by done.
  replace (zlen (pre ++ "$"%char :: dec (zlen a)))
    with (zlen pre + 1 + zlen (dec (zlen a))) by zlen_lia.
  rewrite Hcr by done. unfold advance. cbn.
  assert (total = (pre ++ "$"%char :: dec (zlen a) ++ [CR]) ++ LF :: rest) as Ht3
    by (rewrite Ht; rewrite <- !app_assoc; cbn; by rewrite <- !app_assoc).
  replace (zlen pre + 1 + zlen (dec (zlen a)) + 1)
    with (zlen (pre ++ "$"%char :: dec (zlen a) ++ [CR])) by zlen_lia.
  apply (reaches_iter _ LF); [done|cbn [p]; rewrite Ht3; apply byte_at_app|].
  rewrite Hlf by done. unfold expect_lf. rewrite bool_decide_eq_true_2 by done.
  unfold advance. cbn. unfold bulk_header in HR.
  replace (zlen (pre ++ "$"%char :: dec (zlen a) ++ [CR]) + 1)
    with (zlen (pre ++ "$"%char :: dec (zlen a) ++ CRLF)) by zlen_lia.
  exact HR.
Qed.
End run.

(** Parity of a number of arguments. *)
Lemma zlen_odd {A} (l m : list A) j k :
  length l = (2 * j)%nat -> length m = (2 * k + 1)%nat ->
  (zlen (l ++ m) mod 2 =? 0) = false.
Proof.
  intros Hl Hm. unfold zlen. rewrite length_app, Hl, Hm.
  replace (Z.of_nat _) with (1 + Z.of_nat (j + k) * 2) by lia.
  by rewrite Z_mod_plus_full.
Qed.

Lemma zlen_even {A} (l m : list A) j k :
  length l = (2 * j)%nat -> length m = (2 * k)%nat ->
  (zlen (l ++ m) mod 2 =? 0) = true.
Proof.
  intros Hl Hm. unfold zlen. rewrite length_app, Hl, Hm.
  replace (Z.of_nat _) with (0 + Z.of_nat (j + k) * 2) by lia.
  by rewrite Z_mod_plus_full.
Qed.

Lemma keys_of_pairs rest j :
  length rest = (2 * j)%nat -> rest <> [] ->
  keys_of_args ArityKVX rest = Some (map (fun i => 2 * i + 1)%nat (seq 0 j)).
Proof.
  intros Hl Hne. destruct rest as [|x l]; [done|].
  unfold keys_of_args. rewrite Hl. destruct (decide _); [lia|].
  by rewrite Nat.even_even, (Nat.mul_comm 2 j), Nat.div_mul by done.
Qed.

Lemma keys_of_odd rest k :
  length rest = (2 * k + 1)%nat -> length rest <> 1%nat ->
  keys_of_args ArityKVX rest = None.
Proof.
  intros Hl Hne. destruct rest as [|x l]; [cbn in Hl; lia|].
  unfold keys_of_args. rewrite Hl in Hne |- *. destruct (decide _); [lia|].
  by rewrite Nat.even_odd.
Qed.

(** ** The machine on a request *)

Section request.
Context (realloc_ok : Z -> bool) (Q : cmd -> Prop) (args : list bytes).
Hypothesis Halloc : forall n, realloc_ok n = true.
Hypothesis Hsize : zlen (request args) <= 2 ^ 30.

Let h := request_header (zlen args).
Abbreviation reach := (Reaches realloc_ok Q).
Abbreviation holding := (holds (request args)).

(** The machine at the header of the first argument of [todo], and at the LF
    that ends the last argument of [dn]. *)
Definition at_len st (dn todo : list bytes) rl r : fsa :=
  mk_fsa (zlen (h ++ bulks dn)) st None rl (zlen todo) r.
Definition at_lf st (dn todo : list bytes) r : fsa :=
  mk_fsa (zlen (h ++ bulks dn) - 1) st None 0 (zlen todo) r.

Lemma request_split dn a todo :
  args = dn ++ a :: todo ->
  request args = (h ++ bulks dn) ++ bulk_header a ++ a ++ CR :: LF :: bulks todo.
Proof.
  intros Ha. unfold request. fold h. rewrite Ha at 1.
  rewrite bulks_app, bulks_cons. unfold bulk. rewrite <- !app_assoc. done.
Qed.

Lemma args_le : zlen args <= 2 ^ 30.
Proof. pose proof (zlen_bulks_ge args). unfold request in Hsize. zlen_lia. Qed.

Lemma arg_le dn a todo : args = dn ++ a :: todo -> zlen a <= 2 ^ 30.
Proof.
  intros Ha. assert (a ∈ args) as Hin by (rewrite Ha; set_solver).
  pose proof (zlen_bulks_in a args Hin). unfold request in Hsize. zlen_lia.
Qed.

Lemma todo_le dn a todo : args = dn ++ a :: todo -> u32 (zlen (a :: todo) - 1) = zlen todo.
Proof.
  intros Ha. pose proof args_le as Hl. rewrite Ha in Hl.
  rewrite zlen_cons. rewrite u32_small; [lia|zlen_lia].
Qed.

(** Position of the byte after the data of an argument. *)
Lemma body_end dn a :
  zlen ((h ++ bulks dn) ++ bulk_header a ++ a) + 1 = zlen (h ++ bulks (dn ++ [a])) - 1.
Proof. rewrite bulks_app. cbn [bulks map concat]. rewrite app_nil_r. zlen_lia. Qed.

(** Any state that reads an argument at its header reaches the state of its
    data. *)
Lemma reaches_data st st_lf next on_cr dn a todo rl r :
  (forall f ch, state f = st -> step realloc_ok f ch = bulk_len f ch on_cr) ->
  (forall f ch, state f = st_lf ->
     step realloc_ok f ch = expect_lf f ch (fun f => Continue (goto f next))) ->
  (forall tok f, 1 < p f - tok -> 0 < rnarg f -> rlen f = zlen a ->
     on_cr f tok = take_arg f st_lf) ->
  holding r -> args = dn ++ a :: todo ->
  reach (mk_fsa (zlen ((h ++ bulks dn) ++ bulk_header a)) next None (zlen a)
           (zlen todo) r) ->
  reach (at_len st dn (a :: todo) rl r).
Proof.
  intros Hst Hlf Hcr Hr Ha HR. pose proof (arg_le dn a todo Ha).
  apply (reaches_header _ _ (request args) st st_lf next on_cr _ _
           (zlen todo) r a _ (a ++ CR :: LF :: bulks todo)); [done|done| |done| |lia|done].
  - intros tok Hd. rewrite (Hcr tok) by (cbn; try done; zlen_lia).
    unfold take_arg. cbn [p rlen rnarg req]. by rewrite (todo_le dn a todo).
  - by apply request_split.
Qed.

(** [bulk_end] on an argument of the request. *)
Lemma bulk_end_arg f k dn a todo :
  holding (req f) -> args = dn ++ a :: todo -> rlen f = zlen a ->
  bulk_end f (zlen ((h ++ bulks dn) ++ bulk_header a)) k =
  k (zlen ((h ++ bulks dn) ++ bulk_header a ++ a)).
Proof.
  intros Hr Ha Hl. pose proof (request_split dn a todo Ha) as Hs.
  unfold bulk_end. rewrite (buf_holds _ f Hr), Hl. destruct Hr as [_ ->].
  replace (_ + zlen a) with (zlen ((h ++ bulks dn) ++ bulk_header a ++ a)) by zlen_lia.
  rewrite Hs. match goal with |- context [?x <=? ?y] => destruct (Z.leb_spec x y) end.
  { zlen_lia. }
  replace ((h ++ bulks dn) ++ bulk_header a ++ a ++ CR :: LF :: bulks todo)
    with (((h ++ bulks dn) ++ bulk_header a ++ a) ++ CR :: LF :: bulks todo)
    by (by rewrite <- !app_assoc).
  rewrite byte_at_app. by rewrite bool_decide_eq_true_2.
Qed.

Lemma data_byte dn a todo :
  args = dn ++ a :: todo ->
  exists ch, byte_at (request args) (zlen ((h ++ bulks dn) ++ bulk_header a)) = Some ch.
Proof.
  intros Ha. apply byte_at_is_Some. rewrite (request_split dn a todo Ha). zlen_lia.
Qed.

(** Any state that dispatches on an LF after an argument. *)
Lemma reaches_lf st dn todo r :
  holding r -> args = dn ++ todo -> dn <> [] ->
  match step realloc_ok (at_lf st dn todo r) LF with
  | Continue f' => reach (advance f')
  | GotoDone f' => Q (with_result (req f') CMD_PARSE_OK)
  | GotoEnomem f' => Q (with_result (req f') CMD_PARSE_ENOMEM)
  | GotoError f' => Q (parse_error f')
  | Outside => False
  end -> reach (at_lf st dn todo r).
Proof.
  intros Hr Ha Hdn Hs. apply (reaches_iter _ _ (request args) _ LF); [done| |done].
  destruct (exists_last Hdn) as (dn' & a & ->). rewrite <- app_assoc in Ha.
  cbn [app] in Ha. cbn [p at_lf]. rewrite <- body_end.
  rewrite (request_split dn' a todo Ha).
  replace ((h ++ bulks dn') ++ bulk_header a ++ a ++ CR :: LF :: bulks todo)
    with (((h ++ bulks dn') ++ bulk_header a ++ a ++ [CR]) ++ LF :: bulks todo)
    by (by rewrite <- !app_assoc).
  replace (_ + 1) with (zlen ((h ++ bulks dn') ++ bulk_header a ++ a ++ [CR])) by zlen_lia.
  apply byte_at_app.
Qed.

(** Going on to the next argument. *)
Lemma at_lf_goto st st' dn todo r :
  reach (at_len st' dn todo 0 r) -> reach (advance (goto (at_lf st dn todo r) st')).
Proof.
  unfold advance, goto, at_lf, at_len. cbn. by rewrite Z.sub_add.
Qed.

(** The four states that read and skip an argument. *)
Inductive arg_states : sw -> sw -> sw -> sw -> Prop :=
| arg1_states : arg_states SW_ARG1_LEN SW_ARG1_LEN_LF SW_ARG1 SW_ARG1_LF
| arg2_states : arg_states SW_ARG2_LEN SW_ARG2_LEN_LF SW_ARG2 SW_ARG2_LF
| arg3_states : arg_states SW_ARG3_LEN SW_ARG3_LEN_LF SW_ARG3 SW_ARG3_LF
| argn_states : arg_states SW_ARGN_LEN SW_ARGN_LEN_LF SW_ARGN SW_ARGN_LF.

Lemma reaches_body st_body st_lf dn a todo r :
  (forall f ch, state f = st_body -> token f = None -> req f = r ->
     step realloc_ok f ch = arg_body st_lf f) ->
  holding r -> args = dn ++ a :: todo ->
  reach (at_lf st_lf (dn ++ [a]) todo r) ->
  reach (mk_fsa (zlen ((h ++ bulks dn) ++ bulk_header a)) st_body None (zlen a)
           (zlen todo) r).
Proof.
  intros Hst Hr Ha HR. destruct (data_byte dn a todo Ha) as [ch Hch].
  apply (reaches_iter _ _ (request args) _ ch); [done..|].
  rewrite Hst by done. unfold arg_body. cbn [p].
  rewrite (bulk_end_arg _ _ dn a todo) by done.
  unfold advance. cbn [p state token rlen rnarg req]. rewrite body_end. exact HR.
Qed.

(** Reading an argument that is not a key. *)
Lemma reaches_arg_data st st_len_lf st_body st_lf dn a todo rl r :
  arg_states st st_len_lf st_body st_lf -> holding r -> args = dn ++ a :: todo ->
  reach (mk_fsa (zlen ((h ++ bulks dn) ++ bulk_header a)) st_body None (zlen a)
           (zlen todo) r) ->
  reach (at_len st dn (a :: todo) rl r).
Proof.
  intros Hst Hr Ha HR.
  apply (reaches_data st st_len_lf st_body (fun f tok =>
    if (p f - tok <=? 1) || (rnarg f =? 0) then GotoError f
    else take_arg f st_len_lf)); [| | |done..].
  - intros f ch E. unfold step. rewrite E. by destruct Hst.
  - intros f ch E. unfold step. rewrite E. by destruct Hst.
  - intros tok f ? ? _. case_match eqn:E; [lia|done].
Qed.

Lemma reaches_arg st st_len_lf st_body st_lf dn a todo rl r :
  arg_states st st_len_lf st_body st_lf ->
  st <> SW_ARG2_LEN \/ redis_argeval (type r) = false ->
  holding r -> args = dn ++ a :: todo ->
  reach (at_lf st_lf (dn ++ [a]) todo r) ->
  reach (at_len st dn (a :: todo) rl r).
Proof.
  intros Hst Hev Hr Ha HR. eapply reaches_arg_data; [done..|].
  apply (reaches_body _ st_lf); [|done..].
  intros f ch E Ht Hf. unfold step. rewrite E. destruct Hst; try reflexivity.
  destruct Hev as [Hev|Hev]; [done|]. unfold sw_arg2.
  rewrite Hf, Hev, Ht. destruct f; cbn in *; subst. reflexivity.
Qed.

(** The command as filled in so far: [kis] are the arguments recorded as
    keys after the arguments [dn]. *)
Definition recorded (t : cmd_type) (kis : list nat) (dn : list bytes) r : Prop :=
  holding r /\ type r = t /\ narg r = zlen args /\ result r = CMD_PARSE_OK /\
  elem (keys r) = map (keypos_of args) kis /\ hiarray_wf (keys r) /\
  nalloc (keys r) <= 2 * nelem (keys r) + 1 /\ (length kis <= length dn)%nat.

Lemma recorded_holds t kis dn r : recorded t kis dn r -> holding r.
Proof. by intros (H & _). Qed.
Lemma recorded_type t kis dn r : recorded t kis dn r -> type r = t.
Proof. by intros (_ & H & _). Qed.
Lemma recorded_narg t kis dn r : recorded t kis dn r -> narg r = zlen args.
Proof. by intros (_ & _ & H & _). Qed.
Lemma recorded_app t kis dn k r : recorded t kis dn r -> recorded t kis (dn ++ k) r.
Proof.
  intros (? & ? & ? & ? & ? & ? & ? & ?). unfold recorded. rewrite length_app.
  split_and!; try done. lia.
Qed.

Lemma keypos_of_at dn a todo :
  args = dn ++ a :: todo ->
  keypos_of args (length dn) =
  mk_keypos (zlen ((h ++ bulks dn) ++ bulk_header a))
    (zlen ((h ++ bulks dn) ++ bulk_header a ++ a)) 0.
Proof.
  intros Ha. unfold keypos_of, arg_offset. fold h. rewrite Ha.
  rewrite list_lookup_middle by done. rewrite take_app_length.
  cbn [default from_option Datatypes.id]. f_equal; clear; zlen_lia.
Qed.

Lemma recorded_push t kis dn a todo r :
  args = dn ++ a :: todo -> recorded t kis dn r ->
  exists ks, hiarray_push realloc_ok (keys r) (keypos_of args (length dn)) = Pushed ks /\
             recorded t (kis ++ [length dn]) (dn ++ [a]) (with_keys r ks).
Proof.
  intros Ha (Hr & Ht & Hn & Hres & He & Hw & Hal & Hk).
  pose proof (hiarray_push_spec realloc_ok (keys r) (keypos_of args (length dn)) Hw) as Hs.
  destruct (hiarray_push _ _ _) as [ks| |]; [|by rewrite Halloc in Hs; destruct Hs|done].
  exists ks. split; [done|]. destruct Hs as (He' & Hn' & Hle & _ & Hna).
  destruct Hw as (Hw1 & Hw2 & Hw3).
  assert (nelem ks = nelem (keys r) + 1) as Hn1.
  { rewrite Hn', He', zlen_app, zlen_singleton. lia. }
  assert (nelem (keys r) <= zlen dn) as Hb.
  { rewrite Hw1, He. unfold zlen. rewrite length_map. lia. }
  pose proof args_le as Hargs. rewrite Ha in Hargs.
  unfold recorded, holds. cbn. rewrite He', He, map_app, Hn1.
  unfold hiarray_wf. rewrite !length_app.
  destruct Hr. repeat split; try done; try zlen_lia. cbn. lia.
Qed.

(** Reading a key: its position is recorded. *)
Lemma reaches_key t kis dn a todo rl r :
  args = dn ++ a :: todo -> recorded t kis dn r ->
  (forall r', recorded t (kis ++ [length dn]) (dn ++ [a]) r' ->
     reach (at_lf SW_KEY_LF (dn ++ [a]) todo r')) ->
  reach (at_len SW_KEY_LEN dn (a :: todo) rl r).
Proof.
  intros Ha Hrec HR. pose proof (recorded_holds _ _ _ _ Hrec) as Hr.
  apply (reaches_data SW_KEY_LEN SW_KEY_LEN_LF SW_KEY (fun f _ =>
    if rnarg f =? 0 then GotoError f else take_arg f SW_KEY_LEN_LF)); [| | |done..|].
  { intros f ch E. unfold step. by rewrite E. }
  { intros f ch E. unfold step. by rewrite E. }
  { intros tok f _ H2 _. by destruct (Z.eqb_spec (rnarg f) 0); [lia|]. }
  destruct (data_byte dn a todo Ha) as [ch Hch].
  apply (reaches_iter _ _ (request args) _ ch); [done..|].
  unfold step, sw_key. cbn [state token p rlen rnarg req default from_option Datatypes.id].
  rewrite (bulk_end_arg _ _ dn a todo) by done. cbn [req].
  rewrite <- (keypos_of_at dn a todo Ha).
  destruct (recorded_push t kis dn a todo r Ha Hrec) as (ks & -> & Hrec').
  unfold advance. cbn [p state token rlen rnarg req]. rewrite body_end. by apply HR.
Qed.
End request.

(** ** The commands of each arity *)

(** What the parser owes to the specification. *)
Definition meets (args : list bytes) (o : option (cmd_type * list nat)) (r : cmd) : Prop :=
  match o with
  | Some (t, ks) =>
      result r = CMD_PARSE_OK /\ type r = t /\ narg r = zlen args /\
      elem (keys r) = map (keypos_of args) ks /\ nelem (keys r) = zlen ks /\
      cmd_buf r = request args /\ clen r = zlen (request args)
  | None => result r = CMD_PARSE_ERROR
  end.

Section arities.
Context (realloc_ok : Z -> bool) (args : list bytes) (name : bytes) (rest : list bytes).
Hypothesis Halloc : forall n, realloc_ok n = true.
Hypothesis Hargs : args = name :: rest.
Hypothesis Hsize : zlen (request args) <= 2 ^ 30.
Context (t : cmd_type) (a : arity).
Hypothesis Hta : arity_of t = Some a.

Let o := ks ← keys_of_args a rest; Some (t, ks).
Abbreviation reach := (Reaches realloc_ok (meets args o)).
Abbreviation recorded := (recorded args t).

Lemma recorded_meets ks dn r :
  keys_of_args a rest = Some ks -> recorded ks dn r -> meets args o (with_result r CMD_PARSE_OK).
Proof.
  intros Hk ([Hb Hc] & Ht & Hn & Hr & He & (Hw & _) & _). unfold o. rewrite Hk.
  cbn. split_and!; try done. rewrite Hw, He. unfold zlen. by rewrite length_map.
Qed.

(** The command ends at the end of the buffer. *)
Lemma reaches_cut ks dn rl st r :
  keys_of_args a rest = Some ks -> recorded ks dn r -> dn = args ->
  reach (at_len args st dn [] rl r).
Proof.
  intros Hk Hrec ->. apply (reaches_end _ _ (request args)).
  - exact (recorded_holds _ _ _ _ _ Hrec).
  - done.
  - pose proof (recorded_meets ks args r Hk Hrec) as Hm. cbn [req at_len].
    destruct Hrec as (_ & _ & _ & Hr & _). by destruct r; cbn in *; subst.
Qed.

(** The dispatch of the LF states: to the next argument, done, or error. *)
Lemma lf_go ks dn st st' todo r :
  recorded ks dn r -> args = dn ++ todo -> dn <> [] ->
  step realloc_ok (at_lf args st dn todo r) LF =
    Continue (goto (at_lf args st dn todo r) st') ->
  reach (at_len args st' dn todo 0 r) -> reach (at_lf args st dn todo r).
Proof.
  intros Hrec Ha Hdn Hst HR. apply reaches_lf; [by apply Hrec|done|done|].
  rewrite Hst. by apply at_lf_goto.
Qed.

Lemma lf_done ks dn st todo r :
  recorded ks dn r -> args = dn ++ todo -> dn <> [] ->
  step realloc_ok (at_lf args st dn todo r) LF = GotoDone (at_lf args st dn todo r) ->
  keys_of_args a rest = Some ks -> reach (at_lf args st dn todo r).
Proof.
  intros Hrec Ha Hdn Hst Hk. apply reaches_lf; [by apply Hrec|done|done|].
  rewrite Hst. by apply (recorded_meets ks dn).
Qed.

Lemma lf_error ks dn st todo r :
  recorded ks dn r -> args = dn ++ todo -> dn <> [] ->
  step realloc_ok (at_lf args st dn todo r) LF = GotoError (at_lf args st dn todo r) ->
  keys_of_args a rest = None -> reach (at_lf args st dn todo r).
Proof.
  intros Hrec Ha Hdn Hst Hk. apply reaches_lf; [by apply Hrec|done|done|].
  rewrite Hst. unfold o. by rewrite Hk.
Qed.

(** The values of the arity predicates, from [E : a = Arity_]. *)
Ltac preds E :=
  pose proof Hta as P; rewrite E in P; apply arity_of_preds in P;
  destruct P as (Pz & P0 & P1 & P2 & P3 & Pn & Px & Pkv & Pe);
  compute_decide.

(** Equations [step realloc_ok (at_lf ...) LF = ...]. *)
Ltac lf_eq Hrec :=
  unfold step; cbn [state at_lf];
  unfold sw_req_type_lf, sw_key_lf, sw_arg1_lf, sw_arg2_lf, sw_arg3_lf, sw_argn_lf,
    expect_lf;
  rewrite bool_decide_eq_true_2 by done; cbn [req at_lf rnarg];
  rewrite ?(recorded_type _ _ _ _ _ Hrec), ?(recorded_narg _ _ _ _ _ Hrec);
  repeat match goal with
  | H : ?x = true |- context [?x] => rewrite H
  | H : ?x = false |- context [?x] => rewrite H
  end; cbn [orb];
  repeat match goal with
  | |- context [Z.eqb ?x ?y] => destruct (Z.eqb_spec x y); [try zlen_lia|try zlen_lia]
  | |- context [Z.ltb ?x ?y] => destruct (Z.ltb_spec x y); [try zlen_lia|try zlen_lia]
  end; reflexivity.

(** The rest of the arguments of the ARGN and EVAL commands, from any state
    that goes to [SW_ARGN_LEN] while there are arguments. *)
Lemma reaches_tail ks todo : forall dn st r,
  redis_argn t || redis_argeval t = true -> keys_of_args a rest = Some ks ->
  recorded ks dn r -> args = dn ++ todo -> dn <> [] ->
  step realloc_ok (at_lf args st dn todo r) LF =
    (if zlen todo =? 0 then GotoDone (at_lf args st dn todo r)
     else Continue (goto (at_lf args st dn todo r) SW_ARGN_LEN)) ->
  reach (at_lf args st dn todo r).
Proof.
  induction todo as [|x todo IH]; intros dn st r Hp Hk Hrec Ha Hdn Hst.
  - by apply (lf_done ks).
  - apply (lf_go ks _ _ SW_ARGN_LEN); try done.
    eapply reaches_arg; [done|done|apply argn_states|by left|by apply Hrec|done|].
    rewrite cons_middle, app_assoc in Ha.
    apply IH; [done|done|by apply recorded_app|done|by destruct dn|].
    unfold step. cbn [state at_lf]. unfold sw_argn_lf, expect_lf.
    rewrite bool_decide_eq_true_2 by done. cbn [req at_lf rnarg].
    rewrite (recorded_type _ _ _ _ _ Hrec), Hp. by destruct (zlen todo =? 0).
Qed.

Lemma after_argz r :
  a = ArityZ -> recorded [] [name] r -> reach (at_lf args SW_REQ_TYPE_LF [name] rest r).
Proof.
  intros E Hrec. preds E. apply (lf_done []); try done; [lf_eq Hrec|]. by rewrite E.
Qed.

(** An LF, then an argument that is not a key. *)
Lemma lf_arg ks dn st st1 st2 st3 st4 x todo r :
  recorded ks dn r -> args = dn ++ x :: todo -> dn <> [] ->
  arg_states st1 st2 st3 st4 -> st1 <> SW_ARG2_LEN \/ redis_argeval t = false ->
  step realloc_ok (at_lf args st dn (x :: todo) r) LF =
    Continue (goto (at_lf args st dn (x :: todo) r) st1) ->
  (recorded ks (dn ++ [x]) r -> args = (dn ++ [x]) ++ todo ->
   reach (at_lf args st4 (dn ++ [x]) todo r)) ->
  reach (at_lf args st dn (x :: todo) r).
Proof.
  intros Hrec Ha Hdn Hst Hev Hs HR. apply (lf_go ks _ _ st1); try done.
  eapply reaches_arg; [done|done|exact Hst| |by apply Hrec|done|].
  - by rewrite (recorded_type _ _ _ _ _ Hrec).
  - apply HR; [by apply recorded_app|by rewrite <- app_assoc].
Qed.

(** An LF, then a key. *)
Lemma lf_key ks dn st x todo r :
  recorded ks dn r -> args = dn ++ x :: todo -> dn <> [] ->
  step realloc_ok (at_lf args st dn (x :: todo) r) LF =
    Continue (goto (at_lf args st dn (x :: todo) r) SW_KEY_LEN) ->
  (forall r', recorded (ks ++ [length dn]) (dn ++ [x]) r' ->
     args = (dn ++ [x]) ++ todo -> reach (at_lf args SW_KEY_LF (dn ++ [x]) todo r')) ->
  reach (at_lf args st dn (x :: todo) r).
Proof.
  intros Hrec Ha Hdn Hs HR. apply (lf_go ks _ _ SW_KEY_LEN); try done.
  eapply reaches_key; [done|done|done|exact Hrec|].
  intros r' Hrec'. apply HR; [done|by rewrite <- app_assoc].
Qed.

(** Both sides of the specification on a list of known length. *)
Ltac keys_eq E Hr := rewrite E, Hr; cbn [keys_of_args length]; case_decide; (done || lia).

Section first_key.
Context (x : bytes) (todo : list bytes) (r : cmd).
Hypothesis Hr : rest = x :: todo.
Hypothesis Hrec : recorded [1%nat] [name; x] r.

Lemma first_key_args : args = [name; x] ++ todo.
Proof. by rewrite Hargs, Hr. Qed.

Lemma after_key_arg0 : a = Arity0 -> reach (at_lf args SW_KEY_LF [name; x] todo r).
Proof.
  intros E. preds E. pose proof first_key_args as Ha. destruct todo.
  - apply (lf_done [1%nat]); try done; [lf_eq Hrec|keys_eq E Hr].
  - apply (lf_error [1%nat]); try done; [lf_eq Hrec|keys_eq E Hr].
Qed.

Lemma after_key_arg1 : a = Arity1 -> reach (at_lf args SW_KEY_LF [name; x] todo r).
Proof.
  intros E. preds E. pose proof first_key_args as Ha. destruct todo as [|y [|z l]].
  - apply (lf_error [1%nat]); try done; [lf_eq Hrec|keys_eq E Hr].
  - eapply lf_arg; [exact Hrec|done|done|apply arg1_states|by left|lf_eq Hrec|].
    intros Hrec1 Ha1. apply (lf_done [1%nat]); try done; [lf_eq Hrec|keys_eq E Hr].
  - apply (lf_error [1%nat]); try done; [lf_eq Hrec|keys_eq E Hr].
Qed.

Lemma after_key_arg2 : a = Arity2 -> reach (at_lf args SW_KEY_LF [name; x] todo r).
Proof.
  intros E. preds E. pose proof first_key_args as Ha.
  destruct todo as [|y [|z [|w l]]];
    try (apply (lf_error [1%nat]); try done; [lf_eq Hrec|keys_eq E Hr]).
  eapply lf_arg; [exact Hrec|done|done|apply arg1_states|by left|lf_eq Hrec|].
  intros Hrec1 Ha1.
  eapply lf_arg; [exact Hrec1|done|done|apply arg2_states|by right|lf_eq Hrec|].
  intros Hrec2 Ha2. apply (lf_done [1%nat]); try done; [lf_eq Hrec|keys_eq E Hr].
Qed.

Lemma after_key_arg3 : a = Arity3 -> reach (at_lf args SW_KEY_LF [name; x] todo r).
Proof.
  intros E. preds E. pose proof first_key_args as Ha.
  destruct todo as [|y [|z [|w [|v l]]]];
    try (apply (lf_error [1%nat]); try done; [lf_eq Hrec|keys_eq E Hr]).
  eapply lf_arg; [exact Hrec|done|done|apply arg1_states|by left|lf_eq Hrec|].
  intros Hrec1 Ha1.
  eapply lf_arg; [exact Hrec1|done|done|apply arg2_states|by right|lf_eq Hrec|].
  intros Hrec2 Ha2.
  eapply lf_arg; [exact Hrec2|done|done|apply arg3_states|by left|lf_eq Hrec|].
  intros Hrec3 Ha3. apply (lf_done [1%nat]); try done; [lf_eq Hrec|keys_eq E Hr].
Qed.

Lemma after_key_argn : a = ArityN -> reach (at_lf args SW_KEY_LF [name; x] todo r).
Proof.
  intros E. preds E. pose proof first_key_args as Ha.
  assert (keys_of_args a rest = Some [1%nat]) as Hk by (by rewrite E, Hr).
  destruct todo as [|y l].
  - apply (lf_done [1%nat]); try done; lf_eq Hrec.
  - eapply lf_arg; [exact Hrec|done|done|apply arg1_states|by left|lf_eq Hrec|].
    intros Hrec1 Ha1. apply (reaches_tail [1%nat]); try done; [by rewrite Pn|lf_eq Hrec].
Qed.
End first_key.

(** MGET and DEL: every argument is a key. *)
Lemma reaches_keys todo : forall dn r,
  a = ArityX -> rest <> [] -> recorded (seq 1 (length dn - 1)) dn r ->
  args = dn ++ todo -> dn <> [] -> reach (at_lf args SW_KEY_LF dn todo r).
Proof.
  induction todo as [|x todo IH]; intros dn r E Hne Hrec Ha Hdn; preds E.
  - apply (lf_done (seq 1 (length dn - 1))); try done; [lf_eq Hrec|].
    rewrite app_nil_r in Ha. rewrite E, <- Ha, Hargs. cbn [length].
    rewrite Nat.sub_succ, Nat.sub_0_r. by destruct rest.
  - eapply lf_key; [exact Hrec|done|done|lf_eq Hrec|].
    intros r' Hrec' Ha'. apply IH; [done|done| |done|by destruct dn].
    rewrite length_app, Nat.add_sub. cbn [length].
    destruct dn as [|d dn]; [done|]. cbn [length] in *.
    rewrite Nat.sub_succ, Nat.sub_0_r in Hrec'. by rewrite seq_S.
Qed.

(** MSET: after [j] keys and before [k] more pairs. *)
Lemma reaches_pairs k : forall j todo dn r,
  a = ArityKVX -> length todo = (2 * k + 1)%nat -> length dn = (2 * j)%nat ->
  recorded (map (fun i => 2 * i + 1)%nat (seq 0 j)) dn r ->
  args = dn ++ todo -> dn <> [] -> reach (at_lf args SW_KEY_LF dn todo r).
Proof.
  induction k as [|k IH]; intros j todo dn r E Ht Hd Hrec Ha Hdn; preds E;
    destruct todo as [|v todo]; (try (cbn in Ht; lia));
    assert ((zlen args mod 2 =? 0) = false) as Hodd
      by (rewrite Ha; eapply zlen_odd; [exact Hd|exact Ht]).
  - destruct todo; [|cbn in Ht; lia].
    eapply lf_arg; [exact Hrec|done|done|apply arg1_states|by left|lf_eq Hrec|].
    intros Hrec1 Ha1. eapply lf_done; [exact Hrec1|done|by destruct dn|lf_eq Hrec|].
    assert (length rest = 2 * j)%nat as Hl.
    { assert (length args = 2 * j + 1)%nat as Hl by (rewrite Ha, length_app, Hd; done).
      rewrite Hargs in Hl. cbn in Hl. lia. }
    rewrite E. apply keys_of_pairs; [done|].
    destruct j; [by destruct dn|]. by intros ->.
  - destruct todo as [|x todo]; [cbn in Ht; lia|].
    eapply lf_arg; [exact Hrec|done|done|apply arg1_states|by left|lf_eq Hrec|].
    intros Hrec1 Ha1. eapply lf_key; [exact Hrec1|done|by destruct dn|lf_eq Hrec|].
    intros r' Hrec' Ha'. apply (IH (S j)); [done| | | |done|by destruct dn].
    + cbn in Ht. lia.
    + rewrite !length_app, Hd. cbn. lia.
    + rewrite seq_S, map_app. rewrite length_app, Hd in Hrec'. exact Hrec'.
Qed.

Lemma after_key_argkvx x todo r :
  a = ArityKVX -> rest = x :: todo -> recorded [1%nat] [name; x] r ->
  reach (at_lf args SW_KEY_LF [name; x] todo r).
Proof.
  intros E Hr Hrec. preds E.
  assert (args = [name; x] ++ todo) as Ha by (by rewrite Hargs, Hr).
  destruct (Nat.Even_or_Odd (length todo)) as [[k Hk]|[k Hk]].
  - destruct todo as [|y todo].
    + apply (lf_done [1%nat]); try done; [lf_eq Hrec|keys_eq E Hr].
    + assert ((zlen args mod 2 =? 0) = true) as Heven
        by (rewrite Ha; by apply (zlen_even _ _ 1 k)).
      apply (lf_error [1%nat]); try done; [lf_eq Hrec|].
      rewrite E, Hr. apply (keys_of_odd _ k); cbn in *; lia.
  - by apply (reaches_pairs k 1).
Qed.

(** The key count of EVAL. *)
Lemma reaches_eval_count ks dn y todo rl r :
  a = ArityEval -> recorded ks dn r -> args = dn ++ y :: todo ->
  match eval_nkey y 0 with
  | Some k => if k =? 0 then keys_of_args a rest = None
              else reach (at_lf args SW_ARG2_LF (dn ++ [y]) todo r)
  | None => keys_of_args a rest = None
  end -> reach (at_len args SW_ARG2_LEN dn (y :: todo) rl r).
Proof.
  intros E Hrec Ha HR. preds E. pose proof (recorded_holds _ _ _ _ _ Hrec) as Hh.
  eapply reaches_arg_data; [done|done|apply arg2_states|done|done|].
  destruct (data_byte args dn y todo Ha) as [ch Hch].
  apply (reaches_iter _ _ (request args) _ ch); [done..|].
  unfold step, sw_arg2. cbn [state token p rlen rnarg req default from_option Datatypes.id].
  rewrite (recorded_type _ _ _ _ _ Hrec), Pe.
  rewrite (bulk_end_arg _ _ _ dn y todo) by done.
  cbn beta. cbn [default from_option Datatypes.id].
  set (pre := (request_header (zlen args) ++ bulks dn) ++ bulk_header y).
  replace (zlen ((request_header (zlen args) ++ bulks dn) ++ bulk_header y ++ y))
    with (zlen pre + zlen y) by (unfold pre; zlen_lia).
  rewrite Z.add_simpl_l.
  match goal with |- context [buf ?f] => rewrite (buf_holds (request args) f Hh) end.
  assert (slice (request args) (zlen pre) (zlen pre + zlen y) = y) as ->.
  { rewrite (request_split args dn y todo Ha).
    replace (_ ++ _) with (pre ++ y ++ CR :: LF :: bulks todo)
      by (unfold pre; by rewrite <- !app_assoc).
    apply slice_app. }
  assert (keys_of_args a rest = None -> forall f, meets args o (parse_error f)) as Herr.
  { intros Hn f. unfold o. by rewrite Hn. }
  destruct (Z.ltb_spec (zlen y) 1) as [Hy|Hy].
  { destruct y; [by apply Herr|zlen_lia]. }
  destruct (eval_nkey y 0) as [k|]; [|by apply Herr].
  destruct (k =? 0); [by apply Herr|].
  unfold advance. cbn [p state token rlen rnarg req].
  replace (zlen pre + zlen y + 1)
    with (zlen (request_header (zlen args) ++ bulks (dn ++ [y])) - 1); [done|].
  rewrite <- body_end. unfold pre. zlen_lia.
Qed.

Lemma after_script x todo r :
  a = ArityEval -> rest = x :: todo -> recorded [] [name; x] r ->
  reach (at_lf args SW_ARG1_LF [name; x] todo r).
Proof.
  intros E Hr Hrec. preds E.
  assert (args = [name; x] ++ todo) as Ha by (by rewrite Hargs, Hr).
  destruct todo as [|y [|z l]];
    try (apply (lf_error []); try done; [lf_eq Hrec|by rewrite E, Hr]).
  eapply lf_go; [exact Hrec|done|done|lf_eq Hrec|].
  apply (reaches_eval_count []); [done..|].
  assert (forall k, eval_nkey y 0 = Some k -> keys_of_args a rest =
            if k =? 0 then None else Some [3%nat]) as Hks
    by (intros k Hk; by rewrite E, Hr; cbn; rewrite Hk).
  destruct (eval_nkey y 0) as [k|] eqn:Ek; [|by rewrite E, Hr; cbn; rewrite Ek].
  specialize (Hks k eq_refl). destruct (k =? 0); [done|].
  assert (args = ([name; x] ++ [y]) ++ z :: l) as Ha2 by done.
  eapply lf_key; [by apply recorded_app|done|done|lf_eq Hrec|].
  intros r' Hrec' Ha3. apply (reaches_tail [3%nat]); try done;
    [by rewrite Pe, orb_true_r|lf_eq Hrec'].
Qed.

(** A command that ends after its name. *)
Lemma lf_cut r :
  recorded [] [name] r -> rest = [] -> a <> ArityZ ->
  keys_of_args a rest = Some [] -> reach (at_lf args SW_REQ_TYPE_LF [name] [] r).
Proof.
  intros Hrec Hr Hz Hk. assert (args = [name]) as Ha by (by rewrite Hargs, Hr).
  pose proof Hta as P. apply arity_of_preds in P as (Pz & _ & _ & _ & _ & _ & _ & _ & Pe).
  rewrite bool_decide_eq_false_2 in Pz by done.
  apply (lf_go [] _ _ (if redis_argeval t then SW_ARG1_LEN else SW_KEY_LEN)); try done.
  - unfold step. cbn [state at_lf]. unfold sw_req_type_lf, expect_lf.
    rewrite bool_decide_eq_true_2 by done. cbn [req at_lf].
    rewrite (recorded_type _ _ _ _ _ Hrec), Pz. by destruct (redis_argeval t).
  - by eapply reaches_cut.
Qed.

(** Everything after the command name. *)
Lemma after_name r :
  recorded [] [name] r -> reach (at_lf args SW_REQ_TYPE_LF [name] rest r).
Proof.
  intros Hrec. destruct (decide (a = ArityZ)) as [E|Hz]; [by apply after_argz|].
  destruct (list_shape rest) as [Er|(x & todo & Er)].
  { rewrite Er. apply lf_cut; [done..|]. rewrite Er. by destruct a. }
  assert (args = [name] ++ x :: todo) as Ha by (by rewrite Hargs, Er).
  rewrite Er. destruct (decide (a = ArityEval)) as [E|He].
  { preds E. eapply lf_arg; [exact Hrec|done|done|apply arg1_states|by left|lf_eq Hrec|].
    intros Hrec' _. by apply after_script. }
  assert (redis_argz t = false /\ redis_argeval t = false) as [Hz' He'].
  { pose proof Hta as P. apply arity_of_preds in P as (-> & _ & _ & _ & _ & _ & _ & _ & ->).
    by rewrite !bool_decide_eq_false_2. }
  eapply lf_key; [exact Hrec|done|done|lf_eq Hrec|]. cbn [app length].
  intros r' Hrec' _.
  assert (a = Arity0 \/ a = Arity1 \/ a = Arity2 \/ a = Arity3 \/ a = ArityN \/
          a = ArityX \/ a = ArityKVX) as Hcases by (destruct a; tauto).
  destruct Hcases as [E|[E|[E|[E|[E|[E|E]]]]]].
  - by apply after_key_arg0.
  - by apply after_key_arg1.
  - by apply after_key_arg2.
  - by apply after_key_arg3.
  - by apply after_key_argn.
  - apply reaches_keys; try done. by rewrite Er.
  - by apply after_key_argkvx.
Qed.
End arities.

(** ** The header and the name *)

Section start.
Context (realloc_ok : Z -> bool) (args : list bytes).
Hypothesis Halloc : forall n, realloc_ok n = true.
Hypothesis Hsize : zlen (request args) <= 2 ^ 30.

Abbreviation reach := (Reaches realloc_ok (meets args (spec_parse args))).
Let h := request_header (zlen args).

(** [r] holds the request and nothing else was recorded. *)
Definition fresh r : Prop :=
  holds (request args) r /\ result r = CMD_PARSE_OK /\ keys r = mk_hiarray [] 0 24 1.

(** The argument count. *)
Lemma reaches_narg_digits rest tok r ds : forall pre n,
  holds (request args) r -> request args = pre ++ ds ++ rest ->
  Forall (fun c => isdigit c = true) ds ->
  reach (mk_fsa (zlen (pre ++ ds)) SW_NARG (Some tok) 0 (u32_value ds n) r) ->
  reach (mk_fsa (zlen pre) SW_NARG (Some tok) 0 n r).
Proof.
  induction ds as [|c ds IH]; intros pre n Hh Ht Hd HR.
  { by rewrite app_nil_r in HR. }
  apply Forall_cons in Hd as [Hc Hd].
  apply (reaches_iter _ _ (request args) _ c); [done|rewrite Ht; apply byte_at_app|].
  unfold step, sw_narg. cbn [state token]. rewrite Hc.
  unfold advance. cbn. replace (zlen pre + 1) with (zlen (pre ++ [c])) by zlen_lia.
  apply IH; [done| |done|].
  - by rewrite <- app_assoc.
  - by rewrite <- app_assoc.
Qed.

(** ["*<n>\r\n"]. *)
Lemma reaches_request_header r :
  fresh r ->
  (if zlen args =? 0 then spec_parse args = None
   else forall r', fresh r' -> narg r' = zlen args ->
          reach (at_len args SW_REQ_TYPE_LEN [] args 0 r')) ->
  reach (initial r).
Proof.
  intros (Hh & Hres & Hk) HR. pose proof (args_le args Hsize) as Hle.
  pose proof (zlen_nonneg args). set (d := dec (zlen args)) in *.
  assert (request args = "*"%char :: d ++ CR :: LF :: bulks args) as Ht.
  { unfold request, request_header, CRLF. fold d. cbn [app]. by rewrite <- app_assoc. }
  apply (reaches_iter _ _ (request args) _ "*"%char); [done|by rewrite Ht|].
  unfold step, sw_narg. cbn [state token initial]. rewrite bool_decide_eq_true_2 by done.
  unfold advance. cbn [negb p state token rlen rnarg req initial].
  apply (reaches_narg_digits (CR :: LF :: bulks args) _ _ d ["*"%char]);
    [done|done|apply dec_digits; lia|].
  unfold d. rewrite u32_value_dec by lia. fold d.
  apply (reaches_iter _ _ (request args) _ CR);
    [done|rewrite Ht; apply (byte_at_app ("*"%char :: d))|].
  unfold step, sw_narg. cbn [state token]. rewrite not_isdigit_CR.
  rewrite bool_decide_eq_true_2 by done. cbn [rnarg req p].
  destruct (zlen args =? 0); [by rewrite HR|].
  unfold advance. cbn [p state token rlen rnarg req].
  replace (zlen (["*"%char] ++ d) + 1) with (zlen ("*"%char :: d ++ [CR])) by zlen_lia.
  apply (reaches_iter _ _ (request args) _ LF).
  { done. }
  { replace (request args) with (("*"%char :: d ++ [CR]) ++ LF :: bulks args); [apply byte_at_app|].
    rewrite Ht. cbn. by rewrite <- app_assoc. }
  unfold step, expect_lf. cbn [state]. rewrite bool_decide_eq_true_2 by done.
  unfold advance, goto. cbn [p state token rlen rnarg req].
  match goal with |- reach (mk_fsa _ _ _ _ _ ?r') => specialize (HR r') end.
  replace (zlen ("*"%char :: d ++ [CR]) + 1)
    with (zlen (request_header (zlen args) ++ bulks []))
    by (unfold request_header; fold d; cbn; zlen_lia).
  apply HR; [|done]. by repeat split; try apply Hh.
Qed.

(** An empty name is refused at its length. *)
Lemma reaches_empty_name rest r :
  args = [] :: rest -> fresh r -> reach (at_len args SW_REQ_TYPE_LEN [] args 0 r).
Proof.
  intros Ha (Hh & _). set (st := SW_REQ_TYPE_LEN).
  assert (request args = h ++ "$"%char :: "0"%char :: CR :: LF :: CR :: LF :: bulks rest)
    as Ht by (unfold request; fold h; by rewrite Ha at 1).
  unfold at_len. fold h. cbn [bulks map concat]. rewrite app_nil_r.
  apply (reaches_iter _ _ (request args) _ "$"%char); [done|rewrite Ht; apply byte_at_app|].
  cbn. apply (reaches_iter _ _ (request args) _ "0"%char); [done| |].
  { cbn [p advance]. rewrite Ht, cons_middle, app_assoc.
    replace (zlen h + 1) with (zlen (h ++ ["$"%char])) by zlen_lia. apply byte_at_app. }
  cbn. apply (reaches_iter _ _ (request args) _ CR); [done| |].
  { cbn [p advance]. rewrite Ht, 2!cons_middle, 2!app_assoc.
    replace (zlen h + 1 + 1) with (zlen ((h ++ ["$"%char]) ++ ["0"%char])) by zlen_lia.
    apply byte_at_app. }
  by rewrite Ha.
Qed.

(** The command name: its type is set, or the command is rejected. *)
Lemma reaches_name name rest r :
  args = name :: rest -> name <> [] -> fresh r -> narg r = zlen args ->
  reach (at_len args SW_REQ_TYPE_LEN [] args 0 r).
Proof.
  intros Ha Hne (Hh & Hres & Hk) Hn.
  replace (at_len args SW_REQ_TYPE_LEN [] args 0 r)
    with (at_len args SW_REQ_TYPE_LEN [] (name :: rest) 0 r) by (by rewrite <- Ha).
  assert (0 < zlen name) as Hpos by (destruct name; [done|zlen_lia]).
  apply (reaches_data realloc_ok _ args Halloc Hsize SW_REQ_TYPE_LEN SW_REQ_TYPE_LEN_LF SW_REQ_TYPE
    (fun f _ => if (rlen f =? 0) || (rnarg f =? 0) then GotoError f
                else take_arg f SW_REQ_TYPE_LEN_LF)); [| | |done..|].
  { intros f ch E. unfold step. by rewrite E. }
  { intros f ch E. unfold step. by rewrite E. }
  { intros tok f _ ? ->. by replace ((zlen name =? 0) || (rnarg f =? 0)) with false by lia. }
  destruct (data_byte args [] name rest Ha) as [ch Hch].
  apply (reaches_iter _ _ (request args) _ ch); [done..|].
  unfold step, sw_req_type. cbn [state token p rlen rnarg req default from_option Datatypes.id].
  rewrite (bulk_end_arg _ _ _ [] name rest) by done. cbn beta.
  set (pre := (request_header (zlen args) ++ bulks []) ++ bulk_header name).
  replace (zlen ((request_header (zlen args) ++ bulks []) ++ bulk_header name ++ name))
    with (zlen pre + zlen name) by (unfold pre; zlen_lia).
  rewrite Z.add_simpl_l.
  match goal with |- context [buf ?f] => rewrite (buf_holds (request args) f Hh) end.
  assert (request args = pre ++ name ++ CR :: LF :: bulks rest) as ->.
  { rewrite (request_split args [] name rest Ha). unfold pre. by rewrite <- !app_assoc. }
  rewrite cmd_lookup_name.
  assert (spec_parse args = e ← command_of_name name; a ← arity_of e.1.2;
            ks ← keys_of_args a rest; Some (e.1.2, ks)) as -> by (by rewrite Ha).
  destruct (command_of_name name) as [[[nm t] flag]|] eqn:Ec; [|done].
  destruct (command_of_name_arity _ _ Ec) as [a Hta]. cbn in Hta. cbn [mbind option_bind].
  cbn [fst snd]. rewrite Hta. cbn [mbind option_bind].
  unfold advance. cbn [p state token rlen rnarg req].
  match goal with |- Reaches _ _ (mk_fsa _ _ _ _ _ ?r') => set (r2 := r') end.
  replace (zlen pre + zlen name + 1)
    with (zlen (request_header (zlen args) ++ bulks ([] ++ [name])) - 1)
    by (rewrite <- body_end; unfold pre; zlen_lia).
  apply (after_name realloc_ok args name rest Halloc Ha Hsize t a Hta r2).
  unfold recorded, r2, holds, hiarray_wf. cbn. destruct Hh. rewrite Hk. cbn.
  repeat split; try done; lia.
Qed.

Lemma request_meets r :
  fresh r -> reach (initial r).
Proof.
  intros Hr. apply reaches_request_header; [done|].
  destruct (list_shape args) as [Ea|(name & rest & Ea)]; [by rewrite Ea|].
  destruct (Z.eqb_spec (zlen args) 0) as [E|_]; [rewrite Ea in E; zlen_lia|].
  intros r' Hr' Hn. destruct (decide (name = [])) as [E|Hne].
  - apply (reaches_empty_name rest); [by rewrite Ea, E|done].
  - by apply (reaches_name name rest).
Qed.
End start.

Lemma parse_meets realloc_ok args r :
  (forall n, realloc_ok n = true) -> zlen (request args) <= 2 ^ 30 -> fresh args r ->
  exists r', redis_parse_cmd realloc_ok r = Parsed r' /\ meets args (spec_parse args) r'.
Proof.
  intros Halloc Hsize Hr.
  destruct (request_meets realloc_ok args Halloc Hsize r Hr) as (n & r' & Hl & Hm).
  exists r'. split; [|done]. unfold redis_parse_cmd. destruct Hr as ([Hb Hc] & _ & Hk).
  pose proof (zlen_nonneg (request args)).
  destruct (loop_ok realloc_ok (S (Z.to_nat (clen r))) (initial r)) as (r2 & Hl2 & _).
  - apply initial_ok. unfold parse_ready. rewrite Hb, Hc, Hk. cbn [elem nelem nalloc]. split_and!; (done || lia).
  - cbn [req p initial]. rewrite Hc. lia.
  - done.
  - destruct (Nat.le_ge_cases n (S (Z.to_nat (clen r)))) as [Hle|Hle].
    + by eapply loop_mono.
    + rewrite Hl2. f_equal. pose proof (loop_mono _ _ _ _ _ Hle Hl2). congruence.
Qed.

(** The bytes of a key, as [keyHashSlot] and the cluster code read them. *)
Definition key_bytes (r : cmd) (kp : keypos) : bytes :=
  slice (cmd_buf r) (kp_start kp) (kp_end kp).

Lemma key_bytes_request args r i :
  cmd_buf r = request args -> key_bytes r (keypos_of args i) = default [] (args !! i).
Proof.
  intros Hb. unfold key_bytes, keypos_of. rewrite Hb. cbn [kp_start kp_end].
  destruct (args !! i) as [x|] eqn:E; [by apply slice_arg|].
  cbn. unfold slice. by replace (Z.to_nat _) with 0%nat by (rewrite zlen_nil; lia).
Qed.

(** C5: on a fresh command that holds the request of [args] (of at most 1 GiB)
    the state machine of [redis_parse_cmd] computes [spec_parse args]: it sets
    the type of the name, records exactly the positions of the key arguments and
    returns [CMD_PARSE_OK], or returns [CMD_PARSE_ERROR]. *)
Theorem redis_parse_cmd_refines_spec (realloc_ok : Z -> bool) (args : list bytes) (r : cmd) :
  (forall n, realloc_ok n = true) -> zlen (request args) <= 2 ^ 30 ->
  fresh args r ->
  exists r', redis_parse_cmd realloc_ok r = Parsed r' /\ meets args (spec_parse args) r'.
Proof. apply parse_meets. Qed.

Lemma redis_parse_cmd_refines_spec_witness :
  exists r', redis_parse_cmd (fun _ => true)
      (new_cmd (request [s "MsEt"; s "k1"; s "v"; s "{k}2"; []])) = Parsed r' /\
    meets [s "MsEt"; s "k1"; s "v"; s "{k}2"; []] (Some (CMD_REQ_REDIS_MSET, [1; 3]%nat)) r'.
Proof.
  apply (redis_parse_cmd_refines_spec (fun _ => true)
    [s "MsEt"; s "k1"; s "v"; s "{k}2"; []] (new_cmd _));
    [done | zcompute | repeat split; reflexivity].
Defined.

(** C20: the key positions point at the keys: reading the buffer of a parsed
    request at the recorded positions gives back the key arguments, in order,
    whatever bytes the arguments hold. *)
Theorem redis_parse_cmd_keys (realloc_ok : Z -> bool) (args : list bytes) (r : cmd)
  (t : cmd_type) (ks : list nat) :
  (forall n, realloc_ok n = true) -> zlen (request args) <= 2 ^ 30 ->
  fresh args r -> spec_parse args = Some (t, ks) ->
  exists r', redis_parse_cmd realloc_ok r = Parsed r' /\ result r' = CMD_PARSE_OK /\
    map (key_bytes r') (elem (keys r')) = map (fun i => default [] (args !! i)) ks.
Proof.
  intros Halloc Hsize Hr Hs. destruct (parse_meets realloc_ok args r) as (r' & Hp & Hm); try done.
  rewrite Hs in Hm. destruct Hm as (Hres & _ & _ & He & _ & Hb & _).
  exists r'. split; [done|]. split; [done|]. rewrite He, map_map. apply map_ext.
  intros i. by apply key_bytes_request.
Qed.

Lemma redis_parse_cmd_keys_witness :
  exists r', redis_parse_cmd (fun _ => true)
      (new_cmd (request [s "del"; s "a"; CRLF; s "$1"])) = Parsed r' /\
    result r' = CMD_PARSE_OK /\
    map (key_bytes r') (elem (keys r')) = [s "a"; CRLF; s "$1"].
Proof.
  apply (redis_parse_cmd_keys (fun _ => true) [s "del"; s "a"; CRLF; s "$1"] (new_cmd _)
           CMD_REQ_REDIS_DEL [1; 2; 3]%nat);
    [done | zcompute | repeat split; reflexivity | reflexivity].
Defined.

(** A command cut short after its name is accepted. *)
Example truncated_command_accepted :
  exists r', redis_parse_cmd (fun _ => true) (new_cmd (request [s "get"])) = Parsed r' /\
    result r' = CMD_PARSE_OK /\ type r' = CMD_REQ_REDIS_GET /\ elem (keys r') = [].
Proof. eexists. split; [vm_compute; reflexivity|]. repeat split; reflexivity. Qed.
