(* ===== verification/Reply.v ===== *)
(** * Replies

    [struct redisReply] of hiredis.h, the constructors of hiredis.c that the
    rest of the development uses on finished replies, and the classification of
    error replies of the cluster code ([cluster_reply_error_type]). *)

From S2P Require Import Prelude.

Definition REDIS_REPLY_STRING : Z := 1.
Definition REDIS_REPLY_ARRAY : Z := 2.
Definition REDIS_REPLY_INTEGER : Z := 3.
Definition REDIS_REPLY_NIL : Z := 4.
Definition REDIS_REPLY_STATUS : Z := 5.
Definition REDIS_REPLY_ERROR : Z := 6.

Definition REDIS_OK : Z := 0.
Definition REDIS_ERR : Z := -1.

Definition REDIS_ERR_IO : Z := 1.
Definition REDIS_ERR_OTHER : Z := 2.
Definition REDIS_ERR_EOF : Z := 3.
Definition REDIS_ERR_PROTOCOL : Z := 4.
Definition REDIS_ERR_OOM : Z := 5.
Definition REDIS_ERR_CLUSTER_TOO_MANY_REDIRECT : Z := 6.
Definition REDIS_ERR_TIMEOUT : Z := 7.

(** Flags of a [redisContext]. *)
Definition REDIS_BLOCK : Z := 0x1.
Definition REDIS_CONNECTED : Z := 0x2.
Definition REDIS_DISCONNECTING : Z := 0x4.
Definition REDIS_FREEING : Z := 0x8.
Definition REDIS_IN_CALLBACK : Z := 0x10.
Definition REDIS_SUBSCRIBED : Z := 0x20.
Definition REDIS_MONITORING : Z := 0x40.
Definition REDIS_REUSEADDR : Z := 0x80.
Definition REDIS_CONNECT_RETRIES : Z := 10.

Record timeval := mk_timeval { tv_sec : Z; tv_usec : Z }.

(** [rstr] holds the [len] bytes of [str] without the NUL that [createString]
    stores after them; [None] is the null pointer.  [element] is the vector of
    sub-replies, [None] for a null pointer in it, the empty list also for a null
    vector; [elements] is the field of that name, of type [size_t]. *)
#[warnings="-register-all"]
Inductive redisReply := mk_reply {
  rtype : Z;
  integer : Z;
  rlen : Z;
  rstr : option bytes;
  elements : Z;
  element : list (option redisReply)
}.

(** [createReplyObject] and the constructors of finished objects. *)
Definition createReplyObject (type : Z) : redisReply := mk_reply type 0 0 None 0 [].
(** [r->len = len] stores a [size_t] into an [int]. *)
Definition createStringObject (type : Z) (str : bytes) : redisReply :=
  mk_reply type 0 (i32 (zlen str)) (Some str) 0 [].
Definition createIntegerObject (value : Z) : redisReply :=
  mk_reply REDIS_REPLY_INTEGER value 0 None 0 [].
Definition createNilObject : redisReply := createReplyObject REDIS_REPLY_NIL.
(** [calloc] leaves null pointers; [r->elements = elements] stores an [int]
    into a [size_t]. *)
Definition createArrayObject (elements : Z) : redisReply :=
  mk_reply REDIS_REPLY_ARRAY 0 0 None (u64 elements)
    (if 0 <? elements then repeat None (Z.to_nat elements) else []).

(** An array reply whose elements are all there. *)
Definition array_reply (l : list redisReply) : redisReply :=
  mk_reply REDIS_REPLY_ARRAY 0 0 None (zlen l) (map Some l).

(** ** cluster_reply_error_type *)

Definition CLUSTER_NOT_ERR : Z := 0.
Definition CLUSTER_ERR_MOVED : Z := 1.
Definition CLUSTER_ERR_ASK : Z := 2.
Definition CLUSTER_ERR_TRYAGAIN : Z := 3.
Definition CLUSTER_ERR_CROSSSLOT : Z := 4.
Definition CLUSTER_ERR_CLUSTERDOWN : Z := 5.
Definition CLUSTER_ERR_SENTINEL : Z := 6.

(** [(int)strlen(pat) < reply->len && strncmp(reply->str, pat, strlen(pat)) == 0];
    [pat] holds no NUL, so a NUL in [str] is a difference like any other. *)
Definition reply_starts (r : redisReply) (pat : bytes) : bool :=
  (zlen pat <? rlen r) &&
  match rstr r with
  | Some str => bool_decide (take (length pat) str = pat)
  | None => false
  end.

Definition cluster_reply_error_type (reply : option redisReply) : Z :=
  match reply with
  | None => REDIS_ERR
  | Some r =>
      if rtype r =? REDIS_REPLY_ERROR then
        if reply_starts r (s "MOVED") then CLUSTER_ERR_MOVED
        else if reply_starts r (s "ASK") then CLUSTER_ERR_ASK
        else if reply_starts r (s "TRYAGAIN") then CLUSTER_ERR_TRYAGAIN
        else if reply_starts r (s "CROSSSLOT") then CLUSTER_ERR_CROSSSLOT
        else if reply_starts r (s "CLUSTERDOWN") then CLUSTER_ERR_CLUSTERDOWN
        else CLUSTER_ERR_SENTINEL
      else CLUSTER_NOT_ERR
  end.

(** [error_type > CLUSTER_NOT_ERR && error_type < CLUSTER_ERR_SENTINEL]: the
    errors that make the client try again. *)
Definition is_redirection (error_type : Z) : bool :=
  (CLUSTER_NOT_ERR <? error_type) && (error_type <? CLUSTER_ERR_SENTINEL).

(** The five error texts start differently: the order of the tests is
    irrelevant. *)
Lemma reply_starts_app r pat rest :
  rstr r = Some (pat ++ rest) -> rlen r = zlen (pat ++ rest) -> rest <> [] ->
  reply_starts r pat = true.
Proof.
  intros Hs Hl Hr. unfold reply_starts. rewrite Hs, Hl, take_app_length, zlen_app.
  rewrite bool_decide_eq_true_2 by done.
  destruct rest; [done|]. rewrite zlen_cons. pose proof (zlen_nonneg rest). lia.
Qed.
