(* ===== verification/ClusterSlot.v ===== *)
(** * hircluster.c: hash slots and slot lookup

    [keyHashSlot] with its hash tag rule, and the two ways to find the node of
    a slot: the table [node_get_by_table] and the binary search
    [node_get_by_slot] over the sorted slot regions. *)

From S2P Require Import Prelude Crc16 Hiarray.

Definition REDIS_CLUSTER_SLOTS : Z := 16384.

(** ** keyHashSlot *)

(** [for (i = ...; i < keylen; i++) if (key[i] == c) break;] from the suffix of
    the key at [i]. *)
Fixpoint scan (c : ascii) (l : bytes) (i : Z) : Z :=
  match l with
  | [] => i
  | x :: l' => if bool_decide (x = c) then i else scan c l' (i + 1)
  end.

Definition keyHashSlot (key : bytes) : Z :=
  let keylen := zlen key in
  let i := scan "{" key 0 in
  if i =? keylen then Z.land (crc16 key keylen) 0x3FFF else
  let e := scan "}" (drop (Z.to_nat (i + 1)) key) (i + 1) in
  if (e =? keylen) || (e =? i + 1) then Z.land (crc16 key keylen) 0x3FFF else
  Z.land (crc16 (drop (Z.to_nat (i + 1)) key) (e - i - 1)) 0x3FFF.

(** The part of a key that is hashed, as the cluster specification words it:
    what is between the first "{" and the first "}" after it, if there is such
    a pair and something between; otherwise the whole key. *)
Inductive hash_tag (key : bytes) : bytes -> Prop :=
| tag_between pre tag rest :
    key = pre ++ "{"%char :: tag ++ "}"%char :: rest ->
    "{"%char ∉ pre -> "}"%char ∉ tag -> tag <> [] -> hash_tag key tag
| tag_empty pre rest :
    key = pre ++ "{"%char :: "}"%char :: rest -> "{"%char ∉ pre -> hash_tag key key
| tag_unclosed pre rest :
    key = pre ++ "{"%char :: rest -> "{"%char ∉ pre -> "}"%char ∉ rest ->
    hash_tag key key
| tag_absent : "{"%char ∉ key -> hash_tag key key.

Lemma scan_absent c l : forall i, c ∉ l -> scan c l i = i + zlen l.
Proof.
  induction l as [|x l IH]; intros i Hc; cbn [scan]; [rewrite zlen_nil; lia|].
  rewrite bool_decide_eq_false_2 by set_solver. rewrite IH by set_solver. zlen_lia.
Qed.

Lemma scan_present c l rest : forall i,
  c ∉ l -> scan c (l ++ c :: rest) i = i + zlen l.
Proof.
  induction l as [|x l IH]; intros i Hc; cbn [scan app].
  - rewrite bool_decide_eq_true_2 by done. rewrite zlen_nil. lia.
  - rewrite bool_decide_eq_false_2 by set_solver. rewrite IH by set_solver. zlen_lia.
Qed.

(** The first occurrence of a byte. *)
Lemma first_occurrence (c : ascii) (l : bytes) :
  c ∉ l \/ exists pre rest, l = pre ++ c :: rest /\ c ∉ pre.
Proof.
  induction l as [|x l IH]; [left; set_solver|].
  destruct (decide (x = c)) as [->|Hx]; [right; exists [], l; split; [done|set_solver]|].
  destruct IH as [H|(pre & rest & -> & H)]; [left; set_solver|].
  right. exists (x :: pre), rest. split; [done|set_solver].
Qed.

Lemma first_occurrence_unique (c : ascii) pre rest pre' rest' :
  pre ++ c :: rest = pre' ++ c :: rest' -> c ∉ pre -> c ∉ pre' -> pre = pre' /\ rest = rest'.
Proof.
  revert pre'. induction pre as [|x pre IH]; intros [|y pre'] He H H'; cbn in He;
    simplify_eq; [done|set_solver|set_solver|].
  destruct (IH pre') as [-> ->]; [done|set_solver|set_solver|done].
Qed.

Lemma hash_tag_exists key : exists tag, hash_tag key tag.
Proof.
  destruct (first_occurrence "{" key) as [H|(pre & rest & E & H)].
  { exists key. by apply tag_absent. }
  destruct (first_occurrence "}" rest) as [H2|(tag & rest2 & E2 & H2)].
  { exists key. by eapply tag_unclosed. }
  subst rest. destruct tag as [|x tag].
  - exists key. by eapply tag_empty.
  - exists (x :: tag). by eapply tag_between.
Qed.

Lemma hash_tag_unique key tag tag' : hash_tag key tag -> hash_tag key tag' -> tag = tag'.
Proof.
  intros H H'.
  destruct H as [pre tag rest E H1 H2 H3|pre rest E H1|pre rest E H1 H2|H1];
  destruct H' as [pre' tag' rest' E' H1' H2' H3'|pre' rest' E' H1'|pre' rest' E' H1' H2'|H1'];
    try done; try (exfalso; set_solver);
    rewrite E in E'; apply first_occurrence_unique in E' as [-> E']; try done; try set_solver.
  - apply first_occurrence_unique in E' as [-> _]; done.
  - apply (first_occurrence_unique _ _ _ []) in E' as [-> _]; [done|done|set_solver].
  - apply (first_occurrence_unique _ []) in E' as [<- _]; [done|set_solver|done].
Qed.

Lemma slot_of_hash h : 0 <= Z.land h 0x3FFF < REDIS_CLUSTER_SLOTS /\
  Z.land h 0x3FFF = h mod REDIS_CLUSTER_SLOTS.
Proof.
  change 0x3FFF with (Z.ones 14). rewrite Z.land_ones by lia.
  unfold REDIS_CLUSTER_SLOTS. change (2 ^ 14) with 16384.
  split; [apply Z.mod_pos_bound; lia|done].
Qed.

Lemma crc16_prefix l rest : crc16 (l ++ rest) (zlen l) = crc16 l (zlen l).
Proof.
  unfold crc16, zlen. by rewrite Nat2Z.id, take_app_length, take_ge by lia.
Qed.

Lemma keyHashSlot_tag key tag :
  hash_tag key tag -> keyHashSlot key = crc16 tag (zlen tag) mod REDIS_CLUSTER_SLOTS.
Proof.
  intros H. rewrite <- (proj2 (slot_of_hash (crc16 tag (zlen tag)))). unfold keyHashSlot.
  destruct H as [pre tag rest E H1 H2 H3|pre rest E H1|pre rest E H1 H2|H1].
  - rewrite E, scan_present, Z.add_0_l by done.
    replace (Z.to_nat (zlen pre + 1)) with (length (pre ++ ["{"%char]))
      by (rewrite length_app; unfold zlen; cbn; lia).
    rewrite (cons_middle "{"%char), app_assoc, drop_app_length, scan_present by done.
    assert (0 < zlen tag) by (destruct tag; [done|zlen_lia]).
    destruct (Z.eqb_spec (zlen pre) (zlen ((pre ++ ["{"%char]) ++ tag ++ "}"%char :: rest)));
      [zlen_lia|].
    match goal with |- context [if ?b then _ else _] => replace b with false by zlen_lia end.
    replace (_ - zlen pre - 1) with (zlen tag) by lia. by rewrite crc16_prefix.
  - rewrite E, scan_present, Z.add_0_l by done.
    replace (Z.to_nat (zlen pre + 1)) with (length (pre ++ ["{"%char]))
      by (rewrite length_app; unfold zlen; cbn; lia).
    rewrite (cons_middle "{"%char), app_assoc, drop_app_length. cbn [scan].
    rewrite bool_decide_eq_true_2 by done. rewrite Z.eqb_refl, orb_true_r. by case_match.
  - rewrite E, scan_present, Z.add_0_l by done.
    replace (Z.to_nat (zlen pre + 1)) with (length (pre ++ ["{"%char]))
      by (rewrite length_app; unfold zlen; cbn; lia).
    rewrite (cons_middle "{"%char), app_assoc, drop_app_length, scan_absent by done.
    case_match; [done|]. by replace (_ =? _) with true by zlen_lia.
  - rewrite scan_absent, Z.add_0_l by done. by rewrite Z.eqb_refl.
Qed.

(** C21: [keyHashSlot] hashes exactly the hash tag of the key: the tag exists,
    is unique, and the slot is its CRC16 modulo 16384. *)
Theorem keyHashSlot_hash_tag (key : bytes) :
  exists tag, hash_tag key tag /\ (forall tag', hash_tag key tag' -> tag' = tag) /\
    keyHashSlot key = crc16 tag (zlen tag) mod REDIS_CLUSTER_SLOTS.
Proof.
  destruct (hash_tag_exists key) as [tag Ht]. exists tag. split; [done|].
  split; [|by apply keyHashSlot_tag]. intros tag' Ht'. by eapply hash_tag_unique.
Qed.

Lemma keyHashSlot_range key : 0 <= keyHashSlot key < REDIS_CLUSTER_SLOTS.
Proof.
  destruct (hash_tag_exists key) as [tag Ht]. rewrite (keyHashSlot_tag _ _ Ht).
  unfold REDIS_CLUSTER_SLOTS. apply Z.mod_pos_bound. lia.
Qed.

(** ** node_get_by_slot *)

Record cluster_slot (N : Type) := mk_slot { sl_start : Z; sl_end : Z; sl_node : N }.
Arguments mk_slot {N}.
Arguments sl_start {N}.
Arguments sl_end {N}.
Arguments sl_node {N}.

(** What a search does; [SearchOutside] is an access outside the array. *)
Inductive search_result (N : Type) :=
| SearchNode (n : N)
| SearchNull
| SearchOutside
| SearchFuel.
Arguments SearchNode {N}.
Arguments SearchNull {N}.
Arguments SearchOutside {N}.
Arguments SearchFuel {N}.

Section search.
Context {N : Type}.
Implicit Types (slots : hiarray (cluster_slot N)).

(** The [do ... while (!stop)] loop; [start], [end] and [middle] are
    [uint32_t]. *)
Fixpoint search_loop (fuel : nat) slots (slot_num first last : Z) : search_result N :=
  match fuel with
  | O => SearchFuel
  | S fuel' =>
      let stop := last <=? first in
      let middle := if stop then last else u32 (first + u32 (last - first) / 2) in
      match hiarray_get slots middle with
      | None => SearchOutside
      | Some slot =>
          if slot_num <? sl_start slot then
            if stop then SearchNull
            else search_loop fuel' slots slot_num first (u32 (middle - 1))
          else if sl_end slot <? slot_num then
            if stop then SearchNull
            else search_loop fuel' slots slot_num (u32 (middle + 1)) last
          else SearchNode (sl_node slot)
      end
  end.

(** The gap between the ends shrinks at every iteration. *)
Definition node_get_by_slot (slots : option (hiarray (cluster_slot N))) (slot_num : Z)
  : search_result N :=
  if REDIS_CLUSTER_SLOTS <=? slot_num then SearchNull else
  match slots with
  | None => SearchNull
  | Some slots => search_loop (S (Z.to_nat (hiarray_n slots))) slots slot_num 0
                    (u32 (hiarray_n slots - 1))
  end.

(** [node_get_by_table]: [table] maps a slot to its entry of [cc->table]; a
    missing slot is NULL. *)
Definition node_get_by_table (table : gmap Z N) (slot_num : Z) : option N :=
  if REDIS_CLUSTER_SLOTS <=? slot_num then None
  else table !! slot_num.

(** The regions as [cluster_slots_array_sort] leaves them. *)
Definition regions_sorted (l : list (cluster_slot N)) : Prop :=
  (forall i r, l !! i = Some r -> 0 <= sl_start r <= sl_end r) /\
  (forall i j r r', (i < j)%nat -> l !! i = Some r -> l !! j = Some r' ->
     sl_end r < sl_start r').

Definition covers (r : cluster_slot N) (slot_num : Z) : Prop :=
  sl_start r <= slot_num <= sl_end r.

Lemma search_loop_spec fuel slots slot_num : forall first last,
  hiarray_wf slots -> regions_sorted (elem slots) ->
  (exists r, elem slots !! 0%nat = Some r /\ sl_start r <= slot_num) ->
  0 <= first <= nelem slots -> 0 <= last < nelem slots -> first <= last + 1 ->
  last - first + 1 < Z.of_nat fuel ->
  (forall i r, elem slots !! i = Some r -> covers r slot_num ->
     first <= Z.of_nat i <= last) ->
  (exists i r, elem slots !! i = Some r /\ covers r slot_num /\
     search_loop fuel slots slot_num first last = SearchNode (sl_node r)) \/
  ((forall i r, elem slots !! i = Some r -> ~ covers r slot_num) /\
     search_loop fuel slots slot_num first last = SearchNull).
Proof.
  induction fuel as [|fuel IH]; intros first last Hw Hsort Hlow Hf Hl Hfl Hfuel Hin; [lia|].
  cbn [search_loop]. pose proof Hw as (Hn & Hna & Hcap).
  set (stop := last <=? first).
  set (middle := if stop then last else u32 (first + u32 (last - first) / 2)).
  assert (0 <= middle < nelem slots /\ (last <= first -> middle = last) /\
          (first < last -> first <= middle < last)) as (Hm & Hm1 & Hm2).
  { unfold middle, stop. destruct (Z.leb_spec last first); [lia|].
    rewrite (u32_small (last - first)) by lia.
    pose proof (Z.div_le_upper_bound (last - first) 2 (last - first) ltac:(lia) ltac:(lia)).
    pose proof (Z.div_lt (last - first) 2 ltac:(lia) ltac:(lia)).
    pose proof (Z.div_pos (last - first) 2 ltac:(lia) ltac:(lia)).
    rewrite u32_small by lia. lia. }
  rewrite (hiarray_get_spec slots middle Hw Hm).
  destruct (lookup_lt_is_Some_2 (elem slots) (Z.to_nat middle)) as [r Hr];
    [unfold zlen in Hn; lia|]. rewrite Hr.
  destruct Hsort as [Hpos Hsort]. destruct Hlow as (r0 & Hr0 & Hlow).
  (* a region that covers the slot lies strictly on the right side *)
  assert (forall i r', elem slots !! i = Some r' -> covers r' slot_num ->
            (slot_num < sl_start r -> Z.of_nat i < middle) /\
            (sl_end r < slot_num -> middle < Z.of_nat i)) as Hside.
  { intros i r' Hi [Hc1 Hc2]. pose proof (Hpos _ _ Hr). pose proof (Hpos _ _ Hi).
    destruct (lt_eq_lt_dec i (Z.to_nat middle)) as [[Hlt|He]|Hgt].
    - pose proof (Hsort _ _ _ _ Hlt Hi Hr). lia.
    - subst i. rewrite Hr in Hi. simplify_eq. lia.
    - pose proof (Hsort _ _ _ _ Hgt Hr Hi). lia. }
  destruct (Z.ltb_spec slot_num (sl_start r)) as [Hlt|Hge].
  - assert (0 < middle) as Hmp.
    { destruct (decide (middle = 0)) as [E|E]; [|lia]. rewrite E in Hr. change (Z.to_nat 0) with 0%nat in Hr.
      rewrite Hr0 in Hr. simplify_eq. lia. }
    destruct stop eqn:Es.
    + right. split; [|done]. intros i r' Hi Hc. pose proof (Hin i r' Hi Hc).
      destruct (Hside i r' Hi Hc) as [Hs _]. specialize (Hs Hlt). unfold stop in Es. lia.
    + unfold stop in Es. rewrite u32_small by lia. apply IH; [done|done|eauto|lia..|].
      intros i r' Hi Hc. pose proof (Hin i r' Hi Hc).
      destruct (Hside i r' Hi Hc) as [Hs _]. specialize (Hs Hlt). lia.
  - destruct (Z.ltb_spec (sl_end r) slot_num) as [Hgt|Hle].
    + destruct stop eqn:Es.
      * right. split; [|done]. intros i r' Hi Hc. pose proof (Hin i r' Hi Hc).
        destruct (Hside i r' Hi Hc) as [_ Hs]. specialize (Hs Hgt). unfold stop in Es. lia.
      * unfold stop in Es. rewrite u32_small by lia. apply IH; [done|done|eauto|lia..|].
        intros i r' Hi Hc. pose proof (Hin i r' Hi Hc).
        destruct (Hside i r' Hi Hc) as [_ Hs]. specialize (Hs Hgt). lia.
    + left. exists (Z.to_nat middle), r. split; [done|]. split; [split; lia|done].
Qed.
End search.



(** Below the first region the [uint32_t] end wraps and the search leaves the
    array. *)
Example node_get_by_slot_underflow :
  node_get_by_slot (Some {| elem := [mk_slot 100 200 "a"%char; mk_slot 300 400 "b"%char];
                            nelem := 2; esize := 8; nalloc := 2 |}) 50 = SearchOutside.
Proof. reflexivity. Qed.
