(* ===== verification/ClusterFragment.v ===== *)
(** * hircluster.c: splitting a command by slot and merging the replies

    [command_pre_fragment] groups the keys of MGET, DEL and MSET by slot and
    writes one command per slot; [command_post_fragment] merges the replies;
    [command_format_by_slot] chooses between one slot and splitting.

    [sub_commands] is a map from slots to commands.  A [struct cmd *] in
    [frag_seq] points into that table, one command per slot, so [frag_seq] is a
    list of slots.  Key positions are offsets in the buffer of the original
    command, which the sub-commands share until their own buffer is written.
    Buffers are blocks with bounds checked writes; [num_str] is the 12 byte
    scratch buffer, whose old contents matter to [_hi_itoa]. *)

From S2P Require Import Prelude Hiutil Hiarray Resp Command CommandParser CommandSpec Crc16 ClusterSlot Reply.


(** The error a function stores in the cluster context: type and text. *)
Definition cc_error : Type := Z * bytes.
Definition err_oom : cc_error := (REDIS_ERR_OOM, s "Out of memory").

(** Results: a value, a [goto done] with an error, or an access outside a
    buffer. *)
Abbreviation res := (outcome cc_error).

Section fragment.
Context (malloc_ok : Z -> bool).

(** ** Grouping the keys *)

(** The scan of an MSET value length: skip to the first digit, read the
    digits; the result is the position after them and the number. *)
Fixpoint scan_digits (l : bytes) (p len : Z) : option (Z * Z) :=
  match l with
  | [] => None
  | c :: l' => if isdigit c then scan_digits l' (p + 1) (u32 (len * 10 + digit_val c))
               else Some (p, len)
  end.
Fixpoint scan_len (l : bytes) (p : Z) : option (Z * Z) :=
  match l with
  | [] => None
  | c :: l' => if isdigit c then scan_digits l p 0 else scan_len l' (p + 1)
  end.

(** [sub_kp->remain_len] of an MSET key that ends at [e]. *)
Definition mset_remain (b : bytes) (e : Z) : option Z :=
  r ← scan_len (drop (Z.to_nat (e + 1)) b) (e + 1);
  Some (u32 (r.2 + 2 * 2 + (r.1 - e))).

(** Assignment to [remain_len] of the key just pushed. *)
Definition set_remain (ks : hiarray keypos) (kp : keypos) (remain : Z) : hiarray keypos :=
  mk_hiarray (<[(length (elem ks) - 1)%nat := mk_keypos (kp_start kp) (kp_end kp) remain]> (elem ks))
    (nelem ks) (esize ks) (nalloc ks).

(** The state of the first loop: [sub_commands], the command counter of
    [command_get], [command->frag_seq] and the last [slot_num]. *)
Record grouping := mk_grouping {
  subs : gmap Z cmd;
  next_id : Z;
  frag : list Z;
  last_slot : Z
}.

(** One iteration of [for(i = 0; i < key_count; i ++)]. *)
Definition group_key (command : cmd) (g : grouping) (kp : keypos) : res grouping :=
  let slot := keyHashSlot (key_bytes command kp) in
  if (slot <? 0) || (REDIS_CLUSTER_SLOTS <=? slot)
  then Err (REDIS_ERR_OTHER, s "keyHashSlot return error") else
  let! (sub, next) :=
    match subs g !! slot with
    | Some c => Ok (c, next_id g)
    | None => match command_get malloc_ok (next_id g) with
              | Some c => Ok (c, u64 (next_id g + 1))
              | None => Err err_oom
              end
    end in
  match hiarray_push malloc_ok (keys sub) (mk_keypos (kp_start kp) (kp_end kp) 0) with
  | PushNull => Err err_oom
  | PushOutOfBounds => Bad
  | Pushed ks =>
      let key_len := u32 (kp_end kp - kp_start kp) in
      let clen1 := u32 (clen sub + u32 (key_len + uint_len key_len)) in
      let! (ks, clen2) :=
        if bool_decide (type command = CMD_REQ_REDIS_MSET) then
          let! remain := access (mset_remain (buf (initial command)) (kp_end kp)) in
          Ok (set_remain ks kp remain, u32 (clen1 + remain))
        else Ok (ks, clen1) in
      let c := mk_cmd (id sub) (result sub) (errstr sub) (type sub) (cmd_buf sub)
                 clen2 ks (narg_start sub) (narg_end sub) (u32 (narg sub + 1))
                 (quit sub) (noforward sub) slot in
      Ok (mk_grouping (<[slot := c]> (subs g)) next (frag g ++ [slot]) slot)
  end.

Fixpoint group_keys (command : cmd) (kps : list keypos) (g : grouping) : res grouping :=
  match kps with
  | [] => Ok g
  | kp :: kps' => let! g' := group_key command g kp in group_keys command kps' g'
  end.

(** ** Writing a sub-command *)

(** The block [sub_command->cmd] and the index [idx] of the next byte. *)
Definition put (w : bytes * Z) (l : bytes) : res (bytes * Z) :=
  let! b := access (blit w.1 w.2 l) in Ok (b, w.2 + zlen l).

(** [hi_itoa(num_str, n); num_str_len = strlen(num_str);] *)
Definition itoa_str (num_str : bytes) (n : Z) : res (bytes * bytes) :=
  let! b := access (hi_itoa num_str n) in
  let! str := access (c_string b) in Ok (b, str).

(** One key: "$", its length, CRLF, then [key_len + extra] bytes of the
    original command; MGET and DEL end it with CRLF of their own. *)
Definition put_key (command : cmd) (mset : bool) (st : bytes * (bytes * Z)) (kp : keypos)
  : res (bytes * (bytes * Z)) :=
  let '(num_str, w) := st in
  let key_len := u32 (kp_end kp - kp_start kp) in
  let! (num_str, str) := itoa_str num_str (i32 key_len) in
  let! w := put w ["$"%char] in
  let! w := put w str in
  let! w := put w CRLF in
  if mset then
    let! w := put w (slice (buf (initial command)) (kp_start kp)
                       (kp_start kp + u32 (key_len + remain_len kp))) in
    Ok (num_str, w)
  else
    let! w := put w (slice (buf (initial command)) (kp_start kp) (kp_start kp + key_len)) in
    let! w := put w CRLF in
    Ok (num_str, w).

Fixpoint put_keys (command : cmd) (mset : bool) (kps : list keypos)
  (st : bytes * (bytes * Z)) : res (bytes * (bytes * Z)) :=
  match kps with
  | [] => Ok st
  | kp :: kps' => let! st' := put_key command mset st kp in put_keys command mset kps' st'
  end.

(** The three branches on the command type: what is added to [clen] per key
    and for the header, the literal name, and the number of arguments. *)
Record branch := mk_branch {
  per_key : Z; header_len : Z; literal : bytes; narg_of : Z -> Z; is_mset : bool
}.
Definition branch_of (t : cmd_type) : option branch :=
  match t with
  | CMD_REQ_REDIS_MGET =>
      Some (mk_branch 5 13 (CRLF ++ s "$4" ++ CRLF ++ s "mget" ++ CRLF)
              (fun n => u32 (n + 1)) false)
  | CMD_REQ_REDIS_DEL =>
      Some (mk_branch 5 12 (CRLF ++ s "$3" ++ CRLF ++ s "del" ++ CRLF)
              (fun n => u32 (n + 1)) false)
  | CMD_REQ_REDIS_MSET =>
      Some (mk_branch 3 13 (CRLF ++ s "$4" ++ CRLF ++ s "mset" ++ CRLF)
              (fun n => u32 (u32 (n * 2) + 1)) true)
  | _ => None
  end.

(** The body of [for (i = 0; i < REDIS_CLUSTER_SLOTS; i++)] for a slot with a
    sub-command; [NOT_REACHED()] is empty in the default build, so a command
    of another type would be listed without a buffer. *)
Definition write_sub (command sub : cmd) (num_str : bytes) : res (cmd * bytes) :=
  match branch_of (type command) with
  | None => Ok (with_type sub (type command) (quit sub) (noforward sub), num_str)
  | Some br =>
      let clen1 := u32 (clen sub + per_key br * narg sub) in
      let narg' := narg_of br (narg sub) in
      let! (num_str, str) := itoa_str num_str (i32 narg') in
      let clen2 := u32 (clen1 + (header_len br + zlen str)) in
      if negb (malloc_ok clen2) then Err err_oom else
      let w := (repeat NUL (Z.to_nat clen2), 0) in
      let! w := put w ["*"%char] in
      let! w := put w str in
      let! w := put w (literal br) in
      let! (num_str, w) := put_keys command (is_mset br) (elem (keys sub)) (num_str, w) in
      Ok (mk_cmd (id sub) (result sub) (errstr sub) (type command) w.1 clen2 (keys sub)
            (narg_start sub) (narg_end sub) narg' (quit sub) (noforward sub) (slot_num sub),
          num_str)
  end.

(** The loop over all the slots, in order: [listAddNodeTail] per command. *)
Fixpoint write_subs (command : cmd) (slots : list Z) (m : gmap Z cmd) (num_str : bytes)
  (commands : list cmd) : res (list cmd) :=
  match slots with
  | [] => Ok commands
  | sl :: slots' =>
      match m !! sl with
      | None => write_subs command slots' m num_str commands
      | Some sub =>
          let! (c, num_str) := write_sub command sub num_str in
          write_subs command slots' m num_str (commands ++ [c])
      end
  end.

Definition all_slots : list Z := seqZ 0 REDIS_CLUSTER_SLOTS.

(** What [command_pre_fragment] leaves: its result, [commands],
    [command->frag_seq] and [command->slot_num]. *)
Record fragments := mk_fragments {
  fr_slot : Z;
  fr_commands : list cmd;
  fr_seq : option (list Z);
  fr_command_slot : Z
}.

(** [num_str] is uninitialised; [id] is the counter of [command_get].  On
    [Err] the function returns -1 (the allocation of [sub_commands] and
    [frag_seq] fails before a slot is known). *)
Definition command_pre_fragment (command : cmd) (cmd_id : Z) (num_str : bytes)
  : res fragments :=
  let key_count := hiarray_n (keys command) in
  if negb (malloc_ok (u64 (REDIS_CLUSTER_SLOTS * 8))) then Err err_oom else
  if negb (malloc_ok (u64 (key_count * 8))) then Err err_oom else
  let! g := group_keys command (elem (keys command)) (mk_grouping ∅ cmd_id [] (-1)) in
  let! commands := write_subs command all_slots (subs g) num_str [] in
  if (0 <=? last_slot g) && (zlen commands =? 1) then
    Ok (mk_fragments (last_slot g) [] None (last_slot g))
  else Ok (mk_fragments (last_slot g) commands (Some (frag g)) (slot_num command)).
End fragment.
