(* ===== verification/ClusterFragmentSpec.v ===== *)
(** * The fragments of a command are requests

    [command_pre_fragment] against the protocol: every sub-command is exactly
    the request of the keys (and values) of its slot, in their original order,
    and its buffer is filled to the last byte. *)

From stdpp Require Import sorting.
From S2P Require Import Prelude Hiutil Hiarray Resp Command CommandParser CommandSpec Crc16 ClusterSlot Reply ClusterFragment.

Lemma elem_of_all_slots sl : 0 <= sl < REDIS_CLUSTER_SLOTS -> sl ∈ all_slots.
Proof. intros H. apply elem_of_seqZ. unfold REDIS_CLUSTER_SLOTS in *. lia. Qed.

Lemma StronglySorted_seqZ n : forall m, StronglySorted Z.lt (seqZ m n).
Proof.
  destruct (decide (0 <= n)) as [Hn|]; [|intros m; rewrite seqZ_nil by lia; constructor].
  revert n Hn. apply (natlike_ind (fun n => forall m, StronglySorted Z.lt (seqZ m n))); [constructor|].
  intros n Hn IH m. rewrite seqZ_cons by lia. rewrite Z.pred_succ. constructor; [apply IH|].
  apply Forall_forall. intros x Hx%elem_of_seqZ. lia.
Qed.

Lemma StronglySorted_filter {A} (R : relation A) (P : A -> Prop) `{forall x, Decision (P x)} l :
  StronglySorted R l -> StronglySorted R (filter P l).
Proof.
  induction 1 as [|x l Hl IH Hx]; [constructor|]. rewrite filter_cons. destruct (decide _); [|done].
  constructor; [done|]. rewrite Forall_forall in *. intros y [_ Hy]%list_elem_of_filter. by apply Hx.
Qed.

Lemma all_slots_sorted : StronglySorted Z.lt all_slots.
Proof. apply StronglySorted_seqZ. Qed.

(** The list of the 16384 slots is only unfolded by evaluation. *)
#[local] Opaque all_slots.

(** ** Writing into a block with room *)

Lemma put_room pre l k :
  (length l <= k)%nat ->
  put (pre ++ repeat NUL k, zlen pre) l =
  Ok ((pre ++ l) ++ repeat NUL (k - length l), zlen (pre ++ l)).
Proof.
  intros Hk. unfold put. cbn [fst snd].
  replace k with (length l + (k - length l))%nat at 1 by lia.
  rewrite repeat_app, blit_app.
  - cbn [access outcome_bind]. by rewrite zlen_app, <- app_assoc.
  - unfold zlen. by rewrite repeat_length.
Qed.

Lemma dec_length_int n : 0 < n < 2 ^ 31 -> zlen (dec n) <= 10.
Proof.
  intros Hn. destruct (dec_length n ltac:(lia)) as (_ & _ & Hd). specialize (Hd ltac:(lia)).
  destruct (Z.le_gt_cases (zlen (dec n)) 10); [done|].
  pose proof (Z.pow_le_mono_r 10 10 (zlen (dec n) - 1) ltac:(lia) ltac:(lia)). lia.
Qed.

Lemma itoa_str_dec num_str n :
  zlen num_str = 12 -> 0 < n < 2 ^ 31 ->
  exists num_str', itoa_str num_str n = Ok (num_str', dec n) /\ zlen num_str' = 12.
Proof.
  intros Hs Hn. pose proof (dec_length_int n Hn) as Hl.
  assert (dec_signed n = dec n) as Hds.
  { unfold dec_signed. destruct (Z.ltb_spec n 0); [lia|done]. }
  unfold itoa_str. rewrite hi_itoa_buffer by (rewrite ?Hds; lia). rewrite Hds.
  cbn [access outcome_bind]. rewrite c_string_app by (rewrite <- Hds; apply dec_signed_no_NUL).
  cbn [access outcome_bind]. eexists. split; [done|].
  rewrite zlen_app, zlen_cons. unfold zlen in *. rewrite length_drop. lia.
Qed.

(** ** Items: a key with what it brings to its fragment *)

(** [it_tail] is what follows the key in the fragment: CRLF, and for MSET the
    value too. *)
Record item := mk_item { it_kp : keypos; it_key : bytes; it_tail : bytes; it_args : list bytes }.

Definition it_slot (it : item) : Z := keyHashSlot (it_key it).
Definition out (it : item) : bytes := bulks (it_args it).
Definition outs (its : list item) : bytes := concat (map out its).
Definition at_slot (sl : Z) (its : list item) : list item := filter (fun it => it_slot it = sl) its.

Lemma at_slot_cons sl it its :
  at_slot sl (it :: its) =
  if decide (it_slot it = sl) then it :: at_slot sl its else at_slot sl its.
Proof. unfold at_slot. by rewrite filter_cons. Qed.

Lemma at_slot_app sl l k : at_slot sl (l ++ k) = at_slot sl l ++ at_slot sl k.
Proof. unfold at_slot. by rewrite filter_app. Qed.

Section spec.
Context (malloc_ok : Z -> bool) (command : cmd) (mset : bool).
Hypothesis Halloc : forall n, malloc_ok n = true.
Hypothesis Hmset : mset = bool_decide (type command = CMD_REQ_REDIS_MSET).

Definition it_remain (it : item) : Z := if mset then zlen (it_tail it) else 0.

Record item_ok (it : item) : Prop := {
  item_key : key_bytes command (it_kp it) = it_key it;
  item_len : kp_end (it_kp it) - kp_start (it_kp it) = zlen (it_key it);
  item_nonempty : it_key it <> [];
  item_out : out it = bulk_header (it_key it) ++ it_key it ++ it_tail it;
  item_count : zlen (it_args it) = if mset then 2 else 1;
  item_tail : if mset
    then mset_remain (buf (initial command)) (kp_end (it_kp it)) = Some (zlen (it_tail it)) /\
         slice (buf (initial command)) (kp_start (it_kp it))
           (kp_start (it_kp it) + (zlen (it_key it) + zlen (it_tail it))) =
           it_key it ++ it_tail it
    else it_tail it = CRLF /\
         slice (buf (initial command)) (kp_start (it_kp it))
           (kp_start (it_kp it) + zlen (it_key it)) = it_key it
}.

(** What the first loop adds to [clen] for an item. *)
Definition it_clen (it : item) : Z :=
  zlen (it_key it) + zlen (dec (zlen (it_key it))) + it_remain it.
Definition clens (its : list item) : Z := foldr (fun it n => it_clen it + n) 0 its.

Definition it_pos (it : item) : keypos :=
  mk_keypos (kp_start (it_kp it)) (kp_end (it_kp it)) (it_remain it).

(** The sub-command of a slot after its items [its]. *)
Record sub_ok (sl : Z) (its : list item) (c : cmd) : Prop := {
  sub_slot : slot_num c = sl;
  sub_keys : elem (keys c) = map it_pos its;
  sub_wf : hiarray_wf (keys c);
  sub_cap : nalloc (keys c) <= 2 * nelem (keys c) + 1;
  sub_narg : narg c = zlen its;
  sub_clen : clen c = clens its
}.

Definition slot_ok (sl : Z) (its : list item) (o : option cmd) : Prop :=
  match o with
  | None => its = []
  | Some c => its <> [] /\ sub_ok sl its c
  end.

Lemma clens_cons it its : clens (it :: its) = it_clen it + clens its.
Proof. done. Qed.

Lemma clens_app l k : clens (l ++ k) = clens l + clens k.
Proof. induction l as [|x l IH]; [done|]. cbn [app]. rewrite !clens_cons. lia. Qed.

Lemma outs_cons it its : outs (it :: its) = out it ++ outs its.
Proof. done. Qed.

Lemma outs_app l k : outs (l ++ k) = outs l ++ outs k.
Proof. unfold outs. by rewrite map_app, concat_app. Qed.

(** The bytes an item still lacks after the first loop. *)
Definition per_item : Z := if mset then 3 else 5.

Lemma zlen_out it : item_ok it -> zlen (out it) = it_clen it + per_item.
Proof.
  intros Hi. rewrite (item_out it Hi). pose proof (item_tail it Hi) as Ht.
  unfold it_clen, it_remain, per_item. rewrite !zlen_app, zlen_bulk_header.
  destruct mset; [lia|]. destruct Ht as [-> _]. rewrite zlen_CRLF. lia.
Qed.

Lemma zlen_outs its : Forall item_ok its -> zlen (outs its) = clens its + per_item * zlen its.
Proof.
  induction 1 as [|it its Hi _ IH]; [unfold outs; cbn; autorewrite with zlen; lia|].
  rewrite outs_cons, clens_cons, zlen_app, IH, zlen_out, zlen_cons by done. lia.
Qed.

Lemma it_clen_pos it : 0 <= it_clen it.
Proof. unfold it_clen, it_remain. destruct mset; zlen_lia. Qed.

Lemma clens_nonneg its : 0 <= clens its.
Proof.
  induction its as [|it its IH]; [done|]. rewrite clens_cons. pose proof (it_clen_pos it). lia.
Qed.

Lemma clens_at_slot sl its : clens (at_slot sl its) <= clens its.
Proof.
  induction its as [|it its IH]; [done|]. rewrite at_slot_cons, clens_cons.
  pose proof (it_clen_pos it). destruct (decide _); rewrite ?clens_cons; lia.
Qed.

Lemma zlen_at_slot sl its : zlen (at_slot sl its) <= zlen its.
Proof. unfold zlen, at_slot. apply inj_le, length_filter. Qed.

(** ** The first loop *)

Definition group_ok (dn : list item) (g : grouping) : Prop :=
  (forall sl, slot_ok sl (at_slot sl dn) (subs g !! sl)) /\
  frag g = map it_slot dn /\
  last_slot g = default (-1) (last (map it_slot dn)).

Lemma set_remain_push ks l kp' kp remain :
  elem ks = l ++ [kp'] ->
  elem (set_remain ks kp remain) = l ++ [mk_keypos (kp_start kp) (kp_end kp) remain].
Proof.
  intros He. unfold set_remain. cbn [elem]. rewrite He, length_app. cbn [length].
  rewrite Nat.add_sub. replace (length l) with (length l + 0)%nat by lia.
  by rewrite insert_app_r.
Qed.

(** A key that goes to the sub-command [c]. *)
Lemma push_item it sl its c :
  item_ok it -> sub_ok sl its c -> zlen its + 1 < 2 ^ 29 -> clens (its ++ [it]) < 2 ^ 32 ->
  it_slot it = sl ->
  exists ks, hiarray_push malloc_ok (keys c)
    (mk_keypos (kp_start (it_kp it)) (kp_end (it_kp it)) 0) = Pushed ks /\
  forall r s1 s2 q n, sub_ok sl (its ++ [it])
    (mk_cmd r s1 s2 (type c) (cmd_buf c)
      (u32 (u32 (clen c + u32 (zlen (it_key it) + uint_len (zlen (it_key it)))) + it_remain it))
      (if mset then set_remain ks (it_kp it) (it_remain it) else ks)
      (narg_start c) (narg_end c) (u32 (narg c + 1)) q n sl).
Proof.
  intros Hi Hc Hn Hb Hsl. pose proof (sub_wf _ _ _ Hc) as Hw.
  pose proof (hiarray_push_spec malloc_ok (keys c)
    (mk_keypos (kp_start (it_kp it)) (kp_end (it_kp it)) 0) Hw) as Hp.
  destruct (hiarray_push _ _ _) as [ks| |]; [|by rewrite Halloc in Hp; destruct Hp|done].
  exists ks. split; [done|]. intros r s1 s2 q n.
  destruct Hp as (He & Hne & Hle & _ & Hna). destruct Hw as (Hw1 & Hw2 & Hw3).
  pose proof (sub_keys _ _ _ Hc) as Hk. pose proof (sub_cap _ _ _ Hc) as Hcap.
  pose proof (sub_narg _ _ _ Hc) as Hna2. pose proof (sub_clen _ _ _ Hc) as Hcl.
  assert (nelem (keys c) = zlen its) as Hnc.
  { rewrite Hw1, Hk. unfold zlen. by rewrite length_map. }
  assert (nelem ks = zlen its + 1) as Hnk.
  { rewrite Hne, He, Hk. unfold zlen. rewrite length_app, length_map. cbn. lia. }
  rewrite Hk in He. pose proof (zlen_nonneg its).
  assert (elem (if mset then set_remain ks (it_kp it) (it_remain it) else ks) =
          map it_pos (its ++ [it])) as Hel.
  { rewrite map_app. cbn [map]. unfold it_pos at 2, it_remain. destruct mset; [|done].
    by erewrite set_remain_push. }
  assert (forall ks', nelem ks' = nelem ks -> nalloc ks' = nalloc ks ->
            elem ks' = map it_pos (its ++ [it]) ->
            hiarray_wf ks' /\ nalloc ks' <= 2 * nelem ks' + 1) as Hwf.
  { intros ks' H1 H2 H3. unfold hiarray_wf. rewrite H1, H2, H3, Hnk.
    assert (zlen (map it_pos (its ++ [it])) = zlen its + 1) as ->
      by (unfold zlen; rewrite length_map, length_app; cbn; lia).
    lia. }
  assert (hiarray_wf (if mset then set_remain ks (it_kp it) (it_remain it) else ks) /\
          nalloc (if mset then set_remain ks (it_kp it) (it_remain it) else ks) <=
          2 * nelem (if mset then set_remain ks (it_kp it) (it_remain it) else ks) + 1)
    as [Hwf1 Hwf2] by (apply Hwf; [by destruct mset|by destruct mset|done]).
  constructor; cbn; try done.
  - rewrite Hna2, zlen_app, zlen_singleton. apply u32_small. lia.
  - rewrite clens_app in Hb |- *. change (clens [it]) with (it_clen it + 0) in *.
    pose proof (clens_nonneg its). pose proof (item_len it Hi).
    unfold it_clen in Hb |- *. pose proof (zlen_nonneg (it_key it)).
    pose proof (zlen_nonneg (dec (zlen (it_key it)))).
    assert (0 <= it_remain it) by (unfold it_remain; destruct mset; zlen_lia).
    rewrite uint_len_dec, Hcl by lia.
    rewrite (u32_small (zlen (it_key it) + _)) by lia.
    rewrite (u32_small (clens its + _)) by lia. rewrite u32_small; lia.
Qed.

(** The command of a slot, made when it has none. *)
Lemma sub_for dn g sl : group_ok dn g ->
  exists c next, match subs g !! sl with
    | Some c => Ok (c, next_id g)
    | None => match command_get malloc_ok (next_id g) with
              | Some c => Ok (c, u64 (next_id g + 1))
              | None => Err err_oom
              end end = Ok (c, next) /\ sub_ok sl (at_slot sl dn) (with_slot_num c sl).
Proof.
  intros (Hs & _). pose proof (Hs sl) as Hsl. destruct (subs g !! sl) as [c|].
  - exists c, (next_id g). split; [done|]. destruct Hsl as [_ []]. by constructor.
  - cbn in Hsl. rewrite Hsl. unfold command_get, hiarray_create. rewrite !Halloc.
    cbn [mbind option_bind]. do 2 eexists. split; [done|]. constructor; try done;
    cbn; unfold hiarray_wf; cbn; rewrite ?zlen_nil; lia.
Qed.
(** The value of MSET is counted, other commands have none. *)
Lemma remain_counted it ks clen1 : item_ok it -> u32 clen1 = clen1 ->
  (if bool_decide (type command = CMD_REQ_REDIS_MSET) then
     let! remain := access (mset_remain (buf (initial command)) (kp_end (it_kp it))) in
     Ok (set_remain ks (it_kp it) remain, u32 (clen1 + remain))
   else Ok (ks, clen1)) =
  Ok (if mset then set_remain ks (it_kp it) (it_remain it) else ks, u32 (clen1 + it_remain it)) :> res _.
Proof.
  intros Hi Hc. rewrite <- Hmset. pose proof (item_tail it Hi) as Ht. unfold it_remain.
  destruct mset; [by destruct Ht as [-> _]|]. do 2 f_equal. by rewrite Z.add_0_r.
Qed.

Lemma group_key_ok dn it g :
  item_ok it -> group_ok dn g -> zlen dn + 1 < 2 ^ 29 -> clens (dn ++ [it]) < 2 ^ 32 ->
  exists g', group_key malloc_ok command g (it_kp it) = Ok g' /\ group_ok (dn ++ [it]) g'.
Proof.
  intros Hi Hg Hn Hb. pose proof Hg as (Hs & Hf & Hl). set (sl := it_slot it).
  pose proof (item_key it Hi) as Hk. pose proof (item_len it Hi) as Hlen.
  assert (clens (at_slot sl dn ++ [it]) < 2 ^ 32) as Hb1.
  { pose proof (clens_at_slot sl dn). rewrite clens_app in Hb |- *. lia. }
  pose proof (zlen_at_slot sl dn) as Hz.
  destruct (sub_for dn g sl) as (c & next & Hc & Hsub); [done|].
  destruct (push_item it sl (at_slot sl dn) (with_slot_num c sl)) as (ks & Hp & Hnew);
    [done|done|lia|done|done|].
  cbn [keys with_slot_num] in Hp.
  pose proof (keyHashSlot_range (it_key it)) as Hr.
  pose proof (zlen_nonneg (it_key it)).
  assert (zlen (it_key it) < 2 ^ 32) as Hsmall.
  { rewrite clens_app in Hb1. pose proof (clens_nonneg (at_slot sl dn)).
    change (clens [it]) with (it_clen it + 0) in Hb1. unfold it_clen, it_remain in Hb1.
    destruct mset; zlen_lia. }
  set (clen1 := u32 (clen c + u32 (zlen (it_key it) + uint_len (zlen (it_key it))))) in *.
  eexists. split.
  - unfold group_key. rewrite Hk. fold (it_slot it). fold sl. fold (it_slot it) in Hr. fold sl in Hr.
    replace ((sl <? 0) || (REDIS_CLUSTER_SLOTS <=? sl)) with false by lia.
    rewrite Hc. cbn [outcome_bind]. rewrite Hp. rewrite Hlen.
    rewrite (u32_small (zlen (it_key it))) by lia. fold clen1.
    rewrite remain_counted; [|done|apply u32_small, u32_range]. reflexivity.
  - split; [|split].
    + intros sl'. cbn [subs]. rewrite at_slot_app.
      destruct (decide (sl' = sl)) as [->|Hne].
      * rewrite lookup_insert_eq. rewrite at_slot_cons.
        rewrite decide_True by done. split; [by destruct (at_slot sl dn)|]. apply Hnew.
      * rewrite lookup_insert_ne by done. rewrite at_slot_cons.
        rewrite decide_False by (by intros <-). rewrite app_nil_r. apply Hs.
    + cbn [frag]. by rewrite Hf, map_app.
    + cbn [last_slot]. rewrite map_app. cbn [map]. by rewrite last_snoc.
Qed.

Lemma group_keys_ok its : forall dn g,
  Forall item_ok its -> group_ok dn g -> zlen (dn ++ its) < 2 ^ 29 ->
  clens (dn ++ its) < 2 ^ 32 ->
  exists g', group_keys malloc_ok command (map it_kp its) g = Ok g' /\
             group_ok (dn ++ its) g'.
Proof.
  induction its as [|it its IH]; intros dn g Hi Hg Hn Hb.
  { exists g. by rewrite app_nil_r. }
  apply Forall_cons in Hi as [Hi His]. cbn [group_keys map].
  rewrite cons_middle, app_assoc in Hn, Hb |- *.
  destruct (group_key_ok dn it g) as (g' & -> & Hg'); [done|done| | |].
  - zlen_lia.
  - rewrite clens_app in Hb. pose proof (clens_nonneg its). lia.
  - apply IH; done.
Qed.

(** ** The second loop *)

Lemma key_small it : item_ok it -> zlen (out it) < 2 ^ 31 ->
  0 < zlen (it_key it) < 2 ^ 31 /\ 0 <= zlen (it_key it) + zlen (it_tail it) < 2 ^ 31.
Proof.
  intros Hi Ho. rewrite (item_out it Hi) in Ho. pose proof (item_nonempty it Hi).
  assert (0 < zlen (it_key it)) by (destruct (it_key it); [done|zlen_lia]). zlen_lia.
Qed.

Ltac written :=
  lazymatch goal with
  | Hout : out ?it = _ |- Ok (_, (?p ++ repeat NUL ?n, _)) = Ok (_, (?q ++ repeat NUL ?m, _)) =>
      replace p with q by (rewrite Hout; rewrite <- ?app_assoc; cbn [app]; rewrite <- ?app_assoc; reflexivity);
      replace n with m by (rewrite Hout; repeat (rewrite length_app || cbn [length]);
                           cbn; lia)
  end; reflexivity.

Lemma put_key_ok it pre k num_str :
  item_ok it -> zlen num_str = 12 -> zlen (out it) < 2 ^ 31 -> (length (out it) <= k)%nat ->
  exists num_str', put_key command mset (num_str, (pre ++ repeat NUL k, zlen pre)) (it_pos it) =
    Ok (num_str', ((pre ++ out it) ++ repeat NUL (k - length (out it)), zlen (pre ++ out it))) /\
    zlen num_str' = 12.
Proof.
  intros Hi Hs Ho Hk. destruct (key_small it Hi Ho) as [Hkey Htail].
  pose proof (item_len it Hi) as Hlen. pose proof (item_tail it Hi) as Ht.
  pose proof (item_out it Hi) as Hout. unfold bulk_header in Hout.
  assert (length (out it) = 3 + length (dec (zlen (it_key it))) + length (it_key it) +
            length (it_tail it))%nat as Hlo
    by (rewrite Hout; repeat (rewrite length_app || cbn [length]); cbn; lia).
  destruct (itoa_str_dec num_str (zlen (it_key it))) as (ns & Hitoa & Hns); [done|lia|].
  exists ns. split; [|done]. unfold put_key. cbn [kp_start kp_end remain_len it_pos].
  rewrite Hlen, u32_small, i32_small, Hitoa by lia. cbn [outcome_bind].
  rewrite put_room by (cbn; lia). cbn [outcome_bind length].
  rewrite put_room by lia. cbn [outcome_bind].
  rewrite put_room by (cbn; lia). cbn [outcome_bind]. unfold it_remain.
  destruct mset.
  - destruct Ht as [_ Ht]. rewrite u32_small, Ht by lia.
    rewrite put_room by (rewrite length_app; cbn; lia). cbn [outcome_bind].
    written.
  - destruct Ht as [Ht1 Ht]. rewrite Ht. 
    rewrite put_room by (cbn; lia). cbn [outcome_bind].
    rewrite put_room by (rewrite Ht1 in Hlo; cbn in *; lia). cbn [outcome_bind].
    rewrite Ht1 in Hout. written.
Qed.

Lemma put_keys_ok its : forall pre k num_str,
  Forall item_ok its -> zlen num_str = 12 -> zlen (outs its) < 2 ^ 31 ->
  (length (outs its) <= k)%nat ->
  exists num_str', put_keys command mset (map it_pos its) (num_str, (pre ++ repeat NUL k, zlen pre)) =
    Ok (num_str', ((pre ++ outs its) ++ repeat NUL (k - length (outs its)), zlen (pre ++ outs its))) /\
    zlen num_str' = 12.
Proof.
  induction its as [|it its IH]; intros pre k num_str Hi Hs Ho Hk.
  { exists num_str. cbn. by rewrite app_nil_r, Nat.sub_0_r. }
  apply Forall_cons in Hi as [Hi His]. rewrite outs_cons in *.
  rewrite zlen_app in Ho. rewrite length_app in Hk.
  pose proof (zlen_nonneg (out it)). pose proof (zlen_nonneg (outs its)).
  destruct (put_key_ok it pre k num_str) as (ns & Hp & Hns); [done|done|lia|lia|].
  cbn [put_keys map]. rewrite Hp. cbn [outcome_bind].
  destruct (IH (pre ++ out it) (k - length (out it))%nat ns) as (ns' & Hp' & Hns');
    [done|done|lia|lia|].
  exists ns'. split; [|done]. by rewrite Hp', length_app, Nat.sub_add_distr, (app_assoc pre).
Qed.

(** The name a fragment starts with. *)
Definition lit_name : bytes :=
  match type command with
  | CMD_REQ_REDIS_MGET => s "mget" | CMD_REQ_REDIS_DEL => s "del" | _ => s "mset"
  end.
Hypothesis Hmulti : multi_key (type command) = true.

Lemma branch_of_multi :
  exists br, branch_of (type command) = Some br /\ literal br = CRLF ++ bulk lit_name /\
    header_len br = 1 + zlen (literal br) /\ per_key br = per_item /\
    is_mset br = mset /\
    forall n, 0 <= n < 2 ^ 30 -> narg_of br n = 1 + (if mset then 2 else 1) * n.
Proof.
  unfold lit_name, per_item. rewrite Hmset. clear Hmset. revert Hmulti.
  destruct (type command); try done; intros _; eexists; repeat split;
    intros n Hn; cbn [narg_of]; compute_decide;
    rewrite ?(u32_small (n * 2)), ?u32_small by lia; lia.
Qed.

Definition fragment_args (its : list item) : list bytes := lit_name :: concat (map it_args its).

Lemma bulks_concat its : bulks (concat (map it_args its)) = outs its.
Proof.
  induction its as [|it its IH]; [done|]. cbn [map concat]. by rewrite bulks_app, IH.
Qed.

Lemma zlen_fragment_args its : Forall item_ok its ->
  zlen (fragment_args its) = 1 + (if mset then 2 else 1) * zlen its.
Proof.
  intros Hi. unfold fragment_args. rewrite zlen_cons. f_equal.
  induction Hi as [|it its Hi _ IH]; [by destruct mset|].
  cbn [map concat]. rewrite zlen_app, IH, (item_count it Hi), zlen_cons. destruct mset; lia.
Qed.

Lemma write_sub_ok sl its c num_str :
  Forall item_ok its -> its <> [] -> sub_ok sl its c -> zlen num_str = 12 ->
  zlen (request (fragment_args its)) < 2 ^ 31 - 1 ->
  exists c' num_str', write_sub malloc_ok command c num_str = Ok (c', num_str') /\
    zlen num_str' = 12 /\ slot_num c' = sl /\ type c' = type command /\
    cmd_buf c' = request (fragment_args its) /\ clen c' = zlen (cmd_buf c').
Proof.
  intros Hi Hne Hc Hs Hsize.
  destruct branch_of_multi as (br & Hbr & Hlit & Hh & Hpk & Hms & Hnarg).
  pose proof (zlen_fragment_args its Hi) as Hn.
  pose proof (zlen_outs its Hi) as Ho. pose proof (clens_nonneg its).
  assert (0 < zlen its) as Hpos by (destruct its; [done|zlen_lia]).
  set (n := zlen (fragment_args its)) in *.
  assert (request (fragment_args its) = "*"%char :: dec n ++ literal br ++ outs its) as Hreq.
  { unfold request, request_header. fold n. unfold fragment_args.
    rewrite bulks_cons, bulks_concat, Hlit. cbn [app]. by rewrite <- !app_assoc. }
  assert (zlen (request (fragment_args its)) = 1 + zlen (dec n) + zlen (literal br) + zlen (outs its))
    as Hlen by (rewrite Hreq; zlen_lia).
  assert (zlen its < 2 ^ 30 /\ 0 < n < 2 ^ 31) as [Hsmall Hn2].
  { unfold per_item in Ho. destruct mset; zlen_lia. }
  destruct (itoa_str_dec num_str n Hs Hn2) as (ns & Hitoa & Hns).
  unfold write_sub. rewrite Hbr.
  rewrite (sub_clen _ _ _ Hc), (sub_narg _ _ _ Hc), Hpk, Hnarg, <- Hn, <- Ho by lia.
  rewrite i32_small, Hitoa by lia. cbn [outcome_bind].
  pose proof (zlen_nonneg (outs its)). pose proof (zlen_nonneg (dec n)).
  pose proof (zlen_nonneg (literal br)).
  rewrite (u32_small (zlen (outs its))), Hh by lia.
  rewrite u32_small by lia. rewrite Halloc. cbn [negb].
  replace (zlen (outs its) + (1 + zlen (literal br) + zlen (dec n)))
    with (zlen (request (fragment_args its))) by lia.
  set (total := zlen (request (fragment_args its))) in *.
  assert (Z.to_nat total = 1 + length (dec n) + length (literal br) + length (outs its))%nat
    as Htot by (unfold zlen in Hlen; lia).
  pose proof (put_room [] ["*"%char] (Z.to_nat total)) as Hp1. cbn [app] in Hp1.
  rewrite zlen_nil in Hp1. rewrite Hp1 by (cbn; lia). clear Hp1. cbn [outcome_bind].
  pose proof (put_room ["*"%char] (dec n) (Z.to_nat total - 1)) as Hp2. cbn [app length] in Hp2 |- *.
  rewrite Hp2 by lia. clear Hp2. cbn [outcome_bind].
  pose proof (put_room ("*"%char :: dec n) (literal br) (Z.to_nat total - 1 - length (dec n))) as Hp3.
  cbn [app] in Hp3 |- *. rewrite Hp3 by lia. clear Hp3. cbn [outcome_bind].
  rewrite (sub_keys _ _ _ Hc), Hms.
  destruct (put_keys_ok its ("*"%char :: dec n ++ literal br)
    (Z.to_nat total - 1 - length (dec n) - length (literal br))%nat ns) as (ns' & Hput & Hns');
    [done|done|lia|lia|].
  cbn [app] in Hput |- *. rewrite Hput. cbn [outcome_bind].
  do 2 eexists. split; [reflexivity|]. cbn [slot_num type cmd_buf clen fst].
  replace (Z.to_nat total - 1 - length (dec n) - length (literal br) - length (outs its))%nat
    with 0%nat by lia.
  cbn [repeat]. rewrite app_nil_r, Hreq, <- app_assoc.
  split_and!; [done|apply (sub_slot _ _ _ Hc)|done|done|].
  unfold total. by rewrite Hreq.
Qed.

Lemma outs_at_slot sl its : zlen (outs (at_slot sl its)) <= zlen (outs its).
Proof.
  induction its as [|it its IH]; [done|]. rewrite at_slot_cons, outs_cons.
  destruct (decide _); rewrite ?outs_cons; zlen_lia.
Qed.

Lemma items_at_slot sl its : Forall item_ok its -> Forall item_ok (at_slot sl its).
Proof.
  rewrite !Forall_forall. intros H it Hit. apply H.
  by apply list_elem_of_filter in Hit as [_ Hit].
Qed.

(** The slots that have items, in order. *)
Definition used_slots (its : list item) (slots : list Z) : list Z :=
  filter (fun sl => at_slot sl its <> []) slots.

Lemma fragment_size sl its :
  Forall item_ok its -> at_slot sl its <> [] -> zlen (outs its) <= 2 ^ 30 ->
  zlen (request (fragment_args (at_slot sl its))) < 2 ^ 31 - 1.
Proof.
  intros Hi Hne Ho. set (l := at_slot sl its) in *.
  assert (Forall item_ok l) as Hl by (by apply items_at_slot).
  pose proof (outs_at_slot sl its) as Hos. fold l in Hos.
  pose proof (zlen_outs l Hl) as Hzo. pose proof (zlen_fragment_args l Hl) as Hn.
  pose proof (clens_nonneg l). assert (0 < zlen l) by (destruct l; [done|zlen_lia]).
  unfold request. set (n := zlen (fragment_args l)) in *.
  assert (0 < n < 2 ^ 31) as Hn2 by (unfold per_item in Hzo; destruct mset; lia).
  pose proof (dec_length_int n Hn2).
  unfold fragment_args. rewrite bulks_cons, bulks_concat.
  assert (zlen (bulk lit_name) <= 10) by (unfold lit_name; destruct (type command); done).
  autorewrite with zlen in *. lia.
Qed.

Lemma write_subs_ok its m slots : forall num_str acc,
  Forall item_ok its -> (forall sl, slot_ok sl (at_slot sl its) (m !! sl)) ->
  zlen (outs its) <= 2 ^ 30 -> zlen num_str = 12 ->
  exists cs, write_subs malloc_ok command slots m num_str acc = Ok (acc ++ cs) /\
    map (fun c => (slot_num c, cmd_buf c)) cs =
    map (fun sl => (sl, request (fragment_args (at_slot sl its)))) (used_slots its slots) /\
    Forall (fun c => clen c = zlen (cmd_buf c) /\ type c = type command) cs.
Proof.
  induction slots as [|sl slots IH]; intros num_str acc Hi Hm Ho Hs.
  { exists []. by rewrite app_nil_r. }
  cbn [write_subs]. unfold used_slots. rewrite filter_cons. fold (used_slots its slots).
  pose proof (Hm sl) as Hsl. destruct (m !! sl) as [c|]; cbn in Hsl.
  - destruct Hsl as [Hne Hc]. rewrite decide_True by done.
    destruct (write_sub_ok sl (at_slot sl its) c num_str) as
      (c' & ns' & Hw & Hns' & Hsn & Hty & Hb & Hcl);
      [by apply items_at_slot|done|done|done|by apply fragment_size|].
    rewrite Hw. cbn [outcome_bind].
    destruct (IH ns' (acc ++ [c']) Hi Hm Ho Hns') as (cs & Hws & Hmap & Hall).
    exists (c' :: cs). split; [by rewrite Hws, <- app_assoc|].
    split; [|by constructor]. cbn [map]. by rewrite Hsn, Hb, Hmap.
  - rewrite decide_False by (by intros H). by apply IH.
Qed.

(** The whole function on a command with items. *)
Lemma pre_fragment_ok its cmd_id num_str :
  its <> [] -> Forall item_ok its -> elem (keys command) = map it_kp its ->
  zlen (outs its) <= 2 ^ 28 -> zlen num_str = 12 ->
  exists fr, command_pre_fragment malloc_ok command cmd_id num_str = Ok fr /\
    if decide (length (used_slots its all_slots) = 1%nat) then
      fr = mk_fragments (fr_slot fr) [] None (fr_slot fr) /\
      last (map it_slot its) = Some (fr_slot fr)
    else
      map (fun c => (slot_num c, cmd_buf c)) (fr_commands fr) =
      map (fun sl => (sl, request (fragment_args (at_slot sl its))))
        (used_slots its all_slots) /\
      Forall (fun c => clen c = zlen (cmd_buf c) /\ type c = type command) (fr_commands fr) /\
      fr_seq fr = Some (map it_slot its) /\ last (map it_slot its) = Some (fr_slot fr).
Proof.
  intros Hne Hi Hk Ho Hs. unfold command_pre_fragment. rewrite !Halloc. cbn [negb].
  generalize all_slots. intros all_slots.
  rewrite Hk. pose proof (zlen_outs its Hi) as Hzo. pose proof (clens_nonneg its).
  pose proof (zlen_nonneg its).
  assert (zlen its < 2 ^ 29 /\ clens its < 2 ^ 32) as [Hn Hb]
    by (unfold per_item in Hzo; destruct mset; lia).
  destruct (group_keys_ok its [] (mk_grouping ∅ cmd_id [] (-1))) as (g & Hg & Hsub & Hf & Hl);
    [done| |done|done|].
  { split; [|done]. intros sl. cbn [subs]. by rewrite lookup_empty. }
  rewrite Hg. cbn [outcome_bind]. cbn [app] in *.
  destruct (write_subs_ok its (subs g) all_slots num_str []) as (cs & Hw & Hmap & Hall);
    [done|done|lia|done|].
  cbn [app] in Hw. rewrite Hw. cbn [outcome_bind].
  assert (length cs = length (used_slots its all_slots)) as Hlen.
  { apply (f_equal length) in Hmap. by rewrite !length_map in Hmap. }
  destruct (last (map it_slot its)) as [sl|] eqn:El.
  2:{ apply last_None in El. by destruct its. }
  cbn in Hl. assert (0 <= sl) as Hsl.
  { apply last_Some_elem_of, list_elem_of_fmap in El as (it & -> & _). apply keyHashSlot_range. }
  rewrite Hl. destruct (Z.leb_spec 0 sl); [|lia]. cbn [andb].
  unfold zlen. destruct (decide _) as [E|E].
  - rewrite Hlen, E. cbn. eexists. split; [reflexivity|]. done.
  - destruct (Z.eqb_spec (Z.of_nat (length cs)) 1); [lia|].
    eexists. split; [reflexivity|]. cbn. by rewrite Hf.
Qed.
End spec.

(** ** The items of a parsed request *)

(** The arguments of a multi-key command, grouped by key. *)
Fixpoint pairs (l : list bytes) : list (list bytes) :=
  match l with
  | k :: v :: l' => [k; v] :: pairs l'
  | _ => []
  end.
Definition groups (t : cmd_type) (rest : list bytes) : list (list bytes) :=
  if bool_decide (t = CMD_REQ_REDIS_MSET) then pairs rest else map (fun k => [k]) rest.
Definition group_head (g : list bytes) : bytes := hd [] g.
Definition group_slot (g : list bytes) : Z := keyHashSlot (group_head g).

(** The request for the groups of one slot, and the slots with a group. *)
Definition slot_request (t : cmd_type) (gs : list (list bytes)) (sl : Z) : bytes :=
  request (match t with
           | CMD_REQ_REDIS_MGET => s "mget" | CMD_REQ_REDIS_DEL => s "del" | _ => s "mset"
           end :: concat (filter (fun g => group_slot g = sl) gs)).
Definition slots_of (gs : list (list bytes)) : list Z :=
  filter (fun sl => sl ∈ map group_slot gs) all_slots.

(** The items of the groups that start at argument [i]. *)
Fixpoint items_of (args : list bytes) (i : nat) (gs : list (list bytes)) : list item :=
  match gs with
  | [] => []
  | g :: gs' =>
      mk_item (keypos_of args i) (group_head g)
        (CRLF ++ bulks (tl g)) g :: items_of args (i + length g) gs'
  end.

Lemma scan_digits_dec ds rest : forall p len,
  Forall (fun c => isdigit c = true) ds ->
  scan_digits (ds ++ CR :: rest) p len = Some (p + zlen ds, u32_value ds len).
Proof.
  induction ds as [|c ds IH]; intros p len Hd; cbn [scan_digits app].
  - by rewrite not_isdigit_CR, zlen_nil, Z.add_0_r.
  - apply Forall_cons in Hd as [Hc Hd]. rewrite Hc, IH by done.
    unfold u32_value. cbn [fold_left]. rewrite zlen_cons. do 2 f_equal. lia.
Qed.

Lemma scan_len_dec n rest p :
  0 <= n < 2 ^ 32 ->
  scan_len (LF :: "$"%char :: dec n ++ CR :: rest) p = Some (p + 2 + zlen (dec n), n).
Proof.
  intros Hn. cbn [scan_len]. change (isdigit LF) with false. change (isdigit "$") with false.
  cbv match. pose proof (dec_digits n ltac:(lia)) as Hd. pose proof (dec_nonempty n) as Hne.
  destruct (dec n) as [|c ds] eqn:E; [done|]. cbn [scan_len app].
  apply Forall_cons in Hd as Hd2. destruct Hd2 as [Hc _]. rewrite Hc.
  change (c :: ds ++ CR :: rest) with ((c :: ds) ++ CR :: rest).
  rewrite <- E in *. rewrite scan_digits_dec, u32_value_dec by done. do 2 f_equal. lia.
Qed.

Section parsed.
Context (args : list bytes) (r : cmd).
Hypothesis Hbuf : cmd_buf r = request args.
Hypothesis Hclen : clen r = zlen (request args).
Hypothesis Hsize : zlen (request args) <= 2 ^ 30.

Lemma buf_request : buf (initial r) = request args.
Proof. unfold buf. cbn [req initial]. rewrite Hbuf, Hclen. apply take_ge. unfold zlen. lia. Qed.

(** A key of the request with what surrounds it. *)
Lemma key_split dn k todo :
  args = dn ++ k :: todo ->
  exists pre, request args = pre ++ k ++ CRLF ++ bulks todo /\
    keypos_of args (length dn) = mk_keypos (zlen pre) (zlen pre + zlen k) 0.
Proof.
  intros Ha. exists ((request_header (zlen args) ++ bulks dn) ++ bulk_header k). split.
  - rewrite (request_split args dn k todo Ha). by rewrite <- !app_assoc.
  - rewrite (keypos_of_at args dn k todo Ha). f_equal. zlen_lia.
Qed.

Lemma item_ok_group mset dn g gs k :
  mset = bool_decide (length g = 2%nat) -> k = group_head g -> g = k :: tl g ->
  (length g <= 2)%nat -> k <> [] -> args = dn ++ g ++ concat gs ->
  item_ok r mset (mk_item (keypos_of args (length dn)) k (CRLF ++ bulks (tl g)) g).
Proof.
  intros Hm Hk Hg Hl Hne Ha.
  rewrite Hg in Ha. cbn [app] in Ha.
  destruct (key_split dn k (tl g ++ concat gs) Ha) as (pre & Hreq & Hkp).
  rewrite Hkp. constructor; cbn [it_kp it_key it_tail it_args kp_start kp_end].
  - unfold key_bytes. cbn [kp_start kp_end]. rewrite Hbuf, Hreq. apply slice_app.
  - lia.
  - done.
  - unfold out. cbn [it_args]. rewrite Hg at 1. rewrite bulks_cons. unfold bulk.
    by rewrite <- !app_assoc.
  - rewrite Hm. unfold zlen. destruct g as [|x [|y [|z g]]]; [done|done|done|cbn in Hl; lia].
  - rewrite buf_request, Hreq. rewrite Hm. destruct g as [|x [|y [|z g]]]; cbn in Hl; try lia.
    { done. }
    { compute_decide. cbn [tl bulks map concat]. rewrite app_nil_r. split; [done|]. apply slice_app. }
    cbn [length tl] in *. rewrite bool_decide_eq_true_2 by done.
    change (bulks [y]) with (bulk y ++ []). rewrite app_nil_r.
    replace (bulks ([y] ++ concat gs)) with (bulk y ++ bulks (concat gs)) by done.
    assert (zlen (bulk y) <= 2 ^ 30) as Hys.
    { rewrite Hreq in Hsize. change (bulks ([y] ++ concat gs)) with (bulk y ++ bulks (concat gs)) in Hsize.
      rewrite !zlen_app in Hsize. zlen_lia. }
    split.
    + unfold mset_remain.
      replace (Z.to_nat (zlen pre + zlen k + 1)) with (length (pre ++ k ++ [CR]))
        by (rewrite !length_app; unfold zlen; cbn; lia).
      replace (pre ++ k ++ CRLF ++ bulk y ++ bulks (concat gs))
        with ((pre ++ k ++ [CR]) ++ LF :: "$"%char :: dec (zlen y) ++ CR :: LF :: y ++ CRLF ++ bulks (concat gs))
        by (unfold bulk, bulk_header, CRLF; repeat (rewrite <- app_assoc || cbn [app]); done).
      rewrite drop_app_length, scan_len_dec by zlen_lia.
      cbn [mbind option_bind fst snd]. f_equal. rewrite u32_small; zlen_lia.
    + replace (pre ++ k ++ CRLF ++ bulk y ++ bulks (concat gs))
        with (pre ++ (k ++ CRLF ++ bulk y) ++ bulks (concat gs)) by (by rewrite <- !app_assoc).
      replace (zlen k + zlen (CRLF ++ bulk y)) with (zlen (k ++ CRLF ++ bulk y)) by zlen_lia.
      apply slice_app.
Qed.

Lemma items_of_ok (mset : bool) gs : forall dn,
  args = dn ++ concat gs ->
  Forall (fun g => length g = (if mset then 2 else 1)%nat /\ group_head g <> []) gs ->
  Forall (item_ok r mset) (items_of args (length dn) gs).
Proof.
  induction gs as [|g gs IH]; intros dn Ha Hg; cbn [items_of]; [constructor|].
  apply Forall_cons in Hg as [[Hl Hne] Hg]. cbn [concat] in Ha. constructor.
  - apply (item_ok_group mset dn g gs); try done.
    + rewrite Hl. by destruct mset.
    + by destruct g.
    + rewrite Hl. destruct mset; lia.
  - rewrite <- length_app. apply IH; [by rewrite <- app_assoc|done].
Qed.
End parsed.

Lemma items_of_args args gs : forall i, map it_args (items_of args i gs) = gs.
Proof. induction gs as [|g gs IH]; intros i; cbn; [done|]. by rewrite IH. Qed.

Lemma items_of_slots args gs : forall i, map it_slot (items_of args i gs) = map group_slot gs.
Proof. induction gs as [|g gs IH]; intros i; cbn; [done|]. by rewrite IH. Qed.

Lemma items_of_at_slot args gs sl : forall i,
  map it_args (at_slot sl (items_of args i gs)) = filter (fun g => group_slot g = sl) gs.
Proof.
  induction gs as [|g gs IH]; intros i; [done|].
  cbn [items_of]. rewrite at_slot_cons, filter_cons. change (it_slot _) with (group_slot g).
  destruct (decide (group_slot g = sl)); cbn [map it_args]; by rewrite IH.
Qed.

(** The argument indices of the keys. *)
Fixpoint indices (i : nat) (gs : list (list bytes)) : list nat :=
  match gs with
  | [] => []
  | g :: gs' => i :: indices (i + length g) gs'
  end.

Lemma items_of_kps args gs : forall i,
  map it_kp (items_of args i gs) = map (keypos_of args) (indices i gs).
Proof. induction gs as [|g gs IH]; intros i; cbn; [done|]. by rewrite IH. Qed.

Lemma indices_single l : forall i, indices i (map (fun k : bytes => [k]) l) = seq i (length l).
Proof.
  induction l as [|k l IH]; intros i; [done|]. cbn [map indices length seq].
  by rewrite IH, Nat.add_1_r.
Qed.

Lemma pairs_spec m : forall l i, length l = (2 * m)%nat ->
  concat (pairs l) = l /\ Forall (fun g => length g = 2%nat) (pairs l) /\
  indices i (pairs l) = map (fun j => 2 * j + i)%nat (seq 0 m).
Proof.
  induction m as [|m IH]; intros l i Hl; [by destruct l|].
  destruct l as [|k [|v l]]; [done|cbn in Hl; lia|]. cbn [length] in Hl.
  destruct (IH l (i + 2)%nat ltac:(lia)) as (Hc & Hf & Hi).
  cbn [pairs concat indices length app]. rewrite Hc, Hi. split; [done|].
  split; [by constructor|]. rewrite <- cons_seq. cbn [map]. f_equal.
  rewrite <- seq_shift, map_map. apply map_ext. intros j. lia.
Qed.

(** What the parser records for a command with several keys. *)
Lemma spec_parse_groups args t ks :
  spec_parse args = Some (t, ks) -> multi_key t = true -> (2 <= length ks)%nat ->
  exists name, args = name :: tl args /\ concat (groups t (tl args)) = tl args /\
    ks = indices 1 (groups t (tl args)) /\
    Forall (fun g => length g = if bool_decide (t = CMD_REQ_REDIS_MSET) then 2%nat else 1%nat)
      (groups t (tl args)).
Proof.
  destruct args as [|name rest]; [done|]. cbn [spec_parse tl]. intros Hs Hm Hks.
  destruct (command_of_name name) as [e|]; [|done]. cbn [mbind option_bind] in Hs.
  destruct (arity_of e.1.2) as [a|] eqn:Ea; [|done]. cbn [mbind option_bind] in Hs.
  destruct (keys_of_args a rest) as [ks'|] eqn:Ek; [|done]. cbn [mbind option_bind] in Hs.
  injection Hs as <- <-. exists name. split; [done|]. unfold groups.
  apply arity_of_preds in Ea as (_ & _ & _ & _ & _ & _ & Px & Pkv & _).
  unfold multi_key in Hm. rewrite Px, Pkv in Hm.
  destruct (decide (a = ArityX)) as [->|Hx].
  - rewrite bool_decide_eq_false_2.
    2:{ intros E. rewrite E in Px. done. }
    split; [|split].
    + clear. induction rest as [|k l IH]; [done|]. cbn. by rewrite IH.
    + rewrite indices_single. destruct rest; cbn in Ek; by simplify_eq.
    + apply Forall_forall. intros g Hg. by apply list_elem_of_fmap in Hg as (k & -> & _).
  - destruct (decide (a = ArityKVX)) as [->|Hkv].
    2:{ by rewrite !bool_decide_eq_false_2 in Hm. }
    assert (e.1.2 = CMD_REQ_REDIS_MSET) as -> by (clear Ek; by destruct e as [[nm []] fl]).
    compute_decide. destruct rest as [|k0 l0] eqn:Er; [by simplify_eq/=|]. rewrite <- Er in *.
    assert (keys_of_args ArityKVX rest =
      if decide (length rest = 1%nat) then Some [1%nat]
      else if Nat.even (length rest)
           then Some (map (fun i => 2 * i + 1)%nat (seq 0 (length rest / 2))) else None) as Hkk
      by (by rewrite Er).
    rewrite Hkk in Ek. destruct (decide _); [simplify_eq; cbn in Hks; lia|].
    destruct (Nat.even (length rest)) eqn:Ee; [|done]. apply Nat.even_spec in Ee as [m Hlen].
    rewrite Hlen, (Nat.mul_comm 2 m), Nat.div_mul in Ek by done.
    destruct (pairs_spec m rest 1 Hlen) as (Hc & Hf & Hi). injection Ek as <-.
    by rewrite Hi.
Qed.

Lemma used_slots_of args gs i slots :
  used_slots (items_of args i gs) slots = filter (fun sl => sl ∈ map group_slot gs) slots.
Proof.
  apply list_filter_iff. intros sl. rewrite <- (items_of_slots args gs i).
  generalize (items_of args i gs). intros its. rewrite list_elem_of_fmap. split.
  - intros H. destruct (at_slot sl its) as [|it l] eqn:E; [done|].
    assert (it ∈ at_slot sl its) as Hit by (rewrite E; by left).
    apply list_elem_of_filter in Hit as [<- Hit]. by exists it.
  - intros (it & -> & Hit) E.
    assert (it ∈ at_slot (it_slot it) its) as Hin by (by apply list_elem_of_filter).
    rewrite E in Hin. by apply elem_of_nil in Hin.
Qed.

Lemma pre_fragment_requests (malloc_ok : Z -> bool) (args : list bytes) (r0 : cmd)
  (t : cmd_type) (ks : list nat) (cmd_id : Z) (num_str : bytes) :
  let gs := groups t (tl args) in
  (forall n, malloc_ok n = true) -> zlen (request args) <= 2 ^ 28 -> fresh args r0 ->
  spec_parse args = Some (t, ks) -> multi_key t = true -> (2 <= length ks)%nat ->
  Forall (fun g => group_head g <> []) gs -> zlen num_str = 12 ->
  exists r fr, redis_parse_cmd malloc_ok r0 = Parsed r /\
    command_pre_fragment malloc_ok r cmd_id num_str = Ok fr /\
    meets args (Some (t, ks)) r /\ 0 <= fr_slot fr < REDIS_CLUSTER_SLOTS /\ slots_of gs <> [] /\
    if decide (length (slots_of gs) = 1%nat) then
      fr_commands fr = [] /\ slots_of gs = [fr_slot fr] /\ fr_command_slot fr = fr_slot fr
    else
      map (fun c => (slot_num c, cmd_buf c)) (fr_commands fr) =
      map (fun sl => (sl, slot_request t gs sl)) (slots_of gs) /\
      Forall (fun c => clen c = zlen (cmd_buf c)) (fr_commands fr) /\
      fr_seq fr = Some (map group_slot gs).
Proof.
  intros gs Halloc Hsize Hr0 Hs Hm Hks Hne Hns.
  destruct (parse_meets malloc_ok args r0) as (r & Hp & Hmeets); [done|lia|done|].
  rewrite Hs in Hmeets. pose proof Hmeets as (_ & Ht & _ & He & _ & Hb & Hc).
  destruct (spec_parse_groups args t ks Hs Hm Hks) as (name & Ha & Hcat & Hidx & Hlen).
  fold gs in Hcat, Hidx, Hlen. exists r.
  set (mset := bool_decide (type r = CMD_REQ_REDIS_MSET)).
  assert (args = [name] ++ concat gs) as Ha2 by (by rewrite Hcat).
  set (its := items_of args (length [name]) gs).
  assert (Forall (item_ok r mset) its) as Hits.
  { apply items_of_ok; [done|done|lia|done|]. unfold mset. rewrite Ht.
    apply Forall_and. split; [|done]. eapply Forall_impl; [exact Hlen|]. intros g ->.
    by destruct (bool_decide _). }
  assert (outs its = bulks (concat gs)) as Houts.
  { rewrite <- bulks_concat. unfold its. by rewrite items_of_args. }
  destruct (pre_fragment_ok malloc_ok r mset Halloc eq_refl) with (its := its)
    (cmd_id := cmd_id) (num_str := num_str) as (fr & Hfr & Hres); try done.
  - by rewrite Ht.
  - intros E. apply (f_equal (map it_args)) in E. unfold its in E.
    rewrite items_of_args in E. cbn in E. rewrite E in Hidx. cbn in Hidx. subst ks. cbn in Hks. lia.
  - unfold its. by rewrite items_of_kps, He, Hidx.
  - rewrite Houts.
    assert (bulks args = bulks [name] ++ bulks (concat gs)) as Hba
      by (by rewrite <- bulks_app, <- Ha2).
    unfold request in Hsize. rewrite Hba in Hsize. zlen_lia.
  - exists fr. split; [done|]. split; [done|]. split; [done|].
    assert (last (map it_slot its) = Some (fr_slot fr)) as Hlast.
    { by destruct (decide _); [destruct Hres|destruct Hres as (_ & _ & _ & ?)]. }
    unfold its in Hres. rewrite used_slots_of, items_of_slots in Hres.
    fold (slots_of gs) in Hres. unfold its in Hlast. rewrite items_of_slots in Hlast.
    apply last_Some_elem_of, list_elem_of_fmap in Hlast as (g & Hg & Hgin).
    assert (fr_slot fr ∈ slots_of gs) as Hin.
    { apply list_elem_of_filter. rewrite Hg. split; [by apply list_elem_of_fmap_2|].
      apply elem_of_all_slots, keyHashSlot_range. }
    split; [rewrite Hg; apply keyHashSlot_range|].
    split; [intros E; rewrite E in Hin; by apply elem_of_nil in Hin|].
    destruct (decide _) as [E|E].
    + destruct Hres as [Hfr' _]. split; [by rewrite Hfr'|]. split; [|by rewrite Hfr'].
      destruct (slots_of gs) as [|x [|y l]]; try done. by apply list_elem_of_singleton in Hin as ->.
    + destruct Hres as (Hmap & Hall & Hseq & _). split; [|split; [|done]].
      * rewrite Hmap. apply map_ext. intros sl. f_equal. unfold slot_request, fragment_args, lit_name.
        rewrite <- (items_of_at_slot args gs sl (length [name])). by rewrite Ht.
      * eapply Forall_impl; [exact Hall|]. by intros c [Hcl _].
Qed.

(** The slots of the groups, from any sorted list of them. *)
Lemma slots_of_sorted gs l :
  StronglySorted Z.lt l -> (forall sl, sl ∈ l <-> sl ∈ map group_slot gs) -> slots_of gs = l.
Proof.
  intros Hs Hl.
  assert (forall sl, sl ∈ slots_of gs <-> sl ∈ map group_slot gs) as Hg.
  { intros sl. unfold slots_of. rewrite list_elem_of_filter. split; [tauto|]. intros H.
    split; [done|]. apply list_elem_of_fmap in H as (g & -> & _).
    apply elem_of_all_slots, keyHashSlot_range. }
  assert (forall k, StronglySorted Z.lt k -> NoDup k /\ StronglySorted Z.le k) as Hlt.
  { induction 1 as [|x k Hk [IHn IHs] Hx]; [by split; constructor|]. rewrite Forall_forall in Hx.
    split; constructor; [intros H; specialize (Hx x H); lia|done|done|].
    apply Forall_forall. intros y Hy. specialize (Hx y Hy). lia. }
  assert (StronglySorted Z.lt (slots_of gs)) as Hss.
  { apply StronglySorted_filter, all_slots_sorted. }
  destruct (Hlt _ Hs) as [Hn1 Hs1], (Hlt _ Hss) as [Hn2 Hs2].
  apply (StronglySorted_unique Z.le); [done|done|].
  apply NoDup_Permutation; [done|done|]. intros sl. by rewrite Hg, Hl.
Qed.


(** The slots of the keys below, which are met out of order and twice. *)
Lemma two_slots gs : map group_slot gs = [5474; 7629; 5474] -> slots_of gs = [5474; 7629].
Proof.
  intros H. apply slots_of_sorted.
  { repeat constructor. }
  intros sl. rewrite H, !elem_of_cons. tauto.
Qed.

(** The keys of the witness: two share a slot by their hash tag. *)
Definition example_args : list bytes :=
  [s "MSET"; s "{user}.name"; s "x"; s "k"; []; s "{user}.mail"; CRLF].

