(* ===== verification/ClusterMerge.v ===== *)
(** * hircluster.c: merging the replies of the fragments

    [command_post_fragment] and [command_format_by_slot].  The reply pointer of
    a sub-command is shared by all the keys of its slot: [frag_seq[i]->reply] is
    looked up by slot in a map of the replies still held, and taking the last
    element ([elements--]) changes that shared reply. *)

From S2P Require Import Prelude Hiutil Hiarray Resp Command CommandParser CommandSpec Crc16 ClusterSlot Reply ClusterFragment.

(** ** command_post_fragment *)

(** What the function returns: a reply, or NULL with or without an error in the
    context; [PostAbort] is an access through a null pointer or outside a vector.  [NOT_REACHED()] is empty in the
    default build: a command of another type runs past it. *)
Inductive post_result :=
| PostReply (r : redisReply)
| PostNull (e : option cc_error)
| PostAbort.

(** The loop over the fragments, in list order: the first missing or error
    reply decides; [count] adds up the integers of DEL. *)
Fixpoint check_replies (t : cmd_type) (replies : list (option redisReply)) (count : Z)
  : post_result + Z :=
  match replies with
  | [] => inr count
  | None :: _ => inl (PostNull None)
  | Some r :: rest =>
      if rtype r =? REDIS_REPLY_ERROR then inl (PostReply r) else
      match t with
      | CMD_REQ_REDIS_MGET =>
          if negb (rtype r =? REDIS_REPLY_ARRAY) then
            inl (PostNull (Some (REDIS_ERR_OTHER, s "reply type is error(here only can be array)")))
          else check_replies t rest count
      | CMD_REQ_REDIS_DEL =>
          if negb (rtype r =? REDIS_REPLY_INTEGER) then
            inl (PostNull (Some (REDIS_ERR_OTHER, s "reply type is error(here only can be integer)")))
          else check_replies t rest (i64 (count + integer r))
      | CMD_REQ_REDIS_MSET =>
          if negb (rtype r =? REDIS_REPLY_STATUS) || negb (rlen r =? 2) ||
             negb (bool_decide (rstr r = Some (s "OK"))) then
            inl (PostNull (Some (REDIS_ERR_OTHER, s "reply type is error(here only can be status and ok)")))
          else check_replies t rest count
      | _ => check_replies t rest count
      end
  end.

(** [for (i = key_count - 1; i >= 0; i--)], over the reversed [frag_seq]:
    [held] maps a slot to the reply of its sub-command; the result lists the
    elements in the order they are stored, last key first. *)
Fixpoint take_elements (seq : list Z) (held : gmap Z redisReply)
  : list (option redisReply) + post_result :=
  match seq with
  | [] => inl []
  | sl :: seq' =>
      match held !! sl with
      | None => inr (PostNull (Some (REDIS_ERR_OTHER, s "sub reply is null")))
      | Some sub_reply =>
          if rtype sub_reply =? REDIS_REPLY_STRING then
            match take_elements seq' held with
            | inl l => inl (Some sub_reply :: l)
            | inr e => inr e
            end
          else if rtype sub_reply =? REDIS_REPLY_ARRAY then
            let n := elements sub_reply in
            if n =? 0 then inr (PostNull (Some (REDIS_ERR_OTHER, s "sub reply elements error"))) else
            match element sub_reply !! Z.to_nat (n - 1) with
            | None => inr PostAbort
            | Some x =>
                let rest := mk_reply (rtype sub_reply) (integer sub_reply) (rlen sub_reply)
                              (rstr sub_reply) (n - 1) (element sub_reply) in
                match take_elements seq' (<[sl := rest]> held) with
                | inl l => inl (x :: l)
                | inr e => inr e
                end
            end
          else
            match take_elements seq' held with
            | inl l => inl (None :: l)
            | inr e => inr e
            end
      end
  end.

(** The replies of the sub-commands, by slot. *)
Fixpoint hold (replies : list (Z * option redisReply)) : gmap Z redisReply :=
  match replies with
  | [] => ∅
  | (sl, Some r) :: rest => <[sl := r]> (hold rest)
  | (_, None) :: rest => hold rest
  end.

(** [frag_seq] and the replies of [commands] in list order, each with the slot
    of its command.  [alloc_ok] says whether the allocations succeed. *)
Definition command_post_fragment (alloc_ok : bool) (t : cmd_type) (frag_seq : option (list Z))
  (replies : list (Z * option redisReply)) : post_result :=
  match check_replies t (map snd replies) 0 with
  | inl r => r
  | inr count =>
      if negb alloc_ok then PostNull (Some err_oom) else
      match t with
      | CMD_REQ_REDIS_MGET =>
          match frag_seq with
          | None => PostAbort
          | Some seq =>
              match take_elements (rev seq) (hold replies) with
              | inl l => PostReply (mk_reply REDIS_REPLY_ARRAY 0 0 None (zlen seq) (rev l))
              | inr e => e
              end
          end
      | CMD_REQ_REDIS_DEL => PostReply (createIntegerObject count)
      | CMD_REQ_REDIS_MSET => PostReply (createStringObject REDIS_REPLY_STATUS (s "OK"))
      | _ => PostReply (createReplyObject 0)
      end
  end.

(** ** command_format_by_slot *)

(** What the caller learns: the slot (-1 on error), the command as parsed, the
    fragments if any. *)
Record formatted := mk_formatted {
  fm_slot : Z;
  fm_command : cmd;
  fm_commands : list cmd;
  fm_seq : option (list Z);
  fm_err : option cc_error
}.

(** [None] is a read outside a buffer.  [num_str] and [cmd_id] as for
    [command_pre_fragment]; pointers are not null. *)
Definition command_format_by_slot (malloc_ok : Z -> bool) (command : cmd) (cmd_id : Z)
  (num_str : bytes) : option formatted :=
  if clen command <=? 0 then Some (mk_formatted (-1) command [] None None) else
  match redis_parse_cmd malloc_ok command with
  | Parsed r =>
      match result r with
      | CMD_PARSE_ENOMEM =>
          Some (mk_formatted (-1) r [] None
            (Some (REDIS_ERR_PROTOCOL, s "Parse command error: out of memory")))
      | CMD_PARSE_OK =>
          match elem (keys r) with
          | [] => Some (mk_formatted (-1) r [] None
              (Some (REDIS_ERR_OTHER, s "No keys in command(must have keys for redis cluster mode)")))
          | [kp] =>
              let slot := keyHashSlot (key_bytes r kp) in
              Some (mk_formatted slot (with_slot_num r slot) [] None None)
          | _ =>
              match command_pre_fragment malloc_ok r cmd_id num_str with
              | Ok fr => Some (mk_formatted (fr_slot fr)
                           (with_slot_num r (fr_command_slot fr)) (fr_commands fr) (fr_seq fr) None)
              | Err e => Some (mk_formatted (-1) r [] None (Some e))
              | Bad => None
              end
          end
      | _ => Some (mk_formatted (-1) r [] None
               (Some (REDIS_ERR_PROTOCOL, default [] (errstr r))))
      end
  | _ => None
  end.

(** ** Reassembly *)

Lemma check_replies_mget rs count :
  Forall (fun r => rtype r = REDIS_REPLY_ARRAY) rs ->
  check_replies CMD_REQ_REDIS_MGET (map Some rs) count = inr count.
Proof.
  induction 1 as [|r rs Hr _ IH]; [done|]. cbn [check_replies map]. by rewrite Hr.
Qed.

Lemma take_elements_spec {A} (f : A -> option redisReply) (slot : A -> Z) (l : list A) :
  forall held,
  (forall sl, sl ∈ map slot l ->
     exists n k taken, held !! sl = Some (mk_reply REDIS_REPLY_ARRAY n k None
       (zlen (filter (fun x => slot x = sl) l))
       (map f (filter (fun x => slot x = sl) l) ++ taken))) ->
  take_elements (rev (map slot l)) held = inl (rev (map f l)).
Proof.
  induction l as [|x l IH] using rev_ind; intros held Hh; [done|].
  rewrite !map_app, !rev_app_distr. cbn [map rev app take_elements].
  destruct (Hh (slot x)) as (n & k & taken & Hx).
  { rewrite map_app. apply elem_of_app. right. by left. }
  rewrite Hx. cbn [rtype]. change (REDIS_REPLY_ARRAY =? REDIS_REPLY_STRING) with false.
  rewrite Z.eqb_refl. cbn [element elements integer rlen rstr].
  rewrite filter_app, filter_cons, decide_True, filter_nil, map_app, zlen_app by done.
  cbn [map]. set (l' := filter (fun y => slot y = slot x) l).
  rewrite zlen_singleton, Z.add_simpl_r.
  destruct (Z.eqb_spec (zlen l' + 1) 0); [zlen_lia|].
  replace (Z.to_nat (zlen l')) with (length (map f l')) by (rewrite length_map; unfold zlen; lia).
  rewrite <- app_assoc. cbn [app]. rewrite list_lookup_middle by done.
  rewrite IH; [done|]. intros sl Hsl.
  destruct (decide (sl = slot x)) as [->|Hne].
  - rewrite lookup_insert_eq. do 3 eexists. reflexivity.
  - rewrite lookup_insert_ne by done. destruct (Hh sl) as (n' & k' & taken' & Hy).
    { rewrite map_app. apply elem_of_app. by left. }
    rewrite Hy, filter_app, filter_cons, decide_False, filter_nil, app_nil_r by congruence.
    eauto.
Qed.

Lemma hold_lookup (g : Z -> redisReply) slots sl :
  sl ∈ slots -> hold (map (fun sl => (sl, Some (g sl))) slots) !! sl = Some (g sl).
Proof.
  induction slots as [|x slots IH]; [by intros ?%elem_of_nil|]. cbn [hold map].
  intros Hsl. destruct (decide (sl = x)) as [->|Hne].
  - by rewrite lookup_insert_eq.
  - rewrite lookup_insert_ne by done. apply IH. by apply elem_of_cons in Hsl as [|].
Qed.

(** C13: MGET over several slots.  Whatever the nodes hold ([value] gives the
    reply for a key), if the reply of every fragment is the array of the values
    of its keys in order, the merged reply is the array of the values of all
    the keys in the order of the original command; keys may repeat. *)
Theorem command_post_fragment_mget (value : bytes -> redisReply) (ks : list bytes)
  (slots : list Z) :
  (forall k, k ∈ ks -> keyHashSlot k ∈ slots) ->
  command_post_fragment true CMD_REQ_REDIS_MGET (Some (map keyHashSlot ks))
    (map (fun sl => (sl, Some (array_reply
      (map value (filter (fun k => keyHashSlot k = sl) ks))))) slots) =
  PostReply (array_reply (map value ks)).
Proof.
  intros Hks. unfold command_post_fragment. rewrite map_map. cbn [snd].
  rewrite <- (map_map (fun sl => array_reply (map value (filter (fun k => keyHashSlot k = sl) ks))) Some).
  rewrite check_replies_mget.
  2:{ apply Forall_forall. intros r Hr. by apply list_elem_of_fmap in Hr as (sl & -> & _). }
  cbn [negb]. rewrite (take_elements_spec (fun k => Some (value k)) keyHashSlot ks).
  { rewrite rev_involutive. unfold array_reply, zlen. by rewrite map_map, !length_map. }
  intros sl Hsl. exists 0, 0, []. apply list_elem_of_fmap in Hsl as (k & -> & Hk).
  rewrite (hold_lookup (fun sl => array_reply
    (map value (filter (fun k => keyHashSlot k = sl) ks)))) by auto.
  unfold array_reply, zlen. by rewrite map_map, length_map, app_nil_r.
Qed.

(** A store for the witness: the reply for a key is its own bytes. *)
Definition echo (k : bytes) : redisReply := createStringObject REDIS_REPLY_STRING k.

Lemma command_post_fragment_mget_witness :
  command_post_fragment true CMD_REQ_REDIS_MGET (Some [15495; 3300; 15495; 15495])
    [(3300, Some (array_reply [echo (s "b")]));
     (15495, Some (array_reply [echo (s "a"); echo (s "{a}c"); echo (s "a")]))] =
  PostReply (array_reply (map echo [s "a"; s "b"; s "{a}c"; s "a"])).
Proof.
  apply (command_post_fragment_mget echo [s "a"; s "b"; s "{a}c"; s "a"] [3300; 15495]).
  intros k Hk. apply (bool_decide_eq_true_1 (keyHashSlot k ∈ [3300; 15495])).
  repeat (apply elem_of_cons in Hk as [->|Hk]; [vm_compute; reflexivity|]).
  by apply elem_of_nil in Hk.
Defined.

(** C27: DEL over several slots returns the sum of the counts of the fragments
    (in [long long] arithmetic), provided every fragment answers an integer. *)
Theorem command_post_fragment_del (counts : list (Z * Z)) (seq : option (list Z)) :
  Forall (fun p => 0 <= p.2) counts -> foldr (fun p n => p.2 + n) 0 counts < 2 ^ 63 ->
  command_post_fragment true CMD_REQ_REDIS_DEL seq
    (map (fun p => (p.1, Some (createIntegerObject p.2))) counts) =
  PostReply (createIntegerObject (foldr (fun p n => p.2 + n) 0 counts)).
Proof.
  intros Hpos Hsum. unfold command_post_fragment. rewrite map_map. cbn [snd].
  assert (forall c, 0 <= c -> c + foldr (fun p n => p.2 + n) 0 counts < 2 ^ 63 ->
    check_replies CMD_REQ_REDIS_DEL (map (fun p => Some (createIntegerObject p.2)) counts) c =
    inr (c + foldr (fun p n => p.2 + n) 0 counts)) as H.
  { induction Hpos as [|p ps Hp Hps IH]; intros c Hc Hb; cbn [foldr map check_replies] in *.
    { by rewrite Z.add_0_r. }
    assert (0 <= foldr (fun p n => p.2 + n) 0 ps) as Hf.
    { clear -Hps. induction Hps as [|q qs Hq _ IHq]; cbn; lia. }
    cbn [rtype createIntegerObject integer].
    change (REDIS_REPLY_INTEGER =? REDIS_REPLY_ERROR) with false. rewrite Z.eqb_refl. cbn [negb].
    assert (i64 (c + p.2) = c + p.2) as -> by (unfold i64; rewrite Z.mod_small; lia).
    rewrite IH by lia. f_equal. lia. }
  rewrite H by lia. done.
Qed.

Lemma command_post_fragment_del_witness :
  command_post_fragment true CMD_REQ_REDIS_DEL (Some [1; 2; 1])
    [(1, Some (createIntegerObject 2)); (2, Some (createIntegerObject 0))] =
  PostReply (createIntegerObject 2).
Proof.
  apply (command_post_fragment_del [(1, 2); (2, 0)]);
    [repeat constructor; cbn; lia | zcompute].
Defined.


