(* ===== verification/ClusterRoute.v ===== *)
(** * Where a command goes

    [command_format_by_slot] against the specification of the parser: which
    commands are refused, which go to one slot, which are split. *)

From S2P Require Import Prelude Hiutil Hiarray Resp Command CommandParser CommandSpec Crc16 ClusterSlot Reply ClusterFragment ClusterFragmentSpec ClusterMerge.

(** What the result must be for the parsed command [o]. *)
Definition routed (args : list bytes) (o : option (cmd_type * list nat)) (fm : formatted) : Prop :=
  match o with
  | None => fm_slot fm = -1 /\ fm_commands fm = [] /\
            exists msg, fm_err fm = Some (REDIS_ERR_PROTOCOL, msg)
  | Some (_, []) => fm_slot fm = -1 /\ fm_commands fm = [] /\
            exists msg, fm_err fm = Some (REDIS_ERR_OTHER, msg)
  | Some (_, [i]) => fm_slot fm = keyHashSlot (default [] (args !! i)) /\
            slot_num (fm_command fm) = fm_slot fm /\ fm_commands fm = [] /\ fm_err fm = None
  | Some (t, _) =>
      let gs := groups t (tl args) in
      fm_err fm = None /\
      match slots_of gs with
      | [sl] => fm_slot fm = sl /\ slot_num (fm_command fm) = sl /\ fm_commands fm = []
      | sls => (2 <= length (fm_commands fm))%nat /\ map slot_num (fm_commands fm) = sls
      end
  end.

Lemma spec_parse_multi args t i j ks :
  spec_parse args = Some (t, i :: j :: ks) -> multi_key t = true.
Proof.
  destruct args as [|name rest]; [done|]. cbn [spec_parse]. intros Hs.
  destruct (command_of_name name) as [e|]; [|done]. cbn [mbind option_bind] in Hs.
  destruct (arity_of e.1.2) as [a|] eqn:Ea; [|done]. cbn [mbind option_bind] in Hs.
  destruct (keys_of_args a rest) as [ks'|] eqn:Ek; [|done]. cbn [mbind option_bind] in Hs.
  injection Hs as <- Hks. subst ks'.
  apply arity_of_preds in Ea as (_ & _ & _ & _ & _ & _ & Px & Pkv & _).
  unfold multi_key. rewrite Px, Pkv. clear Px Pkv.
  destruct a; try reflexivity; exfalso; unfold keys_of_args in Ek;
    destruct rest as [|x [|y [|z rest]]]; try done;
    repeat (case_match; try done); by simplify_eq.
Qed.

Lemma format_fresh args r0 : fresh args r0 -> (clen r0 <=? 0) = false.
Proof.
  intros ([_ ->] & _). unfold request. pose proof (zlen_request_header (zlen args)).
  apply Z.leb_gt. zlen_lia.
Qed.



(** ** slot_get_by_command

    The slot of a command without splitting it; nothing calls it.  With several
    keys the last one decides.  [command] is the result of [command_get], with the
    bytes of the caller in it. *)
Definition slot_get_by_command (malloc_ok : Z -> bool) (command : option cmd) (len : Z)
  : option (Z * option cc_error) :=
  if len <=? 0 then Some (-1, None) else
  match command with
  | None => Some (-1, Some (REDIS_ERR_OOM, s "Out of memory"))
  | Some command =>
      match redis_parse_cmd malloc_ok command with
      | Parsed r =>
          match result r, last (elem (keys r)) with
          | CMD_PARSE_OK, Some kp => Some (keyHashSlot (key_bytes r kp), None)
          | CMD_PARSE_OK, None =>
              Some (-1, Some (REDIS_ERR_OTHER, s "no keys in command(must have keys for redis cluster mode)"))
          | _, _ => Some (-1, Some (REDIS_ERR_PROTOCOL, s "parse command error"))
          end
      | _ => None
      end
  end.

Lemma slot_get_by_command_last malloc_ok args r0 :
  (forall n, malloc_ok n = true) -> zlen (request args) <= 2 ^ 30 -> fresh args r0 ->
  exists e, slot_get_by_command malloc_ok (Some r0) (clen r0) =
    Some (match spec_parse args with
          | Some (_, ks) => from_option (fun i => keyHashSlot (default [] (args !! i))) (-1) (last ks)
          | None => -1
          end, e).
Proof.
  intros Hm Hs Hr. unfold slot_get_by_command. rewrite (format_fresh args r0 Hr).
  destruct (parse_meets malloc_ok args r0 Hm Hs Hr) as (r & -> & Hp).
  destruct (spec_parse args) as [[t ks]|]; cbn in Hp.
  - destruct Hp as (-> & _ & _ & He & _ & Hb & _).
    rewrite He, fmap_last. destruct (last ks) as [i|]; cbn; [rewrite (key_bytes_request args) by done|]; eauto.
  - rewrite Hp. eauto.
Qed.
