(* ===== verification/Sds.v ===== *)
(** * sds.c: dynamic strings

    An sds string is a header ([len], [free]) in front of a byte array of
    [len + free + 1] bytes.  [sds_value] is the byte string it stands for and
    [sds_wf] the invariant every operation keeps: the header describes the
    array and a NUL follows the value.  Every store is bounds checked.
    [alloc n] is a fresh array of [n] bytes (what malloc and realloc give behind
    the header), [None] when memory is exhausted; [Err] is the NULL the
    functions return then, [Bad] an access outside an object or through NULL. *)

From S2P Require Import Prelude.

Record sds := mk_sds { sds_len : Z; sds_free : Z; sds_buf : bytes }.

Definition sds_value (s : sds) : bytes := take (Z.to_nat (sds_len s)) (sds_buf s).

Definition sds_wf (s : sds) : Prop :=
  0 <= sds_len s /\ 0 <= sds_free s /\ sds_len s + sds_free s < 2 ^ 31 - 1 /\
  zlen (sds_buf s) = sds_len s + sds_free s + 1 /\
  byte_at (sds_buf s) (sds_len s) = Some NUL.

Definition SDS_MAX_PREALLOC : Z := 1024 * 1024.

Abbreviation nullable := (outcome unit).

Section sds.
Context (alloc : Z -> option bytes).
Implicit Types (s t : sds) (l : bytes).

Definition malloc (n : Z) : nullable bytes :=
  match alloc n with Some b => Ok b | None => Err tt end.

(** [realloc]: the old bytes stay, the rest is new. *)
Definition realloc l (n : Z) : nullable bytes :=
  let! b := malloc n in
  Ok (take (Z.to_nat n) l ++ drop (length l) b).

(** ** Creation *)

(** [init] is the memory [initlen] bytes are copied from. *)
Definition sdsnewlen (init : option bytes) (initlen : Z) : nullable sds :=
  match init with
  | Some l =>
      let! b := malloc (initlen + 1) in
      if zlen l <? initlen then Bad else
      let! b := access (blit b 0 (take (Z.to_nat initlen) l)) in
      let! b := access (poke b initlen NUL) in
      Ok (mk_sds (i32 initlen) 0 b)
  | None =>
      let! b := malloc (initlen + 1) in
      Ok (mk_sds (i32 initlen) 0 (repeat NUL (Z.to_nat (initlen + 1))))
  end.

Definition sdsempty : nullable sds := sdsnewlen (Some []) 0.

(** [init] is a C string, without its NUL. *)
Definition sdsnew (init : option bytes) : nullable sds :=
  sdsnewlen init (zlen (default [] init)).

Definition sdsdup s : nullable sds := sdsnewlen (Some (sds_buf s)) (sds_len s).

(** ** Header and capacity *)

Definition sdsupdatelen s : nullable sds :=
  let! v := access (c_string (sds_buf s)) in
  Ok (mk_sds (zlen v) (i32 (sds_free s + (sds_len s - zlen v))) (sds_buf s)).

Definition sdsclear s : nullable sds :=
  let! b := access (poke (sds_buf s) 0 NUL) in
  Ok (mk_sds 0 (i32 (sds_free s + sds_len s)) b).

Definition sdsMakeRoomFor s (addlen : Z) : nullable sds :=
  if addlen <=? sds_free s then Ok s else
  let newlen := sds_len s + addlen in
  let newlen := if newlen <? SDS_MAX_PREALLOC then newlen * 2
                else newlen + SDS_MAX_PREALLOC in
  let! b := realloc (sds_buf s) (newlen + 1) in
  Ok (mk_sds (sds_len s) (i32 (newlen - sds_len s)) b).

(** A pointer that is used without a test for NULL. *)
Definition deref {A} (x : nullable A) : nullable A :=
  match x with Err _ => Bad | _ => x end.

Definition sdsRemoveFreeSpace s : nullable sds :=
  let! b := deref (realloc (sds_buf s) (sds_len s + 1)) in
  Ok (mk_sds (sds_len s) 0 b).

Definition sdsAllocSize s : Z := 8 + sds_len s + sds_free s + 1.

(** [assert] stops the program: [Bad]. *)
Definition sdsIncrLen s (incr : Z) : nullable sds :=
  if sds_free s <? incr then Bad else
  let len := i32 (sds_len s + incr) in
  let free := i32 (sds_free s - incr) in
  if free <? 0 then Bad else
  let! b := access (poke (sds_buf s) len NUL) in
  Ok (mk_sds len free b).

Definition sdsgrowzero s (len : Z) : nullable sds :=
  let curlen := sds_len s in
  if len <=? curlen then Ok s else
  let! s := sdsMakeRoomFor s (len - curlen) in
  let! b := access (blit (sds_buf s) curlen (repeat NUL (Z.to_nat (len - curlen + 1)))) in
  let totlen := sds_len s + sds_free s in
  Ok (mk_sds (i32 len) (i32 (totlen - len)) b).

(** ** Appending and copying *)

(** [t] is the [len] bytes to append. *)
Definition sdscatlen s (t : bytes) : nullable sds :=
  let len := zlen t in
  let curlen := sds_len s in
  let! s := sdsMakeRoomFor s len in
  let! b := access (blit (sds_buf s) curlen t) in
  let! b := access (poke b (curlen + len) NUL) in
  Ok (mk_sds (i32 (curlen + len)) (i32 (sds_free s - len)) b).

Definition sdscatsds s t : nullable sds := sdscatlen s (sds_value t).

Definition sdscpylen s (t : bytes) : nullable sds :=
  let len := zlen t in
  let! s := if sds_free s + sds_len s <? len
            then sdsMakeRoomFor s (u64 (len - sds_len s)) else Ok s in
  let totlen := sds_free s + sds_len s in
  let! b := access (blit (sds_buf s) 0 t) in
  let! b := access (poke b len NUL) in
  Ok (mk_sds (i32 len) (i32 (totlen - len)) b).

(** ** Trimming *)

(** [strchr(cset, c)]: the terminating NUL of [cset] is found too. *)
Definition strchr (cset : bytes) (c : ascii) : bool :=
  bool_decide (c ∈ cset) || bool_decide (c = NUL).

(** [while(sp <= end && strchr(cset, *sp)) sp++;] *)
Fixpoint trim_left (cset l : bytes) (sp : Z) : Z :=
  match l with
  | [] => sp
  | c :: l' => if strchr cset c then trim_left cset l' (sp + 1) else sp
  end.
(** [while(ep > start && strchr(cset, *ep)) ep--;], over the reversed value. *)
Fixpoint trim_right (cset l : bytes) (ep : Z) : Z :=
  match l with
  | [] => ep
  | c :: l' => if (0 <? ep) && strchr cset c then trim_right cset l' (ep - 1) else ep
  end.

Definition sdstrim s (cset : bytes) : nullable sds :=
  let v := sds_value s in
  let sp := trim_left cset v 0 in
  let ep := trim_right cset (rev v) (sds_len s - 1) in
  let len := if ep <? sp then 0 else ep - sp + 1 in
  let! b := if sp =? 0 then Ok (sds_buf s)
            else access (blit (sds_buf s) 0 (slice (sds_buf s) sp (sp + len))) in
  let! b := access (poke b len NUL) in
  Ok (mk_sds len (i32 (sds_free s + (sds_len s - len))) b).

(** The indices of [sdsrange] after the adjustments: start and new length. *)
Definition range_bounds (len first last : Z) : Z * Z :=
  let first := if first <? 0 then Z.max (len + first) 0 else first in
  let last := if last <? 0 then Z.max (len + last) 0 else last in
  let newlen := if last <? first then 0 else last - first + 1 in
  if negb (newlen =? 0) then
    if len <=? first then (first, 0)
    else if len <=? last then
      let last := len - 1 in
      (first, if last <? first then 0 else last - first + 1)
    else (first, newlen)
  else (0, newlen).

Definition sdsrange s (first last : Z) : nullable sds :=
  let len := sds_len s in
  if len =? 0 then Ok s else
  let '(first, newlen) := range_bounds len first last in
  let! b := if negb (first =? 0) && negb (newlen =? 0)
            then access (blit (sds_buf s) 0 (slice (sds_buf s) first (first + newlen)))
            else Ok (sds_buf s) in
  let! b := access (poke b newlen NUL) in
  Ok (mk_sds newlen (i32 (sds_free s + (len - newlen))) b).

(** [memcmp] of equally long byte strings, then the difference of lengths. *)
Fixpoint memcmp (l k : bytes) : Z :=
  match l, k with
  | c :: l', d :: k' => if code c =? code d then memcmp l' k' else code c - code d
  | _, _ => 0
  end.
Definition sdscmp s t : Z :=
  let minlen := Z.to_nat (Z.min (sds_len s) (sds_len t)) in
  let cmp := memcmp (take minlen (sds_value s)) (take minlen (sds_value t)) in
  if cmp =? 0 then sds_len s - sds_len t else cmp.

(** [from] has [setlen] bytes. *)
Definition sdsmapchars s (from to : bytes) : nullable sds :=
  let map_char c :=
    match list_find (fun x => x = c) from with
    | Some (i, _) => to !! i
    | None => Some c
    end in
  let! v := access (mapM map_char (sds_value s)) in
  Ok (mk_sds (sds_len s) (sds_free s) (v ++ drop (Z.to_nat (sds_len s)) (sds_buf s))).

(** ** Splitting and joining *)

(** The loop of [sdssplitlen] from [j]; [tokens] has room for [slots]. *)
Fixpoint split_loop (fuel : nat) (str : bytes) (len : Z) (sep : bytes) (seplen : Z)
  (tokens : list sds) (slots start j : Z) : nullable (list sds * Z * Z) :=
  if negb (j <? len - (seplen - 1)) then Ok (tokens, slots, start) else
  match fuel with
  | O => Bad
  | S fuel' =>
      let! slots :=
        if slots <? zlen tokens + 2
        then (let! _ := malloc (8 * (slots * 2)) in Ok (slots * 2)) else Ok slots in
      if bool_decide (slice str j (j + seplen) = sep) then
        let! token := sdsnewlen (Some (drop (Z.to_nat start) str)) (j - start) in
        if zlen tokens <? slots then
          split_loop fuel' str len sep seplen (tokens ++ [token]) slots (j + seplen) (j + seplen)
        else Bad
      else split_loop fuel' str len sep seplen tokens slots start (j + 1)
  end.

Definition sdssplitlen (str : bytes) (len : Z) (sep : bytes) (seplen : Z) : nullable (list sds) :=
  if (seplen <? 1) || (len <? 0) then Err tt else
  let! _ := malloc (8 * 5) in
  if len =? 0 then Ok [] else
  let! (tokens, slots, start) := split_loop (Z.to_nat len) str len sep seplen [] 5 0 0 in
  let! token := sdsnewlen (Some (drop (Z.to_nat start) str)) (len - start) in
  if zlen tokens <? slots then Ok (tokens ++ [token]) else Bad.

(** The loop of [sdsjoinsds] and [sdsjoin]: the result of one call is the
    argument of the next, untested. *)
Fixpoint join_loop (join : nullable sds) (argv : list bytes) (sep : bytes) : nullable sds :=
  match argv with
  | [] => join
  | [a] => let! j := deref join in sdscatlen j a
  | a :: argv' =>
      let! j := deref join in
      let! j := deref (sdscatlen j a) in
      join_loop (sdscatlen j sep) argv' sep
  end.
Definition sdsjoin (argv : list bytes) (sep : bytes) : nullable sds :=
  join_loop sdsempty argv sep.
Definition sdsjoinsds (argv : list sds) (sep : bytes) : nullable sds :=
  join_loop sdsempty (map sds_value argv) sep.

(** ** Escaping *)

(** [isprint] of the C locale. *)
Definition isprint (c : ascii) : bool := (32 <=? code c) && (code c <=? 126).
Definition BS : ascii := chr 92.
Definition DQ : ascii := chr 34.
Definition SQ : ascii := chr 39.

Definition hex_digit (n : Z) : ascii := if n <? 10 then chr (48 + n) else chr (87 + n).

(** The branches of the [switch] of [sdscatrepr]. *)
Definition repr_char (c : ascii) : bytes :=
  if bool_decide (c = BS) || bool_decide (c = DQ) then [BS; c]
  else if code c =? 10 then [BS; "n"%char]
  else if code c =? 13 then [BS; "r"%char]
  else if code c =? 9 then [BS; "t"%char]
  else if code c =? 7 then [BS; "a"%char]
  else if code c =? 8 then [BS; "b"%char]
  else if isprint c then [c]
  else [BS; "x"%char; hex_digit (code c / 16); hex_digit (code c mod 16)].

Fixpoint repr_loop (r : nullable sds) l : nullable sds :=
  match l with
  | [] => r
  | c :: l' => let! s := deref r in repr_loop (sdscatlen s (repr_char c)) l'
  end.
Definition sdscatrepr s l : nullable sds :=
  let! s := deref (repr_loop (sdscatlen s [DQ]) l) in
  sdscatlen s [DQ].
End sds.

(** ** sdssplitargs

    The line is a C string without its NUL: [*p] is NUL at its end.  Tokens are
    byte strings; allocations are taken to succeed, as the code does. *)

Definition isspace (c : ascii) : bool :=
  (code c =? 32) || ((9 <=? code c) && (code c <=? 13)).

Definition is_hex_digit (c : ascii) : bool :=
  ((48 <=? code c) && (code c <=? 57)) || ((97 <=? code c) && (code c <=? 102)) ||
  ((65 <=? code c) && (code c <=? 70)).
Definition hex_digit_to_int (c : ascii) : Z :=
  if (48 <=? code c) && (code c <=? 57) then code c - 48
  else if (97 <=? code c) && (code c <=? 102) then code c - 87
  else if (65 <=? code c) && (code c <=? 70) then code c - 55
  else 0.

Definition unescape (c : ascii) : ascii :=
  if bool_decide (c = "n"%char) then chr 10
  else if bool_decide (c = "r"%char) then chr 13
  else if bool_decide (c = "t"%char) then chr 9
  else if bool_decide (c = "b"%char) then chr 8
  else if bool_decide (c = "a"%char) then chr 7
  else c.

(** A closing quote must be followed by a blank or by the end. *)
Definition quote_ends (l : bytes) : bool :=
  match l with [] => true | c :: _ => isspace c end.

(** The [while(!done)] loop, by quoting state: the token and the rest of the
    line, or [goto err]. *)
Fixpoint token_dq (l cur : bytes) : option (bytes * bytes) :=
  match l with
  | [] => None
  | c :: l' =>
      if bool_decide (c = BS) then
        match l' with
        | [] => token_dq l' (cur ++ [c])
        | d :: l2 =>
            match l2 with
            | x :: y :: l3 =>
                if bool_decide (d = "x"%char) && is_hex_digit x && is_hex_digit y
                then token_dq l3 (cur ++ [chr (hex_digit_to_int x * 16 + hex_digit_to_int y)])
                else token_dq l2 (cur ++ [unescape d])
            | _ => token_dq l2 (cur ++ [unescape d])
            end
        end
      else if bool_decide (c = DQ) then
        if quote_ends l' then Some (cur, l') else None
      else token_dq l' (cur ++ [c])
  end.

Fixpoint token_sq (l cur : bytes) : option (bytes * bytes) :=
  match l with
  | [] => None
  | c :: l' =>
      match l' with
      | d :: l2 =>
          if bool_decide (c = BS) && bool_decide (d = SQ) then token_sq l2 (cur ++ [SQ])
          else if bool_decide (c = SQ) then
            if quote_ends l' then Some (cur, l') else None
          else token_sq l' (cur ++ [c])
      | [] => if bool_decide (c = SQ) then Some (cur, l') else token_sq l' (cur ++ [c])
      end
  end.

Fixpoint token_plain (l cur : bytes) : option (bytes * bytes) :=
  match l with
  | [] => Some (cur, [])
  | c :: l' =>
      if (code c =? 32) || (code c =? 10) || (code c =? 13) || (code c =? 9) then Some (cur, l')
      else if bool_decide (c = DQ) then token_dq l' cur
      else if bool_decide (c = SQ) then token_sq l' cur
      else token_plain l' (cur ++ [c])
  end.

Fixpoint skip_blanks (l : bytes) : bytes :=
  match l with
  | c :: l' => if isspace c then skip_blanks l' else l
  | [] => []
  end.

(** The outer loop: every token consumes at least one byte. *)
Fixpoint split_args (fuel : nat) (l : bytes) (argv : list bytes) : option (list bytes) :=
  match fuel with
  | O => None
  | S fuel' =>
      match skip_blanks l with
      | [] => Some argv
      | l' => r ← token_plain l' []; split_args fuel' r.2 (argv ++ [r.1])
      end
  end.
Definition sdssplitargs (line : bytes) : option (list bytes) :=
  split_args (S (length line)) line [].

(** ** Numbers *)

(** [do { *p++ = '0'+(v%10); v /= 10; } while(v);] *)
Fixpoint ll_digits (fuel : nat) (b : bytes) (p v : Z) : option (bytes * Z) :=
  match fuel with
  | O => None
  | S f =>
      b ← poke b p (chr (48 + v mod 10));
      if v / 10 =? 0 then Some (b, p + 1) else ll_digits f b (p + 1) (v / 10)
  end.

(** [while(s < p)]: exchange the ends. *)
Fixpoint ll_reverse (fuel : nat) (b : bytes) (i j : Z) : option bytes :=
  if negb (i <? j) then Some b else
  match fuel with
  | O => None
  | S f =>
      x ← byte_at b i; y ← byte_at b j;
      b ← poke b i y; b ← poke b j x;
      ll_reverse f b (i + 1) (j - 1)
  end.

(** A [long long] has at most 20 digits. *)
Definition sdsll2str (b : bytes) (value : Z) : option (bytes * Z) :=
  let v := if value <? 0 then u64 (i64 (- value)) else value in
  r ← ll_digits 20 b 0 v;
  r ← (if value <? 0 then b ← poke r.1 r.2 "-"%char; Some (b, r.2 + 1) else Some r);
  let l := r.2 in
  b ← poke r.1 l NUL;
  b ← ll_reverse (Z.to_nat l) b 0 (l - 1);
  Some (b, l).

Definition sdsull2str (b : bytes) (v : Z) : option (bytes * Z) :=
  r ← ll_digits 20 b 0 v;
  let l := r.2 in
  b ← poke r.1 l NUL;
  b ← ll_reverse (Z.to_nat l) b 0 (l - 1);
  Some (b, l).
