(* ===== verification/SdsSpec.v ===== *)
(** * sds strings implement byte strings

    Each operation of [Sds] against the byte string it stands for: the
    invariant is kept, the value is the one intended, nothing is written
    outside the array, and the only failure is exhausted memory. *)

From S2P Require Import Prelude Hiutil Sds.

(** A well formed string is its value, a NUL and the free space. *)
Definition sds_rep (v tail : bytes) : sds := mk_sds (zlen v) (zlen tail) (v ++ NUL :: tail).
Definition sds_small (v tail : bytes) : Prop := zlen v + zlen tail < 2 ^ 31 - 1.

Lemma split_at_byte b i c :
  byte_at b i = Some c -> exists pre rest, b = pre ++ c :: rest /\ zlen pre = i.
Proof.
  intros H. pose proof (byte_at_Some _ _ _ H) as Hr. unfold byte_at in H.
  replace ((0 <=? i) && (i <? zlen b)) with true in H by lia.
  exists (take (Z.to_nat i) b), (drop (S (Z.to_nat i)) b).
  split; [by rewrite take_drop_middle|]. unfold zlen in *. rewrite length_take. lia.
Qed.

Lemma sds_rep_value v tail : sds_value (sds_rep v tail) = v.
Proof.
  unfold sds_value. cbn [sds_len sds_buf sds_rep]. unfold zlen.
  by rewrite Nat2Z.id, take_app_length.
Qed.

Lemma sds_rep_wf v tail : sds_small v tail -> sds_wf (sds_rep v tail).
Proof.
  intros H. unfold sds_wf, sds_small in *. cbn [sds_len sds_free sds_buf sds_rep].
  rewrite byte_at_app. split_and!; try done; zlen_lia.
Qed.

Lemma sds_value_zlen s : sds_wf s -> zlen (sds_value s) = sds_len s.
Proof.
  intros (Hl & Hf & _ & Hb & _). unfold sds_value, zlen in *. rewrite length_take. lia.
Qed.

Lemma sds_wf_rep s : sds_wf s -> exists tail, s = sds_rep (sds_value s) tail /\
  sds_small (sds_value s) tail.
Proof.
  intros (Hl & Hf & Hs & Hb & Hn). destruct s as [len free b]. cbn [sds_len sds_free sds_buf] in *.
  destruct (split_at_byte _ _ _ Hn) as (v & tail & -> & <-).
  assert (free = zlen tail) as -> by zlen_lia.
  exists tail. change (mk_sds _ _ _) with (sds_rep v tail). rewrite sds_rep_value. done.
Qed.

(** Writing [t] and a NUL after the prefix [v] of a buffer with room. *)
Lemma store_after v t room :
  zlen t < zlen room ->
  exists y rest, blit (v ++ room) (zlen v) t = Some (v ++ t ++ y :: rest) /\
    zlen room = zlen t + 1 + zlen rest /\
    poke (v ++ t ++ y :: rest) (zlen v + zlen t) NUL = Some ((v ++ t) ++ NUL :: rest).
Proof.
  intros Hr.
  assert (room = take (length t) room ++ drop (length t) room) as Hroom by (by rewrite take_drop).
  destruct (drop (length t) room) as [|y rest] eqn:Ed.
  { apply (f_equal length) in Ed. rewrite length_drop in Ed. cbn in Ed. unfold zlen in Hr. lia. }
  assert (zlen (take (length t) room) = zlen t) as Ht.
  { unfold zlen in *. rewrite length_take. lia. }
  exists y, rest. rewrite Hroom at 1. rewrite (blit_app v _ t (y :: rest)) by done.
  split; [done|]. split.
  - rewrite Hroom. zlen_lia.
  - rewrite app_assoc, <- zlen_app. apply poke_app.
Qed.

(** [l] cut at every [c]; [cur] is the part before [l] since the last cut. *)
Fixpoint split_on (c : ascii) (l cur : bytes) : list bytes :=
  match l with
  | [] => [cur]
  | x :: l' => if bool_decide (x = c) then cur :: split_on c l' []
               else split_on c l' (cur ++ [x])
  end.

(** [parts] with [sep] between them. *)
Fixpoint join_bytes (sep : bytes) (parts : list bytes) : bytes :=
  match parts with
  | [] => []
  | [p] => p
  | p :: parts' => p ++ sep ++ join_bytes sep parts'
  end.

Lemma split_on_nonempty c l : forall cur, split_on c l cur <> [].
Proof. induction l as [|x l IH]; intros cur; cbn; [done|]. by destruct (bool_decide _). Qed.

Lemma join_split c l : forall cur, join_bytes [c] (split_on c l cur) = cur ++ l.
Proof.
  induction l as [|x l IH]; intros cur; cbn [split_on]; [by rewrite app_nil_r|].
  destruct (decide (x = c)) as [->|Hne].
  - rewrite bool_decide_eq_true_2 by done. specialize (IH []).
    pose proof (split_on_nonempty c l []). destruct (split_on c l []) as [|p ps]; [done|].
    cbn [join_bytes] in *. by rewrite IH.
  - rewrite bool_decide_eq_false_2 by done. by rewrite IH, <- app_assoc.
Qed.

Lemma split_on_free c l : forall cur, c ∉ cur -> Forall (fun p => c ∉ p) (split_on c l cur).
Proof.
  induction l as [|x l IH]; intros cur Hc; cbn [split_on]; [by repeat constructor|].
  destruct (decide (x = c)) as [->|Hne].
  - rewrite bool_decide_eq_true_2 by done. constructor; [done|]. apply IH. apply not_elem_of_nil.
  - rewrite bool_decide_eq_false_2 by done. apply IH. rewrite elem_of_app.
    intros [H|H%list_elem_of_singleton]; [done|congruence].
Qed.

Lemma Forall_snoc {A} (P : A -> Prop) l x : Forall P l -> P x -> Forall P (l ++ [x]).
Proof. intros Hl Hx. apply Forall_app. split; [done|by constructor]. Qed.

Section spec.
Context (alloc : Z -> option bytes).
Hypothesis Halloc : forall n b, 0 <= n -> alloc n = Some b -> zlen b = n.

(** What an operation owes: the new value, or memory is exhausted. *)
Definition implements (o : nullable sds) (v : bytes) : Prop :=
  match o with
  | Ok s => sds_wf s /\ sds_value s = v
  | Err _ => exists n, alloc n = None
  | Bad => False
  end.

Lemma implements_rep v tail : sds_small v tail -> implements (Ok (sds_rep v tail)) v.
Proof. intros H. split; [by apply sds_rep_wf|apply sds_rep_value]. Qed.

(** Growing keeps the bytes, also those of a string whose NUL is not written yet. *)
Lemma sdsMakeRoomFor_open v rest addlen :
  1 <= zlen rest -> zlen v + zlen rest < 2 ^ 31 -> 0 <= addlen -> zlen v + addlen < 2 ^ 30 - 1 ->
  match sdsMakeRoomFor alloc (mk_sds (zlen v) (zlen rest - 1) (v ++ rest)) addlen with
  | Ok s => exists new, s = mk_sds (zlen v) (zlen (rest ++ new) - 1) (v ++ rest ++ new) /\
      zlen v + zlen (rest ++ new) < 2 ^ 31 /\ addlen < zlen (rest ++ new) /\
      (zlen rest - 1 < addlen -> addlen + 1 < zlen (rest ++ new))
  | Err _ => exists n, alloc n = None
  | Bad => False
  end.
Proof.
  intros Hr Hs Ha Hb. unfold sdsMakeRoomFor. cbn [sds_free sds_len sds_buf].
  destruct (Z.leb_spec addlen (zlen rest - 1)); [exists []; rewrite app_nil_r; split_and!; [done|lia..]|].
  set (newlen := if zlen v + addlen <? SDS_MAX_PREALLOC then (zlen v + addlen) * 2
                 else zlen v + addlen + SDS_MAX_PREALLOC).
  assert (zlen v + addlen < newlen < 2 ^ 31 - 1) as Hnew.
  { unfold newlen, SDS_MAX_PREALLOC. pose proof (zlen_nonneg v).
    destruct (Z.ltb_spec (zlen v + addlen) (1024 * 1024)); lia. }
  unfold realloc, malloc. destruct (alloc (newlen + 1)) as [b|] eqn:E; [|cbn; eauto].
  apply Halloc in E; [|zlen_lia]. cbn [outcome_bind].
  rewrite take_ge by (unfold zlen in *; rewrite length_app; lia).
  exists (drop (length (v ++ rest)) b).
  assert (zlen (rest ++ drop (length (v ++ rest)) b) = newlen - zlen v + 1) as Ht.
  { unfold zlen in *. rewrite length_app, length_drop, length_app. lia. }
  rewrite Ht, i32_small by (pose proof (zlen_nonneg v); lia). rewrite <- app_assoc.
  split_and!; [f_equal; lia|lia..].
Qed.
Lemma sdsMakeRoomFor_rep v tail addlen :
  sds_small v tail -> 0 <= addlen -> zlen v + addlen < 2 ^ 30 - 1 ->
  match sdsMakeRoomFor alloc (sds_rep v tail) addlen with
  | Ok s => exists tail', s = sds_rep v tail' /\ sds_small v tail' /\ addlen <= zlen tail'
  | Err _ => exists n, alloc n = None
  | Bad => False
  end.
Proof.
  unfold sds_small. intros Hs Ha Hb. pose proof (sdsMakeRoomFor_open v (NUL :: tail) addlen) as Hg.
  unfold sds_rep. replace (zlen (NUL :: tail) - 1) with (zlen tail) in Hg by zlen_lia.
  specialize (Hg ltac:(zlen_lia) ltac:(zlen_lia) Ha Hb).
  destruct (sdsMakeRoomFor _ _ _); [|done|done]. destruct Hg as (new & -> & Hn & Hl & _).
  cbn [app] in *. exists (tail ++ new). rewrite zlen_cons in *. split_and!; [f_equal; lia|lia..].
Qed.

Lemma sdscatlen_spec s t :
  sds_wf s -> sds_len s + zlen t < 2 ^ 30 - 1 ->
  implements (sdscatlen alloc s t) (sds_value s ++ t).
Proof.
  intros Hw Hlen. destruct (sds_wf_rep s Hw) as (tail & Hs & Hsm).
  set (v := sds_value s) in *. clearbody v. subst s. cbn [sds_len sds_rep] in Hlen.
  unfold sdscatlen. cbn [sds_len sds_rep]. fold (sds_rep v tail).
  pose proof (sdsMakeRoomFor_rep v tail (zlen t) Hsm (zlen_nonneg t) Hlen) as Hroom.
  destruct (sdsMakeRoomFor _ _ _) as [s'|e|]; [|done|done].
  destruct Hroom as (tail' & -> & Hsm' & Hle). cbn [outcome_bind sds_buf sds_free sds_len sds_rep].
  destruct (store_after v t (NUL :: tail')) as (y & rest & Hb & Hz & Hp); [zlen_lia|].
  rewrite Hb. cbn [access outcome_bind]. rewrite Hp. cbn [access outcome_bind].
  rewrite zlen_cons in Hz. unfold sds_small in *.
  replace (i32 (zlen v + zlen t)) with (zlen (v ++ t)).
  2:{ rewrite i32_small; [zlen_lia|]. zlen_lia. }
  replace (i32 (zlen tail' - zlen t)) with (zlen rest).
  2:{ rewrite i32_small; zlen_lia. }
  apply (implements_rep (v ++ t) rest). unfold sds_small. zlen_lia.
Qed.

Lemma sdsnewlen_spec l n :
  0 <= n <= zlen l -> n < 2 ^ 31 - 1 ->
  implements (sdsnewlen alloc (Some l) n) (take (Z.to_nat n) l).
Proof.
  intros Hn Hs. unfold sdsnewlen, malloc. destruct (alloc (n + 1)) as [b|] eqn:E; [|cbn; eauto].
  apply Halloc in E; [|zlen_lia]. cbn [outcome_bind]. destruct (Z.ltb_spec (zlen l) n); [lia|].
  set (t := take (Z.to_nat n) l).
  assert (zlen t = n) as Ht by (unfold t, zlen in *; rewrite length_take; lia).
  destruct (store_after [] t b) as (y & rest & Hb & Hz & Hp); [lia|].
  cbn [app] in *. rewrite zlen_nil in *. rewrite Hb. cbn [access outcome_bind].
  rewrite Z.add_0_l, Ht in Hp. rewrite Hp. cbn [access outcome_bind].
  assert (rest = []) as -> by (destruct rest; [done|zlen_lia]).
  rewrite i32_small by lia. rewrite <- Ht. apply (implements_rep t []).
  unfold sds_small. rewrite zlen_nil. lia.
Qed.

Lemma sdsempty_spec : implements (sdsempty alloc) [].
Proof. apply (sdsnewlen_spec [] 0); [done|lia]. Qed.

(** ** Ranges *)

(** The substring from [first] to [last], negative indices counting from the
    end, as the commands of the server define it. *)
Definition substring (v : bytes) (first last : Z) : bytes :=
  let n := zlen v in
  let i := Z.max 0 (if first <? 0 then n + first else first) in
  let j := Z.min (n - 1) (Z.max 0 (if last <? 0 then n + last else last)) in
  slice v i (j + 1).

Lemma range_bounds_spec n first last :
  0 < n ->
  let i := Z.max 0 (if first <? 0 then n + first else first) in
  let j := Z.min (n - 1) (Z.max 0 (if last <? 0 then n + last else last)) in
  let b := range_bounds n first last in
  0 <= b.1 /\ 0 <= b.2 /\ b.2 = Z.max 0 (j + 1 - i) /\ (b.2 <> 0 -> b.1 = i /\ i + b.2 <= n).
Proof.
  intros Hn. unfold range_bounds.
  set (i := if first <? 0 then Z.max (n + first) 0 else first).
  set (j := if last <? 0 then Z.max (n + last) 0 else last).
  assert (Z.max 0 (if first <? 0 then n + first else first) = i) as ->
    by (unfold i; destruct (Z.ltb_spec first 0); lia).
  assert (Z.max 0 (if last <? 0 then n + last else last) = j) as ->
    by (unfold j; destruct (Z.ltb_spec last 0); lia).
  assert (0 <= i /\ 0 <= j) as [Hi Hj].
  { unfold i, j. destruct (Z.ltb_spec first 0), (Z.ltb_spec last 0); lia. }
  clearbody i j. cbv zeta.
  destruct (Z.ltb_spec j i) as [Hji|Hji]; cbn [negb Z.eqb fst snd].
  { split_and!; try lia. }
  destruct (Z.eqb_spec (j - i + 1) 0); [lia|]. cbn [negb].
  destruct (Z.leb_spec n i); [cbn [fst snd]; split_and!; lia|].
  destruct (Z.leb_spec n j); [|cbn [fst snd]; split_and!; lia].
  destruct (Z.ltb_spec (n - 1) i); cbn [fst snd]; split_and!; lia.
Qed.

Lemma slice_zlen l i j : 0 <= i -> i <= j <= zlen l -> zlen (slice l i j) = j - i.
Proof. intros. unfold slice, zlen in *. rewrite length_take, length_drop. lia. Qed.

Lemma slice_prefix v rest i j : 0 <= i -> j <= zlen v -> slice (v ++ rest) i j = slice v i j.
Proof.
  intros Hi Hj. unfold slice. destruct (Z.le_gt_cases i j).
  - rewrite drop_app_le by (unfold zlen in *; lia).
    rewrite take_app_le; [done|]. unfold zlen in *. rewrite length_drop. lia.
  - by replace (Z.to_nat (j - i)) with 0%nat by lia.
Qed.

(** Keeping a part [w] of the value at the front of the buffer. *)
Lemma keep_front v tail w (moved : bool) :
  sds_small v tail -> zlen w <= zlen v -> (moved = false -> exists rest, v = w ++ rest) ->
  implements
    (let! b := (if moved then access (blit (v ++ NUL :: tail) 0 w) else Ok (v ++ NUL :: tail)) in
     let! b := access (poke b (zlen w) NUL) in
     Ok (mk_sds (zlen w) (i32 (zlen tail + (zlen v - zlen w))) b)) w.
Proof.
  unfold sds_small. intros Hsm Hw Hm.
  assert (exists y rest, (if moved then access (blit (v ++ NUL :: tail) 0 w) else Ok (v ++ NUL :: tail)) =
            Ok (E := unit) (w ++ y :: rest) /\ zlen (v ++ NUL :: tail) = zlen w + 1 + zlen rest)
    as (y & rest & -> & Hz).
  { destruct moved.
    - destruct (store_after [] w (v ++ NUL :: tail)) as (y & rest & Hb & Hz & _); [zlen_lia|].
      cbn [app] in Hb. rewrite zlen_nil in Hb. rewrite Hb. by exists y, rest.
    - destruct (Hm eq_refl) as (rest & ->). rewrite <- app_assoc.
      destruct (rest ++ NUL :: tail) as [|y l] eqn:E; [by destruct rest|].
      exists y, l. split; [done|]. zlen_lia. }
  cbn [outcome_bind]. rewrite poke_app. cbn [access outcome_bind].
  rewrite i32_small by zlen_lia.
  replace (zlen tail + (zlen v - zlen w)) with (zlen rest) by zlen_lia.
  apply (implements_rep w rest). unfold sds_small. zlen_lia.
Qed.

Lemma sdsrange_spec s first last :
  sds_wf s -> implements (sdsrange s first last) (substring (sds_value s) first last).
Proof.
  intros Hw. destruct (sds_wf_rep s Hw) as (tail & Hs & Hsm).
  set (v := sds_value s) in *. clearbody v. subst s.
  unfold sdsrange. cbn [sds_len sds_free sds_buf sds_rep]. fold (sds_rep v tail).
  destruct (Z.eqb_spec (zlen v) 0) as [E|E].
  { destruct v; [|zlen_lia]. replace (substring [] first last) with (@nil ascii).
    - by apply implements_rep.
    - unfold substring, slice. rewrite drop_nil. by rewrite take_nil. }
  pose proof (range_bounds_spec (zlen v) first last) as Hb.
  destruct (range_bounds (zlen v) first last) as [i n]. cbn [fst snd] in Hb.
  destruct Hb as (Hi & Hn & Hnv & Hin); [zlen_lia|].
  unfold substring.
  set (a := Z.max 0 (if first <? 0 then zlen v + first else first)) in *.
  set (b := Z.min (zlen v - 1) (Z.max 0 (if last <? 0 then zlen v + last else last))) in *.
  assert (slice v a (b + 1) = slice v i (i + n) /\ zlen (slice v a (b + 1)) = n) as [Hsl Hzl].
  { destruct (decide (n = 0)) as [->|Hne].
    - unfold slice. replace (Z.to_nat (b + 1 - a)) with 0%nat by lia.
      by replace (Z.to_nat (i + 0 - i)) with 0%nat by lia.
    - destruct (Hin Hne) as [-> Hle]. replace (b + 1) with (a + n) by lia.
      split; [done|]. rewrite slice_zlen by lia. lia. }
  set (w := slice v a (b + 1)) in *. rewrite <- Hzl.
  destruct (decide (n = 0)) as [Hz|Hne].
  - rewrite Hzl, Hz, andb_false_r. 
    pose proof (keep_front v tail w false Hsm) as Hk. cbv iota in Hk.
    rewrite Hzl, Hz in Hk. apply Hk; [apply zlen_nonneg|].
    intros _. exists v. assert (w = []) as -> by (destruct w; [done|zlen_lia]). done.
  - destruct (Hin Hne) as [-> Hle]. rewrite slice_prefix by lia.
    rewrite Hzl in *. rewrite <- Hsl. rewrite <- Hzl.
    destruct (Z.eqb_spec (zlen w) 0); [lia|]. rewrite andb_true_r.
    pose proof (keep_front v tail w (negb (a =? 0)) Hsm) as Hk.
    replace (zlen w) with n in Hk by done. rewrite Hzl. apply Hk; [lia|].
    intros Ha. destruct (Z.eqb_spec a 0) as [Ea|]; [|done].
    exists (drop (length w) v). unfold w, slice. rewrite Ea. change (Z.to_nat 0) with 0%nat.
    rewrite drop_0, length_take. rewrite <- (take_drop (Z.to_nat (b + 1 - 0)) v) at 1.
    f_equal. f_equal. unfold zlen in *. lia.
Qed.

(** ** Splitting at a byte *)

Lemma slice_next l i c :
  byte_at l i = Some c -> slice l i (i + 1) = [c] /\
  drop (Z.to_nat i) l = c :: drop (Z.to_nat (i + 1)) l.
Proof.
  intros Hc. destruct (split_at_byte _ _ _ Hc) as (pre & rest & -> & <-).
  replace (Z.to_nat (zlen pre)) with (length pre) by (unfold zlen; lia).
  rewrite drop_app_length. split.
  - pose proof (slice_app pre [c] rest) as H. by rewrite zlen_singleton in H.
  - rewrite cons_middle, app_assoc.
    replace (Z.to_nat (zlen pre + 1)) with (length (pre ++ [c]))
      by (rewrite length_app; unfold zlen; cbn; lia).
    by rewrite drop_app_length.
Qed.

Lemma slice_snoc l i j c :
  0 <= i <= j -> byte_at l j = Some c -> slice l i (j + 1) = slice l i j ++ [c].
Proof.
  intros Hij Hc. destruct (split_at_byte _ _ _ Hc) as (pre & rest & -> & <-).
  rewrite (slice_prefix pre _ i (zlen pre)) by lia.
  rewrite cons_middle, app_assoc, slice_prefix by zlen_lia.
  unfold slice. rewrite drop_app_le by (unfold zlen in *; lia).
  rewrite !take_ge; [done|..]; repeat (rewrite length_app || rewrite length_drop);
    unfold zlen in *; cbn; lia.
Qed.

Lemma split_loop_spec fuel str c : forall tokens slots start j,
  let len := zlen str in
  len < 2 ^ 30 -> 0 <= start <= j -> j <= len -> len - j <= Z.of_nat fuel ->
  5 <= slots -> zlen tokens + 1 <= slots -> Forall sds_wf tokens ->
  match split_loop alloc fuel str len [c] 1 tokens slots start j with
  | Ok (tokens', slots', start') =>
      Forall sds_wf tokens' /\ zlen tokens' + 1 <= slots' /\ 0 <= start' <= len /\
      map sds_value tokens' ++ [slice str start' len] =
      map sds_value tokens ++ split_on c (drop (Z.to_nat j) str) (slice str start j)
  | Err _ => exists n, alloc n = None
  | Bad => False
  end.
Proof.
  induction fuel as [|fuel IH]; intros tokens slots start j len Hlen Hst Hj Hfu Hs5 Hs Hw;
    cbn [split_loop].
  { replace (j <? len - (1 - 1)) with false by lia. cbn [negb].
    assert (j = len) as -> by lia. split_and!; try done; try lia.
    rewrite drop_ge by (unfold len, zlen; lia). done. }
  destruct (Z.ltb_spec j (len - (1 - 1))) as [Hlt|Hge]; cbn [negb].
  2:{ assert (j = len) as -> by lia. split_and!; try done; try lia.
      rewrite drop_ge by (unfold len, zlen; lia). done. }
  destruct (byte_at_is_Some str j ltac:(lia)) as [x Hx].
  destruct (slice_next str j x Hx) as [Hsl Hdrop].
  rewrite Hdrop. cbn [split_on].
  set (grow := if slots <? zlen tokens + 2 then
                 (let! _ := malloc alloc (8 * (slots * 2)) in Ok (slots * 2)) else Ok slots).
  assert (match grow with
          | Ok slots' => zlen tokens + 2 <= slots' /\ 5 <= slots'
          | Err _ => exists n, alloc n = None
          | Bad => False
          end) as Hgrow.
  { unfold grow, malloc. destruct (Z.ltb_spec slots (zlen tokens + 2)); [|lia].
    destruct (alloc (8 * (slots * 2))) eqn:E; cbn; [lia|eauto]. }
  destruct grow as [slots'|e|]; cbn [outcome_bind]; [|done|done]. destruct Hgrow as [Hg1 Hg2].
  rewrite Hsl. destruct (decide (x = c)) as [->|Hne].
  - rewrite !bool_decide_eq_true_2 by done.
    pose proof (sdsnewlen_spec (drop (Z.to_nat start) str) (j - start)) as Htok.
    destruct (sdsnewlen _ _ _) as [token|e|]; cbn [outcome_bind].
    + destruct Htok as [Hwt Hvt]; [unfold len, zlen in *; rewrite length_drop; lia|lia|].
      destruct (Z.ltb_spec (zlen tokens) slots'); [|lia].
      assert (zlen (tokens ++ [token]) = zlen tokens + 1) as Hzt by zlen_lia.
      specialize (IH (tokens ++ [token]) slots' (j + 1) (j + 1)). cbv zeta in IH. fold len in IH.
      destruct (split_loop _ _ _ _ _ _ _ _ _ _) as [[[tokens' slots2] start']|e|];
        [|apply IH; try lia; by apply Forall_snoc..].
      destruct IH as (H1 & H2 & H3 & H4); try done; try lia.
      { by apply Forall_snoc. }
      split_and!; try done; try lia. rewrite H4, map_app, <- app_assoc. cbn [map app].
      rewrite Hvt. do 2 f_equal. 
      unfold slice at 1. by replace (Z.to_nat (j + 1 - (j + 1))) with 0%nat by lia.
    + apply Htok; [unfold len, zlen in *; rewrite length_drop; lia|lia].
    + apply Htok; [unfold len, zlen in *; rewrite length_drop; lia|lia].
  - rewrite !bool_decide_eq_false_2 by congruence.
    rewrite <- (slice_snoc str start j x) by done.
    apply IH; try done; lia.
Qed.

Lemma sdssplitlen_spec str c :
  0 < zlen str < 2 ^ 30 ->
  match sdssplitlen alloc str (zlen str) [c] 1 with
  | Ok tokens => Forall sds_wf tokens /\ map sds_value tokens = split_on c str []
  | Err _ => exists n, alloc n = None
  | Bad => False
  end.
Proof.
  intros Hlen. unfold sdssplitlen. destruct (Z.ltb_spec (zlen str) 0); [lia|].
  cbn [orb Z.ltb Z.compare Pos.compare Pos.compare_cont].
  unfold malloc at 1. destruct (alloc (8 * 5)) eqn:E; [|cbn; eauto]. cbn [outcome_bind].
  destruct (Z.eqb_spec (zlen str) 0); [lia|].
  pose proof (split_loop_spec (Z.to_nat (zlen str)) str c [] 5 0 0) as Hl. cbv zeta in Hl.
  destruct (split_loop _ _ _ _ _ _ _ _ _ _) as [[[tokens slots] start]|e|]; cbn [outcome_bind];
    [|apply Hl; try done; try lia..].
  destruct Hl as (Hw & Hs & Hst & Hv); try done; try lia.
  pose proof (sdsnewlen_spec (drop (Z.to_nat start) str) (zlen str - start)) as Htok.
  destruct (sdsnewlen _ _ _) as [token|e|]; cbn [outcome_bind];
    [|apply Htok; [unfold zlen in *; rewrite length_drop; lia|lia]..].
  destruct Htok as [Hwt Hvt]; [unfold zlen in *; rewrite length_drop; lia|lia|].
  destruct (Z.ltb_spec (zlen tokens) slots); [|lia].
  split; [by apply Forall_snoc|].
  rewrite map_app. cbn [map]. rewrite Hvt. exact Hv.
Qed.
End spec.

(** ** Quoting *)

(** The quoted form of a byte string. *)
Definition quoted (l : bytes) : bytes := [DQ] ++ concat (map repr_char l) ++ [DQ].

(** The three forms of an escaped byte. *)
Lemma repr_char_cases c :
  (exists d, repr_char c = [BS; d] /\ d <> "x"%char /\ unescape d = c) \/
  (repr_char c = [c] /\ c <> BS /\ c <> DQ) \/
  (exists x y, repr_char c = [BS; "x"%char; x; y] /\ is_hex_digit x && is_hex_digit y = true /\
     chr (hex_digit_to_int x * 16 + hex_digit_to_int y) = c).
Proof.
  destruct c as [[] [] [] [] [] [] [] []];
    first [ left; eexists; split; [vm_compute; reflexivity|split; [discriminate|reflexivity]]
          | right; left; split; [vm_compute; reflexivity|split; discriminate]
          | right; right; do 2 eexists; split; [vm_compute; reflexivity|split; reflexivity] ].
Qed.

Lemma repr_zlen l : zlen (concat (map repr_char l)) <= 4 * zlen l.
Proof.
  induction l as [|c l IH]; cbn [map concat]; [done|]. autorewrite with zlen.
  assert (zlen (repr_char c) <= 4); [|lia].
  by destruct (repr_char_cases c) as [(d & -> & _)|[(-> & _)|(x & y & -> & _)]].
Qed.

Lemma token_dq_escape d rest cur :
  d <> "x"%char -> token_dq (BS :: d :: rest) cur = token_dq rest (cur ++ [unescape d]).
Proof.
  intros Hd. cbn [token_dq]. rewrite bool_decide_eq_true_2 by done.
  rewrite (bool_decide_eq_false_2 (d = "x"%char)) by done.
  by destruct rest as [|x [|y rest]].
Qed.

Lemma token_dq_repr c rest cur :
  token_dq (repr_char c ++ rest) cur = token_dq rest (cur ++ [c]).
Proof.
  destruct (repr_char_cases c) as [(d & -> & Hd & Hu)|[(-> & Hb & Hq)|(x & y & -> & Hxy & Hu)]];
    cbn [app].
  - rewrite token_dq_escape by done. by rewrite Hu.
  - cbn [token_dq]. by rewrite !bool_decide_eq_false_2.
  - cbn [token_dq]. rewrite !bool_decide_eq_true_2 by done. rewrite <- andb_assoc, Hxy.
    cbn [andb]. by rewrite Hu.
Qed.

Lemma token_dq_quoted l rest : forall cur,
  quote_ends rest = true ->
  token_dq (concat (map repr_char l) ++ DQ :: rest) cur = Some (cur ++ l, rest).
Proof.
  induction l as [|c l IH]; intros cur Hr; cbn [map concat].
  - cbn [app token_dq]. rewrite bool_decide_eq_false_2 by done.
    rewrite bool_decide_eq_true_2 by done. by rewrite Hr, app_nil_r.
  - rewrite <- app_assoc, token_dq_repr, IH by done. by rewrite <- app_assoc.
Qed.

(** A line of quoted strings, each after a blank. *)
Definition quoted_line (ls : list bytes) : bytes :=
  concat (map (fun l => " "%char :: quoted l) ls).

Lemma split_args_quoted ls : forall fuel argv,
  (length ls < fuel)%nat -> split_args fuel (quoted_line ls) argv = Some (argv ++ ls).
Proof.
  induction ls as [|l ls IH]; intros fuel argv Hf; destruct fuel as [|fuel]; cbn in Hf; try lia.
  - cbn. by rewrite app_nil_r.
  - change (quoted_line (l :: ls)) with ((" "%char :: quoted l) ++ quoted_line ls).
    cbn [split_args app skip_blanks]. replace (isspace " "%char) with true by done.
    unfold quoted. cbn [app skip_blanks]. replace (isspace DQ) with false by done.
    cbn [token_plain]. replace (code DQ) with 34 by done. cbn [Z.eqb Pos.eqb orb].
    rewrite bool_decide_eq_true_2 by done. rewrite <- app_assoc. cbn [app].
    rewrite token_dq_quoted by (by destruct ls).
    cbn [mbind option_bind fst snd app]. rewrite IH by lia. by rewrite <- app_assoc.
Qed.

Lemma sdssplitargs_quoted l : sdssplitargs (quoted l) = Some [l].
Proof.
  unfold sdssplitargs. set (fuel := length (quoted l)).
  assert (exists f, fuel = S f) as [f ->] by (by exists (pred fuel)).
  pose proof (split_args_quoted [l] (S (S f)) [] ltac:(cbn; lia)) as H.
  cbn [quoted_line map concat] in H. rewrite app_nil_r in H. exact H.
Qed.

(** ** Numbers *)

Lemma ll_digits_step f pre x rest v :
  ll_digits (S f) (pre ++ x :: rest) (zlen pre) v =
  let pre' := pre ++ [digit (v mod 10)] in
  if v / 10 =? 0 then Some (pre' ++ rest, zlen pre')
  else ll_digits f (pre' ++ rest) (zlen pre') (v / 10).
Proof.
  cbn [ll_digits]. rewrite poke_app. cbn [mbind option_bind].
  replace (zlen (pre ++ [digit (v mod 10)])) with (zlen pre + 1) by zlen_lia.
  rewrite <- app_assoc. done.
Qed.

Lemma ll_digits_dec f : forall v pre room rest,
  0 <= v < 10 ^ Z.of_nat f -> (1 <= f)%nat -> zlen room = zlen (dec v) ->
  ll_digits f (pre ++ room ++ rest) (zlen pre) v =
  Some (pre ++ rev (dec v) ++ rest, zlen (pre ++ rev (dec v))).
Proof.
  induction f as [|f IH]; intros v pre room rest Hv Hf Hr; [lia|].
  rewrite Nat2Z.inj_succ, Z.pow_succ_r in Hv by lia.
  pose proof (dec_length v ltac:(lia)). destruct room as [|x room]; [zlen_lia|].
  cbn [app]. rewrite ll_digits_step. cbv zeta.
  destruct (decide (v < 10)).
  - rewrite Z.div_small, Z.mod_small by lia. rewrite dec_small in * by lia.
    destruct room; [|zlen_lia]. cbn [Z.eqb rev app]. by rewrite <- app_assoc.
  - assert (0 < v / 10) by (apply Z.div_str_pos; lia).
    destruct (Z.eqb_spec (v / 10) 0); [lia|].
    rewrite dec_step in * by lia. rewrite rev_app_distr. cbn [rev app].
    rewrite IH.
    + rewrite <- !app_assoc. done.
    + split; [lia|]. apply Z.div_lt_upper_bound; lia.
    + destruct f; [|lia]. change (10 ^ Z.of_nat 0) with 1 in *. lia.
    + zlen_lia.
Qed.

Lemma ll_reverse_spec f : forall a m rest,
  (length m <= f)%nat ->
  ll_reverse f (a ++ m ++ rest) (zlen a) (zlen a + zlen m - 1) = Some (a ++ rev m ++ rest).
Proof.
  induction f as [|f IH]; intros a m rest Hf.
  { destruct m; [|cbn in Hf; lia]. cbn [ll_reverse]. rewrite zlen_nil.
    by replace (zlen a <? zlen a + 0 - 1) with false by lia. }
  destruct m as [|x m].
  { cbn [ll_reverse]. rewrite zlen_nil. by replace (zlen a <? zlen a + 0 - 1) with false by lia. }
  destruct m as [|y' m].
  { cbn [ll_reverse]. rewrite zlen_singleton.
    by replace (zlen a <? zlen a + 1 - 1) with false by lia. }
  assert (exists m' y, y' :: m = m' ++ [y]) as (m' & y & Hm).
  { destruct (exists_last (l := y' :: m)) as (m' & y & ->); [done|by eauto]. }
  rewrite Hm.
  cbn [ll_reverse app]. rewrite byte_at_app.
  replace (zlen a <? zlen a + zlen (x :: m' ++ [y]) - 1) with true by (symmetry; zlen_lia).
  cbn [negb mbind option_bind].
  assert (zlen a + zlen (x :: m' ++ [y]) - 1 = zlen (a ++ x :: m')) as Hj by zlen_lia.
  rewrite Hj. rewrite <- !app_assoc. cbn [app].
  rewrite app_comm_cons, app_assoc, byte_at_app. cbn [mbind option_bind].
  rewrite <- app_assoc. cbn [app]. rewrite poke_app. cbn [mbind option_bind].
  rewrite app_comm_cons, app_assoc.
  replace (zlen (a ++ x :: m')) with (zlen (a ++ y :: m')) by zlen_lia.
  rewrite poke_app. cbn [mbind option_bind].
  replace ((a ++ y :: m') ++ x :: rest) with ((a ++ [y]) ++ m' ++ x :: rest)
    by (by rewrite <- !app_assoc).
  replace (zlen a + 1) with (zlen (a ++ [y])) by zlen_lia.
  replace (zlen (a ++ y :: m') - 1) with (zlen (a ++ [y]) + zlen m' - 1) by zlen_lia.
  rewrite IH; [|apply (f_equal length) in Hm; rewrite length_app in Hm; cbn in Hm, Hf; lia].
  cbn [rev]. rewrite rev_app_distr. cbn [rev app]. by rewrite <- !app_assoc.
Qed.

Lemma ll_reverse_all m rest :
  ll_reverse (Z.to_nat (zlen m)) (m ++ rest) 0 (zlen m - 1) = Some (rev m ++ rest).
Proof.
  apply (ll_reverse_spec _ [] m rest). unfold zlen. lia.
Qed.

(** A buffer with room for [l] and one byte more. *)
Lemma room_for {A} (b l : list A) :
  zlen l < zlen b -> exists room x rest, b = room ++ x :: rest /\ zlen room = zlen l.
Proof.
  intros H. destruct (drop (length l) b) as [|x rest] eqn:E.
  { apply (f_equal length) in E. rewrite length_drop in E. cbn in E. unfold zlen in H. lia. }
  exists (take (length l) b), x, rest. rewrite <- E, take_drop. split; [done|].
  unfold zlen in *. rewrite length_take. lia.
Qed.

Lemma sdsull2str_buffer b v :
  0 <= v < 2 ^ 64 -> zlen (dec v) < zlen b ->
  exists rest, sdsull2str b v = Some (dec v ++ NUL :: rest, zlen (dec v)) /\
    zlen b = zlen (dec v) + 1 + zlen rest.
Proof.
  intros Hv Hb. destruct (room_for b (dec v) Hb) as (room & x & rest & -> & Hroom).
  unfold sdsull2str. pose proof (ll_digits_dec 20 v [] room (x :: rest)) as Hd.
  cbn [app] in Hd. change (zlen (@nil ascii)) with 0 in Hd. rewrite Hd; [|lia|lia|done].
  cbn [mbind option_bind fst snd]. rewrite poke_app. cbn [mbind option_bind].
  rewrite ll_reverse_all, rev_involutive, zlen_rev. cbn [mbind option_bind].
  exists rest. split; [done|]. zlen_lia.
Qed.

Lemma sdsll2str_buffer b v :
  - 2 ^ 63 <= v < 2 ^ 63 -> zlen (dec_signed v) < zlen b ->
  exists rest, sdsll2str b v = Some (dec_signed v ++ NUL :: rest, zlen (dec_signed v)) /\
    zlen b = zlen (dec_signed v) + 1 + zlen rest.
Proof.
  intros Hv Hb. destruct (Z.ltb_spec v 0) as [Hneg|Hpos].
  - unfold dec_signed, sdsll2str in *. replace (v <? 0) with true in * by lia.
    replace (u64 (i64 (- v))) with (- v).
    2:{ unfold u64, i64. destruct (decide (v = - 2 ^ 63)) as [->|]; [done|].
        rewrite (Z.mod_small (- v + 2 ^ 63)) by lia. rewrite Z.mod_small; lia. }
    destruct (room_for b _ Hb) as (room & x & rest & -> & Hroom).
    destruct room as [|z room]; [zlen_lia|].
    assert (exists room' y, z :: room = room' ++ [y]) as (room' & y & Hzy).
    { destruct (exists_last (l := z :: room)) as (m' & y & ->); [done|by eauto]. }
    rewrite Hzy in *. rewrite <- app_assoc. cbn [app].
    pose proof (ll_digits_dec 20 (- v) [] room' (y :: x :: rest)) as Hd.
    cbn [app] in Hd. change (zlen (@nil ascii)) with 0 in Hd. rewrite Hd; [|lia|lia|zlen_lia].
    cbn [mbind option_bind fst snd]. rewrite poke_app. cbn [mbind option_bind fst snd].
    rewrite cons_middle, app_assoc.
    replace (zlen (rev (dec (- v))) + 1) with (zlen (rev (dec (- v)) ++ ["-"%char])) by zlen_lia.
    rewrite poke_app. cbn [mbind option_bind]. rewrite ll_reverse_all.
    rewrite rev_app_distr, rev_involutive. cbn [mbind option_bind rev app].
    rewrite zlen_app, zlen_rev, zlen_cons. exists rest. 
    split; [|zlen_lia]. do 3 f_equal. zlen_lia.
  - unfold dec_signed in *. unfold sdsll2str. replace (v <? 0) with false in * by lia.
    cbn [mbind option_bind].
    destruct (sdsull2str_buffer b v) as (rest & H & Hz); [lia|done|].
    exists rest. split; [|done]. rewrite <- H. unfold sdsull2str.
    destruct (ll_digits 20 b 0 v) as [[b' p]|]; done.
Qed.

Lemma dec_size n d : 1 <= d -> 0 <= n < 10 ^ d -> zlen (dec n) <= d.
Proof.
  intros Hd Hn. destruct (dec_length n ltac:(lia)) as (H1 & H2 & H3).
  destruct (decide (n = 0)) as [->|]; [exact Hd|]. specialize (H3 ltac:(lia)).
  assert (10 ^ (zlen (dec n) - 1) < 10 ^ d) as Hlt by lia.
  apply Z.pow_lt_mono_r_iff in Hlt; lia.
Qed.

Lemma dec_signed_size v : - 2 ^ 63 <= v < 2 ^ 63 -> zlen (dec_signed v) < 21.
Proof.
  intros Hv. unfold dec_signed. destruct (Z.ltb_spec v 0).
  - pose proof (dec_size (- v) 19 ltac:(lia) ltac:(lia)). zlen_lia.
  - pose proof (dec_size v 19 ltac:(lia) ltac:(lia)). lia.
Qed.

(** ** What the operations promise *)

Section promises.
Context (alloc : Z -> option bytes).
Hypothesis Halloc : forall n b, 0 <= n -> alloc n = Some b -> zlen b = n.

(** An operation that cannot fail for lack of memory. *)
Definition yields (o : nullable sds) (v : bytes) : Prop :=
  exists s, o = Ok s /\ sds_wf s /\ sds_value s = v.

Hypothesis Hmem : forall n, alloc n <> None.

Lemma implements_yields o v : implements alloc o v -> yields o v.
Proof.
  destruct o as [s|e|]; [|intros [n Hn]; by destruct (Hmem n)|done]. intros [Hw Hv]. by exists s.
Qed.

Lemma yields_catlen s t :
  sds_wf s -> zlen (sds_value s) + zlen t < 2 ^ 30 - 1 ->
  yields (sdscatlen alloc s t) (sds_value s ++ t).
Proof.
  intros Hw Hl. rewrite sds_value_zlen in Hl by done. by apply implements_yields, sdscatlen_spec.
Qed.

Lemma repr_loop_spec l : forall r v,
  yields r v -> zlen v + 4 * zlen l < 2 ^ 30 - 1 ->
  yields (repr_loop alloc r l) (v ++ concat (map repr_char l)).
Proof.
  induction l as [|c l IH]; intros r v Hr Hl; cbn [repr_loop map concat].
  { by rewrite app_nil_r. }
  destruct Hr as (s & -> & Hw & <-). cbn [deref outcome_bind].
  pose proof (repr_zlen [c]) as Hc. cbn [map concat] in Hc. rewrite app_nil_r in Hc.
  autorewrite with zlen in *. rewrite app_assoc. apply IH; [|zlen_lia].
  apply yields_catlen; [done|zlen_lia].
Qed.

Lemma sdscatrepr_spec s l :
  sds_wf s -> zlen (sds_value s) + 4 * zlen l + 2 < 2 ^ 30 - 1 ->
  yields (sdscatrepr alloc s l) (sds_value s ++ quoted l).
Proof.
  intros Hw Hl. unfold sdscatrepr, quoted. pose proof (repr_zlen l).
  destruct (repr_loop_spec l (sdscatlen alloc s [DQ]) (sds_value s ++ [DQ])) as (s' & -> & Hw' & Hv').
  - apply yields_catlen; [done|zlen_lia].
  - zlen_lia.
  - cbn [deref outcome_bind]. rewrite !app_assoc, <- Hv'.
    apply yields_catlen; [done|]. rewrite Hv'. zlen_lia.
Qed.

Lemma join_loop_spec sep argv : forall r v,
  yields r v -> zlen v + zlen (join_bytes sep argv) < 2 ^ 30 - 1 ->
  yields (join_loop alloc r argv sep) (v ++ join_bytes sep argv).
Proof.
  induction argv as [|a argv IH]; intros r v Hr Hl; [by cbn; rewrite app_nil_r|].
  destruct Hr as (s & -> & Hw & <-).
  destruct argv as [|a' argv]; cbn [join_loop deref outcome_bind].
  { apply yields_catlen; done. }
  change (join_bytes sep (a :: a' :: argv)) with (a ++ sep ++ join_bytes sep (a' :: argv)) in *.
  set (j := join_bytes sep (a' :: argv)) in *.
  destruct (yields_catlen s a Hw) as (s' & -> & Hw' & Hv'); [zlen_lia|].
  cbn [deref outcome_bind]. rewrite !app_assoc.
  apply IH; [|zlen_lia]. rewrite <- Hv'. apply yields_catlen; [done|]. rewrite Hv'. zlen_lia.
Qed.

Lemma sdsjoin_spec argv sep :
  zlen (join_bytes sep argv) < 2 ^ 30 - 1 ->
  yields (sdsjoin alloc argv sep) (join_bytes sep argv).
Proof.
  intros Hl. apply (join_loop_spec sep argv _ []); [|done].
  by apply implements_yields, sdsempty_spec.
Qed.
End promises.

(** [sdscatlen] appends: the string keeps its invariant, its value is the
    old value followed by the bytes, every store is inside the block it grew,
    and the only failure is exhausted memory. *)
Theorem sdscatlen_correct alloc s t :
  (forall n b, 0 <= n -> alloc n = Some b -> zlen b = n) ->
  sds_wf s -> sds_len s + zlen t < 2 ^ 30 - 1 ->
  implements alloc (sdscatlen alloc s t) (sds_value s ++ t).
Proof. intros. by apply sdscatlen_spec. Qed.

(** A memory that is never exhausted. *)
Definition plenty (n : Z) : option bytes := Some (replicate (Z.to_nat n) "?"%char).
Lemma plenty_size n b : 0 <= n -> plenty n = Some b -> zlen b = n.
Proof. intros Hn [= <-]. unfold zlen. rewrite length_replicate. lia. Qed.

Definition sds_ab : sds := sds_rep (s "ab") (s "?").

Lemma sdscatlen_correct_witness :
  sds_wf sds_ab /\ implements plenty (sdscatlen plenty sds_ab (s "cdef")) (s "abcdef").
Proof.
  split; [by apply sds_rep_wf|].
  apply (sdscatlen_correct plenty sds_ab (s "cdef") plenty_size); [by apply sds_rep_wf|done].
Defined.

(** C35: [sdsrange] keeps exactly the substring from [first] to [last], negative
    indices counting from the end and out of range ones cut off. *)
Theorem sdsrange_correct alloc s first last :
  sds_wf s -> implements alloc (sdsrange s first last) (substring (sds_value s) first last).
Proof. apply sdsrange_spec. Qed.

Definition sds_word : sds := sds_rep (s "slotted") [].

Lemma sdsrange_correct_witness :
  sds_wf sds_word /\ implements plenty (sdsrange sds_word 1 (-3)) (s "lott").
Proof.
  split; [by apply sds_rep_wf|].
  apply (sdsrange_correct plenty sds_word 1 (-3)). by apply sds_rep_wf.
Defined.

(** C32: [sdssplitlen] at one byte (as the command parser and the topology
    reader use it) gives the parts between the occurrences of the byte: no part
    contains it, the parts joined by it are the input, every part is a well
    formed string, and the token array never overflows. *)
Theorem sdssplitlen_correct alloc str c :
  (forall n b, 0 <= n -> alloc n = Some b -> zlen b = n) ->
  0 < zlen str < 2 ^ 30 ->
  match sdssplitlen alloc str (zlen str) [c] 1 with
  | Ok tokens => Forall sds_wf tokens /\ Forall (fun t => c ∉ sds_value t) tokens /\
                 join_bytes [c] (map sds_value tokens) = str
  | Err _ => exists n, alloc n = None
  | Bad => False
  end.
Proof.
  intros Ha Hs. pose proof (sdssplitlen_spec alloc Ha str c Hs) as H.
  destruct (sdssplitlen _ _ _ _ _) as [tokens|e|]; try done. destruct H as [Hw Hv].
  split_and!; [done| |by rewrite Hv, join_split].
  apply (proj1 (Forall_map sds_value (fun v => c ∉ v) tokens)).
  rewrite Hv. apply split_on_free, not_elem_of_nil.
Qed.

Lemma sdssplitlen_correct_witness :
  0 < zlen (s "127.0.0.1:7000") < 2 ^ 30 /\
  exists tokens, sdssplitlen plenty (s "127.0.0.1:7000") 14 (s ":") 1 = Ok tokens /\
    map sds_value tokens = [s "127.0.0.1"; s "7000"] /\
    join_bytes (s ":") (map sds_value tokens) = s "127.0.0.1:7000".
Proof.
  split; [zcompute|].
  pose proof (sdssplitlen_correct plenty (s "127.0.0.1:7000") ":"%char plenty_size
                ltac:(zcompute)) as H.
  change (zlen (s "127.0.0.1:7000")) with 14 in H. change [":"%char] with (s ":") in H.
  destruct (sdssplitlen plenty (s "127.0.0.1:7000") 14 (s ":") 1) as [tokens| |] eqn:E;
    [|vm_compute in E; discriminate..].
  exists tokens. split; [done|]. split; [|apply H].
  vm_compute in E. by injection E as <-.
Defined.

(** C34: what [sdscatrepr] appends, [sdssplitargs] reads back as one argument:
    for any bytes, quotes, blanks, control bytes and NUL included. *)
Theorem sdscatrepr_splitargs alloc s l :
  (forall n b, 0 <= n -> alloc n = Some b -> zlen b = n) -> (forall n, alloc n <> None) ->
  sds_wf s -> sds_value s = [] -> 4 * zlen l + 2 < 2 ^ 30 - 1 ->
  exists s', sdscatrepr alloc s l = Ok s' /\ sds_wf s' /\
    sdssplitargs (sds_value s') = Some [l].
Proof.
  intros Ha Hm Hw Hv Hl.
  destruct (sdscatrepr_spec alloc Ha Hm s l Hw) as (s' & Hs' & Hw' & Hv').
  { rewrite Hv, zlen_nil. lia. }
  exists s'. split_and!; [done..|]. rewrite Hv', Hv. apply sdssplitargs_quoted.
Qed.

Lemma sdscatrepr_splitargs_witness :
  let l := [DQ; "a"%char; NUL; BS; chr 200] in
  exists s', sdscatrepr plenty (sds_rep [] []) l = Ok s' /\ sds_wf s' /\
    sdssplitargs (sds_value s') = Some [l].
Proof.
  intros l. apply (sdscatrepr_splitargs plenty (sds_rep [] []) l plenty_size); done.
Defined.

(** C33: joining is the inverse of splitting: [sdsjoin] of the parts that
    [sdssplitlen] cut at a byte gives the input back. *)
Theorem sdsjoin_sdssplitlen alloc str c :
  (forall n b, 0 <= n -> alloc n = Some b -> zlen b = n) -> (forall n, alloc n <> None) ->
  0 < zlen str < 2 ^ 30 - 1 ->
  exists tokens joined, sdssplitlen alloc str (zlen str) [c] 1 = Ok tokens /\
    sdsjoinsds alloc tokens [c] = Ok joined /\ sds_wf joined /\ sds_value joined = str.
Proof.
  intros Ha Hm Hs. pose proof (sdssplitlen_spec alloc Ha str c ltac:(lia)) as H.
  destruct (sdssplitlen _ _ _ _ _) as [tokens|e|];
    [|destruct H as [n Hn]; by destruct (Hm n)|done].
  destruct H as [Hw Hv]. pose proof (join_split c str []) as Hj. cbn [app] in Hj.
  destruct (sdsjoin_spec alloc Ha Hm (map sds_value tokens) [c]) as (j & Hj1 & Hj2 & Hj3).
  { rewrite Hv, Hj. lia. }
  exists tokens, j. split_and!; try done. by rewrite Hj3, Hv, Hj.
Qed.

Lemma sdsjoin_sdssplitlen_witness :
  0 < zlen (s "a,,b") < 2 ^ 30 - 1 /\
  exists tokens joined, sdssplitlen plenty (s "a,,b") 4 (s ",") 1 = Ok tokens /\
    sdsjoinsds plenty tokens (s ",") = Ok joined /\ sds_wf joined /\ sds_value joined = s "a,,b".
Proof.
  split; [zcompute|].
  apply (sdsjoin_sdssplitlen plenty (s "a,,b") ","%char plenty_size); [done|zcompute].
Defined.

(** C36: [sdsll2str] prints every [long long], [sdsull2str] every
    [unsigned long long], as a NUL terminated decimal numeral, in a buffer of
    [SDS_LLSTR_SIZE] = 21 bytes. *)
Theorem sdsll2str_correct b v :
  zlen b = 21 ->
  (- 2 ^ 63 <= v < 2 ^ 63 ->
   exists b', sdsll2str b v = Some (b', zlen (dec_signed v)) /\
     c_string b' = Some (dec_signed v) /\ zlen b' = 21) /\
  (0 <= v < 2 ^ 64 ->
   exists b', sdsull2str b v = Some (b', zlen (dec v)) /\
     c_string b' = Some (dec v) /\ zlen b' = 21).
Proof.
  intros Hb. split; intros Hv.
  - destruct (sdsll2str_buffer b v Hv) as (rest & H & Hz).
    { rewrite Hb. by apply dec_signed_size. }
    eexists. split; [exact H|]. split; [apply c_string_app, dec_signed_no_NUL|zlen_lia].
  - destruct (sdsull2str_buffer b v Hv) as (rest & H & Hz).
    { rewrite Hb. pose proof (dec_size v 20 ltac:(lia) ltac:(lia)). lia. }
    eexists. split; [exact H|]. split; [|zlen_lia]. apply c_string_app.
    eapply Forall_impl; [apply dec_digits; lia|apply digit_not_NUL].
Qed.

Lemma sdsll2str_correct_witness :
  exists b', sdsll2str (replicate 21 "?"%char) (- 2 ^ 63) = Some (b', 20) /\
    c_string b' = Some (s "-9223372036854775808") /\ zlen b' = 21.
Proof.
  apply (proj1 (sdsll2str_correct (replicate 21 "?"%char) (- 2 ^ 63) eq_refl)). zcompute.
Defined.
