(* ===== verification/SdsText.v ===== *)
(** * sds.c: text

    [sdscatfmt], changing the case, integers, and the formatter of commands that is
    built on them ([redisFormatSdsCommandArgv] of hiredis.c).  Strings are those
    of [Sds]; the text a format stands for is [fmt_text]. *)

From S2P Require Import Prelude Resp Format Sds.

Definition SDS_LLSTR_SIZE : Z := 21.

(** An argument in the [va_list]. *)
Inductive fmt_arg :=
| AString (v : bytes)
| ASds (x : sds)
| AInt (n : Z)
| ALongLong (n : Z)
| AUnsigned (n : Z)
| AUnsignedLongLong (n : Z)
| ASize (n : Z).

Section text.
Context (alloc : Z -> option bytes).

(** ** sdscatfmt

    The string, the position [i] of the next byte and the arguments that are left.
    The result of [sdsMakeRoomFor] is not tested. *)
Abbreviation fmt_state := (sds * Z * list fmt_arg)%type.

(** [s[i++] = c; sh->len += 1; sh->free -= 1;] *)
Definition put_char (x : sds) (i : Z) (c : ascii) : nullable (sds * Z) :=
  let! b := access (poke (sds_buf x) i c) in
  Ok (mk_sds (i32 (sds_len x + 1)) (i32 (sds_free x - 1)) b, i32 (i + 1)).

(** Appending the first [l] bytes of [str]. *)
Definition put_bytes (x : sds) (i : Z) (str : bytes) (l : Z) : nullable (sds * Z) :=
  let! x := if sds_free x <? l then deref (sdsMakeRoomFor alloc x (u64 l)) else Ok x in
  if l <? 0 then Bad else
  let! b := access (blit (sds_buf x) i (take (Z.to_nat l) str)) in
  Ok (mk_sds (i32 (sds_len x + l)) (i32 (sds_free x - l)) b, i32 (i + l)).

(** The buffer of the numeral is on the stack; what it holds before is not read. *)
Definition put_number (print : bytes -> Z -> option (bytes * Z)) (x : sds) (i num : Z) : nullable (sds * Z) :=
  let! (buf, l) := access (print (repeat NUL (Z.to_nat SDS_LLSTR_SIZE)) num) in
  put_bytes x i buf l.

(** [switch(next)]: [va_arg] of another type is a fault. *)
Definition fmt_conversion (next : ascii) (x : sds) (i : Z) (ap : list fmt_arg) : nullable fmt_state :=
  let with_ap (ap : list fmt_arg) (r : nullable (sds * Z)) : nullable fmt_state :=
    let! (x, i) := r in Ok (x, i, ap) in
  if bool_decide (next = "s"%char) then
    match ap with AString v :: ap => with_ap ap (put_bytes x i v (i32 (zlen v))) | _ => Bad end
  else if bool_decide (next = "S"%char) then
    match ap with ASds v :: ap => with_ap ap (put_bytes x i (sds_buf v) (sds_len v)) | _ => Bad end
  else if bool_decide (next = "i"%char) then
    match ap with AInt n :: ap => with_ap ap (put_number sdsll2str x i n) | _ => Bad end
  else if bool_decide (next = "I"%char) then
    match ap with ALongLong n :: ap => with_ap ap (put_number sdsll2str x i n) | _ => Bad end
  else if bool_decide (next = "u"%char) then
    match ap with AUnsigned n :: ap => with_ap ap (put_number sdsull2str x i n) | _ => Bad end
  else if bool_decide (next = "U"%char) then
    match ap with AUnsignedLongLong n :: ap => with_ap ap (put_number sdsull2str x i n) | _ => Bad end
  else if bool_decide (next = "T"%char) then
    match ap with ASize n :: ap => with_ap ap (put_number sdsull2str x i n) | _ => Bad end
  else with_ap ap (put_char x i next).

(** The loop from [f], the memory at the format with its NUL, and the last store. *)
Fixpoint catfmt_loop (f : bytes) (x : sds) (i : Z) (ap : list fmt_arg) : nullable sds :=
  match f with
  | [] => Bad
  | c :: f' =>
      if bool_decide (c = NUL) then
        let! b := access (poke (sds_buf x) i NUL) in Ok (mk_sds (sds_len x) (sds_free x) b)
      else
        let! x := if sds_free x =? 0 then deref (sdsMakeRoomFor alloc x 1) else Ok x in
        if bool_decide (c = "%"%char) then
          match f' with
          | [] => Bad
          | next :: f'' => let! (x, i, ap) := fmt_conversion next x i ap in catfmt_loop f'' x i ap
          end
        else let! (x, i) := put_char x i c in catfmt_loop f' x i ap
  end.
Definition sdscatfmt (x : sds) (fmt : bytes) (ap : list fmt_arg) : nullable sds :=
  catfmt_loop fmt x (i32 (sds_len x)) ap.

(** ** Case *)

Definition map_value (f : ascii -> ascii) (x : sds) : sds :=
  mk_sds (sds_len x) (sds_free x) (map f (sds_value x) ++ drop (Z.to_nat (sds_len x)) (sds_buf x)).
Definition sdstolower (x : sds) : sds := map_value tolower x.
Definition sdstoupper (x : sds) : sds := map_value toupper x.

(** ** Strings and integers *)

Definition sdscat (x : sds) (t : bytes) : nullable sds := sdscatlen alloc x t.
Definition sdscpy (x : sds) (t : bytes) : nullable sds := sdscpylen alloc x t.

(** [do { *p-- = '0'+(v%10); v /= 10; } while(v);] *)
Fixpoint digits_down (fuel : nat) (b : bytes) (p v : Z) : option (bytes * Z) :=
  match fuel with
  | O => None
  | S f =>
      b ← poke b p (chr (48 + v mod 10));
      if v / 10 =? 0 then Some (b, p - 1) else digits_down f b (p - 1) (v / 10)
  end.
Definition sdsfromlonglong (value : Z) : nullable sds :=
  let v := if value <? 0 then u64 (i64 (- value)) else value in
  let! (buf, p) := access (digits_down 20 (repeat NUL 32) 31 v) in
  let! (buf, p) := if value <? 0 then (let! b := access (poke buf p "-"%char) in Ok (b, p - 1)) else Ok (buf, p) in
  let p := p + 1 in
  sdsnewlen alloc (Some (drop (Z.to_nat p) buf)) (32 - p).

(** ** redisFormatSdsCommandArgv

    [Err] is the -1 of no memory. *)
Fixpoint sds_args (argv : list bytes) (argvlen : option (list Z)) (js : list nat) (cmd : sds) : nullable sds :=
  match js with
  | [] => Ok cmd
  | j :: js =>
      let len := Format.arg_len argv argvlen j in
      let! cmd := sdscatfmt cmd (s "$%T" ++ CRLF ++ [NUL]) [ASize len] in
      let! cmd := deref (sdscatlen alloc cmd (Format.arg_bytes argv argvlen j)) in
      let! cmd := deref (sdscatlen alloc cmd CRLF) in
      sds_args argv argvlen js cmd
  end.
Definition sds_command (argc : Z) (argv : list bytes) (argvlen : option (list Z)) : nullable (sds * Z) :=
  let js := seq 0 (Z.to_nat argc) in
  let totlen := fold_left (fun totlen j => u64 (totlen + bulklen (Format.arg_len argv argvlen j))) js
                  (u64 (1 + countDigits argc + 2)) in
  let! cmd := sdsempty alloc in
  let! cmd := sdsMakeRoomFor alloc cmd totlen in
  let! cmd := sdscatfmt cmd (s "*%i" ++ CRLF ++ [NUL]) [AInt argc] in
  let! cmd := sds_args argv argvlen js cmd in
  if sds_len cmd =? totlen then Ok (cmd, i32 totlen) else Bad.
End text.

(** ** The text of a format *)

(** The letter that takes an argument, and its text. *)
Definition letter (a : fmt_arg) : ascii :=
  match a with
  | AString _ => "s"
  | ASds _ => "S"
  | AInt _ => "i"
  | ALongLong _ => "I"
  | AUnsigned _ => "u"
  | AUnsignedLongLong _ => "U"
  | ASize _ => "T"
  end%char.
Definition arg_text (a : fmt_arg) : bytes :=
  match a with
  | AString v => v
  | ASds x => sds_value x
  | AInt n | ALongLong n => dec_signed n
  | AUnsigned n | AUnsignedLongLong n | ASize n => dec n
  end.
Definition conversion_text (next : ascii) (ap : list fmt_arg) : option (bytes * list fmt_arg) :=
  if bool_decide (next ∈ s "sSiIuUT") then
    match ap with
    | a :: ap => if bool_decide (letter a = next) then Some (arg_text a, ap) else None
    | [] => None
    end
  else Some ([next], ap).
(** [None]: the format ends with a lone [%], or the arguments do not fit it. *)
Fixpoint fmt_text (f : bytes) (ap : list fmt_arg) : option bytes :=
  match f with
  | [] => Some []
  | c :: f' =>
      if bool_decide (c = "%"%char) then
        match f' with
        | [] => None
        | next :: f'' => r ← conversion_text next ap; t ← fmt_text f'' r.2; Some (r.1 ++ t)
        end
      else t ← fmt_text f' ap; Some (c :: t)
  end.

(** The values that the C types of the arguments have. *)
Definition arg_fits (a : fmt_arg) : Prop :=
  match a with
  | AString v => NUL ∉ v
  | ASds x => sds_wf x
  | AInt n => - 2 ^ 31 <= n < 2 ^ 31
  | ALongLong n => - 2 ^ 63 <= n < 2 ^ 63
  | AUnsigned n => 0 <= n < 2 ^ 32
  | AUnsignedLongLong n | ASize n => 0 <= n < 2 ^ 64
  end.
