(* ===== verification/SdsTextSpec.v ===== *)
(** * Formatting appends the text of the format

    [sdscatfmt] stores byte by byte without a NUL until the end, so between two
    stores a string is [open_sds].  [room n] says that the next [n] bytes can be
    stored: they fit, or every allocation succeeds. *)

From S2P Require Import Prelude Resp Format Hiutil Sds SdsSpec SdsText.

Section spec.
Context (alloc : Z -> option bytes).
Hypothesis Halloc : forall n b, 0 <= n -> alloc n = Some b -> zlen b = n.

Definition open_sds (v rest : bytes) : sds := mk_sds (zlen v) (zlen rest - 1) (v ++ rest).
Definition room (n : Z) (rest : bytes) : Prop := n < zlen rest - 1 \/ forall k, alloc k <> None.

(** The value so far, the position after it and [n] bytes to come. *)
Definition holds (n : Z) (v : bytes) (x : sds) (i : Z) : Prop :=
  exists rest, x = open_sds v rest /\ i = zlen v /\ 0 <= n /\ 1 <= zlen rest /\
    zlen v + zlen rest < 2 ^ 31 /\ zlen v + n + 1 < 2 ^ 30 - 1 /\ room n rest.
(** A well formed string with [n] bytes to come. *)
Definition stands (n : Z) (v : bytes) (x : sds) : Prop :=
  exists tail, x = sds_rep v tail /\ holds n v x (zlen v).

Lemma stands_wf n v x : stands n v x -> sds_wf x /\ sds_value x = v.
Proof.
  intros (tail & -> & rest & Hr & _ & _ & H1 & H2 & _). split; [|apply sds_rep_value].
  apply sds_rep_wf. unfold sds_small. injection Hr as Hl _. zlen_lia.
Qed.
Lemma rep_open v tail : sds_rep v tail = open_sds v (NUL :: tail).
Proof. unfold sds_rep, open_sds. f_equal. zlen_lia. Qed.
Lemma stands_open n v x : stands n v x -> exists tail, x = open_sds v (NUL :: tail) /\ 0 <= n /\
  zlen v + zlen tail + 1 < 2 ^ 31 /\ zlen v + n + 1 < 2 ^ 30 - 1 /\ room n (NUL :: tail).
Proof.
  intros (tail & -> & rest & Hr & _ & H0 & H1 & H2 & H3 & H4). rewrite rep_open in *. exists tail.
  injection Hr as _ Hr. apply (inj (app v)) in Hr. subst rest. split_and!; [done|done|zlen_lia|done|done].
Qed.
Lemma open_stands n v tail :
  0 <= n -> zlen v + zlen tail + 1 < 2 ^ 31 -> zlen v + n + 1 < 2 ^ 30 - 1 -> room n (NUL :: tail) ->
  stands n v (open_sds v (NUL :: tail)).
Proof. intros. exists tail. rewrite rep_open. split; [done|]. exists (NUL :: tail). split_and!; try done; zlen_lia. Qed.

(** ** One store *)

Lemma grow_room n v rest k :
  1 <= zlen rest -> zlen v + zlen rest < 2 ^ 31 -> 0 <= k -> k <= n \/ k <= 1 -> zlen v + n + 1 < 2 ^ 30 - 1 -> 0 <= n ->
  room n rest -> zlen rest - 1 < k ->
  exists new, sdsMakeRoomFor alloc (open_sds v rest) k = Ok (open_sds v (rest ++ new)) /\
    zlen v + zlen (rest ++ new) < 2 ^ 31 /\ k < zlen (rest ++ new) /\ room n (rest ++ new).
Proof.
  intros H1 H2 H3 H4 H5 H6 [Hr|Hr] Hk; [lia|].
  pose proof (sdsMakeRoomFor_open alloc Halloc v rest k H1 H2 H3 ltac:(lia)) as Hg. fold (open_sds v rest) in Hg.
  destruct (sdsMakeRoomFor _ _ _) as [x|e|]; [|by destruct Hg as [m Hm]; destruct (Hr m)|done].
  destruct Hg as (new & -> & ? & ? & _). exists new. split_and!; [done|done|done|by right].
Qed.

(** The next [t] replaces the first bytes of the rest. *)
Lemma stored n v rest t : 0 <= zlen t <= n -> zlen t < zlen rest -> zlen v + zlen rest < 2 ^ 31 ->
  zlen v + n + 1 < 2 ^ 30 - 1 -> room n rest ->
  exists rest', blit (v ++ rest) (zlen v) t = Some ((v ++ t) ++ rest') /\ zlen rest' = zlen rest - zlen t /\
    holds (n - zlen t) (v ++ t) (mk_sds (i32 (zlen v + zlen t)) (i32 (zlen rest - 1 - zlen t)) ((v ++ t) ++ rest'))
      (i32 (zlen v + zlen t)).
Proof.
  intros Ht Hr Hs Hb Hroom. destruct (store_after v t rest Hr) as (y & r & Hbl & Hz & _).
  exists (y :: r). rewrite Hbl, <- app_assoc. cbn [app]. split; [done|]. split; [zlen_lia|].
  pose proof (zlen_nonneg v). pose proof (zlen_nonneg r). rewrite !i32_small by lia. exists (y :: r). unfold open_sds.
  split_and!; [f_equal; [zlen_lia|zlen_lia|by rewrite <- app_assoc]|zlen_lia|lia|zlen_lia|zlen_lia|zlen_lia|].
  destruct Hroom as [?|?]; [left; zlen_lia|by right].
Qed.

Lemma put_bytes_spec n v x i str l : holds n v x i -> 0 <= l <= n -> l <= zlen str ->
  exists x' i', put_bytes alloc x i str l = Ok (x', i') /\ holds (n - l) (v ++ take (Z.to_nat l) str) x' i'.
Proof.
  intros (rest & -> & -> & Hn & H1 & H2 & H3 & Hroom) Hl Hstr.
  assert (zlen (take (Z.to_nat l) str) = l) as Ht by (unfold zlen in *; rewrite length_take; lia).
  assert (exists new, (if sds_free (open_sds v rest) <? l then deref (sdsMakeRoomFor alloc (open_sds v rest) (u64 l))
      else Ok (open_sds v rest)) = Ok (open_sds v (rest ++ new)) /\
    zlen v + zlen (rest ++ new) < 2 ^ 31 /\ l < zlen (rest ++ new) /\ room n (rest ++ new)) as (new & Hg & H4 & H5 & H6).
  { cbn [sds_free open_sds]. destruct (Z.ltb_spec (zlen rest - 1) l).
    - unfold u64. rewrite Z.mod_small by (pose proof (zlen_nonneg v); lia).
      destruct (grow_room n v rest l) as (new & -> & ?); [lia..|done|lia|]. by exists new.
    - exists []. rewrite app_nil_r. split_and!; [done|lia|lia|done]. }
  unfold put_bytes. rewrite Hg. cbn [outcome_bind sds_buf sds_len sds_free open_sds].
  destruct (Z.ltb_spec l 0); [lia|]. set (t := take _ _) in *.
  destruct (stored n v (rest ++ new) t) as (r & Hb & _ & Hh); [lia|lia|done|done|done|].
  rewrite Hb. cbn [access outcome_bind]. rewrite Ht in *. eauto.
Qed.

Lemma put_value n v x i str l w : l = zlen w -> w = take (Z.to_nat l) str -> holds n v x i -> l <= n -> l <= zlen str ->
  exists x' i', put_bytes alloc x i str l = Ok (x', i') /\ holds (n - zlen w) (v ++ w) x' i'.
Proof.
  intros -> E Hh Hn Hs. pose proof (zlen_nonneg w).
  destruct (put_bytes_spec n v x i str (zlen w)) as (x' & i' & E2 & Hh2); [done|lia|done|]. rewrite <- E in Hh2. eauto.
Qed.

Lemma put_char_spec n v x i c : holds (n + 1) v x i -> 0 <= n -> 1 <= sds_free x ->
  exists x' i', put_char x i c = Ok (x', i') /\ holds n (v ++ [c]) x' i'.
Proof.
  intros (rest & -> & -> & _ & H1 & H2 & H3 & Hroom) Hn Hf. cbn in Hf.
  destruct (stored (n + 1) v rest [c]) as (r & Hb & Hz & Hh); [zlen_lia|zlen_lia|done|done|done|].
  destruct rest as [|y rest]; [zlen_lia|]. unfold put_char. cbn [sds_buf sds_len sds_free open_sds]. rewrite poke_app.
  cbn [access outcome_bind]. change (zlen [c]) with 1 in *.
  pose proof (blit_app v [y] [c] rest eq_refl) as Hb2. cbn [app] in Hb2. rewrite Hb2 in Hb. injection Hb as Hb.
  rewrite Hb. replace (n + 1 - 1) with n in Hh by lia. eauto.
Qed.

Lemma put_number_spec print n v x i num t :
  (forall b, zlen b = 21 -> exists rest, print b num = Some (t ++ NUL :: rest, zlen t)) ->
  holds n v x i -> zlen t <= n ->
  exists x' i', put_number alloc print x i num = Ok (x', i') /\ holds (n - zlen t) (v ++ t) x' i'.
Proof.
  intros Hp Hh Ht. unfold put_number. destruct (Hp (repeat NUL (Z.to_nat SDS_LLSTR_SIZE)) eq_refl) as (rest & ->).
  cbn [access outcome_bind]. destruct (put_bytes_spec n v x i (t ++ NUL :: rest) (zlen t)) as (x' & i' & -> & H2);
    [done|pose proof (zlen_nonneg t); lia|zlen_lia|].
  rewrite (take_app_length' t) in H2 by (unfold zlen; lia). eauto.
Qed.
Lemma put_signed n v x i num : - 2 ^ 63 <= num < 2 ^ 63 -> holds n v x i -> zlen (dec_signed num) <= n ->
  exists x' i', put_number alloc sdsll2str x i num = Ok (x', i') /\ holds (n - zlen (dec_signed num)) (v ++ dec_signed num) x' i'.
Proof.
  intros Hn. apply put_number_spec. intros b Hb.
  destruct (sdsll2str_buffer b num Hn) as (rest & E & _); [rewrite Hb; by apply dec_signed_size|eauto].
Qed.
Lemma put_unsigned n v x i num : 0 <= num < 2 ^ 64 -> holds n v x i -> zlen (dec num) <= n ->
  exists x' i', put_number alloc sdsull2str x i num = Ok (x', i') /\ holds (n - zlen (dec num)) (v ++ dec num) x' i'.
Proof.
  intros Hn. apply put_number_spec. intros b Hb.
  destruct (sdsull2str_buffer b num Hn) as (rest & E & _); [|eauto].
  rewrite Hb. pose proof (dec_size num 20 ltac:(lia) ltac:(lia)). lia.
Qed.

(** ** The loop *)

Lemma with_args {A} (r : nullable (sds * Z)) (ap : A) n v :
  (exists x i, r = Ok (x, i) /\ holds n v x i) ->
  exists x i, (let! (x, i) := r in Ok (x, i, ap)) = Ok (x, i, ap) /\ holds n v x i.
Proof. intros (x & i & -> & Hh). by exists x, i. Qed.

Lemma fmt_conversion_spec n v x i next ap t ap' :
  conversion_text next ap = Some (t, ap') -> Forall arg_fits ap -> 1 <= sds_free x -> 0 <= n ->
  holds (zlen t + n) v x i ->
  exists x' i', fmt_conversion alloc next x i ap = Ok (x', i', ap') /\ holds n (v ++ t) x' i'.
Proof.
  intros Ht Hap Hf Hn Hh. pose proof (zlen_nonneg t). replace n with (zlen t + n - zlen t) by lia.
  unfold conversion_text in Ht. case_bool_decide as Hin.
  - destruct ap as [|a ap]; [done|]. case_bool_decide as Hl; [|done]. injection Ht as <- <-.
    apply Forall_cons in Hap as [Ha _]. subst next.
    destruct a as [w|w|z|z|z|z|z]; cbn [arg_text arg_fits] in *; apply (with_args _ ap).
    + assert (i32 (zlen w) = zlen w) as ->.
      { destruct Hh as (? & _ & _ & _ & _ & _ & Hs & _). pose proof (zlen_nonneg v). rewrite i32_small; lia. }
      apply put_value; [done| |done|lia|lia]. rewrite take_ge; [done|]. unfold zlen. lia.
    + pose proof (sds_value_zlen w Ha). apply put_value; [done|done|done|lia|].
      destruct Ha as (? & ? & _ & Hb & _). lia.
    + apply put_signed; [lia|done|lia].
    + apply put_signed; [lia|done|lia].
    + apply put_unsigned; [lia|done|lia].
    + apply put_unsigned; [lia|done|lia].
    + apply put_unsigned; [lia|done|lia].
  - injection Ht as <- <-. unfold fmt_conversion.
    repeat (rewrite bool_decide_eq_false_2; [|intros ->; apply Hin; by vm_compute; repeat constructor]).
    apply (with_args _ ap). apply put_char_spec; [|lia|done]. by replace (zlen [next] + n - zlen [next] + 1) with (zlen [next] + n) by zlen_lia.
Qed.

(** Room for one byte before every step. *)
Lemma next_room n v x i : holds n v x i ->
  exists x', (if sds_free x =? 0 then deref (sdsMakeRoomFor alloc x 1) else Ok x) = Ok x' /\ holds n v x' i /\ 1 <= sds_free x'.
Proof.
  intros (rest & -> & -> & Hn & H1 & H2 & H3 & Hroom). cbn [sds_free open_sds].
  destruct (Z.eqb_spec (zlen rest - 1) 0) as [E|E].
  - destruct (grow_room n v rest 1) as (new & -> & H4 & H5 & H6); [lia..|done|lia|].
    exists (open_sds v (rest ++ new)). split_and!; [done| |cbn; lia]. exists (rest ++ new). by split_and!; try done; lia.
  - exists (open_sds v rest). split_and!; [done| |cbn; lia]. by exists rest.
Qed.

Lemma fmt_end n v x i ap : holds n v x i -> exists y, catfmt_loop alloc [NUL] x i ap = Ok y /\ stands n v y.
Proof.
  intros (rest & -> & -> & Hn & H1 & H2 & H3 & Hroom). destruct rest as [|y rest]; [zlen_lia|].
  cbn [catfmt_loop sds_buf sds_len sds_free open_sds]. rewrite bool_decide_eq_true_2, poke_app by done. cbn [access outcome_bind].
  unfold room in *. rewrite zlen_cons in *. exists (open_sds v (NUL :: rest)).
  split; [unfold open_sds; by rewrite zlen_cons|]. apply open_stands; [lia|lia|lia|]. unfold room. by rewrite zlen_cons.
Qed.
Lemma catfmt_loop_spec k : forall f ap t n v x i,
  (length f <= k)%nat -> fmt_text f ap = Some t -> NUL ∉ f -> Forall arg_fits ap -> 0 <= n -> holds (zlen t + n) v x i ->
  exists y, catfmt_loop alloc (f ++ [NUL]) x i ap = Ok y /\ stands n (v ++ t) y.
Proof.
  induction k as [|k IH]; intros [|c f] ap t n v x i Hk Ht Hf Hap Hn Hh.
  1, 3: injection Ht as <-; rewrite app_nil_r; by apply fmt_end.
  - cbn in Hk. lia.
  - cbn [length] in Hk. apply not_elem_of_cons in Hf as [Hc Hf]. cbn [app catfmt_loop fmt_text] in *.
    rewrite bool_decide_eq_false_2 by done. destruct (next_room _ _ _ _ Hh) as (x1 & -> & Hh1 & Hf1). cbn [outcome_bind].
    case_bool_decide as Hp.
    + destruct f as [|next f]; [done|]. apply not_elem_of_cons in Hf as [Hc2 Hf]. cbn [app length] in *.
      destruct (conversion_text next ap) as [[tc ap']|] eqn:Ec; [|done]. cbn [mbind option_bind fst snd] in Ht.
      destruct (fmt_text f ap') as [t'|] eqn:Et; [|done]. cbn [mbind option_bind] in Ht. injection Ht as <-.
      destruct (fmt_conversion_spec (zlen t' + n) v x1 i next ap tc ap') as (x2 & i2 & -> & Hh2);
        [done|done|done|pose proof (zlen_nonneg t'); lia|by replace (zlen tc + (zlen t' + n)) with (zlen (tc ++ t') + n) by zlen_lia|].
      cbn [outcome_bind]. rewrite app_assoc. apply IH with (ap := ap'); [lia|done|done| |done|done].
      unfold conversion_text in Ec. repeat case_match; simplify_eq; [by apply Forall_cons in Hap as [_ ?]|done].
    + destruct (fmt_text f ap) as [t'|] eqn:Et; [|done]. cbn [mbind option_bind] in Ht. injection Ht as <-.
      destruct (put_char_spec (zlen t' + n) v x1 i c) as (x2 & i2 & -> & Hh2);
        [by replace (zlen t' + n + 1) with (zlen (c :: t') + n) by zlen_lia|pose proof (zlen_nonneg t'); lia|done|].
      cbn [outcome_bind]. replace (v ++ c :: t') with ((v ++ [c]) ++ t') by (by rewrite <- app_assoc).
      apply IH with (ap := ap); [lia|done..].
Qed.

Lemma sdscatfmt_spec f ap t n v x :
  fmt_text f ap = Some t -> NUL ∉ f -> Forall arg_fits ap -> 0 <= n -> stands (zlen t + n) v x ->
  exists y, sdscatfmt alloc x (f ++ [NUL]) ap = Ok y /\ stands n (v ++ t) y.
Proof.
  intros Ht Hf Hap Hn (tail & -> & Hh). unfold sdscatfmt. cbn [sds_len sds_rep].
  rewrite i32_small; [by eapply catfmt_loop_spec|]. destruct Hh as (rest & _ & _ & _ & ? & ? & _).
  pose proof (zlen_nonneg v). lia.
Qed.

Lemma sdscatlen_room t n v x : 0 <= n -> stands (zlen t + n) v x -> exists y, sdscatlen alloc x t = Ok y /\ stands n (v ++ t) y.
Proof.
  intros Hn Hx. pose proof (zlen_nonneg t). destruct (stands_wf _ _ _ Hx) as [Hw Hv].
  destruct (stands_open _ _ _ Hx) as (tail & -> & _ & H2 & H3 & Hroom).
  assert (exists new, sdsMakeRoomFor alloc (open_sds v (NUL :: tail)) (zlen t) = Ok (open_sds v ((NUL :: tail) ++ new)) /\
    zlen v + zlen ((NUL :: tail) ++ new) < 2 ^ 31 /\ zlen t < zlen ((NUL :: tail) ++ new) /\ room (zlen t + n) ((NUL :: tail) ++ new))
    as (new & Hg & H4 & H5 & H6).
  { destruct (Z.leb_spec (zlen t) (zlen (NUL :: tail) - 1)).
    - exists []. rewrite app_nil_r. unfold sdsMakeRoomFor. cbn [sds_free open_sds].
      destruct (Z.leb_spec (zlen t) (zlen (NUL :: tail) - 1)); [|lia]. split_and!; [done|zlen_lia|lia|done].
    - apply (grow_room (zlen t + n)); [zlen_lia|zlen_lia|lia..|done|lia]. }
  unfold sdscatlen. rewrite Hg. cbn [outcome_bind sds_buf sds_free sds_len open_sds].
  destruct (store_after v t ((NUL :: tail) ++ new) H5) as (y & rest & -> & Hz & Hp). cbn [access outcome_bind].
  rewrite Hp. cbn [access outcome_bind]. pose proof (zlen_nonneg v). pose proof (zlen_nonneg rest).
  rewrite !i32_small by lia. exists (open_sds (v ++ t) (NUL :: rest)).
  split; [unfold open_sds; do 2 f_equal; zlen_lia|]. apply open_stands; [done|zlen_lia|zlen_lia|].
  destruct H6 as [?|?]; [left; zlen_lia|by right].
Qed.

(** A string with its room, in a memory that is never exhausted. *)
Lemma plenty_stands x n : (forall k, alloc k <> None) -> sds_wf x -> 0 <= n -> sds_len x + n + 1 < 2 ^ 30 - 1 -> stands n (sds_value x) x.
Proof.
  intros Hm Hw Hn Hs. destruct (sds_wf_rep x Hw) as (tail & E & Hsm). rewrite <- sds_value_zlen in Hs by done.
  rewrite E at 2. rewrite rep_open. apply open_stands; [done|unfold sds_small in Hsm; lia|done|by right].
Qed.
End spec.

(** ** redisFormatSdsCommandArgv *)

Section command.
Context (alloc : Z -> option bytes).
Hypothesis Halloc : forall n b, 0 <= n -> alloc n = Some b -> zlen b = n.

Lemma header_text n : - 2 ^ 31 <= n < 2 ^ 31 ->
  fmt_text (s "*%i" ++ CRLF) [AInt n] = Some ("*"%char :: dec_signed n ++ CRLF) /\ Forall arg_fits [AInt n].
Proof. intros Hn. split; [reflexivity|by constructor]. Qed.
Lemma bulk_header_text a : zlen a < 2 ^ 64 ->
  fmt_text (s "$%T" ++ CRLF) [ASize (zlen a)] = Some (bulk_header a) /\ Forall arg_fits [ASize (zlen a)].
Proof. intros Hn. split; [reflexivity|constructor; [|done]]. cbn. pose proof (zlen_nonneg a). lia. Qed.

Lemma no_nul_bulk : NUL ∉ s "$%T" ++ CRLF.
Proof. by apply (bool_decide_unpack _); vm_compute. Qed.
Lemma no_nul_header : NUL ∉ s "*%i" ++ CRLF.
Proof. by apply (bool_decide_unpack _); vm_compute. Qed.

Lemma sds_args_spec args argv argvlen todo : forall done v n x,
  describes args argv argvlen -> args = done ++ todo -> 0 <= n -> stands alloc (zlen (bulks todo) + n) v x ->
  exists y, sds_args alloc argv argvlen (seq (length done) (length todo)) x = Ok y /\ stands alloc n (v ++ bulks todo) y.
Proof.
  induction todo as [|a todo IH]; intros dn v n x Hd He Hn Hx.
  { exists x. change (bulks []) with (@nil ascii) in *. by rewrite app_nil_r. }
  rewrite bulks_cons in *. cbn [length seq sds_args].
  assert (args !! length dn = Some a) as Ha by (rewrite He; by apply list_lookup_middle).
  destruct (describes_arg args argv argvlen _ a Hd Ha) as [-> ->].
  pose proof (zlen_nonneg (bulks todo)). pose proof (zlen_nonneg a).
  destruct (bulk_header_text a) as [Hb Hfit].
  { destruct (stands_open _ _ _ _ Hx) as (? & _ & _ & _ & Hs & _). pose proof (zlen_nonneg v). zlen_lia. }
  replace (zlen (bulk a ++ bulks todo) + n) with (zlen (bulk_header a) + (zlen a + (zlen CRLF + (zlen (bulks todo) + n)))) in Hx by zlen_lia.
  change (s "$%T" ++ CRLF ++ [NUL]) with ((s "$%T" ++ CRLF) ++ [NUL]).
  apply (sdscatfmt_spec alloc Halloc _ _ _ _ v x Hb no_nul_bulk Hfit) in Hx as (x1 & -> & H1); [|rewrite zlen_CRLF; lia].
  cbn [outcome_bind]. apply (sdscatlen_room alloc Halloc) in H1 as (x2 & -> & H2); [|rewrite zlen_CRLF; lia].
  cbn [deref outcome_bind]. apply (sdscatlen_room alloc Halloc) in H2 as (x3 & -> & H3); [|lia]. cbn [deref outcome_bind].
  destruct (IH (dn ++ [a]) _ n x3 Hd ltac:(by rewrite <- app_assoc) Hn H3) as (y & Ey & Hy).
  rewrite length_app, Nat.add_comm in Ey. cbn [length plus] in Ey. exists y. split; [done|].
  unfold bulk. by rewrite <- !app_assoc in *.
Qed.

Lemma sdsempty_free x : sdsempty alloc = Ok x -> sds_free x = 0.
Proof.
  unfold sdsempty, sdsnewlen, malloc. destruct (alloc _); [|done]. cbn [outcome_bind]. case_match; [done|].
  destruct (blit _ _ _); [|done]. cbn [access outcome_bind]. destruct (poke _ _ _); [|done]. by intros [= <-].
Qed.
(** Memory is only needed for the empty string and for the room of the whole. *)
Lemma sds_room_spec n : 1 <= n -> n + 1 < 2 ^ 30 - 1 ->
  match (let! x := sdsempty alloc in sdsMakeRoomFor alloc x n) with
  | Ok x => stands alloc n [] x
  | Err _ => exists k, alloc k = None
  | Bad => False
  end.
Proof.
  intros Hn Hs. pose proof (sdsempty_spec alloc Halloc) as He. pose proof sdsempty_free as Hf.
  destruct (sdsempty alloc) as [x|e|]; [|exact He|exact He]. specialize (Hf x eq_refl). destruct He as [Hw Hv].
  destruct (sds_wf_rep x Hw) as (tail & E & Hsm). rewrite Hv in *. subst x. cbn [sds_free sds_rep] in Hf. cbn [outcome_bind].
  destruct tail; [|zlen_lia]. rewrite rep_open.
  pose proof (sdsMakeRoomFor_open alloc Halloc [] [NUL] n ltac:(done) ltac:(done) ltac:(lia) ltac:(zlen_lia)) as Hg. unfold open_sds.
  destruct (sdsMakeRoomFor _ _ _) as [x|e|]; [|done|done]. destruct Hg as (new & -> & H1 & H2 & H3).
  cbn [app] in *. change (zlen [NUL]) with 1 in *. change (zlen []) with 0 in *. rewrite zlen_cons in *.
  pose proof (open_stands alloc n [] new) as Hst. unfold open_sds in Hst. rewrite zlen_cons in Hst. apply Hst;
    change (zlen []) with 0; [lia|lia|lia|]. left. rewrite zlen_cons. lia.
Qed.

Lemma sds_command_spec args argv argvlen :
  describes args argv argvlen -> zlen (request args) + 1 < 2 ^ 30 - 1 ->
  match sds_command alloc (zlen args) argv argvlen with
  | Ok (x, n) => sds_wf x /\ sds_value x = request args /\ n = zlen (request args)
  | Err _ => exists k, alloc k = None
  | Bad => False
  end.
Proof.
  intros Hd Hs. destruct (format_header args ltac:(lia)) as (Hh & Hc & Hn & Hhl). unfold sds_command. rewrite Hc, Hn.
  pose proof (zlen_nonneg (bulks args)). pose proof (zlen_bulks_ge args). pose proof (zlen_nonneg args).
  assert (zlen (request args) = zlen (request_header (zlen args)) + zlen (bulks args)) as Hrl by (unfold request; by rewrite zlen_app).
  assert (3 <= zlen (request_header (zlen args))) by (pose proof (zlen_nonneg (dec (zlen args))); rewrite zlen_request_header; lia).
  rewrite (totlen_sum u64 (2 ^ 64) args argv argvlen args) with (done := []);
    [| |lia|intros a; apply request_args_small; lia|done|done|unfold u64; rewrite Z.mod_small; lia|unfold u64; rewrite Z.mod_small; lia].
  2:{ intros m ?. unfold u64. by apply Z.mod_small. }
  assert (u64 (zlen (request_header (zlen args))) = zlen (request_header (zlen args))) as -> by (unfold u64; rewrite Z.mod_small; lia).
  rewrite <- Hrl. pose proof (sds_room_spec (zlen (request args)) ltac:(lia) Hs) as Hx.
  destruct (sdsempty alloc) as [x0|e|]; [|exact Hx|exact Hx]. cbn [outcome_bind] in *.
  destruct (sdsMakeRoomFor alloc x0 _) as [x|e|]; [|exact Hx|exact Hx]. cbn [outcome_bind].
  rewrite Hrl in Hx. rewrite <- Hh in Hx at 1. destruct (header_text (zlen args)) as [Ht Hfit]; [lia|].
  replace (zlen ("*"%char :: dec_signed (zlen args) ++ CRLF) + zlen (bulks args))
    with (zlen ("*"%char :: dec_signed (zlen args) ++ CRLF) + (zlen (bulks args) + 0)) in Hx by lia.
  apply (sdscatfmt_spec alloc Halloc _ _ _ _ [] x Ht no_nul_header Hfit) in Hx as (x1 & E1 & Hx1); [|lia].
  change (s "*%i" ++ CRLF ++ [NUL]) with ((s "*%i" ++ CRLF) ++ [NUL]). rewrite E1. cbn [outcome_bind].
  destruct (sds_args_spec args argv argvlen args [] _ 0 x1 Hd eq_refl ltac:(lia) Hx1) as (y & Ey & Hy).
  cbn [length] in Ey. rewrite Ey. cbn [outcome_bind]. rewrite app_nil_l, Hh in Hy. fold (request args) in Hy.
  destruct (stands_wf _ _ _ _ Hy) as [Hw Hv]. rewrite <- sds_value_zlen, Hv, Z.eqb_refl by done.
  rewrite i32_small by lia. done.
Qed.
End command.

(** ** Integers and case *)

Lemma digits_down_dec f : forall v pre room suf,
  0 <= v < 10 ^ Z.of_nat f -> (1 <= f)%nat -> zlen room = zlen (dec v) ->
  digits_down f (pre ++ room ++ suf) (zlen pre + zlen room - 1) v = Some (pre ++ dec v ++ suf, zlen pre - 1).
Proof.
  induction f as [|f IH]; intros v pre room suf Hv Hf Hr; [lia|]. rewrite Nat2Z.inj_succ, Z.pow_succ_r in Hv by lia.
  pose proof (dec_length v ltac:(lia)). assert (room <> []) as Hne by (intros ->; zlen_lia).
  destruct (exists_last Hne) as (room' & x & ->). rewrite zlen_app, zlen_singleton in *.
  cbn [digits_down]. rewrite <- app_assoc. cbn [app].
  replace (zlen pre + (zlen room' + 1) - 1) with (zlen (pre ++ room')) by zlen_lia.
  rewrite app_assoc, poke_app. cbn [mbind option_bind]. change (chr (48 + v mod 10)) with (digit (v mod 10)).
  rewrite <- app_assoc. destruct (decide (v < 10)).
  - rewrite Z.div_small, Z.mod_small by lia. rewrite dec_small in * by lia. cbn [Z.eqb].
    assert (room' = []) as -> by (destruct room'; [done|change (zlen [digit v]) with 1 in Hr; zlen_lia]). by rewrite app_nil_r.
  - assert (0 < v / 10) by (apply Z.div_str_pos; lia). destruct (Z.eqb_spec (v / 10) 0); [lia|].
    rewrite dec_step in * by lia. rewrite zlen_app. rewrite IH; [by rewrite <- !app_assoc| | |zlen_lia].
    + split; [lia|]. apply Z.div_lt_upper_bound; lia.
    + destruct f; [|lia]. change (10 ^ Z.of_nat 0) with 1 in *. lia.
Qed.

Lemma sdsfromlonglong_spec alloc v : (forall n b, 0 <= n -> alloc n = Some b -> zlen b = n) ->
  - 2 ^ 63 <= v < 2 ^ 63 -> implements alloc (sdsfromlonglong alloc v) (dec_signed v).
Proof.
  intros Halloc Hv. unfold sdsfromlonglong, dec_signed.
  set (m := if v <? 0 then - v else v). assert (0 <= m < 10 ^ 19) as Hm by (unfold m; destruct (Z.ltb_spec v 0); lia).
  assert ((if v <? 0 then u64 (i64 (- v)) else v) = m) as ->.
  { unfold m. destruct (Z.ltb_spec v 0); [|done]. unfold u64, i64. destruct (decide (v = - 2 ^ 63)) as [->|]; [done|].
    rewrite (Z.mod_small (- v + 2 ^ 63)) by lia. rewrite Z.mod_small; lia. }
  pose proof (dec_size m 19 ltac:(lia) Hm) as Hd. destruct (dec_length m ltac:(lia)) as (Hd1 & _).
  destruct (split_block (repeat NUL 32) (31 - zlen (dec m))) as (pre & r & Hpre & Hzp); [change (zlen (repeat NUL 32)) with 32; lia|].
  assert (zlen r = zlen (dec m) + 1) as Hzr by (apply (f_equal zlen) in Hpre; rewrite zlen_app in Hpre; change (zlen (repeat NUL 32)) with 32 in Hpre; lia).
  destruct r as [|y room]; [zlen_lia|]. rewrite zlen_cons in Hzr. change (y :: room) with ([y] ++ room) in Hpre.
  rewrite Hpre. replace (pre ++ [y] ++ room) with ((pre ++ [y]) ++ room ++ []) by (rewrite app_nil_r, <- app_assoc; done).
  replace 31 with (zlen (pre ++ [y]) + zlen room - 1) by zlen_lia.
  rewrite digits_down_dec by (lia || done). cbn [access outcome_bind]. rewrite app_nil_r, <- app_assoc. cbn [app].
  destruct (Z.ltb_spec v 0) as [Hneg|Hpos]; cbn [outcome_bind].
  - replace (zlen (pre ++ [y]) - 1) with (zlen pre) by zlen_lia. rewrite poke_app. cbn [access outcome_bind].
    replace (Z.to_nat (zlen pre - 1 + 1)) with (length pre) by (unfold zlen; lia). rewrite drop_app_length.
    pose proof (sdsnewlen_spec alloc Halloc ("-"%char :: dec m) (32 - (zlen pre - 1 + 1))) as Hs. fold m.
    rewrite take_ge in Hs by (unfold zlen in *; cbn; lia). apply Hs; zlen_lia.
  - replace (Z.to_nat (zlen (pre ++ [y]) - 1 + 1)) with (length (pre ++ [y])) by (unfold zlen; lia).
    replace (pre ++ y :: dec m) with ((pre ++ [y]) ++ dec m) by (by rewrite <- app_assoc). rewrite drop_app_length.
    pose proof (sdsnewlen_spec alloc Halloc (dec m) (32 - (zlen (pre ++ [y]) - 1 + 1))) as Hs.
    replace (dec v) with (dec m) by (unfold m; by destruct (Z.ltb_spec v 0); [lia|]).
    rewrite take_ge in Hs by (unfold zlen in *; rewrite length_app in *; cbn in *; lia). apply Hs; zlen_lia.
Qed.

Lemma map_value_spec f x : sds_wf x -> sds_wf (map_value f x) /\ sds_value (map_value f x) = map f (sds_value x).
Proof.
  intros Hw. destruct (sds_wf_rep x Hw) as (tail & E & Hs). set (v := sds_value x) in *. clearbody v. subst x.
  assert (map_value f (sds_rep v tail) = sds_rep (map f v) tail) as ->.
  { unfold map_value. rewrite sds_rep_value. cbn [sds_len sds_free sds_buf sds_rep]. unfold sds_rep, zlen.
    by rewrite Nat2Z.id, drop_app_length, length_map. }
  rewrite sds_rep_value. split; [|done]. apply sds_rep_wf. unfold sds_small, zlen in *. by rewrite length_map.
Qed.

(** In a memory that is never exhausted [sdscatfmt] appends the text of its format. *)
Lemma sdscatfmt_yields alloc x f ap t :
  (forall n b, 0 <= n -> alloc n = Some b -> zlen b = n) -> (forall k, alloc k <> None) ->
  sds_wf x -> NUL ∉ f -> Forall arg_fits ap -> fmt_text f ap = Some t -> sds_len x + zlen t + 1 < 2 ^ 30 - 1 ->
  yields (sdscatfmt alloc x (f ++ [NUL]) ap) (sds_value x ++ t).
Proof.
  intros Ha Hm Hw Hf Hap Ht Hs. pose proof (zlen_nonneg t).
  destruct (sdscatfmt_spec alloc Ha f ap t 0 (sds_value x) x) as (y & Ey & Hy);
    [done|done|done|lia|apply plenty_stands; try done; lia|].
  exists y. split; [exact Ey|by eapply stands_wf].
Qed.

(** The addresses of nodes, and a format that ends with a lone per cent sign: the
    loop steps over the NUL and reads on. *)
Example fmt_address :
  (let! x := sdsnew plenty (Some (s "10.0.0.1")) in
   let! x := sdscatfmt plenty x (s ":%i" ++ [NUL]) [AInt 7000] in Ok (sds_value x)) = Ok (s "10.0.0.1:7000").
Proof. vm_compute. reflexivity. Qed.
Example fmt_lone_percent :
  (let! x := sdsnew plenty (Some (s "50")) in sdscatfmt plenty x (s "%" ++ [NUL]) []) = Bad.
Proof. vm_compute. reflexivity. Qed.
(** Without memory the NULL of [sdsMakeRoomFor] is used. *)
Example fmt_no_memory :
  (let! x := sdsnew plenty (Some (s "a")) in sdscatfmt (fun _ => None) x (s "b" ++ [NUL]) []) = Bad.
Proof. vm_compute. reflexivity. Qed.

(** C31: the formatter of sds commands implements its model on byte strings.  With
    the headers and blocks of sds.c, [sdscatfmt] and all, it computes what
    [redisFormatSdsCommandArgv] of [Format] says: the request of its arguments, its
    length, and -1 when memory is exhausted; every store is inside the blocks, no
    allocation that is not tested can fail and the assertion at the end holds. *)
Theorem sds_command_refines alloc args argv argvlen :
  (forall n b, 0 <= n -> alloc n = Some b -> zlen b = n) ->
  describes args argv argvlen -> zlen (request args) + 1 < 2 ^ 30 - 1 ->
  match sds_command alloc (zlen args) argv argvlen with
  | Ok (x, n) => sds_wf x /\ sds_value x = request args /\
      redisFormatSdsCommandArgv (fun _ => true) (zlen args) argv argvlen = FmtOk (sds_value x) n
  | Err _ => (exists k, alloc k = None) /\
      redisFormatSdsCommandArgv (fun _ => false) (zlen args) argv argvlen = FmtError (-1)
  | Bad => False
  end.
Proof.
  intros Ha Hd Hs. pose proof (sds_command_spec alloc Ha args argv argvlen Hd Hs) as Hc.
  destruct (sds_command _ _ _ _) as [[x n]|e|]; [|by split|done].
  destruct Hc as (Hw & Hv & ->). split_and!; [done|done|]. rewrite Hv.
  apply redisFormatSdsCommandArgv_correct; [done|lia|done].
Qed.

Lemma sds_command_refines_witness :
  match sds_command plenty 2 [s "GET"; s "k"] None with
  | Ok (x, n) => sds_wf x /\ sds_value x = request [s "GET"; s "k"] /\
      redisFormatSdsCommandArgv (fun _ => true) 2 [s "GET"; s "k"] None = FmtOk (sds_value x) n
  | Err _ => (exists k, plenty k = None) /\
      redisFormatSdsCommandArgv (fun _ => false) 2 [s "GET"; s "k"] None = FmtError (-1)
  | Bad => False
  end.
Proof.
  apply (sds_command_refines plenty [s "GET"; s "k"]); [exact plenty_size|reflexivity|by vm_compute].
Defined.
