(* ===== verification/Dict.v ===== *)
(** * dict.c: the chained hash table

    [table] is the array of buckets; a bucket is the list of its entries, the
    first one the last added.  [size], [sizemask] and [used] are the fields of
    [struct dict].  The type of a dictionary ([dictType]: hash function and key
    comparison) is the class [DictType].  Allocations succeed: the code does
    not test them.  An index outside the table and the failed [assert] of
    [dictExpand] are [None]. *)

From S2P Require Import Prelude.

Definition DICT_OK : Z := 0.
Definition DICT_ERR : Z := 1.
Definition DICT_HT_INITIAL_SIZE : Z := 4.
Definition LONG_MAX : Z := 2 ^ 63 - 1.

(** [dictType]. *)
Class DictType (K : Type) := {
  hashFunction : K -> Z;
  keyCompare : K -> K -> bool
}.

(** What the table relies on. *)
Class DictTypeLaws (K : Type) `{DictType K} := {
  hash_range k : 0 <= hashFunction k < 2 ^ 32;
  compare_eq k k' : keyCompare k k' = true <-> k = k'
}.

(** [dictGenHashFunction]: [hash * 33 + c], in an [unsigned int]. *)
Fixpoint gen_hash (buf : bytes) (hash : Z) : Z :=
  match buf with
  | [] => hash
  | c :: buf' => gen_hash buf' (u32 (u32 (u32 (Z.shiftl hash 5) + hash) + code c))
  end.
Definition dictGenHashFunction (buf : bytes) : Z := gen_hash buf 5381.

(** The dictionaries with sds keys, of hircluster.c and async.c. *)
Definition dictSdsHash (key : bytes) : Z := dictGenHashFunction key.
Definition dictSdsKeyCompare (key1 key2 : bytes) : bool :=
  (zlen key1 =? zlen key2) && bool_decide (key1 = key2).

#[global] Instance clusterNodesDictType : DictType bytes :=
  {| hashFunction := dictSdsHash; keyCompare := dictSdsKeyCompare |}.

Section dict.
Context {K V : Type} `{DictType K}.

Abbreviation entry := (K * V)%type.

Record dict := mk_dict {
  table : list (list entry);
  size : Z;
  sizemask : Z;
  used : Z
}.
Implicit Types (ht : dict) (t : list (list entry)) (he : list entry).

(** [dictCreate], [_dictInit] and [_dictReset]. *)
Definition dictCreate : dict := mk_dict [] 0 0 0.

Fixpoint next_power (fuel : nat) (i size : Z) : Z :=
  match fuel with
  | O => i
  | S fuel' => if size <=? i then i else next_power fuel' (u64 (i * 2)) size
  end.
Definition _dictNextPower (size : Z) : Z :=
  if LONG_MAX <=? size then LONG_MAX else next_power 64 DICT_HT_INITIAL_SIZE size.

(** [dictHashKey(ht, key) & ht->sizemask], in an [unsigned int]. *)
Definition bucket_of (mask : Z) (k : K) : Z := u32 (Z.land (hashFunction k) mask).

Definition bucket t (h : Z) : option (list entry) := t !! Z.to_nat h.

(** [he->next = n.table[h]; n.table[h] = he;] *)
Definition push_front t (h : Z) (e : entry) : option (list (list entry)) :=
  he ← bucket t h; Some (<[Z.to_nat h := e :: he]> t).

(** [while(he)] of [dictExpand]. *)
Fixpoint move_chain (mask : Z) he t (used : Z) : option (list (list entry) * Z) :=
  match he with
  | [] => Some (t, used)
  | e :: he' =>
      t ← push_front t (bucket_of mask e.1) e; move_chain mask he' t (used - 1)
  end.
(** [for (i = 0; i < ht->size && ht->used > 0; i++)] of [dictExpand]. *)
Fixpoint move_buckets (mask : Z) (old : list (list entry)) t (used : Z)
  : option (list (list entry) * Z) :=
  match old with
  | [] => Some (t, used)
  | he :: old' =>
      if 0 <? used
      then r ← move_chain mask he t used; move_buckets mask old' r.1 r.2
      else Some (t, used)
  end.

Definition dictExpand ht (newsize : Z) : option (Z * dict) :=
  let realsize := _dictNextPower newsize in
  if newsize <? used ht then Some (DICT_ERR, ht) else
  let n := mk_dict (replicate (Z.to_nat realsize) []) realsize (realsize - 1) (used ht) in
  r ← move_buckets (sizemask n) (table ht) (table n) (used ht);
  if r.2 =? 0 then Some (DICT_OK, mk_dict r.1 (size n) (sizemask n) (used n)) else None.

Definition _dictExpandIfNeeded ht : option (Z * dict) :=
  if size ht =? 0 then dictExpand ht DICT_HT_INITIAL_SIZE
  else if used ht =? size ht then dictExpand ht (u64 (size ht * 2))
  else Some (DICT_OK, ht).

(** [while(he) { if (dictCompareHashKeys(...)) return he; ... }] *)
Fixpoint find_chain (key : K) he : option entry :=
  match he with
  | [] => None
  | e :: he' => if keyCompare key e.1 then Some e else find_chain key he'
  end.

(** [_dictKeyIndex]: the bucket for a new key, -1 for a key that is there. *)
Definition _dictKeyIndex ht (key : K) : option (Z * dict) :=
  r ← _dictExpandIfNeeded ht;
  let '(ret, ht) := r : Z * dict in
  if ret =? DICT_ERR then Some (-1, ht) else
  let h := bucket_of (sizemask ht) key in
  he ← bucket (table ht) h;
  Some (if find_chain key he is Some _ then -1 else i32 h, ht).

Definition dictAdd ht (key : K) (val : V) : option (Z * dict) :=
  r ← _dictKeyIndex ht key;
  let '(index, ht) := r : Z * dict in
  if index =? -1 then Some (DICT_ERR, ht) else
  t ← push_front (table ht) index (key, val);
  Some (DICT_OK, mk_dict t (size ht) (sizemask ht) (used ht + 1)).

(** [dictFind]: the entry; the outer [None] is an access outside the table. *)
Definition dictFind ht (key : K) : option (option entry) :=
  if size ht =? 0 then Some None else
  he ← bucket (table ht) (bucket_of (sizemask ht) key);
  Some (find_chain key he).

(** [dictSetHashVal] on the entry that [dictFind] returned. *)
Fixpoint set_chain (key : K) (val : V) he : list entry :=
  match he with
  | [] => []
  | e :: he' => if keyCompare key e.1 then (e.1, val) :: he' else e :: set_chain key val he'
  end.

Definition dictReplace ht (key : K) (val : V) : option (Z * dict) :=
  r ← dictAdd ht key val;
  let '(ret, ht) := r : Z * dict in
  if ret =? DICT_OK then Some (1, ht) else
  let h := bucket_of (sizemask ht) key in
  he ← bucket (table ht) h;
  _ ← find_chain key he;
  Some (0, mk_dict (<[Z.to_nat h := set_chain key val he]> (table ht))
             (size ht) (sizemask ht) (used ht)).

(** The loop of [dictDelete]: the chain without the first entry of the key. *)
Fixpoint unlink_chain (key : K) he : option (list entry) :=
  match he with
  | [] => None
  | e :: he' => if keyCompare key e.1 then Some he' else cons e <$> unlink_chain key he'
  end.

Definition dictDelete ht (key : K) : option (Z * dict) :=
  if size ht =? 0 then Some (DICT_ERR, ht) else
  let h := bucket_of (sizemask ht) key in
  he ← bucket (table ht) h;
  match unlink_chain key he with
  | Some he' => Some (DICT_OK, mk_dict (<[Z.to_nat h := he']> (table ht))
                        (size ht) (sizemask ht) (used ht - 1))
  | None => Some (DICT_ERR, ht)
  end.

(** [_dictClear]. *)
Definition _dictClear (ht : dict) : Z * dict := (DICT_OK, dictCreate).

(** An iterator: [index], and when [entry] is not NULL the chain behind it,
    which [nextEntry] points to. *)
Record dictIterator := mk_iter { index : Z; nextEntry : option (list entry) }.
Definition dictGetIterator : dictIterator := mk_iter (-1) None.

(** [dictNext]; the fuel is one for each bucket left and one more. *)
Fixpoint next_entry (fuel : nat) ht (iter : dictIterator) : option (option entry * dictIterator) :=
  match fuel with
  | O => None
  | S fuel' =>
      match nextEntry iter with
      | Some (e :: he) => Some (Some e, mk_iter (index iter) (Some he))
      | Some [] => next_entry fuel' ht (mk_iter (index iter) None)
      | None =>
          let index := index iter + 1 in
          if i32 (size ht) <=? index then Some (None, mk_iter index None) else
          he ← bucket (table ht) index;
          match he with
          | e :: he' => Some (Some e, mk_iter index (Some he'))
          | [] => next_entry fuel' ht (mk_iter index None)
          end
      end
  end.
Definition dictNext ht (iter : dictIterator) : option (option entry * dictIterator) :=
  next_entry (length (table ht) + 2) ht iter.
End dict.

Arguments dict : clear implicits.
Arguments dictIterator : clear implicits.
