(* ===== verification/DictSpec.v ===== *)
(** * The hash table implements a finite map

    [dict_map] is the map a dictionary stands for and [dict_wf] its invariant:
    the size is a power of two, every entry is in the bucket of its hash, no
    key is there twice and the counter is right.  The operations of [Dict]
    keep the invariant and act on the map as their names say. *)

From S2P Require Import Prelude Dict.

Section spec.
Context {K V : Type} `{Countable K} `{Hlaws : DictTypeLaws K}.
Implicit Types (ht : dict K V) (t : list (list (K * V))) (he : list (K * V)).

Definition entries ht : list (K * V) := concat (table ht).
Definition dict_map ht : gmap K V := list_to_map (entries ht).

Definition placed (mask : Z) t : Prop :=
  forall i he, t !! i = Some he -> Forall (fun e => bucket_of mask e.1 = Z.of_nat i) he.

(** Sizes a table can have: none yet, or a power of two that an [int] index
    can address. *)
Definition size_ok ht : Prop :=
  (size ht = 0 /\ sizemask ht = 0) \/
  (exists n, 2 <= n <= 31 /\ size ht = 2 ^ n /\ sizemask ht = 2 ^ n - 1).

Definition dict_wf ht : Prop :=
  zlen (table ht) = size ht /\ size_ok ht /\ used ht = zlen (entries ht) /\
  used ht <= size ht /\ placed (sizemask ht) (table ht) /\ NoDup (entries ht).*1.

(** ** Buckets *)

Lemma bucket_of_mod n k : 0 <= n <= 32 -> bucket_of (2 ^ n - 1) k = hashFunction k mod 2 ^ n.
Proof.
  intros Hn. unfold bucket_of. replace (2 ^ n - 1) with (Z.ones n) by (rewrite Z.ones_equiv; lia).
  rewrite Z.land_ones by lia. apply u32_small.
  pose proof (Z.mod_pos_bound (hashFunction k) (2 ^ n) ltac:(lia)).
  pose proof (Z.pow_le_mono_r 2 n 32 ltac:(lia) ltac:(lia)). lia.
Qed.

Lemma bucket_of_range n k : 0 <= n <= 32 -> 0 <= bucket_of (2 ^ n - 1) k < 2 ^ n.
Proof. intros Hn. rewrite bucket_of_mod by done. apply Z.mod_pos_bound. lia. Qed.

(** The bucket of a key is in the table. *)
Lemma bucket_is_Some t n k :
  0 <= n <= 32 -> zlen t = 2 ^ n -> exists he, bucket t (bucket_of (2 ^ n - 1) k) = Some he.
Proof.
  intros Hn Ht. pose proof (bucket_of_range n k Hn). unfold bucket.
  apply lookup_lt_is_Some. unfold zlen in Ht. lia.
Qed.

Lemma find_chain_Some key he e : find_chain key he = Some e -> e ∈ he /\ e.1 = key.
Proof.
  induction he as [|e' he IH]; cbn [find_chain]; [done|].
  destruct (keyCompare key e'.1) eqn:E; intros Hf.
  - injection Hf as ->. apply compare_eq in E. split; [left|done].
  - destruct (IH Hf). split; [by right|done].
Qed.

Lemma find_chain_None key he : find_chain key he = None -> key ∉ he.*1.
Proof.
  induction he as [|e he IH]; cbn [find_chain fmap list_fmap]; [intros _; apply not_elem_of_nil|].
  destruct (keyCompare key e.1) eqn:E; [done|]. intros Hf.
  rewrite elem_of_cons. intros [Hk|Hk]; [|by apply IH].
  assert (keyCompare key e.1 = true) by by apply compare_eq. congruence.
Qed.

(** The chain of a bucket sits between what is before and behind it. *)
Lemma concat_bucket t i he :
  t !! i = Some he ->
  exists a b, concat t = a ++ he ++ b /\ forall he', concat (<[i := he']> t) = a ++ he' ++ b.
Proof.
  intros Hi. pose proof (lookup_lt_Some _ _ _ Hi).
  exists (concat (take i t)), (concat (drop (S i) t)). split.
  - rewrite <- (take_drop_middle t i he Hi) at 1. by rewrite concat_app.
  - intros he'. rewrite insert_take_drop by done. by rewrite concat_app.
Qed.

Lemma placed_insert mask t i he :
  placed mask t -> Forall (fun e => bucket_of mask e.1 = Z.of_nat i) he ->
  placed mask (<[i := he]> t).
Proof.
  intros Hp Hf j he' Hj. destruct (decide (i = j)) as [<-|].
  - apply list_lookup_insert_Some in Hj as [(_ & -> & _)|[? _]]; done.
  - rewrite list_lookup_insert_ne in Hj by done. by apply (Hp j).
Qed.

(** An entry of the table is in the bucket of its key. *)
Lemma entry_in_bucket mask t i k he v :
  placed mask t -> t !! i = Some he -> bucket_of mask k = Z.of_nat i ->
  (k, v) ∈ concat t -> (k, v) ∈ he.
Proof.
  intros Hp Hi Hb Hin. apply list_elem_of_In, in_concat in Hin as (he' & Hhe' & Hin').
  apply list_elem_of_In, list_elem_of_lookup in Hhe' as [j Hj].
  pose proof (Hp j he' Hj) as Hf. rewrite Forall_forall in Hf.
  apply list_elem_of_In in Hin'. specialize (Hf _ Hin'). cbn in Hf.
  assert (i = j) as <- by lia. by simplify_eq.
Qed.

(** Searching the bucket of a key finds what the map holds. *)
Lemma find_chain_map mask t i he k :
  placed mask t -> NoDup (concat t).*1 -> t !! i = Some he ->
  bucket_of mask k = Z.of_nat i ->
  find_chain k he = (k,.) <$> (list_to_map (concat t) : gmap K V) !! k.
Proof.
  intros Hp Hnd Hi Hb. destruct (find_chain k he) as [[k' v]|] eqn:E.
  - apply find_chain_Some in E as [Hin Hk]. cbn in Hk. subst k'.
    replace ((list_to_map (concat t) : gmap K V) !! k) with (Some v); [done|].
    symmetry. apply elem_of_list_to_map; [done|].
    destruct (concat_bucket t i he Hi) as (a & b & -> & _).
    rewrite !elem_of_app. auto.
  - apply find_chain_None in E.
    destruct ((list_to_map (concat t) : gmap K V) !! k) as [v|] eqn:El; [|done].
    apply elem_of_list_to_map in El; [|done].
    destruct E. apply (list_elem_of_fmap_2 fst _ (k, v)).
    by apply (entry_in_bucket mask t i).
Qed.

(** ** Adding an entry to a table *)

(** [t] has [2 ^ n] buckets, its entries in their places. *)
Definition table_ok (n : Z) t : Prop := zlen t = 2 ^ n /\ placed (2 ^ n - 1) t.

Lemma push_front_spec n t e :
  0 <= n <= 32 -> table_ok n t ->
  exists t', push_front t (bucket_of (2 ^ n - 1) e.1) e = Some t' /\ table_ok n t' /\
    concat t' ≡ₚ e :: concat t.
Proof.
  intros Hn [Hl Hp]. destruct (bucket_is_Some t n e.1 Hn Hl) as [he Hhe].
  unfold push_front. rewrite Hhe. cbn [mbind option_bind]. eexists. split; [done|].
  pose proof (bucket_of_range n e.1 Hn) as Hb. split; [split|].
  - unfold zlen in *. by rewrite length_insert.
  - apply placed_insert; [done|]. constructor; [lia|]. by apply Hp.
  - destruct (concat_bucket t _ he Hhe) as (a & b & -> & ->).
    symmetry. apply Permutation_middle.
Qed.

Lemma move_chain_spec n he : forall t used,
  0 <= n <= 32 -> table_ok n t ->
  exists t', move_chain (2 ^ n - 1) he t used = Some (t', used - zlen he) /\ table_ok n t' /\
    concat t' ≡ₚ he ++ concat t.
Proof.
  induction he as [|e he IH]; intros t used Hn Ht; cbn [move_chain].
  { exists t. rewrite zlen_nil, Z.sub_0_r. done. }
  destruct (push_front_spec n t e Hn Ht) as (t1 & -> & Ht1 & Hc1). cbn [mbind option_bind].
  destruct (IH t1 (used - 1) Hn Ht1) as (t2 & -> & Ht2 & Hc2).
  exists t2. rewrite zlen_cons. split; [do 2 f_equal; lia|]. split; [done|].
  rewrite Hc2, Hc1. symmetry. apply Permutation_middle.
Qed.

Lemma move_buckets_spec n old : forall t,
  0 <= n <= 32 -> table_ok n t ->
  exists t', move_buckets (2 ^ n - 1) old t (zlen (concat old)) = Some (t', 0) /\ table_ok n t' /\
    concat t' ≡ₚ concat old ++ concat t.
Proof.
  induction old as [|he old IH]; intros t Hn Ht; cbn [move_buckets concat]; [by exists t|].
  destruct (Z.ltb_spec 0 (zlen (he ++ concat old))) as [Hpos|Hz].
  - destruct (move_chain_spec n he t (zlen (he ++ concat old)) Hn Ht) as (t1 & -> & Ht1 & Hc1).
    cbn [mbind option_bind fst snd]. rewrite zlen_app, Z.add_simpl_l.
    destruct (IH t1 Hn Ht1) as (t2 & -> & Ht2 & Hc2). exists t2. split_and!; try done.
    rewrite Hc2, Hc1. rewrite !app_assoc. by rewrite (Permutation_app_comm he).
  - assert (he ++ concat old = []) as Hnil by (destruct (he ++ concat old); [done|zlen_lia]).
    rewrite Hnil. by exists t.
Qed.

Lemma next_power_spec fuel : forall a n,
  0 <= a <= n -> n <= 62 -> n - a < Z.of_nat fuel -> next_power fuel (2 ^ a) (2 ^ n) = 2 ^ n.
Proof.
  induction fuel as [|fuel IH]; intros a n Ha Hn Hf; [lia|]. cbn [next_power].
  destruct (Z.leb_spec (2 ^ n) (2 ^ a)) as [Hle|Hlt].
  - apply Z.pow_le_mono_r_iff in Hle; try lia. by replace a with n by lia.
  - apply Z.pow_lt_mono_r_iff in Hlt; try lia.
    replace (2 ^ a * 2) with (2 ^ (a + 1)) by (rewrite Z.pow_add_r by lia; lia).
    unfold u64. rewrite Z.mod_small; [apply IH; lia|].
    split; [lia|]. apply Z.pow_lt_mono_r; lia.
Qed.

Lemma dictNextPower_pow n : 2 <= n <= 62 -> _dictNextPower (2 ^ n) = 2 ^ n.
Proof.
  intros Hn. unfold _dictNextPower, LONG_MAX.
  pose proof (Z.pow_le_mono_r 2 n 62 ltac:(lia) ltac:(lia)).
  destruct (Z.leb_spec (2 ^ 63 - 1) (2 ^ n)); [lia|].
  apply (next_power_spec 64 2 n); lia.
Qed.

(** ** Growing *)

Lemma placed_replicate mask m : placed mask (replicate m []).
Proof. intros i he Hi. apply lookup_replicate in Hi as [-> _]. constructor. Qed.

Lemma concat_replicate_nil {A} m : concat (replicate m (@nil A)) = [].
Proof. by induction m. Qed.

Lemma pow_31 n : n <= 31 -> 0 <= n -> 0 < 2 ^ n <= 2 ^ 31.
Proof. intros. split; [lia|]. by apply Z.pow_le_mono_r. Qed.

(** The same map in another table. *)
Definition same_entries ht ht' : Prop := entries ht' ≡ₚ entries ht.

#[local] Instance same_entries_equiv : Equivalence same_entries.
Proof.
  split; unfold same_entries; intros ?.
  - done.
  - by intros ? ->.
  - by intros ? ? H1 ->.
Qed.

(** Two tables with the same entries stand for the same map. *)
Lemma same_entries_map ht ht' : dict_wf ht -> same_entries ht ht' -> dict_map ht' = dict_map ht.
Proof.
  intros (_ & _ & _ & _ & _ & Hnd) Hs. unfold dict_map, same_entries in *.
  symmetry. by apply list_to_map_proper.
Qed.

Lemma dictExpand_spec ht n :
  dict_wf ht -> 2 <= n <= 31 -> used ht <= 2 ^ n ->
  exists ht', dictExpand ht (2 ^ n) = Some (DICT_OK, ht') /\ dict_wf ht' /\
    same_entries ht ht' /\ size ht' = 2 ^ n.
Proof.
  intros (Hl & Hs & Hu & Hle & Hp & Hnd) Hn Hun. unfold dictExpand.
  destruct (Z.ltb_spec (2 ^ n) (used ht)); [lia|].
  rewrite dictNextPower_pow by lia. cbn [sizemask table size used].
  pose proof (pow_31 n ltac:(lia) ltac:(lia)) as H31.
  destruct (move_buckets_spec n (table ht) (replicate (Z.to_nat (2 ^ n)) [])) as (t & Hm & Ht & Hc).
  { lia. }
  { split; [|apply placed_replicate]. unfold zlen. rewrite length_replicate. lia. }
  rewrite Hu. unfold entries. rewrite Hm. cbn [mbind option_bind fst snd Z.eqb].
  rewrite concat_replicate_nil, app_nil_r in Hc.
  eexists. split; [done|]. unfold dict_wf, size_ok, same_entries, entries in *.
  cbn [table size sizemask used]. destruct Ht as [Ht1 Ht2].
  split_and!; try done.
  - right. by exists n.
  - unfold zlen. by rewrite Hc.
  - lia.
  - by rewrite Hc.
Qed.

Lemma expand_if_needed_spec ht :
  dict_wf ht -> used ht < 2 ^ 31 ->
  exists ht' n, _dictExpandIfNeeded ht = Some (DICT_OK, ht') /\ dict_wf ht' /\
    same_entries ht ht' /\ 2 <= n <= 31 /\ size ht' = 2 ^ n /\ sizemask ht' = 2 ^ n - 1 /\
    used ht' < size ht'.
Proof.
  intros Hwf Hu. pose proof Hwf as (Hl & Hs & Hue & Hle & Hp & Hnd).
  assert (forall ht' n, dict_wf ht' -> size ht' = 2 ^ n -> 2 <= n <= 31 -> sizemask ht' = 2 ^ n - 1)
    as Hmask.
  { intros ht' n (_ & [[Hx1 _]|(m & Hm & Hx1 & Hx2)] & _) Hx3 Hn'.
    - pose proof (pow_31 n ltac:(lia) ltac:(lia)). lia.
    - by rewrite Hx2, <- Hx1, Hx3. }
  unfold _dictExpandIfNeeded.
  destruct Hs as [[Hs0 _]|(n & Hn & Hsn & _)].
  - rewrite Hs0. cbn [Z.eqb].
    destruct (dictExpand_spec ht 2 Hwf) as (ht' & He1 & He2 & He3 & He4); [lia..|].
    exists ht', 2. split_and!; try done; try lia.
    + by apply Hmask.
    + destruct He2 as (_ & _ & -> & _). unfold same_entries in He3. unfold zlen.
      rewrite He3. unfold zlen in Hue. lia.
  - pose proof (pow_31 n ltac:(lia) ltac:(lia)).
    destruct (Z.eqb_spec (size ht) 0); [lia|].
    destruct (Z.eqb_spec (used ht) (size ht)) as [E|E].
    + assert (n < 31) as Hn31 by (apply (Z.pow_lt_mono_r_iff 2); lia).
      assert (u64 (size ht * 2) = 2 ^ (n + 1)) as ->.
      { rewrite Hsn, Z.pow_add_r by lia. unfold u64. apply Z.mod_small. lia. }
      destruct (dictExpand_spec ht (n + 1) Hwf) as (ht' & He1 & He2 & He3 & He4).
      { lia. }
      { rewrite Z.pow_add_r by lia. lia. }
      exists ht', (n + 1). split_and!; try done; try lia.
      * apply Hmask; [done|done|lia].
      * rewrite He4. destruct He2 as (_ & _ & -> & _). unfold same_entries in He3. unfold zlen.
        rewrite He3. unfold zlen in Hue. rewrite Z.pow_add_r by lia. lia.
    + exists ht, n. split_and!; try done; try lia; by apply Hmask.
Qed.

(** ** The operations on the map *)

(** The bucket that an operation on [key] works on. *)
Lemma wf_bucket ht key :
  dict_wf ht -> size ht <> 0 ->
  exists n he, 2 <= n <= 31 /\ sizemask ht = 2 ^ n - 1 /\
    0 <= bucket_of (sizemask ht) key < 2 ^ n /\
    table ht !! Z.to_nat (bucket_of (sizemask ht) key) = Some he /\
    find_chain key he = (key,.) <$> dict_map ht !! key.
Proof.
  intros (Hl & [[Hs _]|(n & Hn & Hs & Hm)] & _ & _ & Hp & Hnd) Hnz; [done|].
  rewrite Hm in *. rewrite Hs in Hl.
  pose proof (bucket_of_range n key ltac:(lia)) as Hb.
  destruct (bucket_is_Some (table ht) n key ltac:(lia) Hl) as [he Hhe].
  exists n, he. split_and!; try done; try lia.
  apply (find_chain_map (2 ^ n - 1) _ (Z.to_nat (bucket_of (2 ^ n - 1) key))); try done. lia.
Qed.

Lemma empty_map ht : dict_wf ht -> size ht = 0 -> dict_map ht = ∅.
Proof.
  intros (Hl & _ & _) Hs. unfold dict_map, entries.
  assert (table ht = []) as -> by (destruct (table ht); [done|zlen_lia]). done.
Qed.

Lemma dictFind_spec ht key :
  dict_wf ht -> dictFind ht key = Some ((key,.) <$> dict_map ht !! key).
Proof.
  intros Hwf. unfold dictFind. destruct (Z.eqb_spec (size ht) 0) as [E|E].
  - by rewrite empty_map, lookup_empty.
  - destruct (wf_bucket ht key Hwf E) as (n & he & _ & _ & _ & Hhe & Hf).
    unfold bucket. rewrite Hhe. cbn [mbind option_bind]. by rewrite Hf.
Qed.

Lemma dictAdd_spec ht key val :
  dict_wf ht -> used ht < 2 ^ 31 ->
  exists ht', dict_wf ht' /\
    match dict_map ht !! key with
    | None => dictAdd ht key val = Some (DICT_OK, ht') /\ dict_map ht' = <[key := val]> (dict_map ht)
    | Some _ => dictAdd ht key val = Some (DICT_ERR, ht') /\ dict_map ht' = dict_map ht /\
                size ht' <> 0
    end.
Proof.
  intros Hwf Hu.
  destruct (expand_if_needed_spec ht Hwf Hu) as (ht1 & n & He & Hwf1 & Hs1 & Hn & Hsz & Hmk & Hu1).
  pose proof (pow_31 n ltac:(lia) ltac:(lia)) as H31.
  destruct (wf_bucket ht1 key Hwf1 ltac:(lia)) as (n' & he & _ & _ & Hb & Hhe & Hf).
  rewrite Hmk in *. pose proof (bucket_of_range n key ltac:(lia)) as Hbr.
  rewrite <- (same_entries_map ht ht1 Hwf Hs1).
  unfold dictAdd, _dictKeyIndex. rewrite He. cbn [mbind option_bind Z.eqb DICT_OK DICT_ERR].
  unfold bucket. rewrite Hmk, Hhe. cbn [mbind option_bind]. rewrite Hf.
  destruct (dict_map ht1 !! key) as [v|] eqn:El; cbn [fmap option_fmap option_map].
  { exists ht1. split_and!; try done. lia. }
  rewrite i32_small by lia. destruct (Z.eqb_spec (bucket_of (2 ^ n - 1) key) (-1)); [lia|].
  destruct Hwf1 as (Hl1 & Hso1 & Hue1 & Hle1 & Hp1 & Hnd1).
  destruct (push_front_spec n (table ht1) (key, val)) as (t & Ht & [Htl Htp] & Hc).
  { lia. }
  { split; [lia|]. by rewrite <- Hmk. }
  cbn [fst] in Ht. rewrite Ht. cbn [mbind option_bind].
  assert (NoDup ((key, val) :: entries ht1).*1) as Hnd.
  { cbn. constructor; [|done]. by apply not_elem_of_list_to_map. }
  eexists. split; [|split; [done|]].
  - unfold dict_wf, size_ok, entries. cbn [table size sizemask used].
    split_and!; try lia.
    + done.
    + rewrite Hue1. unfold zlen, entries. rewrite Hc. cbn [length]. lia.
    + by rewrite Hmk.
    + by rewrite Hc.
  - unfold dict_map, entries. cbn [table]. rewrite <- list_to_map_cons. symmetry.
    by apply list_to_map_proper.
Qed.

(** The entry that a search finds, and what the loops make of its chain. *)
Lemma find_chain_split key he e :
  find_chain key he = Some e ->
  exists l1 l2, he = l1 ++ e :: l2 /\
    (forall val, set_chain key val he = l1 ++ (key, val) :: l2) /\
    unlink_chain key he = Some (l1 ++ l2).
Proof.
  induction he as [|e' he IH]; cbn [find_chain set_chain unlink_chain]; [done|].
  destruct (keyCompare key e'.1) eqn:E; intros Hf.
  - injection Hf as ->. apply compare_eq in E. exists [], he. split_and!; try done.
    intros val. by rewrite E.
  - destruct (IH Hf) as (l1 & l2 & -> & Hs & ->). exists (e' :: l1), l2. split_and!; try done.
    intros val. by rewrite Hs.
Qed.

Lemma unlink_chain_None key he : find_chain key he = None -> unlink_chain key he = None.
Proof.
  induction he as [|e he IH]; cbn [find_chain unlink_chain]; [done|].
  destruct (keyCompare key e.1); [done|]. intros Hf. by rewrite IH.
Qed.

Lemma find_key_entry key he v : find_chain key he = Some v -> v.1 = key.
Proof. intros Hf. by apply find_chain_Some in Hf as [_ ?]. Qed.

(** The table around one entry. *)
Lemma table_around ht key n he v :
  dict_wf ht -> sizemask ht = 2 ^ n - 1 -> 2 <= n <= 31 ->
  0 <= bucket_of (sizemask ht) key < 2 ^ n ->
  table ht !! Z.to_nat (bucket_of (sizemask ht) key) = Some he ->
  find_chain key he = Some (key, v) ->
  exists rest l1 l2, entries ht ≡ₚ (key, v) :: rest /\ he = l1 ++ (key, v) :: l2 /\
    (forall val, set_chain key val he = l1 ++ (key, val) :: l2) /\
    unlink_chain key he = Some (l1 ++ l2) /\
    (forall l, concat (<[Z.to_nat (bucket_of (sizemask ht) key) := l1 ++ l ++ l2]> (table ht))
       ≡ₚ l ++ rest) /\
    (forall l, Forall (fun e => e.1 = key) l ->
       placed (sizemask ht)
         (<[Z.to_nat (bucket_of (sizemask ht) key) := l1 ++ l ++ l2]> (table ht))).
Proof.
  intros (Hl & Hso & Hue & Hle & Hp & Hnd) Hmk Hn Hb Hhe Hf.
  destruct (find_chain_split key he _ Hf) as (l1 & l2 & -> & Hset & Hun).
  destruct (concat_bucket _ _ _ Hhe) as (a & b & Hab & Hins).
  exists (a ++ l1 ++ l2 ++ b), l1, l2. split_and!; try done.
  - unfold entries. rewrite Hab. rewrite <- !app_assoc. cbn [app]. by solve_Permutation.
  - intros l. rewrite Hins. rewrite <- !app_assoc. by solve_Permutation.
  - intros l Hf'. apply placed_insert; [done|].
    pose proof (Hp _ _ Hhe) as Hall. apply Forall_app in Hall as [H1 H2].
    apply Forall_cons in H2 as [_ H2]. apply Forall_app. split; [done|].
    apply Forall_app. split; [|done]. eapply Forall_impl; [exact Hf'|].
    intros e ->. lia.
Qed.

(** A dictionary with one chain changed around the entry of [key]. *)
Definition with_chain ht key (he : list (K * V)) (n : Z) : dict K V :=
  mk_dict (<[Z.to_nat (bucket_of (sizemask ht) key) := he]> (table ht))
    (size ht) (sizemask ht) n.

Lemma with_chain_wf ht key he n l :
  dict_wf ht ->
  placed (sizemask ht) (<[Z.to_nat (bucket_of (sizemask ht) key) := he]> (table ht)) ->
  entries (with_chain ht key he n) ≡ₚ l -> n = zlen l -> n <= size ht -> NoDup l.*1 ->
  dict_wf (with_chain ht key he n) /\ dict_map (with_chain ht key he n) = list_to_map l.
Proof.
  intros (Hl & Hso & Hue & Hle & Hp & Hnd) Hpl Hent Hn Hns Hndl.
  assert (NoDup (entries (with_chain ht key he n)).*1) as Hnd' by by rewrite Hent.
  split; [|by apply list_to_map_proper].
  unfold dict_wf. split_and!; cbn [table size sizemask used with_chain]; try done.
  - unfold zlen in *. by rewrite length_insert.
  - rewrite Hn. unfold zlen. by rewrite Hent.
Qed.

Lemma dictReplace_spec ht key val :
  dict_wf ht -> used ht < 2 ^ 31 ->
  exists ret ht', dictReplace ht key val = Some (ret, ht') /\ dict_wf ht' /\
    dict_map ht' = <[key := val]> (dict_map ht) /\
    ret = if dict_map ht !! key is Some _ then 0 else 1.
Proof.
  intros Hwf Hu. destruct (dictAdd_spec ht key val Hwf Hu) as (ht1 & Hwf1 & Hadd).
  unfold dictReplace. destruct (dict_map ht !! key) as [v0|] eqn:El.
  - destruct Hadd as (-> & Hmap & Hsz). cbn [mbind option_bind DICT_ERR DICT_OK Z.eqb].
    destruct (wf_bucket ht1 key Hwf1 Hsz) as (n & he & Hn & Hmk & Hb & Hhe & Hf).
    rewrite Hmap, El in Hf. cbn in Hf.
    unfold bucket. rewrite Hhe. cbn [mbind option_bind]. rewrite Hf. cbn [mbind option_bind].
    destruct (table_around ht1 key n he v0 Hwf1 Hmk Hn Hb Hhe Hf)
      as (rest & l1 & l2 & Hent & -> & Hset & _ & Hins & Hpl).
    rewrite Hset. change (l1 ++ (key, val) :: l2) with (l1 ++ [(key, val)] ++ l2).
    pose proof Hwf1 as (_ & _ & Hue1 & Hle1 & _ & Hnd1). rewrite Hent in Hnd1. cbn in Hnd1.
    destruct (with_chain_wf ht1 key (l1 ++ [(key, val)] ++ l2) (used ht1) ((key, val) :: rest))
      as [Hw Hm]; try done.
    { apply Hpl. by constructor. }
    { apply Hins. }
    { rewrite Hue1. unfold zlen. by rewrite Hent. }
    do 2 eexists. split; [done|]. split_and!; [done| |done].
    unfold with_chain in Hm. rewrite Hm. rewrite <- Hmap. unfold dict_map.
    rewrite (list_to_map_proper (entries ht1) ((key, v0) :: rest)); [|by rewrite Hent|done].
    by rewrite !list_to_map_cons, insert_insert_eq.
  - destruct Hadd as (-> & Hmap). cbn [mbind option_bind DICT_OK Z.eqb].
    exists 1, ht1. done.
Qed.

Lemma dictDelete_spec ht key :
  dict_wf ht ->
  exists ht', dict_wf ht' /\ dict_map ht' = delete key (dict_map ht) /\
    dictDelete ht key =
      Some (if dict_map ht !! key is Some _ then DICT_OK else DICT_ERR, ht').
Proof.
  intros Hwf. unfold dictDelete. destruct (Z.eqb_spec (size ht) 0) as [E|E].
  { exists ht. rewrite (empty_map ht Hwf E), lookup_empty. by rewrite delete_empty. }
  destruct (wf_bucket ht key Hwf E) as (n & he & Hn & Hmk & Hb & Hhe & Hf).
  unfold bucket. rewrite Hhe. cbn [mbind option_bind].
  destruct (dict_map ht !! key) as [v0|] eqn:El; cbn [fmap option_fmap option_map] in Hf.
  - destruct (table_around ht key n he v0 Hwf Hmk Hn Hb Hhe Hf)
      as (rest & l1 & l2 & Hent & -> & _ & Hun & Hins & Hpl).
    rewrite Hun. pose proof Hwf as (_ & _ & Hue & Hle & _ & Hnd).
    rewrite Hent in Hnd. cbn in Hnd. apply NoDup_cons in Hnd as [Hk Hnd].
    assert (used ht = 1 + zlen rest) as Hur.
    { rewrite Hue. unfold zlen. rewrite Hent. cbn [length]. lia. }
    destruct (with_chain_wf ht key (l1 ++ l2) (used ht - 1) rest) as [Hw Hm]; try done; try lia.
    { apply (Hpl []). constructor. }
    { apply (Hins []). }
    exists (with_chain ht key (l1 ++ l2) (used ht - 1)). split_and!; [done| |done].
    rewrite Hm. unfold dict_map.
    rewrite (list_to_map_proper (entries ht) ((key, v0) :: rest)); [| |done].
    2:{ rewrite Hent. cbn. by constructor. }
    rewrite list_to_map_cons, delete_insert_id; [done|]. by apply not_elem_of_list_to_map.
  - rewrite unlink_chain_None by done. exists ht. by rewrite delete_id.
Qed.

(** ** Iteration *)

(** What an iterator still has to return. *)
Definition remaining ht (iter : dictIterator K V) : list (K * V) :=
  default [] (nextEntry iter) ++ concat (drop (Z.to_nat (index iter + 1)) (table ht)).

(** [nextEntry] points into the chain of the current bucket. *)
Definition iter_ok ht (iter : dictIterator K V) : Prop :=
  -1 <= index iter /\
  forall he, nextEntry iter = Some he ->
    0 <= index iter /\ exists pre, table ht !! Z.to_nat (index iter) = Some (pre ++ he).

Lemma iter_ok_fresh ht i : -1 <= i -> iter_ok ht (mk_iter i None).
Proof. intros Hi. by split. Qed.

(** Where an iterator stands after it returned [e]. *)
Definition just_returned ht (iter : dictIterator K V) (e : K * V) : Prop :=
  exists pre he, nextEntry iter = Some he /\ 0 <= index iter /\
    table ht !! Z.to_nat (index iter) = Some (pre ++ e :: he).

Lemma just_returned_ok ht i he pre e :
  0 <= i -> table ht !! Z.to_nat i = Some (pre ++ e :: he) ->
  iter_ok ht (mk_iter i (Some he)) /\ just_returned ht (mk_iter i (Some he)) e.
Proof.
  intros Hi Hh. split.
  - split; [cbn; lia|]. intros he' [= <-]. split; [done|]. exists (pre ++ [e]).
    by rewrite <- app_assoc.
  - by exists pre, he.
Qed.

Lemma next_entry_spec ht fuel : forall iter,
  zlen (table ht) = size ht -> size ht < 2 ^ 31 -> iter_ok ht iter ->
  zlen (table ht) - index iter + (if nextEntry iter is Some _ then 1 else 0) <= Z.of_nat fuel ->
  (1 <= fuel)%nat ->
  exists iter', next_entry fuel ht iter = Some (head (remaining ht iter), iter') /\
    iter_ok ht iter' /\ remaining ht iter' = tail (remaining ht iter) /\
    (forall e, head (remaining ht iter) = Some e -> just_returned ht iter' e).
Proof.
  induction fuel as [|fuel IH]; intros iter Hl Hs [Hi Hne] Hf Hf1; [lia|]. cbn [next_entry].
  destruct iter as [i ne]. unfold remaining in *. cbn [index nextEntry] in *.
  pose proof (zlen_nonneg (table ht)) as Hpos.
  assert (forall h, table ht !! Z.to_nat i = Some h -> i < zlen (table ht)) as Hlt.
  { intros h Hh%lookup_lt_Some. unfold zlen. lia. }
  destruct ne as [[|e he]|]; cbn [default from_option Datatypes.id app head tail].
  - destruct (Hne [] eq_refl) as (Hi0 & pre & Hpre%Hlt).
    apply (IH (mk_iter i None)); try done; cbn; try lia.
  - destruct (Hne _ eq_refl) as (Hi0 & pre & Hpre).
    destruct (just_returned_ok ht i he pre e Hi0 Hpre) as [Hok Hj].
    eexists. split; [done|]. split; [done|]. split; [done|]. by intros e' [= <-].
  - rewrite i32_small by lia. destruct (Z.leb_spec (size ht) (i + 1)) as [Hend|Hin].
    + exists (mk_iter (i + 1) None). cbn [index nextEntry default from_option Datatypes.id app].
      rewrite !drop_ge by (unfold zlen in *; lia). split_and!; try done.
      apply iter_ok_fresh. lia.
    + destruct (lookup_lt_is_Some_2 (table ht) (Z.to_nat (i + 1))) as [h Hh];
        [unfold zlen in *; lia|].
      unfold bucket. rewrite Hh. cbn [mbind option_bind].
      rewrite (drop_S _ _ _ Hh). cbn [concat].
      replace (S (Z.to_nat (i + 1))) with (Z.to_nat (i + 1 + 1)) by lia.
      destruct h as [|e h].
      * apply (IH (mk_iter (i + 1) None)); try done; cbn; try lia. apply iter_ok_fresh. lia.
      * destruct (just_returned_ok ht (i + 1) h [] e ltac:(lia) Hh) as [Hok Hj].
        eexists. split; [done|]. split; [done|]. split; [done|]. by intros e' [= <-].
Qed.

Lemma dictNext_spec ht iter :
  zlen (table ht) = size ht -> size ht < 2 ^ 31 -> iter_ok ht iter ->
  exists iter', dictNext ht iter = Some (head (remaining ht iter), iter') /\
    iter_ok ht iter' /\ remaining ht iter' = tail (remaining ht iter) /\
    (forall e, head (remaining ht iter) = Some e -> just_returned ht iter' e).
Proof.
  intros Hl Hs Hok. apply next_entry_spec; try done; [|lia].
  destruct Hok as [Hi _]. unfold zlen. destruct (nextEntry iter); lia.
Qed.

(** The loop [while ((de = dictNext(di)) != NULL)]. *)
Fixpoint iterate (fuel : nat) ht (iter : dictIterator K V) : option (list (K * V)) :=
  match fuel with
  | O => None
  | S fuel' =>
      r ← dictNext ht iter;
      match r with
      | (Some e, iter') => cons e <$> iterate fuel' ht iter'
      | (None, _) => Some []
      end
  end.

Lemma iterate_remaining ht fuel : forall iter,
  zlen (table ht) = size ht -> size ht < 2 ^ 31 -> iter_ok ht iter ->
  (length (remaining ht iter) < fuel)%nat ->
  iterate fuel ht iter = Some (remaining ht iter).
Proof.
  induction fuel as [|fuel IH]; intros iter Hl Hs Hok Hf; [lia|]. cbn [iterate].
  destruct (dictNext_spec ht iter Hl Hs Hok) as (it' & Hn & Hok' & Hr & _). rewrite Hn. cbn [mbind option_bind].
  destruct (remaining ht iter) as [|e l] eqn:E; cbn [head tail] in *; [done|].
  rewrite IH; try done; rewrite Hr; [done|cbn in Hf; lia].
Qed.

(** The table is at most twice as large as it must be when nothing was ever
    deleted. *)
Definition dense ht : Prop := size ht <= Z.max 4 (2 * used ht).

Lemma dense_create : dense (dictCreate : dict K V).
Proof. unfold dense. cbn. lia. Qed.

Lemma dictExpand_size ht n ret ht' :
  2 <= n <= 62 -> dictExpand ht (2 ^ n) = Some (ret, ht') -> size ht' <= Z.max (2 ^ n) (size ht).
Proof.
  intros Hn. unfold dictExpand. destruct (_ <? _); [intros [= <- <-]; lia|].
  cbn [sizemask table size]. destruct (move_buckets _ _ _ _) as [[t u]|]; [|done]. cbn [mbind option_bind fst snd].
  destruct (u =? 0); [|done]. intros [= <- <-]. cbn [size]. rewrite dictNextPower_pow by done. lia.
Qed.

Lemma dictAdd_dense ht key val ret ht' :
  dict_wf ht -> dense ht -> used ht < 2 ^ 30 -> dictAdd ht key val = Some (ret, ht') ->
  size ht' <= Z.max 4 (2 * used ht) /\ used ht' <= used ht + 1 /\ (ret = DICT_OK -> used ht' = used ht + 1).
Proof.
  intros Hwf Hd Hu.
  destruct (expand_if_needed_spec ht Hwf ltac:(lia)) as (ht1 & n & He & Hwf1 & Hs & Hn & Hsz & _ & _).
  assert (used ht1 = used ht) as Hu1.
  { unfold same_entries in Hs. pose proof Hwf as (_ & _ & -> & _). destruct Hwf1 as (_ & _ & -> & _).
    unfold zlen. by rewrite Hs. }
  assert (size ht1 <= Z.max 4 (2 * used ht)) as Hs1.
  { unfold dense in Hd. unfold _dictExpandIfNeeded in He. revert He.
    destruct (Z.eqb_spec (size ht) 0) as [Hz|Hz].
    { intros He. apply (dictExpand_size ht 2) in He; [|lia]. change (2 ^ 2) with 4 in He. lia. }
    destruct (Z.eqb_spec (used ht) (size ht)) as [Heq|Hne]; [|intros [= <-]; lia].
    pose proof Hwf as (_ & [[? _]|(k & Hk & Hk2 & _)] & _); [lia|].
    rewrite Hk2. replace (u64 (2 ^ k * 2)) with (2 ^ (k + 1)).
    2:{ rewrite Z.pow_add_r by lia. unfold u64. rewrite Z.mod_small; [lia|].
        pose proof (Z.pow_le_mono_r 2 k 31 ltac:(lia) ltac:(lia)). lia. }
    intros He. apply dictExpand_size in He; [|lia]. rewrite Z.pow_add_r in He by lia. lia. }
  unfold dictAdd, _dictKeyIndex. rewrite He. cbn [mbind option_bind].
  replace (DICT_OK =? DICT_ERR) with false by done.
  destruct (bucket _ _) as [he|]; [|done]. cbn [mbind option_bind].
  destruct (_ =? -1); [intros [= <- <-]; split_and!; [done|lia|done]|].
  destruct (push_front _ _ _) as [t|]; [|done]. cbn [mbind option_bind].
  intros [= <- <-]. cbn [size used]. split_and!; [done|lia|lia].
Qed.

Lemma wf_create : dict_wf (dictCreate : dict K V).
Proof.
  unfold dict_wf, size_ok, dictCreate, entries. cbn. split_and!; try done; try lia.
  by left.
Qed.

(** *** Membership

    Whatever state the table is in, nothing comes out of it that was not put
    in. *)

Lemma bucket_elem t h he x : bucket t h = Some he -> x ∈ he -> x ∈ concat t.
Proof.
  intros Hb Hx. apply list_elem_of_In, in_concat. exists he.
  split; [|by apply list_elem_of_In]. apply list_elem_of_In. by eapply list_elem_of_lookup_2.
Qed.

Lemma update_elem t i he x : x ∈ concat (<[i := he]> t) -> x ∈ he \/ x ∈ concat t.
Proof.
  intros Hx. apply list_elem_of_In, in_concat in Hx as (he' & Hh & Hx). apply list_elem_of_In in Hh, Hx.
  apply list_elem_of_lookup in Hh as [j Hj]. apply list_lookup_insert_Some in Hj as [(_ & -> & _)|[_ Hj]]; [by left|].
  right. apply list_elem_of_In, in_concat. exists he'. split; apply list_elem_of_In; [|done].
  by eapply list_elem_of_lookup_2.
Qed.

Lemma push_front_elem t h e t' x : push_front t h e = Some t' -> x ∈ concat t' -> x = e \/ x ∈ concat t.
Proof.
  unfold push_front. destruct (bucket t h) as [he|] eqn:E; [|done]. intros [= <-] Hx.
  apply update_elem in Hx as [Hx|Hx]; [|by right].
  apply elem_of_cons in Hx as [->|Hx]; [by left|right; by eapply bucket_elem].
Qed.

Lemma move_chain_elem mask he x : forall t u r,
  move_chain mask he t u = Some r -> x ∈ concat r.1 -> x ∈ he \/ x ∈ concat t.
Proof.
  induction he as [|e he IH]; intros t u r; cbn [move_chain]; [intros [= <-]; by right|].
  destruct (push_front _ _ _) as [t1|] eqn:E; [|done]. cbn [mbind option_bind]. intros Hm Hx.
  destruct (IH _ _ _ Hm Hx) as [Hin|Hin]; [left; by right|].
  apply (push_front_elem _ _ _ _ _ E) in Hin as [->|Hin]; [left; left|by right].
Qed.

Lemma move_buckets_elem mask old x : forall t u r,
  move_buckets mask old t u = Some r -> x ∈ concat r.1 -> x ∈ concat old \/ x ∈ concat t.
Proof.
  induction old as [|he old IH]; intros t u r; cbn [move_buckets concat]; [intros [= <-]; by right|].
  destruct (0 <? u); [|intros [= <-]; by right].
  destruct (move_chain _ _ _ _) as [r1|] eqn:E; [|done]. cbn [mbind option_bind]. intros Hm Hx.
  rewrite elem_of_app. destruct (IH _ _ _ Hm Hx) as [Hin|Hin]; [tauto|].
  apply (move_chain_elem _ _ _ _ _ _ E) in Hin. tauto.
Qed.

Lemma dictExpand_elem ht n r x : dictExpand ht n = Some r -> x ∈ entries r.2 -> x ∈ entries ht.
Proof.
  unfold dictExpand. destruct (_ <? _); [by intros [= <-]|].
  destruct (move_buckets _ _ _ _) as [r1|] eqn:E; [|done]. cbn [mbind option_bind].
  destruct (_ =? 0); [|done]. intros [= <-] Hx.
  apply (move_buckets_elem _ _ _ _ _ _ E) in Hx as [Hx|Hx]; [done|].
  cbn [table] in Hx. by rewrite concat_replicate_nil in Hx; apply elem_of_nil in Hx.
Qed.

Lemma expand_if_needed_elem ht r x : _dictExpandIfNeeded ht = Some r -> x ∈ entries r.2 -> x ∈ entries ht.
Proof.
  unfold _dictExpandIfNeeded. repeat case_match; try apply dictExpand_elem. by intros [= <-].
Qed.

Lemma dictAdd_elem ht key val r x :
  dictAdd ht key val = Some r -> x ∈ entries r.2 -> x = (key, val) \/ x ∈ entries ht.
Proof.
  unfold dictAdd, _dictKeyIndex.
  destruct (_dictExpandIfNeeded ht) as [[ret ht1]|] eqn:Ee; [|done]. cbn [mbind option_bind].
  pose proof (fun y => expand_if_needed_elem ht (ret, ht1) y Ee) as Hsub. cbn [snd] in Hsub.
  destruct (ret =? DICT_ERR); [intros [= <-] Hx; right; by apply Hsub|].
  destruct (bucket _ _) as [he|]; [|done]. cbn [mbind option_bind].
  destruct (_ =? -1); [intros [= <-] Hx; right; by apply Hsub|].
  destruct (push_front _ _ _) as [t|] eqn:E; [|done]. cbn [mbind option_bind]. intros [= <-] Hx.
  apply (push_front_elem _ _ _ _ _ E) in Hx as [->|Hx]; [by left|]. right. by apply Hsub.
Qed.

Lemma dictFind_elem ht key e : dictFind ht key = Some (Some e) -> e ∈ entries ht.
Proof.
  unfold dictFind. destruct (size ht =? 0); [done|]. destruct (bucket _ _) as [he|] eqn:E; [|done].
  cbn [mbind option_bind]. intros [= Hf]. apply find_chain_Some in Hf as [Hf _]. by eapply bucket_elem.
Qed.

(** An iterator that only has entries of the table before it. *)
Definition iter_within ht (iter : dictIterator K V) : Prop :=
  forall he e, nextEntry iter = Some he -> e ∈ he -> e ∈ entries ht.

Lemma next_entry_elem ht fuel : forall iter r iter',
  iter_within ht iter -> next_entry fuel ht iter = Some (r, iter') ->
  (forall e, r = Some e -> e ∈ entries ht) /\ iter_within ht iter'.
Proof.
  induction fuel as [|fuel IH]; intros [i ne] r iter' Hi; cbn [next_entry index nextEntry]; [done|].
  unfold iter_within in Hi. cbn [nextEntry] in Hi. destruct ne as [[|e he]|].
  - apply IH. by intros he e.
  - intros [= <- <-]. split; [intros e' [= <-]; apply (Hi _ _ eq_refl); left|].
    intros he' e' [= <-] He'. apply (Hi _ _ eq_refl). by right.
  - destruct (_ <=? _); [intros [= <- <-]; split; [done|by intros he e]|].
    destruct (bucket _ _) as [he|] eqn:E; [|done]. cbn [mbind option_bind].
    destruct he as [|e he]; [apply IH; by intros he e|]. intros [= <- <-]. split.
    + intros e' [= <-]. eapply bucket_elem; [exact E|left].
    + intros he' e' [= <-] He'. eapply bucket_elem; [exact E|by right].
Qed.

Lemma dictNext_elem ht iter r iter' :
  iter_within ht iter -> dictNext ht iter = Some (r, iter') ->
  (forall e, r = Some e -> e ∈ entries ht) /\ iter_within ht iter'.
Proof. apply next_entry_elem. Qed.

(** The counter is the number of keys of the map. *)
Lemma used_size ht : dict_wf ht -> used ht = Z.of_nat (base.size (dict_map ht)).
Proof.
  intros (_ & _ & -> & _ & _ & Hnd). unfold dict_map, zlen.
  rewrite <- length_map_to_list. by rewrite (map_to_list_to_map (M := gmap K)).
Qed.

(** Deleting the entry an iterator has just returned: the iterator stays valid
    and has the same entries to return. *)
Lemma unlink_chain_middle pre e he :
  e.1 ∉ pre.*1 -> unlink_chain e.1 (pre ++ e :: he) = Some (pre ++ he).
Proof.
  induction pre as [|e' pre IH]; intros Hni; cbn [unlink_chain app].
  - by rewrite (proj2 (compare_eq e.1 e.1)).
  - cbn in Hni. apply not_elem_of_cons in Hni as [Hne Hni].
    destruct (keyCompare e.1 e'.1) eqn:E; [by apply compare_eq in E|]. by rewrite IH.
Qed.

Lemma delete_returned ht iter e :
  dict_wf ht -> just_returned ht iter e ->
  exists ht', dictDelete ht e.1 = Some (DICT_OK, ht') /\
    remaining ht' iter = remaining ht iter /\ size ht' = size ht /\
    zlen (table ht') = size ht /\ iter_ok ht' iter.
Proof.
  intros (Hl & Hso & Hue & Hle & Hp & Hnd) (pre & he & Hne & Hi & Hhe).
  pose proof (lookup_lt_Some _ _ _ Hhe) as Hlt.
  pose proof (Hp _ _ Hhe) as Hb. apply Forall_app in Hb as [_ Hb].
  apply Forall_cons in Hb as [Hb _].
  assert (e.1 ∉ pre.*1) as Hpre.
  { destruct (concat_bucket _ _ _ Hhe) as (a & b & Hab & _). unfold entries in Hnd.
    rewrite Hab, !fmap_app in Hnd. apply NoDup_app in Hnd as (_ & _ & Hnd).
    apply NoDup_app in Hnd as (Hnd & _). rewrite fmap_cons in Hnd.
    apply NoDup_app in Hnd as (_ & Hd & _). intros Hin. apply (Hd _ Hin). left. }
  unfold dictDelete. destruct (Z.eqb_spec (size ht) 0); [unfold zlen in Hl; lia|].
  unfold bucket. rewrite Hb, Nat2Z.id, Hhe. cbn [mbind option_bind].
  rewrite unlink_chain_middle by done.
  eexists. split; [done|]. unfold remaining. cbn [table size]. rewrite Hne.
  cbn [default from_option Datatypes.id]. split_and!; [|done| |split].
  - by rewrite drop_insert_lt by lia.
  - unfold zlen in *. by rewrite length_insert.
  - lia.
  - intros he' Hhe'. rewrite Hne in Hhe'. injection Hhe' as <-. split; [done|]. exists pre.
    cbn [table]. by rewrite list_lookup_insert_eq.
Qed.
End spec.

(** ** What the dictionary promises *)

(** The operations of the interface, and what they answer. *)
Inductive dict_op (K V : Type) :=
| OpAdd (key : K) (val : V)
| OpReplace (key : K) (val : V)
| OpDelete (key : K)
| OpFind (key : K)
| OpSize.
Arguments OpAdd {K V}.
Arguments OpReplace {K V}.
Arguments OpDelete {K V}.
Arguments OpFind {K V}.
Arguments OpSize {K V}.

Inductive dict_answer (K V : Type) :=
| Code (z : Z)
| Found (e : option (K * V)).
Arguments Code {K V}.
Arguments Found {K V}.

Section run.
Context {K V : Type} `{Countable K} `{DictType K}.

Definition dict_step (ht : dict K V) (op : dict_op K V) : option (dict_answer K V * dict K V) :=
  match op with
  | OpAdd k v => r ← dictAdd ht k v; Some (Code r.1, r.2)
  | OpReplace k v => r ← dictReplace ht k v; Some (Code r.1, r.2)
  | OpDelete k => r ← dictDelete ht k; Some (Code r.1, r.2)
  | OpFind k => e ← dictFind ht k; Some (Found e, ht)
  | OpSize => Some (Code (used ht), ht)
  end.

Definition map_step (m : gmap K V) (op : dict_op K V) : dict_answer K V * gmap K V :=
  match op with
  | OpAdd k v => if m !! k is Some _ then (Code DICT_ERR, m) else (Code DICT_OK, <[k := v]> m)
  | OpReplace k v => (Code (if m !! k is Some _ then 0 else 1), <[k := v]> m)
  | OpDelete k => (Code (if m !! k is Some _ then DICT_OK else DICT_ERR), delete k m)
  | OpFind k => (Found ((k,.) <$> m !! k), m)
  | OpSize => (Code (Z.of_nat (base.size m)), m)
  end.

Fixpoint dict_run (ht : dict K V) (ops : list (dict_op K V)) : option (list (dict_answer K V)) :=
  match ops with
  | [] => Some []
  | op :: ops' => r ← dict_step ht op; cons r.1 <$> dict_run r.2 ops'
  end.
Fixpoint map_run (m : gmap K V) (ops : list (dict_op K V)) : list (dict_answer K V) :=
  match ops with
  | [] => []
  | op :: ops' => let r := map_step m op in r.1 :: map_run r.2 ops'
  end.
End run.

Section promises.
Context {K V : Type} `{Countable K} `{Hlaws : DictTypeLaws K}.
Implicit Types (ht : dict K V).

Lemma dict_step_spec ht op :
  dict_wf ht -> used ht < 2 ^ 31 ->
  exists ht', dict_step ht op = Some ((map_step (dict_map ht) op).1, ht') /\ dict_wf ht' /\
    dict_map ht' = (map_step (dict_map ht) op).2 /\ used ht' <= used ht + 1.
Proof.
  intros Hwf Hu. destruct op as [k v|k v|k|k|]; cbn [dict_step map_step].
  - destruct (dictAdd_spec ht k v Hwf Hu) as (ht' & Hwf' & Ha).
    destruct (dict_map ht !! k) eqn:E; destruct Ha as [-> Ha]; exists ht'; rewrite !used_size by done.
    + destruct Ha as [-> _]. cbn. split_and!; try done. lia.
    + cbn. rewrite Ha, map_size_insert_None by done. split_and!; try done. lia.
  - destruct (dictReplace_spec ht k v Hwf Hu) as (ret & ht' & -> & Hwf' & Hm & ->).
    exists ht'. rewrite !used_size by done. rewrite Hm. cbn. split_and!; try done.
    rewrite map_size_insert. destruct (dict_map ht !! k); cbn [Datatypes.id]; lia.
  - destruct (dictDelete_spec ht k Hwf) as (ht' & Hwf' & Hm & ->). exists ht'.
    rewrite !used_size by done. rewrite Hm. cbn. split_and!; try done.
    rewrite map_size_delete. destruct (dict_map ht !! k); cbn [Datatypes.id]; lia.
  - rewrite dictFind_spec by done. exists ht. cbn. split_and!; try done. lia.
  - exists ht. rewrite used_size by done. cbn. split_and!; try done. lia.
Qed.

Lemma dict_run_spec ops : forall ht,
  dict_wf ht -> used ht + zlen ops < 2 ^ 31 ->
  dict_run ht ops = Some (map_run (dict_map ht) ops).
Proof.
  induction ops as [|op ops IH]; intros ht Hwf Hu; cbn [dict_run map_run]; [done|].
  rewrite zlen_cons in Hu. pose proof (zlen_nonneg ops).
  destruct (dict_step_spec ht op Hwf ltac:(lia)) as (ht' & -> & Hwf' & Hm & Hu').
  cbn [mbind option_bind fst snd]. rewrite IH by (done || lia). by rewrite Hm.
Qed.
End promises.

(** The sds keyed dictionaries satisfy the laws of the interface. *)
Lemma gen_hash_range buf : forall h, 0 <= h < 2 ^ 32 -> 0 <= gen_hash buf h < 2 ^ 32.
Proof.
  induction buf as [|c buf IH]; intros h Hh; cbn [gen_hash]; [done|]. apply IH, u32_range.
Qed.

#[global] Instance clusterNodesDictType_laws : DictTypeLaws bytes.
Proof.
  split.
  - intros k. by apply gen_hash_range.
  - intros k k'. cbn. unfold dictSdsKeyCompare.
    rewrite andb_true_iff, Z.eqb_eq, bool_decide_eq_true. split; [by intros [_ ?]|by intros ->].
Qed.

(** C37: every sequence of additions, replacements, deletions, lookups and size
    queries on a new dictionary is answered as a finite map answers it, through
    all the growing of the table; no step leaves the table. *)
Theorem dict_refines_map {K V : Type} `{Countable K} `{DictTypeLaws K} (ops : list (dict_op K V)) :
  zlen ops < 2 ^ 31 ->
  dict_run dictCreate ops = Some (map_run ∅ ops).
Proof. intros Hops. by rewrite (dict_run_spec ops dictCreate wf_create). Qed.

(** Six nodes: the table grows from 4 to 8 buckets on the way. *)
Definition some_ops : list (dict_op bytes Z) :=
  [OpAdd (s "a:1") 1; OpAdd (s "b:2") 2; OpAdd (s "a:1") 3; OpAdd (s "c:3") 3; OpAdd (s "d:4") 4;
   OpAdd (s "e:5") 5; OpReplace (s "c:3") 7; OpDelete (s "d:4"); OpFind (s "c:3");
   OpFind (s "d:4"); OpSize].

Lemma dict_refines_map_witness :
  dict_run dictCreate some_ops =
  Some [Code 0; Code 0; Code 1; Code 0; Code 0; Code 0; Code 0; Code 0;
        Found (Some (s "c:3", 7)); Found None; Code 4].
Proof. rewrite (dict_refines_map some_ops); [vm_compute; reflexivity|done]. Defined.

(** C38: iterating over a dictionary returns every entry exactly once and then
    NULL. *)
Theorem dictNext_all {K V : Type} `{Countable K} `{DictTypeLaws K} (ht : dict K V) :
  dict_wf ht -> size ht < 2 ^ 31 ->
  exists l, iterate (S (base.size (dict_map ht))) ht dictGetIterator = Some l /\
            l ≡ₚ map_to_list (dict_map ht).
Proof.
  intros Hwf Hs. pose proof Hwf as (Hl & _ & Hu & _ & _ & Hnd).
  exists (entries ht). split.
  - change (entries ht) with (remaining ht dictGetIterator).
    apply iterate_remaining; [done|done|by apply iter_ok_fresh|].
    change (remaining ht dictGetIterator) with (entries ht).
    rewrite used_size in Hu by done. unfold zlen in Hu. lia.
  - symmetry. by apply map_to_list_to_map.
Qed.

Lemma dictNext_all_witness :
  exists ht, dictAdd dictCreate (s "a:1") 1 = Some (DICT_OK, ht) /\
  exists l, iterate 2 ht dictGetIterator = Some l /\ l ≡ₚ map_to_list (dict_map ht).
Proof.
  destruct (dictAdd_spec dictCreate (s "a:1") 1 wf_create eq_refl) as (ht & Hwf & Ha & Hm).
  exists ht. split; [exact Ha|].
  assert (size ht < 2 ^ 31) as Hs by (vm_compute in Ha; by injection Ha as <-).
  pose proof (dictNext_all ht Hwf Hs) as Hall. rewrite Hm in Hall |- *. exact Hall.
Defined.

(** C39: the entry that [dictNext] returned may be deleted: the iteration goes
    on with the entries it would have returned. *)
Theorem dictNext_delete {K V : Type} `{Countable K} `{DictTypeLaws K}
  (ht : dict K V) iter e iter' fuel :
  dict_wf ht -> size ht < 2 ^ 31 -> iter_ok ht iter ->
  dictNext ht iter = Some (Some e, iter') -> (length (remaining ht iter) <= fuel)%nat ->
  exists ht', dictDelete ht e.1 = Some (DICT_OK, ht') /\
    iterate fuel ht' iter' = iterate fuel ht iter' /\
    iterate fuel ht' iter' = Some (tail (remaining ht iter)).
Proof.
  intros Hwf Hs Hok Hnext Hf. pose proof Hwf as (Hl & _).
  destruct (dictNext_spec ht iter Hl Hs Hok) as (it & Hn & Hok' & Hr & Hj).
  rewrite Hnext in Hn. injection Hn as Hhd <-.
  destruct (delete_returned ht iter' e Hwf (Hj e (eq_sym Hhd))) as (ht' & Hd & Hrem & Hsz & Hl' & Hok2).
  assert (length (remaining ht iter') < fuel)%nat as Hf'.
  { rewrite Hr. destruct (remaining ht iter); [done|]. cbn in *. lia. }
  exists ht'. split; [done|]. rewrite !iterate_remaining; try done; try congruence.
  by rewrite Hrem, Hr.
Qed.

Lemma dictNext_delete_witness :
  exists ht iter', dictAdd dictCreate (s "a:1") 1 = Some (DICT_OK, ht) /\
    dictNext ht dictGetIterator = Some (Some (s "a:1", 1), iter') /\
    exists ht', dictDelete ht (s "a:1") = Some (DICT_OK, ht') /\
      iterate 9 ht' iter' = iterate 9 ht iter' /\ iterate 9 ht' iter' = Some [].
Proof.
  destruct (dictAdd_spec dictCreate (s "a:1") 1 wf_create eq_refl) as (ht & Hwf & Ha & Hm).
  assert (exists iter', dictNext ht dictGetIterator = Some (Some (s "a:1", 1), iter') /\
    size ht < 2 ^ 31 /\ remaining ht dictGetIterator = [(s "a:1", 1)]) as (iter' & Hn & Hs & Hr).
  { vm_compute in Ha. injection Ha as <-. eexists. vm_compute. done. }
  exists ht, iter'. split; [exact Ha|]. split; [exact Hn|].
  pose proof (dictNext_delete ht dictGetIterator (s "a:1", 1) iter' 9 Hwf Hs
    (iter_ok_fresh ht (-1) ltac:(lia)) Hn) as Hall.
  rewrite Hr in Hall. apply Hall. cbn. lia.
Defined.
