(* ===== verification/Adlist.v ===== *)
(** * adlist.c: doubly linked lists

    Nodes are objects of a heap, named by their pointers; [hi_free] removes one,
    so a use after free faults.  The record [hilist] is passed along by its
    functions.  Values are of a type [V] with decidable equality (pointers in
    the code); [free] of a list is logged in [freed].  [malloc_ok] says which
    allocations succeed; a NULL result is [None]. *)

From S2P Require Import Prelude Effects.

Record listNode (V : Type) := mk_lnode { prev : option Z; next : option Z; lvalue : V }.
Arguments mk_lnode {V}.
Arguments prev {V}.
Arguments next {V}.
Arguments lvalue {V}.

Record hilist (V : Type) := mk_hilist {
  head : option Z;
  tail : option Z;
  dup : option (V -> option V);
  free : bool;
  lmatch : option (V -> V -> bool);
  len : Z
}.
Arguments mk_hilist {V}.
Arguments head {V}.
Arguments tail {V}.
Arguments dup {V}.
Arguments free {V}.
Arguments lmatch {V}.
Arguments len {V}.

Record listIter := mk_liter { it_next : option Z; direction : Z }.

Definition AL_START_HEAD : Z := 0.
Definition AL_START_TAIL : Z := 1.

Record lheap (V : Type) := mk_lheap {
  cells : gmap Z (listNode V);
  fresh_ptr : Z;
  freed : list V
}.
Arguments mk_lheap {V}.
Arguments cells {V}.
Arguments fresh_ptr {V}.
Arguments freed {V}.

Section adlist.
Context {V : Type} `{EqDecision V} (malloc_ok : Z -> bool).
Abbreviation M := (prog (lheap V)).
Implicit Types (l : hilist V) (n : listNode V) (p : Z) (v : V).

Definition sizeof_hilist : Z := 48.
Definition sizeof_listNode : Z := 24.
Definition sizeof_listIter : Z := 16.

(** ** The heap *)

Definition load p : M (listNode V) := fun h => (., h) <$> cells h !! p.
Definition store p n : M () := modify (fun h => mk_lheap (<[p := n]> (cells h)) (fresh_ptr h) (freed h)).
(** [hi_alloc] of a node, filled at once. *)
Definition new_node n : M Z := fun h =>
  Some (fresh_ptr h, mk_lheap (<[fresh_ptr h := n]> (cells h)) (fresh_ptr h + 1) (freed h)).
Definition hi_free_node p : M () := fun h =>
  match cells h !! p with
  | Some _ => Some ((), mk_lheap (delete p (cells h)) (fresh_ptr h) (freed h))
  | None => None
  end.
(** [p->prev = q], [p->next = q] *)
Definition set_prev p (q : option Z) : M () :=
  n ← load p; store p (mk_lnode q (next n) (lvalue n)).
Definition set_next p (q : option Z) : M () :=
  n ← load p; store p (mk_lnode (prev n) q (lvalue n)).
(** [if (list->free) list->free(value);] *)
Definition free_value l v : M () :=
  if free l then modify (fun h => mk_lheap (cells h) (fresh_ptr h) (freed h ++ [v])) else mret ().

Definition with_ends l (hd tl : option Z) (k : Z) : hilist V :=
  mk_hilist hd tl (dup l) (free l) (lmatch l) k.

(** ** Creating and releasing *)

Definition listCreate : option (hilist V) :=
  if malloc_ok sizeof_hilist then Some (mk_hilist None None None false None 0) else None.

Definition listSetDupMethod l (m : option (V -> option V)) : hilist V :=
  mk_hilist (head l) (tail l) m (free l) (lmatch l) (len l).
Definition listSetFreeMethod l (m : bool) : hilist V :=
  mk_hilist (head l) (tail l) (dup l) m (lmatch l) (len l).
Definition listSetMatchMethod l (m : option (V -> V -> bool)) : hilist V :=
  mk_hilist (head l) (tail l) (dup l) (free l) m (len l).

(** [while(len--)]: the nodes from [current] on. *)
Fixpoint release_from (k : nat) l (current : option Z) : M () :=
  match k with
  | O => mret ()
  | S k' =>
      p ← lift current;
      n ← load p;
      _ ← free_value l (lvalue n);
      _ ← hi_free_node p;
      release_from k' l (next n)
  end.
Definition listRelease l : M () := release_from (Z.to_nat (len l)) l (head l).

(** ** Adding and removing *)

Definition listAddNodeHead l v : M (option (hilist V)) :=
  if negb (malloc_ok sizeof_listNode) then mret None else
  if len l =? 0 then
    p ← new_node (mk_lnode None None v);
    mret (Some (with_ends l (Some p) (Some p) (u64 (len l + 1))))
  else
    p ← new_node (mk_lnode None (head l) v);
    hd ← lift (head l);
    _ ← set_prev hd (Some p);
    mret (Some (with_ends l (Some p) (tail l) (u64 (len l + 1)))).

Definition listAddNodeTail l v : M (option (hilist V)) :=
  if negb (malloc_ok sizeof_listNode) then mret None else
  if len l =? 0 then
    p ← new_node (mk_lnode None None v);
    mret (Some (with_ends l (Some p) (Some p) (u64 (len l + 1))))
  else
    p ← new_node (mk_lnode (tail l) None v);
    tl ← lift (tail l);
    _ ← set_next tl (Some p);
    mret (Some (with_ends l (head l) (Some p) (u64 (len l + 1)))).

(** [if (q != NULL) f(q);] *)
Definition when_some (q : option Z) (f : Z -> M ()) : M () :=
  match q with Some p => f p | None => mret () end.

Definition listInsertNode l (old_node : Z) v (after : bool) : M (option (hilist V)) :=
  if negb (malloc_ok sizeof_listNode) then mret None else
  old ← load old_node;
  let prv := if after then Some old_node else prev old in
  let nxt := if after then next old else Some old_node in
  p ← new_node (mk_lnode prv nxt v);
  let tl := if after && bool_decide (tail l = Some old_node) then Some p else tail l in
  let hd := if negb after && bool_decide (head l = Some old_node) then Some p else head l in
  _ ← when_some prv (fun q => set_next q (Some p));
  _ ← when_some nxt (fun q => set_prev q (Some p));
  mret (Some (with_ends l hd tl (u64 (len l + 1)))).

Definition listDelNode l p : M (hilist V) :=
  n ← load p;
  _ ← when_some (prev n) (fun q => n ← load p; set_next q (next n));
  n ← load p;
  let hd := if prev n is Some _ then head l else next n in
  _ ← when_some (next n) (fun q => n ← load p; set_prev q (prev n));
  n ← load p;
  let tl := if next n is Some _ then tail l else prev n in
  _ ← free_value l (lvalue n);
  _ ← hi_free_node p;
  mret (with_ends l hd tl (u64 (len l - 1))).

(** ** Iterating *)

Definition listGetIterator l (dir : Z) : option listIter :=
  if negb (malloc_ok sizeof_listIter) then None else
  Some (mk_liter (if dir =? AL_START_HEAD then head l else tail l) dir).
Definition listRewind l : listIter := mk_liter (head l) AL_START_HEAD.
Definition listRewindTail l : listIter := mk_liter (tail l) AL_START_TAIL.

Definition listNext (it : listIter) : M (option Z * listIter) :=
  match it_next it with
  | Some p =>
      n ← load p;
      mret (Some p, mk_liter (if direction it =? AL_START_HEAD then next n else prev n) (direction it))
  | None => mret (None, it)
  end.

(** ** Duplicating, searching, indexing *)

Fixpoint dup_loop (fuel : nat) (it : listIter) (copy : hilist V) : M (option (hilist V)) :=
  match fuel with
  | O => fault
  | S fuel' =>
      r ← listNext it;
      match r.1 with
      | None => mret (Some copy)
      | Some p =>
          n ← load p;
          match (match dup copy with Some f => f (lvalue n) | None => Some (lvalue n) end) with
          | None => _ ← listRelease copy; mret None
          | Some v =>
              c ← listAddNodeTail copy v;
              match c with
              | None => _ ← listRelease copy; mret None
              | Some copy => dup_loop fuel' r.2 copy
              end
          end
      end
  end.

(** A walk along the list has at most as many steps as there are nodes, and one
    to see the end. *)
Definition walk_fuel : M nat := gets (fun h => S (base.size (cells h))).

Definition listDup (orig : hilist V) : M (option (hilist V)) :=
  match listCreate with
  | None => mret None
  | Some copy =>
      let copy := mk_hilist (head copy) (tail copy) (dup orig) (free orig) (lmatch orig) (len copy) in
      it ← lift (listGetIterator orig AL_START_HEAD);
      fuel ← walk_fuel;
      dup_loop fuel it copy
  end.

Definition matches l v (key : V) : bool :=
  match lmatch l with Some f => f v key | None => bool_decide (key = v) end.

Fixpoint search_from (fuel : nat) l (key : V) (it : listIter) : M (option Z) :=
  match fuel with
  | O => fault
  | S fuel' =>
      r ← listNext it;
      match r.1 with
      | None => mret None
      | Some p => n ← load p; if matches l (lvalue n) key then mret (Some p) else search_from fuel' l key r.2
      end
  end.
Definition listSearchKey l (key : V) : M (option Z) :=
  it ← lift (listGetIterator l AL_START_HEAD);
  fuel ← walk_fuel;
  search_from fuel l key it.

(** [while(index-- && n) n = n->next;], or [prev]. *)
Fixpoint index_loop (fuel : nat) (step : listNode V -> option Z) (index : Z) (n : option Z)
  : M (option Z) :=
  match fuel with
  | O => fault
  | S fuel' =>
      if index =? 0 then mret n else
      match n with
      | None => mret None
      | Some p => c ← load p; index_loop fuel' step (i64 (index - 1)) (step c)
      end
  end.
Definition listIndex l (index : Z) : M (option Z) :=
  fuel ← walk_fuel;
  if index <? 0 then index_loop fuel prev (i64 (i64 (- index) - 1)) (tail l)
  else index_loop fuel next index (head l).

Definition listRotate l : M (hilist V) :=
  if len l <=? 1 then mret l else
  tl ← lift (tail l);
  n ← load tl;
  ntl ← lift (prev n);
  _ ← set_next ntl None;
  hd ← lift (head l);
  _ ← set_prev hd (Some tl);
  _ ← set_prev tl None;
  _ ← set_next tl (Some hd);
  mret (with_ends l (Some tl) (Some ntl) (len l)).
End adlist.
