(* ===== verification/AdlistSpec.v ===== *)
(** * Doubly linked lists implement sequences

    [seg h a ps b]: in the heap [h] the nodes [ps] (pointers and values) are
    linked in order, the first one back to [a] and the last one on to [b].
    [listed] is the invariant of a [hilist]; each function of [Adlist] acts on
    the sequence and leaves every other node alone. *)

From S2P Require Import Prelude Effects Adlist.

Section segments.
Context {V : Type} `{EqDecision V}.
Implicit Types (h : gmap Z (listNode V)) (ps qs : list (Z * V)).

Definition first (ps : list (Z * V)) (b : option Z) : option Z :=
  match ps with [] => b | (p, _) :: _ => Some p end.
Fixpoint final (ps : list (Z * V)) (a : option Z) : option Z :=
  match ps with [] => a | (p, _) :: ps' => final ps' (Some p) end.

Fixpoint seg h (a : option Z) ps (b : option Z) : Prop :=
  match ps with
  | [] => True
  | (p, v) :: ps' => h !! p = Some (mk_lnode a (first ps' b) v) /\ seg h (Some p) ps' b
  end.

Lemma final_app ps qs a : final (ps ++ qs) a = final qs (final ps a).
Proof. revert a. induction ps as [|[p v] ps IH]; intros a; cbn; [done|]. apply IH. Qed.
Lemma first_app ps qs b : first (ps ++ qs) b = first ps (first qs b).
Proof. by destruct ps as [|[p v] ps]. Qed.

Lemma seg_app h ps : forall a qs b,
  seg h a (ps ++ qs) b <-> seg h a ps (first qs b) /\ seg h (final ps a) qs b.
Proof.
  induction ps as [|[p v] ps IH]; intros a qs b; cbn [app seg final]; [tauto|].
  rewrite first_app, IH. tauto.
Qed.

Lemma seg_same h h' ps : forall a b,
  (forall p, p ∈ ps.*1 -> h' !! p = h !! p) -> seg h a ps b -> seg h' a ps b.
Proof.
  induction ps as [|[p v] ps IH]; intros a b Hs; cbn [seg]; [done|]. intros [Hp Hseg]. split.
  - rewrite Hs; [done|]. left.
  - apply IH; [|done]. intros q Hq. apply Hs. by right.
Qed.

Lemma seg_insert h ps a b q n : q ∉ ps.*1 -> seg h a ps b -> seg (<[q := n]> h) a ps b.
Proof. intros Hq. apply seg_same. intros p Hp. apply lookup_insert_ne. intros ->. done. Qed.
Lemma seg_delete h ps a b q : q ∉ ps.*1 -> seg h a ps b -> seg (delete q h) a ps b.
Proof. intros Hq. apply seg_same. intros p Hp. apply lookup_delete_ne. intros ->. done. Qed.

Lemma seg_lookup h ps : forall a b i p v,
  seg h a ps b -> ps !! i = Some (p, v) -> exists n, h !! p = Some n /\ lvalue n = v.
Proof.
  induction ps as [|[q w] ps IH]; intros a b i p v Hs Hi; [done|]. destruct Hs as [Hq Hs].
  destruct i as [|i]; cbn in Hi; [simplify_eq; eauto|]. by eapply IH.
Qed.

Lemma seg_in_heap h ps a b p : seg h a ps b -> p ∈ ps.*1 -> is_Some (h !! p).
Proof.
  intros Hs Hp. apply list_elem_of_fmap in Hp as ([q v] & -> & Hp).
  apply list_elem_of_lookup in Hp as [i Hi]. destruct (seg_lookup h ps a b i q v Hs Hi) as (n & E & _).
  by exists n.
Qed.

(** The first node of a segment, and the last one. *)
Lemma seg_cons_inv h a p v ps b :
  seg h a ((p, v) :: ps) b -> h !! p = Some (mk_lnode a (first ps b) v) /\ seg h (Some p) ps b.
Proof. done. Qed.
Lemma seg_snoc h a ps p v b :
  seg h a (ps ++ [(p, v)]) b <-> seg h a ps (Some p) /\ h !! p = Some (mk_lnode (final ps a) b v).
Proof. rewrite seg_app. cbn. tauto. Qed.

Lemma final_snoc ps p v a : final (ps ++ [(p, v)]) a = Some p.
Proof. by rewrite final_app. Qed.

(** ** The heap as a state *)

Implicit Types (s : lheap V).

(** Only the nodes [ps] changed, and nothing was made or freed. *)
Definition touched (ps : list (Z * V)) s s' : Prop :=
  fresh_ptr s' = fresh_ptr s /\ freed s' = freed s /\
  (forall p, p ∉ ps.*1 -> cells s' !! p = cells s !! p) /\ dom (cells s') = dom (cells s).

Lemma wp_load p n (Q : listNode V -> lheap V -> Prop) s :
  cells s !! p = Some n -> Q n s -> wp (load p) Q s.
Proof. intros Hp HQ. exists n, s. unfold load. by rewrite Hp. Qed.

Lemma wp_set_prev p n q (Q : () -> lheap V -> Prop) s :
  cells s !! p = Some n ->
  Q () (mk_lheap (<[p := mk_lnode q (next n) (lvalue n)]> (cells s)) (fresh_ptr s) (freed s)) ->
  wp (set_prev p q) Q s.
Proof. intros Hp HQ. apply wp_bind. eapply wp_load; [done|]. by apply wp_modify. Qed.
Lemma wp_set_next p n q (Q : () -> lheap V -> Prop) s :
  cells s !! p = Some n ->
  Q () (mk_lheap (<[p := mk_lnode (prev n) q (lvalue n)]> (cells s)) (fresh_ptr s) (freed s)) ->
  wp (set_next p q) Q s.
Proof. intros Hp HQ. apply wp_bind. eapply wp_load; [done|]. by apply wp_modify. Qed.

Lemma touched_store p ps s n :
  is_Some (cells s !! p) -> p ∈ ps.*1 ->
  touched ps s (mk_lheap (<[p := n]> (cells s)) (fresh_ptr s) (freed s)).
Proof.
  intros Hs Hp. split_and!; cbn; [done|done| |].
  - intros q Hq. apply lookup_insert_ne. intros ->. done.
  - apply dom_insert_lookup_L. done.
Qed.

(** A segment is linked on: the next field of its last node. *)
Lemma link_next ps a b x (Q : () -> lheap V -> Prop) s :
  seg (cells s) a ps b -> NoDup ps.*1 ->
  (forall s', seg (cells s') a ps x -> touched ps s s' -> Q () s') ->
  (ps = [] -> a = None) ->
  wp (when_some (final ps a) (fun q => set_next q x)) Q s.
Proof.
  intros Hs Hn HQ Ha. destruct ps as [|y ps _] using rev_ind.
  { rewrite Ha by done. apply wp_ret. apply HQ; [done|]. by split_and!. }
  destruct y as [p v]. rewrite final_snoc. cbn [when_some].
  apply seg_snoc in Hs as [Hs Hp]. eapply wp_set_next; [done|]. cbn [prev lvalue].
  rewrite fmap_app in Hn. apply NoDup_app in Hn as (_ & Hd & _).
  apply HQ.
  - apply seg_snoc. cbn [cells]. rewrite lookup_insert_eq. split; [|done].
    apply seg_insert; [|done]. intros Hin. apply (Hd p Hin). left.
  - apply (touched_store p); [by eexists|]. rewrite fmap_app. apply elem_of_app. right. left.
Qed.

(** A segment is linked back: the prev field of its first node. *)
Lemma link_prev qs a b x (Q : () -> lheap V -> Prop) s :
  seg (cells s) a qs b -> NoDup qs.*1 ->
  (forall s', seg (cells s') x qs b -> touched qs s s' -> Q () s') ->
  (qs = [] -> b = None) ->
  wp (when_some (first qs b) (fun q => set_prev q x)) Q s.
Proof.
  intros Hs Hn HQ Hb. destruct qs as [|[p v] qs].
  { rewrite Hb by done. apply wp_ret. apply HQ; [done|]. by split_and!. }
  cbn [first when_some]. apply seg_cons_inv in Hs as [Hp Hs].
  eapply wp_set_prev; [done|]. cbn [next lvalue].
  rewrite fmap_cons in Hn. apply NoDup_cons in Hn as [Hd _].
  apply HQ.
  - cbn [seg cells]. rewrite lookup_insert_eq. split; [done|]. by apply seg_insert.
  - apply (touched_store p); [by eexists|]. rewrite fmap_cons. left.
Qed.

(** ** The invariant *)

Definition heap_ok s : Prop := forall p, is_Some (cells s !! p) -> p < fresh_ptr s.

Record listed s (l : hilist V) ps : Prop := {
  li_seg : seg (cells s) None ps None;
  li_nodup : NoDup ps.*1;
  li_head : head l = first ps None;
  li_tail : tail l = final ps None;
  li_len : len l = zlen ps;
  li_heap : heap_ok s
}.

(** From [ps] to [ps']: what left is freed, what came is new, and every other
    object of the heap is as it was. *)
Record frame ps ps' s s' : Prop := {
  fr_same : forall q, q ∉ ps.*1 -> q ∉ ps'.*1 -> cells s' !! q = cells s !! q;
  fr_new : forall q, q ∉ ps.*1 -> q ∈ ps'.*1 -> cells s !! q = None;
  fr_gone : forall q, q ∈ ps.*1 -> q ∉ ps'.*1 -> cells s' !! q = None
}.

Definition same_methods (l l' : hilist V) : Prop :=
  dup l' = dup l /\ free l' = free l /\ lmatch l' = lmatch l.

(** A function of a list: it stands for [ps'] now, [fs] were freed. *)
Record acts s l ps s' l' ps' (fs : list V) : Prop := {
  ac_listed : listed s' l' ps';
  ac_methods : same_methods l l';
  ac_frame : frame ps ps' s s';
  ac_fresh : fresh_ptr s <= fresh_ptr s';
  ac_freed : freed s' = freed s ++ fs
}.

Lemma touched_heap ps s s' : touched ps s s' -> heap_ok s -> heap_ok s'.
Proof.
  intros (Hf & _ & _ & Hd) Hh p Hp. rewrite Hf. apply Hh.
  apply elem_of_dom. rewrite <- Hd. by apply elem_of_dom.
Qed.

Lemma touched_seg ps qs s s' a b :
  touched ps s s' -> (forall p, p ∈ qs.*1 -> p ∉ ps.*1) -> seg (cells s) a qs b -> seg (cells s') a qs b.
Proof. intros (_ & _ & Ht & _) Hd. apply seg_same. intros p Hp. by apply Ht, Hd. Qed.

Lemma NoDup_mid ps qs p (v : V) :
  NoDup (ps ++ qs).*1 -> p ∉ (ps ++ qs).*1 -> NoDup (ps ++ (p, v) :: qs).*1.
Proof.
  rewrite !fmap_app. cbn. intros Hn Hp. rewrite NoDup_app in Hn |- *. destruct Hn as (H1 & H2 & H3).
  rewrite elem_of_app in Hp. split_and!; [done| |].
  - intros x Hx. rewrite not_elem_of_cons. split; [|by apply H2]. intros ->. tauto.
  - apply NoDup_cons. tauto.
Qed.

Lemma heap_new s n : heap_ok s ->
  heap_ok (mk_lheap (<[fresh_ptr s := n]> (cells s)) (fresh_ptr s + 1) (freed s)).
Proof.
  intros Hh p Hp. cbn in *. destruct (decide (p = fresh_ptr s)) as [->|Hne]; [lia|].
  rewrite lookup_insert_ne in Hp by done. apply Hh in Hp. lia.
Qed.

(** A new node between [ps] and [qs]. *)
Lemma insert_between {A} ps qs v (K : Z -> prog (lheap V) A) (Q : A -> lheap V -> Prop) s :
  seg (cells s) None (ps ++ qs) None -> NoDup (ps ++ qs).*1 -> heap_ok s ->
  (forall p s', seg (cells s') None (ps ++ (p, v) :: qs) None -> NoDup (ps ++ (p, v) :: qs).*1 ->
     heap_ok s' -> frame (ps ++ qs) (ps ++ (p, v) :: qs) s s' -> fresh_ptr s <= fresh_ptr s' ->
     freed s' = freed s -> wp (K p) Q s') ->
  wp (p ← new_node (mk_lnode (final ps None) (first qs None) v);
      _ ← when_some (final ps None) (fun q => set_next q (Some p));
      _ ← when_some (first qs None) (fun q => set_prev q (Some p));
      K p) Q s.
Proof.
  intros Hs Hn Hh HK. set (p := fresh_ptr s).
  assert (p ∉ (ps ++ qs).*1) as Hp.
  { intros Hin. apply (seg_in_heap _ _ _ _ p Hs) in Hin. apply Hh in Hin. unfold p in Hin. lia. }
  pose proof (NoDup_mid ps qs p v Hn Hp) as Hn'.
  apply seg_app in Hs as [Hps Hqs]. rewrite fmap_app in Hn, Hp.
  apply NoDup_app in Hn as (Hn1 & Hn2 & Hn3). rewrite elem_of_app in Hp.
  apply wp_bind. eexists _, _. split; [reflexivity|]. fold p.
  set (n := mk_lnode (final ps None) (first qs None) v).
  set (s1 := mk_lheap (<[p := n]> (cells s)) (p + 1) (freed s)).
  assert (heap_ok s1) as Hh1 by (by apply heap_new).
  apply wp_bind. apply (link_next ps None (first qs None)); [apply seg_insert; tauto|done| |done].
  intros s2 Hps2 Ht2. apply wp_bind.
  apply (link_prev qs (final ps None) None); [|done| |done].
  { eapply touched_seg; [exact Ht2| |apply seg_insert; [tauto|done]]. intros q Hq1 Hq2. by apply (Hn2 q). }
  intros s3 Hqs3 Ht3.
  assert (cells s3 !! p = Some n) as Hp3.
  { destruct Ht2 as (_ & _ & E2 & _), Ht3 as (_ & _ & E3 & _). rewrite E3, E2 by tauto.
    apply lookup_insert_eq. }
  apply HK; [|done|by eapply touched_heap, touched_heap| | |].
  - apply seg_app. cbn [first seg]. split_and!; [|done|done].
    eapply touched_seg; [exact Ht3| |exact Hps2]. intros q Hq1 Hq2. by apply (Hn2 q).
  - assert (cells s !! p = None) as Hnone.
    { apply eq_None_not_Some. intros Hi. apply Hh in Hi. unfold p in Hi. lia. }
    destruct Ht2 as (_ & _ & E2 & _), Ht3 as (_ & _ & E3 & _).
    constructor; intros q; rewrite !fmap_app; cbn [fmap list_fmap fst]; intros Hq1 Hq2.
    + rewrite E3, E2 by set_solver. apply lookup_insert_ne. set_solver.
    + assert (q = p) as -> by set_solver. done.
    + set_solver.
  - destruct Ht2 as (E2 & _), Ht3 as (E3 & _). rewrite E3, E2. cbn. unfold p. lia.
  - destruct Ht2 as (_ & E2 & _), Ht3 as (_ & E3 & _). by rewrite E3, E2.
Qed.

Context (malloc_ok : Z -> bool) (Hmem : forall n, malloc_ok n = true).

Lemma first_none ps : first ps None = None -> ps = [].
Proof. by destruct ps as [|[p v] ps]. Qed.
Lemma final_none ps : final ps None = None -> ps = [].
Proof. destruct ps as [|[p v] ps _] using rev_ind; [done|]. by rewrite final_snoc. Qed.

Lemma len_next ps qs p (v : V) : zlen (ps ++ qs) < 2 ^ 63 -> u64 (zlen (ps ++ qs) + 1) = zlen (ps ++ (p, v) :: qs).
Proof.
  intros Hl. pose proof (zlen_nonneg (ps ++ qs)). rewrite !zlen_app, zlen_cons in *. unfold u64.
  rewrite Z.mod_small; lia.
Qed.

Lemma acts_insert s l ps qs p v s' hd tl :
  listed s l (ps ++ qs) -> zlen (ps ++ qs) < 2 ^ 63 ->
  seg (cells s') None (ps ++ (p, v) :: qs) None -> NoDup (ps ++ (p, v) :: qs).*1 -> heap_ok s' ->
  frame (ps ++ qs) (ps ++ (p, v) :: qs) s s' -> fresh_ptr s <= fresh_ptr s' -> freed s' = freed s ->
  hd = first (ps ++ (p, v) :: qs) None -> tl = final (ps ++ (p, v) :: qs) None ->
  acts s l (ps ++ qs) s' (with_ends l hd tl (u64 (len l + 1))) (ps ++ (p, v) :: qs) [].
Proof.
  intros [_ _ _ _ Hl _] Hb Hs Hn Hh Ho Hf Hfr -> ->.
  constructor; [|done|done|done|by rewrite app_nil_r].
  constructor; try done. cbn [len with_ends]. rewrite Hl. by apply len_next.
Qed.

Lemma listAddNodeHead_spec s l ps v :
  listed s l ps -> zlen ps < 2 ^ 63 ->
  wp (listAddNodeHead malloc_ok l v) (fun r s' => exists l' p, r = Some l' /\
    acts s l ps s' l' ((p, v) :: ps) []) s.
Proof.
  intros Hli Hb. pose proof Hli as [Hs Hn Hh Ht Hl Hok].
  unfold listAddNodeHead. rewrite Hmem. cbn [negb].
  destruct ps as [|[q w] ps]; rewrite Hl, Hh.
  - refine (insert_between [] [] v (fun p => mret _) _ s Hs Hn Hok _).
    intros p s' H1 H2 H3 H4 H5 H6. apply wp_ret. eexists _, p. split; [done|]. rewrite <- Hl.
    by apply (acts_insert s l [] []).
  - destruct (Z.eqb_spec (zlen ((q, w) :: ps)) 0); [zlen_lia|].
    refine (insert_between [] ((q, w) :: ps) v (fun p => mret _) _ s Hs Hn Hok _).
    intros p s' H1 H2 H3 H4 H5 H6. apply wp_ret. eexists _, p. split; [done|]. rewrite <- Hl.
    by apply (acts_insert s l [] ((q, w) :: ps)).
Qed.

Lemma listAddNodeTail_spec s l ps v :
  listed s l ps -> zlen ps < 2 ^ 63 ->
  wp (listAddNodeTail malloc_ok l v) (fun r s' => exists l' p, r = Some l' /\
    acts s l ps s' l' (ps ++ [(p, v)]) []) s.
Proof.
  intros Hli Hb. pose proof Hli as [Hs Hn Hh Ht Hl Hok].
  unfold listAddNodeTail. rewrite Hmem. cbn [negb].
  pose proof (app_nil_r ps) as Er. rewrite <- Er in Hs, Hn, Hli, Hb.
  destruct ps as [|y ps _] using rev_ind; rewrite Hl, Hh, Ht.
  - refine (insert_between [] [] v (fun p => mret _) _ s Hs Hn Hok _).
    intros p s' H1 H2 H3 H4 H5 H6. apply wp_ret. eexists _, p. split; [done|]. rewrite <- Hl.
    by apply (acts_insert s l [] []).
  - destruct y as [q w]. destruct (Z.eqb_spec (zlen (ps ++ [(q, w)])) 0); [zlen_lia|].
    rewrite final_snoc. cbn [first] in *.
    pose proof (insert_between (ps ++ [(q, w)]) [] v
      (fun p => mret (Some (with_ends l (first (ps ++ [(q, w)]) None) (Some p)
         (u64 (zlen (ps ++ [(q, w)]) + 1)))))
      (fun r s' => exists l' p, r = Some l' /\ acts s l (ps ++ [(q, w)]) s' l' ((ps ++ [(q, w)]) ++ [(p, v)]) [])
      s Hs Hn Hok) as Hi.
    rewrite final_snoc in Hi. refine (Hi _). clear Hi.
    intros p s' H1 H2 H3 H4 H5 H6. apply wp_ret. eexists _, p. split; [done|]. rewrite <- Hl.
    rewrite <- Er at 1. apply (acts_insert s l (ps ++ [(q, w)]) []); try done.
    + rewrite <- app_assoc. by rewrite !first_app.
    + by rewrite final_snoc.
Qed.

(** ** Inserting next to a node *)

Lemma final_inv ps p q w : NoDup (ps ++ [(q, w)]).*1 -> final ps None = Some p -> p <> q.
Proof.
  intros Hn Hf ->. destruct ps as [|[a x] ps _] using rev_ind; [done|].
  rewrite final_snoc in Hf. simplify_eq. rewrite !fmap_app in Hn. cbn in Hn.
  apply NoDup_app in Hn as (_ & Hd & _). apply (Hd q); [|left]. apply elem_of_app. right. left.
Qed.

Lemma first_mid ps qs q (w : V) :
  NoDup (ps ++ (q, w) :: qs).*1 ->
  first (ps ++ (q, w) :: qs) None = Some q <-> ps = [].
Proof.
  destruct ps as [|[a x] ps]; [done|]. rewrite fmap_app. cbn. intros Hn. split; [|done].
  intros [= ->]. apply NoDup_cons in Hn as [Hn _]. destruct Hn. apply elem_of_app. right. left.
Qed.
Lemma final_mid ps qs q (w : V) :
  NoDup (ps ++ (q, w) :: qs).*1 ->
  final (ps ++ (q, w) :: qs) None = Some q <-> qs = [].
Proof.
  rewrite final_app. cbn [final]. destruct qs as [|[a x] qs _] using rev_ind; [done|]. 
  rewrite final_snoc, fmap_app, fmap_cons, fmap_app. intros Hn. split; [|by destruct qs].
  intros [= ->]. apply NoDup_app in Hn as (_ & _ & Hn). apply NoDup_cons in Hn as [Hn _].
  destruct Hn. apply elem_of_app. right. left.
Qed.

Lemma seg_mid h ps qs q w :
  seg h None (ps ++ (q, w) :: qs) None -> h !! q = Some (mk_lnode (final ps None) (first qs None) w).
Proof. intros Hs. apply seg_app in Hs as [_ Hs]. by destruct Hs. Qed.

Lemma listInsertNode_before s l ps q w qs v :
  listed s l (ps ++ (q, w) :: qs) -> zlen (ps ++ (q, w) :: qs) < 2 ^ 63 ->
  wp (listInsertNode malloc_ok l q v false) (fun r s' => exists l' p, r = Some l' /\
    acts s l (ps ++ (q, w) :: qs) s' l' (ps ++ (p, v) :: (q, w) :: qs) []) s.
Proof.
  intros Hli Hb. pose proof Hli as [Hs Hn Hh Ht Hl Hok].
  unfold listInsertNode. rewrite Hmem. cbn [negb].
  apply wp_bind. eapply wp_load; [by eapply seg_mid|]. cbn [prev next andb negb].
  refine (insert_between ps ((q, w) :: qs) v (fun p => mret _) _ s Hs Hn Hok _).
  intros p s' H1 H2 H3 H4 H5 H6. apply wp_ret. eexists _, p. split; [done|].
  apply acts_insert; try done.
  - rewrite Hh. destruct (bool_decide _) eqn:E.
    + apply bool_decide_eq_true in E. apply first_mid in E; [|done]. by subst.
    + apply bool_decide_eq_false in E. rewrite first_mid in E by done.
      by destruct ps as [|[a x] ps].
  - rewrite Ht, !final_app. done.
Qed.

Lemma listInsertNode_after s l ps q w qs v :
  listed s l (ps ++ (q, w) :: qs) -> zlen (ps ++ (q, w) :: qs) < 2 ^ 63 ->
  wp (listInsertNode malloc_ok l q v true) (fun r s' => exists l' p, r = Some l' /\
    acts s l (ps ++ (q, w) :: qs) s' l' (ps ++ (q, w) :: (p, v) :: qs) []) s.
Proof.
  intros Hli Hb. pose proof Hli as [Hs Hn Hh Ht Hl Hok].
  unfold listInsertNode. rewrite Hmem. cbn [negb].
  apply wp_bind. eapply wp_load; [by eapply seg_mid|]. cbn [prev next andb negb].
  assert (ps ++ (q, w) :: qs = (ps ++ [(q, w)]) ++ qs) as E by by rewrite <- app_assoc.
  pose proof (final_mid ps qs q w Hn) as Hfm. rewrite E in *.
  pose proof (insert_between (ps ++ [(q, w)]) qs v (fun p => mret (Some (with_ends l (head l)
      (if bool_decide (tail l = Some q) then Some p else tail l) (u64 (len l + 1)))))
    (fun r s' => exists l' p, r = Some l' /\
      acts s l ((ps ++ [(q, w)]) ++ qs) s' l' (ps ++ (q, w) :: (p, v) :: qs) []) s Hs Hn Hok) as Hi.
  rewrite final_snoc in Hi. refine (Hi _). clear Hi.
  intros p s' H1 H2 H3 H4 H5 H6. apply wp_ret. eexists _, p. split; [done|].
  replace (ps ++ (q, w) :: (p, v) :: qs) with ((ps ++ [(q, w)]) ++ (p, v) :: qs) by by rewrite <- app_assoc.
  apply acts_insert; try done.
  - rewrite Hh. by rewrite !first_app.
  - rewrite Ht. destruct (bool_decide _) eqn:D.
    + apply bool_decide_eq_true in D. apply Hfm in D as ->. by rewrite !final_app.
    + apply bool_decide_eq_false in D. rewrite Hfm in D. rewrite !final_app.
      destruct qs as [|y qs _] using rev_ind; [done|]. destruct y as [a x]. cbn. by rewrite !final_snoc.
Qed.

End segments.

(** ** Removing a node *)

Section removing.
Context {V : Type} `{EqDecision V}.
Implicit Types (s : lheap V) (l : hilist V) (ps qs : list (Z * V)).

Lemma wp_when_load {A} (o : option Z) p n (f : Z -> listNode V -> prog (lheap V) ())
  (K : prog (lheap V) A) (Q : A -> lheap V -> Prop) s :
  cells s !! p = Some n ->
  wp (_ ← when_some o (fun q => f q n); K) Q s ->
  wp (_ ← when_some o (fun q => n ← load p; f q n); K) Q s.
Proof.
  intros Hp. destruct o as [q|]; [|done]. cbn [when_some].
  intros (r & s' & E & HQ). exists r, s'. split; [|done]. revert E.
  unfold mbind, prog_bind, load. by rewrite Hp.
Qed.

Definition released (l : hilist V) (v : V) : list V := if free l then [v] else [].

Lemma wp_free_value l v (Q : () -> lheap V -> Prop) s :
  Q () (mk_lheap (cells s) (fresh_ptr s) (freed s ++ released l v)) -> wp (free_value l v) Q s.
Proof.
  unfold free_value, released. intros HQ. destruct (free l); [by apply wp_modify|].
  apply wp_ret. destruct s. by rewrite app_nil_r in HQ.
Qed.

Lemma wp_free_node p (Q : () -> lheap V -> Prop) s :
  is_Some (cells s !! p) -> Q () (mk_lheap (delete p (cells s)) (fresh_ptr s) (freed s)) ->
  wp (hi_free_node p) Q s.
Proof. intros [n Hp] HQ. eexists _, _. unfold hi_free_node. by rewrite Hp. Qed.

Lemma heap_ok_delete s p : heap_ok s -> heap_ok (mk_lheap (delete p (cells s)) (fresh_ptr s) (freed s)).
Proof. intros Hh q [n Hq]. cbn in Hq. apply lookup_delete_Some in Hq as [_ Hq]. apply Hh. by eexists. Qed.

(** What [NoDup] says around one element. *)
Lemma NoDup_around ps p (v : V) qs :
  NoDup (ps ++ (p, v) :: qs).*1 ->
  NoDup ps.*1 /\ NoDup qs.*1 /\ NoDup (ps ++ qs).*1 /\ (p ∉ ps.*1) /\ (p ∉ qs.*1) /\
  (forall q, q ∈ ps.*1 -> q ∉ qs.*1) /\ (forall q, q ∈ qs.*1 -> q ∉ ps.*1).
Proof.
  rewrite !fmap_app, fmap_cons. cbn. intros Hn.
  apply NoDup_app in Hn as (H1 & H2 & H3). apply NoDup_cons in H3 as [H3 H4].
  assert (forall q, q ∈ ps.*1 -> q ∉ qs.*1) as H5 by (intros q Hq Hin; apply (H2 q Hq); by right).
  split_and!; try done.
  - apply NoDup_app. by split_and!.
  - intros Hin. apply (H2 p Hin). left.
  - intros q Hq Hin. by apply (H5 q).
Qed.

Lemma seg_first_some qs a q h : seg h a qs None -> first qs None = Some q -> is_Some (h !! q).
Proof. destruct qs as [|[p v] qs]; [done|]. intros [Hp _] [= <-]. by eexists. Qed.

Lemma final_some a x ps b : exists q, final ((a, x) :: ps) b = Some q.
Proof.
  destruct ps as [|[q w] ps _] using rev_ind; [by exists a|]. exists q.
  change ((a, x) :: ps ++ [(q, w)]) with (((a, x) :: ps) ++ [(q, w)]). apply final_snoc.
Qed.

Lemma listDelNode_spec s l ps p v qs :
  listed s l (ps ++ (p, v) :: qs) -> zlen (ps ++ (p, v) :: qs) < 2 ^ 63 ->
  wp (listDelNode l p) (fun l' s' => acts s l (ps ++ (p, v) :: qs) s' l' (ps ++ qs) (released l v)) s.
Proof.
  intros [Hs Hn Hh Ht Hl Hok] Hb. pose proof (seg_mid _ _ _ _ _ Hs) as Hp.
  destruct (NoDup_around ps p v qs Hn) as (Hnp & Hnq & Hnpq & Hpp & Hpq & Hd1 & Hd2).
  apply seg_app in Hs as [Hps Hqs]. apply seg_cons_inv in Hqs as [_ Hqs].
  unfold listDelNode. apply wp_bind. eapply wp_load; [done|]. cbn [prev next lvalue].
  eapply (wp_when_load _ _ _ (fun q n => set_next q (next n))); [done|]. cbn [next].
  apply wp_bind. apply (link_next ps None (Some p)); [done|done| |done].
  intros s1 Hps1 Ht1.
  assert (cells s1 !! p = Some (mk_lnode (final ps None) (first qs None) v)) as Hp1
    by (destruct Ht1 as (_ & _ & E & _); by rewrite E).
  apply wp_bind. eapply wp_load; [done|]. cbn [prev next lvalue].
  eapply (wp_when_load _ _ _ (fun q n => set_prev q (prev n))); [done|]. cbn [prev].
  apply wp_bind. apply (link_prev qs (Some p) None); [by eapply touched_seg|done| |done].
  intros s2 Hqs2 Ht2.
  assert (cells s2 !! p = Some (mk_lnode (final ps None) (first qs None) v)) as Hp2
    by (destruct Ht2 as (_ & _ & E & _); by rewrite E).
  apply wp_bind. eapply wp_load; [done|]. cbn [prev next lvalue].
  apply wp_bind, wp_free_value. apply wp_bind, wp_free_node; [by eexists|]. apply wp_ret.
  pose proof Ht1 as (F1 & G1 & E1 & _). pose proof Ht2 as (F2 & G2 & E2 & _).
  constructor; cbn [cells fresh_ptr freed]; [|done| |lia|congruence].
  - constructor; cbn; [|done| | | |].
    + apply seg_app. split; apply seg_delete; [done| |done|done]. by eapply touched_seg.
    + rewrite Hh. destruct ps as [|[a x] ps]; [done|]. by destruct (final_some a x ps None) as [q ->].
    + rewrite Ht, !final_app. cbn. destruct qs as [|[a x] qs]; [done|]. cbn. done.
    + rewrite Hl. rewrite !zlen_app, zlen_cons in *.
      pose proof (zlen_nonneg ps). pose proof (zlen_nonneg qs). unfold u64. rewrite Z.mod_small; lia.
    + apply (heap_ok_delete (mk_lheap (cells s2) (fresh_ptr s2) (freed s2))).
      by eapply (touched_heap qs s1), touched_heap.
  - constructor; intros q; rewrite !fmap_app; cbn [fmap list_fmap fst cells]; intros Hq1 Hq2.
    + rewrite lookup_delete_ne by set_solver. by rewrite E2, E1 by set_solver.
    + set_solver.
    + assert (q = p) as -> by set_solver. apply lookup_delete_eq.
Qed.

(** ** Rotating *)

Lemma listRotate_spec s l ps p v :
  listed s l (ps ++ [(p, v)]) ->
  wp (listRotate l) (fun l' s' => acts s l (ps ++ [(p, v)]) s' l' ((p, v) :: ps) []) s.
Proof.
  intros [Hs Hn Hh Ht Hl Hok]. unfold listRotate. rewrite Hl, zlen_app, zlen_singleton.
  destruct (Z.leb_spec (zlen ps + 1) 1) as [H1|H1].
  { assert (ps = []) as -> by (destruct ps; [done|zlen_lia]). apply wp_ret.
    constructor; [by constructor|done|by constructor|lia|by rewrite app_nil_r]. }
  destruct (NoDup_around ps p v [] Hn) as (Hnp & _ & _ & Hpp & _).
  pose proof (seg_mid _ _ _ _ _ Hs) as Hp. apply seg_snoc in Hs as [Hps _].
  destruct ps as [|[a x] ps']; [zlen_lia|]. set (ps := (a, x) :: ps') in *.
  destruct (final_some a x ps' None) as [q Hq]. fold ps in Hq.
  rewrite Ht, final_snoc, Hh. cbn [lift].
  apply wp_bind. apply wp_ret. apply wp_bind. eapply wp_load; [done|]. rewrite Hq.
  apply wp_bind. apply wp_ret. cbn [prev].
  apply wp_bind. pose proof (link_next ps None (Some p) None) as Hln. rewrite Hq in Hln.
  apply Hln; clear Hln; [done|done| |done]. intros s1 Hps1 Ht1.
  apply wp_bind. apply wp_ret.
  apply wp_bind. pose proof (link_prev ps None None (Some p)) as Hlp.
  apply Hlp; clear Hlp; [done|done| |done]. intros s2 Hps2 Ht2.
  pose proof Ht1 as (F1 & G1 & E1 & _). pose proof Ht2 as (F2 & G2 & E2 & _).
  assert (cells s2 !! p = Some (mk_lnode (Some q) None v)) as Hp2.
  { rewrite E2, E1 by done. by rewrite Hp, Hq. }
  apply wp_bind. eapply wp_set_prev; [done|]. cbn [next lvalue].
  apply wp_bind. eapply wp_set_next; [apply lookup_insert_eq|]. cbn [cells prev lvalue fresh_ptr freed].
  apply wp_ret. constructor; cbn [cells fresh_ptr freed]; [|done| |lia|rewrite app_nil_r; congruence].
  - constructor; cbn [with_ends head tail len cells]; [| |done|done| |].
    + apply seg_cons_inv. cbn [seg]. rewrite lookup_insert_eq. split; [done|].
      apply seg_insert; [done|]. by apply seg_insert.
    + rewrite fmap_cons. by constructor.
    + zlen_lia.
    + intros r Hr. cbn in Hr. rewrite insert_insert_eq in Hr. cbn.
      assert (heap_ok s2) as Hok2 by (by eapply touched_heap, touched_heap).
      destruct (decide (r = p)) as [->|Hne]; [apply Hok2; by eexists|].
      rewrite lookup_insert_ne in Hr by done. by apply Hok2.
  - constructor; intros r; rewrite fmap_app; cbn [fmap list_fmap fst cells]; intros Hr1 Hr2;
      [|set_solver|set_solver].
    rewrite !lookup_insert_ne by set_solver. by rewrite E2, E1 by set_solver.
Qed.
End removing.
