(* ===== verification/AdlistRefines.v ===== *)
(** * Lists answer as sequences do

    Reading a list (iterators, indices, searching), duplicating and releasing
    it; then the refinement: a client of adlist.c gets the answers of a Rocq list,
    and after [listRelease] the heap is as it was before [listCreate]. *)

From S2P Require Import Prelude Effects Adlist AdlistSpec.

Section reading.
Context {V : Type} `{EqDecision V}.
Implicit Types (s : lheap V) (ps qs : list (Z * V)) (l : hilist V).

(** A function that only reads. *)
Definition reads {A} (m : prog (lheap V) A) s (a : A) : Prop := m s = Some (a, s).

Lemma reads_bind {A B} (m : prog (lheap V) A) (f : A -> prog (lheap V) B) s a b :
  reads m s a -> reads (f a) s b -> reads (x ← m; f x) s b.
Proof. intros Hm Hf. unfold reads. by rewrite (bind_eq _ _ _ _ _ Hm). Qed.
Lemma reads_load s p n : cells s !! p = Some n -> reads (load p) s n.
Proof. intros Hp. unfold reads, load. by rewrite Hp. Qed.
Lemma reads_ret {A} (a : A) s : reads (mret a) s a.
Proof. done. Qed.
Lemma wp_reads {A B} (m : prog (lheap V) A) (f : A -> prog (lheap V) B) (Q : B -> lheap V -> Prop) s a :
  reads m s a -> wp (f a) Q s -> wp (x ← m; f x) Q s.
Proof. intros Hm Hf. apply wp_bind. by exists a, s. Qed.

(** ** Fuel *)

Lemma walk_enough s l ps : listed s l ps -> (length ps <= base.size (cells s))%nat.
Proof.
  intros [Hs Hn _ _ _ _].
  rewrite <- (length_fmap fst ps), <- (size_list_to_set (C := gset Z) _ Hn), <- size_dom.
  apply subseteq_size. intros p Hp. apply elem_of_list_to_set in Hp.
  apply elem_of_dom. by eapply seg_in_heap.
Qed.

(** ** Iterators *)

Definition fwd ps : listIter := mk_liter (first ps None) AL_START_HEAD.
Definition bwd ps : listIter := mk_liter (final ps None) AL_START_TAIL.

Lemma next_fwd s a p v ps :
  seg (cells s) a ((p, v) :: ps) None -> reads (listNext (fwd ((p, v) :: ps))) s (Some p, fwd ps).
Proof. intros [Hp _]. eapply reads_bind; [by apply reads_load|]. done. Qed.
Lemma next_bwd s b p v ps :
  seg (cells s) None (ps ++ [(p, v)]) b ->
  reads (listNext (bwd (ps ++ [(p, v)]))) s (Some p, bwd ps).
Proof.
  intros Hs. apply seg_snoc in Hs as [_ Hp]. unfold bwd. rewrite final_snoc.
  eapply reads_bind; [by apply reads_load|]. done.
Qed.

(** What a client reads with an iterator. *)
Fixpoint values (fuel : nat) (it : listIter) : prog (lheap V) (list V) :=
  match fuel with
  | O => fault
  | S fuel' =>
      r ← listNext it;
      match r.1 with
      | None => mret []
      | Some p => n ← load p; vs ← values fuel' r.2; mret (lvalue n :: vs)
      end
  end.

Lemma values_fwd s ps : forall a fuel,
  seg (cells s) a ps None -> (length ps < fuel)%nat -> reads (values fuel (fwd ps)) s ps.*2.
Proof.
  induction ps as [|[p v] ps IH]; intros a fuel Hs Hf; (destruct fuel as [|fuel]; [cbn in Hf; lia|]);
    cbn [values]; [done|].
  eapply reads_bind; [by eapply next_fwd|]. destruct Hs as [Hp Hs].
  eapply reads_bind; [by apply reads_load|]. cbn in Hf.
  eapply reads_bind; [eapply IH; [done|lia]|]. done.
Qed.
Lemma values_bwd s ps : forall b fuel,
  seg (cells s) None ps b -> (length ps < fuel)%nat -> reads (values fuel (bwd ps)) s (reverse ps.*2).
Proof.
  induction ps as [|[p v] ps IH] using rev_ind; intros b fuel Hs Hf;
    (destruct fuel as [|fuel]; [cbn in Hf; lia|]); cbn [values]; [done|].
  rewrite length_app in Hf. cbn in Hf.
  eapply reads_bind; [by eapply next_bwd|]. apply seg_snoc in Hs as [Hs Hp].
  eapply reads_bind; [by apply reads_load|].
  eapply reads_bind; [eapply IH; [done|lia]|].
  unfold reads. by rewrite fmap_app, (reverse_snoc ps.*2 v).
Qed.

(** ** Searching and indexing *)

Lemma search_spec s l key ps : forall a fuel,
  seg (cells s) a ps None -> (length ps < fuel)%nat ->
  reads (search_from fuel l key (fwd ps)) s (fst <$> find (fun x => matches l x.2 key) ps).
Proof.
  induction ps as [|[p v] ps IH]; intros a fuel Hs Hf; (destruct fuel as [|fuel]; [cbn in Hf; lia|]);
    cbn [search_from find]; [done|].
  eapply reads_bind; [by eapply next_fwd|]. destruct Hs as [Hp Hs].
  eapply reads_bind; [by apply reads_load|]. cbn [lvalue snd]. cbn in Hf.
  destruct (matches l v key); [done|]. eapply IH; [done|lia].
Qed.

Lemma index_fwd s ps : forall a fuel i,
  seg (cells s) a ps None -> (length ps < fuel)%nat -> 0 <= i < 2 ^ 63 ->
  reads (index_loop fuel next i (first ps None)) s (fst <$> ps !! Z.to_nat i).
Proof.
  induction ps as [|[p v] ps IH]; intros a fuel i Hs Hf Hi; (destruct fuel as [|fuel]; [cbn in Hf; lia|]);
    cbn [index_loop first].
  - by destruct (i =? 0).
  - destruct (Z.eqb_spec i 0) as [->|Hne]; [done|].
    destruct Hs as [Hp Hs]. eapply reads_bind; [by apply reads_load|]. cbn [next]. cbn in Hf.
    rewrite i64_small by lia. replace (Z.to_nat i) with (S (Z.to_nat (i - 1))) by lia.
    eapply IH; [done|lia|lia].
Qed.
Lemma index_bwd s ps : forall b fuel i,
  seg (cells s) None ps b -> (length ps < fuel)%nat -> 0 <= i < 2 ^ 63 ->
  reads (index_loop fuel prev i (final ps None)) s (fst <$> reverse ps !! Z.to_nat i).
Proof.
  induction ps as [|[p v] ps IH] using rev_ind; intros b fuel i Hs Hf Hi;
    (destruct fuel as [|fuel]; [cbn in Hf; lia|]); cbn [index_loop].
  - by destruct (i =? 0).
  - rewrite final_snoc, reverse_snoc. destruct (Z.eqb_spec i 0) as [->|Hne]; [done|].
    apply seg_snoc in Hs as [Hs Hp]. eapply reads_bind; [by apply reads_load|]. cbn [prev].
    rewrite length_app in Hf. cbn in Hf.
    rewrite i64_small by lia. replace (Z.to_nat i) with (S (Z.to_nat (i - 1))) by lia.
    eapply IH; [done|lia|lia].
Qed.

(** The element at an index, negative ones from the tail. *)
Definition at_index {A} (xs : list A) (i : Z) : option A :=
  if i <? 0 then reverse xs !! Z.to_nat (- i - 1) else xs !! Z.to_nat i.

Lemma listIndex_spec s l ps i :
  listed s l ps -> - 2 ^ 63 < i < 2 ^ 63 -> reads (listIndex l i) s (fst <$> at_index ps i).
Proof.
  intros Hl Hi. pose proof (walk_enough s l ps Hl). destruct Hl as [Hs _ Hh Ht _ _].
  unfold listIndex, at_index. eapply reads_bind; [unfold reads, walk_fuel, gets; reflexivity|].
  destruct (Z.ltb_spec i 0).
  - rewrite !i64_small by (rewrite ?i64_small; lia). rewrite Ht. eapply index_bwd; [done|lia|lia].
  - rewrite Hh. eapply index_fwd; [done|lia|lia].
Qed.


(** ** Releasing *)

Definition released_all l (vs : list V) : list V := if free l then vs else [].

Lemma frame_refl ps s : frame ps ps s s.
Proof. by constructor. Qed.
Lemma frame_trans ps qs rs s1 s2 s3 : frame ps qs s1 s2 -> frame qs rs s2 s3 -> frame ps rs s1 s3.
Proof.
  intros [A1 A2 A3] [B1 B2 B3]. constructor; intros q H1 H2; destruct (decide (q ∈ qs.*1)) as [Hq|Hq].
  - rewrite B3, A2 by done. done.
  - by rewrite B1, A1.
  - by apply A2.
  - rewrite <- A1 by done. by apply B2.
  - by apply B3.
  - rewrite B1 by done. by apply A3.
Qed.

(** A node that was there is still there, and none of those that came. *)
Lemma frame_stays ps qs s s' p :
  frame ps qs s s' -> p ∉ ps.*1 -> is_Some (cells s !! p) -> (p ∉ qs.*1) /\ cells s' !! p = cells s !! p.
Proof.
  intros [F1 F2 F3] Hp [n Hs]. assert (p ∉ qs.*1) as Hq.
  { intros Hq. rewrite F2 in Hs by done. done. }
  split; [done|]. by apply F1.
Qed.

Lemma release_from_spec l ps : forall s a,
  seg (cells s) a ps None -> NoDup ps.*1 -> heap_ok s ->
  wp (release_from (length ps) l (first ps None)) (fun _ s' =>
    frame ps [] s s' /\ heap_ok s' /\ fresh_ptr s' = fresh_ptr s /\
    freed s' = freed s ++ released_all l ps.*2) s.
Proof.
  induction ps as [|[p v] ps IH]; intros s a Hs Hn Hok; cbn [length release_from first].
  { apply wp_ret. split_and!; [apply frame_refl|done|done|].
    unfold released_all. destruct (free l); by rewrite app_nil_r. }
  destruct Hs as [Hp Hs]. rewrite fmap_cons in Hn. apply NoDup_cons in Hn as [Hpn Hn].
  apply wp_bind, wp_ret. apply wp_bind. eapply wp_load; [done|]. cbn [next lvalue].
  apply wp_bind, wp_free_value. apply wp_bind, wp_free_node; [by eexists|]. cbn [cells fresh_ptr freed].
  eapply wp_mono; [apply (IH _ (Some p)); [by apply seg_delete|done|by apply (heap_ok_delete s)]|].
  cbn [cells fresh_ptr freed]. intros _ s' ([F1 F2 F3] & Hok' & Hf & Hfr).
  split_and!; [|done|done|].
  - cbn [cells] in *. constructor; intros q; cbn [fmap list_fmap fst]; intros H1 H2; [|set_solver|].
    + rewrite F1 by set_solver. apply lookup_delete_ne. set_solver.
    + destruct (decide (q ∈ ps.*1)); [by apply F3|]. rewrite F1 by done.
      assert (q = p) as -> by set_solver. apply lookup_delete_eq.
  - rewrite Hfr, <- app_assoc. unfold released, released_all. by destruct (free l).
Qed.

Lemma listRelease_spec s l ps :
  listed s l ps ->
  wp (listRelease l) (fun _ s' => frame ps [] s s' /\ heap_ok s' /\ fresh_ptr s' = fresh_ptr s /\
    freed s' = freed s ++ released_all l ps.*2) s.
Proof.
  intros [Hs Hn Hh _ Hl Hok]. unfold listRelease. rewrite Hl, Hh. unfold zlen. rewrite Nat2Z.id.
  by eapply release_from_spec.
Qed.

(** ** Duplicating *)

Context (malloc_ok : Z -> bool) (Hmem : forall n, malloc_ok n = true).

Lemma listSearchKey_spec s l ps key :
  listed s l ps -> reads (listSearchKey malloc_ok l key) s (fst <$> find (fun x => matches l x.2 key) ps).
Proof.
  intros Hl. pose proof (walk_enough s l ps Hl). destruct Hl as [Hs _ Hh Ht _ _].
  unfold listSearchKey, listGetIterator. rewrite Hmem. cbn [negb lift].
  eapply reads_bind; [apply reads_ret|]. cbn [AL_START_HEAD Z.eqb].
  eapply reads_bind; [unfold reads, walk_fuel, gets; reflexivity|]. rewrite Hh.
  eapply search_spec; [done|lia].
Qed.

Definition dup_value l (v : V) : option V := match dup l with Some f => f v | None => Some v end.

(** The copies made when the first failure comes. *)
Fixpoint copied l (vs : list V) : list V :=
  match vs with
  | [] => []
  | v :: vs' => match dup_value l v with Some w => w :: copied l vs' | None => [] end
  end.

Definition dup_post s copy cs (vs : list V) (r : option (hilist V)) s' : Prop :=
  match mapM (dup_value copy) vs with
  | Some ws => exists copy' qs, r = Some copy' /\ acts s copy cs s' copy' qs [] /\ qs.*2 = cs.*2 ++ ws
  | None => r = None /\ frame cs [] s s' /\ heap_ok s' /\ fresh_ptr s <= fresh_ptr s' /\
      freed s' = freed s ++ released_all copy (cs.*2 ++ copied copy vs)
  end.

Lemma dup_loop_spec rs : forall fuel s copy cs a,
  seg (cells s) a rs None -> (forall q, q ∈ rs.*1 -> q ∉ cs.*1) -> listed s copy cs ->
  zlen cs + zlen rs < 2 ^ 63 -> (length rs < fuel)%nat ->
  wp (dup_loop malloc_ok fuel (fwd rs) copy) (dup_post s copy cs rs.*2) s.
Proof.
  induction rs as [|[p v] rs IH]; intros fuel s copy cs a Hs Hd Hl Hz Hf;
    (destruct fuel as [|fuel]; [cbn in Hf; lia|]); cbn [dup_loop].
  { eapply wp_reads; [done|]. apply wp_ret. exists copy, cs. split_and!; [done| |by rewrite app_nil_r].
    constructor; [done|done|apply frame_refl|lia|by rewrite app_nil_r]. }
  eapply wp_reads; [by eapply next_fwd|]. destruct Hs as [Hp Hs].
  eapply wp_reads; [by apply reads_load|]. cbn [lvalue]. fold (dup_value copy v).
  cbn in Hf. unfold dup_post. cbn [fmap list_fmap snd mapM copied].
  destruct (dup_value copy v) as [w|]; cbn [mbind option_bind].
  2:{ apply wp_bind. eapply wp_mono; [by apply listRelease_spec|].
      intros _ s' (Hfr & Hok & E1 & E2). apply wp_ret. rewrite app_nil_r. split_and!; try done. lia. }
  apply wp_bind. eapply wp_mono; [apply listAddNodeTail_spec; [done|done|zlen_lia]|].
  intros c s1 (copy1 & q & -> & [Hl1 Hm1 Hfr1 Hf1 Hfd1]). rewrite app_nil_r in Hfd1.
  assert (forall r, r ∈ rs.*1 -> (r ∉ (cs ++ [(q, w)]).*1) /\ cells s1 !! r = cells s !! r) as Hstay.
  { intros r Hr. eapply frame_stays; [exact Hfr1| |by eapply seg_in_heap].
    apply Hd. cbn. by right. }
  eapply wp_mono; [apply (IH fuel s1 copy1 (cs ++ [(q, w)]) (Some p)); [|by intros; apply Hstay|done| |lia]|].
  { apply (seg_same (cells s)); [|done]. intros r Hr. by apply Hstay. }
  { rewrite zlen_app. zlen_lia. }
  intros r s2. unfold dup_post.
  destruct Hm1 as (M1 & M2 & M3).
  assert (dup_value copy1 = dup_value copy) as -> by (unfold dup_value; by rewrite M1).
  assert (forall vs, copied copy1 vs = copied copy vs) as Hc.
  { intros vs. induction vs as [|x vs IHv]; [done|]. cbn. unfold dup_value at 1 2. rewrite M1.
    fold (dup_value copy x). destruct (dup_value copy x); [by rewrite IHv|done]. }
  rewrite fmap_app. cbn [fmap list_fmap snd].
  destruct (mapM (dup_value copy) _) as [ws|]; cbn [mret option_ret].
  - intros (copy' & qs & -> & [Hl2 (N1 & N2 & N3) Hfr2 Hf2 Hfd2] & Hq).
    exists copy', qs. split_and!; [done| |by rewrite Hq, <- app_assoc].
    constructor; [done| |by eapply frame_trans|lia|congruence].
    split_and!; congruence.
  - intros (-> & Hfr2 & Hok2 & Hf2 & Hfd2). split_and!; [done|by eapply frame_trans|done|lia|].
    rewrite Hfd2, Hfd1, Hc, <- app_assoc. unfold released_all. by rewrite M2.
Qed.

(** A copy of the list, or what was copied is freed; the list is still there. *)
Lemma listDup_spec s l ps :
  listed s l ps -> zlen ps < 2 ^ 63 ->
  wp (listDup malloc_ok l) (fun r s' => listed s' l ps /\
    dup_post s (with_ends l None None 0) [] ps.*2 r s') s.
Proof.
  intros Hl Hz. pose proof (walk_enough s l ps Hl) as Hw. pose proof Hl as [Hs Hn Hh Ht Hln Hok].
  unfold listDup, listCreate. rewrite Hmem. cbn [head tail len].
  unfold listGetIterator. rewrite Hmem. cbn [negb lift].
  apply wp_bind, wp_ret. eapply wp_reads; [done|].
  cbn [AL_START_HEAD Z.eqb]. rewrite Hh.
  eapply wp_mono; [apply (dup_loop_spec ps _ s (with_ends l None None 0) [] None); [done| | | |lia]|].
  - intros q _. apply not_elem_of_nil.
  - constructor; [done|constructor|done|done|done|done].
  - zlen_lia.
  - intros r s' Hp. split; [|done].
    assert (exists qs, frame [] qs s s' /\ heap_ok s') as (qs & Hfr & Hok').
    { unfold dup_post in Hp. destruct (mapM _ _).
      - destruct Hp as (c & qs & _ & [[] _ Hfr _ _] & _). by exists qs.
      - destruct Hp as (_ & Hfr & ? & _). by exists []. }
    constructor; try done. apply (seg_same (cells s)); [|done]. intros p Hp'.
    apply (frame_stays [] qs); [done|apply not_elem_of_nil|]. by eapply seg_in_heap.
Qed.
End reading.

(** ** A client *)

Inductive list_op (V : Type) :=
| AddHead (v : V)
| AddTail (v : V)
| InsertAt (i : Z) (v : V) (after : bool)
| DeleteAt (i : Z)
| DeleteKey (key : V)
| ValueAt (i : Z)
| Rotate
| Read (direction : Z)
| Copy.
Arguments AddHead {V}.
Arguments AddTail {V}.
Arguments InsertAt {V}.
Arguments DeleteAt {V}.
Arguments DeleteKey {V}.
Arguments ValueAt {V}.
Arguments Rotate {V}.
Arguments Read {V}.
Arguments Copy {V}.

(** The methods of a list: [listSetDupMethod], [listSetFreeMethod] and
    [listSetMatchMethod]. *)
Record methods (V : Type) := mk_methods {
  m_dup : option (V -> option V);
  m_free : bool;
  m_match : option (V -> V -> bool)
}.
Arguments mk_methods {V}.
Arguments m_dup {V}.
Arguments m_free {V}.
Arguments m_match {V}.

Section client.
Context {V : Type} `{EqDecision V} (malloc_ok : Z -> bool) (Hmem : forall n, malloc_ok n = true).
Implicit Types (s : lheap V) (l : hilist V) (ps : list (Z * V)) (xs : list V).

(** The list after the operation, and the values it showed; NULL is none. *)
Definition run_op l (o : list_op V) : prog (lheap V) (hilist V * option (list V)) :=
  match o with
  | AddHead v => c ← listAddNodeHead malloc_ok l v; l' ← lift c; mret (l', Some [])
  | AddTail v => c ← listAddNodeTail malloc_ok l v; l' ← lift c; mret (l', Some [])
  | InsertAt i v after =>
      p ← listIndex l i;
      match p with
      | None => mret (l, None)
      | Some p => c ← listInsertNode malloc_ok l p v after; l' ← lift c; mret (l', Some [])
      end
  | DeleteAt i =>
      p ← listIndex l i;
      match p with
      | None => mret (l, None)
      | Some p => l' ← listDelNode l p; mret (l', Some [])
      end
  | DeleteKey key =>
      p ← listSearchKey malloc_ok l key;
      match p with
      | None => mret (l, None)
      | Some p => n ← load p; l' ← listDelNode l p; mret (l', Some [lvalue n])
      end
  | ValueAt i =>
      p ← listIndex l i;
      match p with
      | None => mret (l, None)
      | Some p => n ← load p; mret (l, Some [lvalue n])
      end
  | Rotate => l' ← listRotate l; mret (l', Some [])
  | Read dir =>
      it ← lift (listGetIterator malloc_ok l dir);
      fuel ← walk_fuel;
      vs ← values fuel it;
      mret (l, Some vs)
  | Copy =>
      c ← listDup malloc_ok l;
      match c with
      | None => mret (l, None)
      | Some c =>
          fuel ← walk_fuel;
          vs ← values fuel (listRewind c);
          _ ← listRelease c;
          mret (l, Some vs)
      end
  end.

Fixpoint run_list l (os : list (list_op V)) : prog (lheap V) (hilist V * list (option (list V))) :=
  match os with
  | [] => mret (l, [])
  | o :: os' => r ← run_op l o; r' ← run_list r.1 os'; mret (r'.1, r.2 :: r'.2)
  end.

Definition client (m : methods V) (os : list (list_op V)) : prog (lheap V) (list (option (list V))) :=
  l ← lift (listCreate (V := V) malloc_ok);
  r ← run_list (listSetMatchMethod (listSetFreeMethod (listSetDupMethod l (m_dup m)) (m_free m)) (m_match m)) os;
  _ ← listRelease r.1;
  mret r.2.

(** ** The sequence *)

(** The position that an index names. *)
Definition pos (n i : Z) : option nat :=
  let k := if i <? 0 then n + i else i in
  if (0 <=? k) && (k <? n) then Some (Z.to_nat k) else None.

Definition matches_of (m : methods V) (key v : V) : bool :=
  match m_match m with Some f => f v key | None => bool_decide (key = v) end.
Definition dup_of (m : methods V) (v : V) : option V :=
  match m_dup m with Some f => f v | None => Some v end.
Definition freed_of (m : methods V) xs : list V := if m_free m then xs else [].
Fixpoint copied_of (m : methods V) xs : list V :=
  match xs with
  | [] => []
  | v :: xs' => match dup_of m v with Some w => w :: copied_of m xs' | None => [] end
  end.
Fixpoint split_first (f : V -> bool) xs : option (list V * V * list V) :=
  match xs with
  | [] => None
  | v :: xs' =>
      if f v then Some ([], v, xs') else
      '(a, w, b) ← split_first f xs'; Some (v :: a, w, b)
  end.

(** The sequence after the operation, the answer, and the values given to the free
    method. *)
Definition seq_op (m : methods V) xs (o : list_op V) : list V * option (list V) * list V :=
  match o with
  | AddHead v => (v :: xs, Some [], [])
  | AddTail v => (xs ++ [v], Some [], [])
  | InsertAt i v after =>
      match pos (zlen xs) i with
      | Some k => let k := if after then S k else k in (take k xs ++ v :: drop k xs, Some [], [])
      | None => (xs, None, [])
      end
  | DeleteAt i =>
      match pos (zlen xs) i with
      | Some k => (take k xs ++ drop (S k) xs, Some [], freed_of m (take 1 (drop k xs)))
      | None => (xs, None, [])
      end
  | DeleteKey key =>
      match split_first (matches_of m key) xs with
      | Some (a, v, b) => (a ++ b, Some [v], freed_of m [v])
      | None => (xs, None, [])
      end
  | ValueAt i =>
      match pos (zlen xs) i with Some k => (xs, Some (take 1 (drop k xs)), []) | None => (xs, None, []) end
  | Rotate => (match reverse xs with v :: r => v :: reverse r | [] => [] end, Some [], [])
  | Read dir => (xs, Some (if dir =? AL_START_HEAD then xs else reverse xs), [])
  | Copy => (xs, mapM (dup_of m) xs, freed_of m (copied_of m xs))
  end.

Fixpoint seq_run (m : methods V) xs (os : list (list_op V)) : list (option (list V)) * list V :=
  match os with
  | [] => ([], freed_of m xs)
  | o :: os' =>
      let '(xs', a, f) := seq_op m xs o in
      let r := seq_run m xs' os' in (a :: r.1, f ++ r.2)
  end.

(** ** Refinement *)

Definition has_methods l (m : methods V) : Prop :=
  dup l = m_dup m /\ free l = m_free m /\ lmatch l = m_match m.

Lemma same_methods_has l l' m : same_methods l l' -> has_methods l m -> has_methods l' m.
Proof. intros (? & ? & ?) (? & ? & ?). split_and!; congruence. Qed.

Lemma zlen_values ps : zlen ps.*2 = zlen ps.
Proof. unfold zlen. by rewrite length_fmap. Qed.

Lemma pos_at {A} (xs : list A) i :
  match pos (zlen xs) i with
  | Some k => exists a x b, xs = a ++ x :: b /\ k = length a /\ at_index xs i = Some x
  | None => at_index xs i = None
  end.
Proof.
  unfold pos, at_index. pose proof (zlen_nonneg xs). destruct (Z.ltb_spec i 0) as [Hi|Hi].
  - destruct (Z.leb_spec 0 (zlen xs + i)); cbn [andb].
    + destruct (Z.ltb_spec (zlen xs + i) (zlen xs)); [|lia].
      destruct (lookup_lt_is_Some_2 xs (Z.to_nat (zlen xs + i))) as [x Hx]; [unfold zlen in *; lia|].
      exists (take (Z.to_nat (zlen xs + i)) xs), x, (drop (S (Z.to_nat (zlen xs + i))) xs).
      split_and!; [by rewrite take_drop_middle|rewrite length_take; unfold zlen in *; lia|].
      rewrite reverse_lookup by (unfold zlen in *; lia). rewrite <- Hx. f_equal. unfold zlen in *. lia.
    + apply lookup_ge_None_2. rewrite length_reverse. unfold zlen in *. lia.
  - destruct (Z.leb_spec 0 i); [|lia]. cbn [andb]. destruct (Z.ltb_spec i (zlen xs)).
    + destruct (lookup_lt_is_Some_2 xs (Z.to_nat i)) as [x Hx]; [unfold zlen in *; lia|].
      exists (take (Z.to_nat i) xs), x, (drop (S (Z.to_nat i)) xs).
      split_and!; [by rewrite take_drop_middle|rewrite length_take; unfold zlen in *; lia|done].
    + apply lookup_ge_None_2. unfold zlen in *. lia.
Qed.

Lemma wp_index {B} l s ps i (K : option Z -> prog (lheap V) B) (Q : B -> lheap V -> Prop) :
  listed s l ps -> - 2 ^ 63 < i < 2 ^ 63 ->
  match pos (zlen ps) i with
  | Some k => forall ps1 p v ps2, ps = ps1 ++ (p, v) :: ps2 -> k = length ps1 -> wp (K (Some p)) Q s
  | None => wp (K None) Q s
  end ->
  wp (x ← listIndex l i; K x) Q s.
Proof.
  intros Hl Hi HK. eapply wp_reads; [by apply listIndex_spec|]. pose proof (pos_at ps i) as Hp.
  destruct (pos (zlen ps) i) as [k|].
  - destruct Hp as (a & [p v] & b & E & Hk & ->). by eapply HK.
  - by rewrite Hp.
Qed.

Lemma find_split (f : V -> bool) ps :
  match split_first f ps.*2 with
  | Some (a, v, b) => exists ps1 p ps2, ps = ps1 ++ (p, v) :: ps2 /\ a = ps1.*2 /\ b = ps2.*2 /\
      find (fun x => f x.2) ps = Some (p, v)
  | None => find (fun x => f x.2) ps = None
  end.
Proof.
  induction ps as [|[p v] ps IH]; [done|]. cbn [fmap list_fmap snd split_first find].
  destruct (f v); [by exists [], p, ps|]. destruct (split_first f ps.*2) as [[[a w] b]|]; [|done].
  destruct IH as (ps1 & q & ps2 & -> & -> & -> & Hf). cbn. by exists ((p, v) :: ps1), q, ps2.
Qed.

(** The operations a client may use, and how long lists get. *)
Definition op_ok (o : list_op V) : Prop :=
  match o with
  | InsertAt i _ _ | DeleteAt i | ValueAt i => - 2 ^ 63 < i < 2 ^ 63
  | Read dir => dir = AL_START_HEAD \/ dir = AL_START_TAIL
  | _ => True
  end.

Definition op_post (m : methods V) s l ps (o : list_op V) (r : hilist V * option (list V)) s' : Prop :=
  let '(xs, a, f) := seq_op m ps.*2 o in
  r.2 = a /\ exists ps', ps'.*2 = xs /\ acts s l ps s' r.1 ps' f.

Lemma acts_refl s l ps : listed s l ps -> acts s l ps s l ps [].
Proof. intros Hl. constructor; [done|done|apply frame_refl|lia|by rewrite app_nil_r]. Qed.

Lemma take_values ps1 p v ps2 n :
  n = length ps1 -> take n (ps1 ++ (p, v) :: ps2).*2 = ps1.*2.
Proof. intros ->. rewrite fmap_app. apply take_app_length'. by rewrite length_fmap. Qed.
Lemma drop_values ps1 p v ps2 n :
  n = length ps1 -> drop n (ps1 ++ (p, v) :: ps2).*2 = v :: ps2.*2.
Proof. intros ->. rewrite fmap_app. apply drop_app_length'. by rewrite length_fmap. Qed.

(** A node was made; the function returns the list. *)
Lemma wp_added s l ps (M : prog (lheap V) (option (hilist V))) (ps' : Z -> list (Z * V)) m o xs :
  wp M (fun r s' => exists l' p, r = Some l' /\ acts s l ps s' l' (ps' p) []) s ->
  (forall p, (ps' p).*2 = xs) -> seq_op m ps.*2 o = (xs, Some [], []) ->
  wp (c ← M; l' ← lift c; mret (l', Some [])) (op_post m s l ps o) s.
Proof.
  intros Hm Hxs Ho. apply wp_bind. eapply wp_mono; [exact Hm|]. intros r s' (l' & p & -> & Ha).
  apply wp_bind, wp_ret, wp_ret. unfold op_post. rewrite Ho. split; [done|]. by exists (ps' p).
Qed.

Lemma wp_deleted s l ps1 p v ps2 m o a :
  listed s l (ps1 ++ (p, v) :: ps2) -> zlen (ps1 ++ (p, v) :: ps2) < 2 ^ 63 -> has_methods l m ->
  seq_op m (ps1 ++ (p, v) :: ps2).*2 o = (ps1.*2 ++ ps2.*2, a, freed_of m [v]) ->
  wp (l' ← listDelNode l p; mret (l', a)) (op_post m s l (ps1 ++ (p, v) :: ps2) o) s.
Proof.
  intros Hl Hz (_ & Hf & _) Ho. apply wp_bind. eapply wp_mono; [by apply listDelNode_spec|].
  intros l' s' Ha. apply wp_ret. unfold op_post. rewrite Ho. split; [done|].
  exists (ps1 ++ ps2). split; [by rewrite fmap_app|]. unfold released in Ha. rewrite Hf in Ha. done.
Qed.

Lemma wp_unchanged s l ps m o a :
  listed s l ps -> seq_op m ps.*2 o = (ps.*2, a, []) ->
  wp (mret (l, a)) (op_post m s l ps o) s.
Proof.
  intros Hl Ho. apply wp_ret. unfold op_post. rewrite Ho. split; [done|]. exists ps.
  split; [done|]. by apply acts_refl.
Qed.

Lemma copied_all m xs : forall ws, mapM (dup_of m) xs = Some ws -> copied_of m xs = ws.
Proof.
  induction xs as [|v xs IH]; intros ws Hw; [by injection Hw as <-|].
  apply mapM_Some in Hw. inversion Hw as [|? w ? ws' Hv Hr]; subst. cbn. rewrite Hv. f_equal.
  apply IH. by apply mapM_Some.
Qed.

Lemma copy_op s l ps m :
  listed s l ps -> zlen ps < 2 ^ 63 -> has_methods l m ->
  wp (run_op l Copy) (op_post m s l ps Copy) s.
Proof.
  intros Hl Hz (M1 & M2 & M3). cbn [run_op].
  apply wp_bind. eapply wp_mono; [by apply listDup_spec|]. intros r s1 (Hl1 & Hd).
  unfold op_post, dup_post in *. cbn [seq_op].
  assert (mapM (dup_value (with_ends l None None 0)) ps.*2 = mapM (dup_of m) ps.*2) as E.
  { apply mapM_ext. intros v. unfold dup_value, dup_of. cbn. by rewrite M1. }
  assert (forall vs, copied (with_ends l None None 0) vs = copied_of m vs) as Ec.
  { induction vs as [|v vs IH]; [done|]. cbn. unfold dup_value at 1, dup_of. cbn. rewrite M1.
    destruct (match m_dup m with Some f => f v | None => Some v end); [by rewrite IH|done]. }
  rewrite E in Hd. destruct (mapM (dup_of m) ps.*2) as [ws|] eqn:Em.
  - destruct Hd as (c & qs & -> & Hac & Hq). destruct Hac as [Hlc (N1 & N2 & N3) Hfr Hfp Hfd].
    cbn [app fmap list_fmap] in Hq.
    eapply wp_reads; [done|]. pose proof (walk_enough _ _ _ Hlc).
    pose proof Hlc as [Hsq _ Hhq _ _ _].
    eapply wp_reads.
    { unfold listRewind. rewrite Hhq. eapply values_fwd; [done|lia]. }
    apply wp_bind. eapply wp_mono; [by apply listRelease_spec|].
    intros _ s2 (Hfr2 & Hok2 & Hf2 & Hfd2). apply wp_ret. cbn [fst snd]. split; [by rewrite Hq|].
    exists ps. split; [done|].
    assert (forall q, cells s2 !! q = cells s !! q) as Hsame.
    { intros q. assert (frame [] [] s s2) as [F _ _] by by eapply frame_trans.
      apply F; apply not_elem_of_nil. }
    constructor; [|done|by constructor|lia|].
    + destruct Hl as [Hs Hn Hh Ht Hln Hok]. constructor; try done.
      apply (seg_same (cells s)); [|done]. intros; apply Hsame.
    + rewrite Hfd2, Hfd, app_nil_r, Hq. unfold released_all, freed_of. rewrite N2. cbn. rewrite M2.
      f_equal. destruct (m_free m); [|done]. by rewrite (copied_all _ _ _ Em).
  - destruct Hd as (-> & Hfr & Hok & Hfp & Hfd). apply wp_ret. cbn [fst snd]. split; [done|].
    exists ps. split; [done|]. destruct Hfr as [F _ _].
    assert (forall q, cells s1 !! q = cells s !! q) as Hsame by (intros q; apply F; apply not_elem_of_nil).
    constructor; [done|done|by constructor|done|]. rewrite Hfd. unfold released_all, freed_of. cbn.
    by rewrite M2, Ec.
Qed.

(** Inserting and deleting by key. *)
Lemma insert_op m s l ps i v after :
  listed s l ps -> has_methods l m -> - 2 ^ 63 < i < 2 ^ 63 -> zlen ps < 2 ^ 63 ->
  wp (run_op l (InsertAt i v after)) (op_post m s l ps (InsertAt i v after)) s.
Proof.
  intros Hl Hm Hi Hz. cbn [run_op].
  eapply wp_index; [done|done|].
  destruct (pos (zlen ps) i) as [k|] eqn:E.
  2:{ apply wp_unchanged; [done|]. cbn [seq_op]. by rewrite zlen_values, E. }
  intros ps1 p w ps2 -> ->. destruct after.
  - apply (wp_added _ _ _ _ (fun q => ps1 ++ (p, w) :: (q, v) :: ps2) _ _ (ps1.*2 ++ w :: v :: ps2.*2));
      [by apply listInsertNode_after|intros q; by rewrite fmap_app|].
    cbn [seq_op]. rewrite zlen_values, E.
    assert ((ps1 ++ (p, w) :: ps2).*2 = (ps1.*2 ++ [w]) ++ ps2.*2) as -> by
      by rewrite fmap_app, <- app_assoc.
    rewrite take_app_length', drop_app_length' by (rewrite length_app, length_fmap; cbn; lia).
    by rewrite <- app_assoc.
  - apply (wp_added _ _ _ _ (fun q => ps1 ++ (q, v) :: (p, w) :: ps2) _ _ (ps1.*2 ++ v :: w :: ps2.*2));
      [by apply listInsertNode_before|intros q; by rewrite fmap_app|].
    cbn [seq_op]. rewrite zlen_values, E. by rewrite take_values, (drop_values ps1).
Qed.
Lemma delete_key_op m s l ps key :
  listed s l ps -> has_methods l m -> zlen ps < 2 ^ 63 ->
  wp (run_op l (DeleteKey key)) (op_post m s l ps (DeleteKey key)) s.
Proof.
  intros Hl Hm Hz. cbn [run_op].
  eapply wp_reads; [by eapply listSearchKey_spec|].
  pose proof (find_split (matches_of m key) ps) as Hf.
  assert ((fun x : Z * V => matches l x.2 key) = (fun x => matches_of m key x.2)) as ->.
  { destruct Hm as (_ & _ & M3). unfold matches, matches_of. by rewrite M3. }
  destruct (split_first (matches_of m key) ps.*2) as [[[a w] b]|] eqn:E.
  - destruct Hf as (ps1 & p & ps2 & -> & -> & -> & ->). cbn [fmap option_fmap option_map fst].
    eapply wp_reads; [apply reads_load; eapply seg_mid; apply Hl|]. cbn [lvalue].
    apply wp_deleted; [done|done|done|]. cbn [seq_op]. by rewrite E.
  - rewrite Hf. apply wp_unchanged; [done|]. cbn [seq_op]. by rewrite E.
Qed.

Lemma run_op_spec m s l ps o :
  listed s l ps -> has_methods l m -> op_ok o -> zlen ps < 2 ^ 63 ->
  wp (run_op l o) (op_post m s l ps o) s.
Proof.
  intros Hl Hm Ho Hz. destruct o as [v|v|i v after|i|key|i| |dir|]; cbn [run_op].
  - eapply wp_added; [by apply listAddNodeHead_spec| |done]. done.
  - eapply wp_added; [by apply listAddNodeTail_spec| |done]. intros p. cbn beta. by rewrite fmap_app.
  - by apply insert_op.
  - eapply wp_index; [done|done|].
    destruct (pos (zlen ps) i) as [k|] eqn:E.
    2:{ apply wp_unchanged; [done|]. cbn [seq_op]. by rewrite zlen_values, E. }
    intros ps1 p w ps2 -> ->. apply wp_deleted; [done|done|done|].
    cbn [seq_op]. rewrite zlen_values, E, take_values, (drop_values ps1 p w ps2 (length ps1)) by done.
    assert ((ps1 ++ (p, w) :: ps2).*2 = (ps1.*2 ++ [w]) ++ ps2.*2) as -> by
      by rewrite fmap_app, <- app_assoc.
    rewrite drop_app_length' by (rewrite length_app, length_fmap; cbn; lia). done.
  - by apply delete_key_op.
  - eapply wp_index; [done|done|].
    destruct (pos (zlen ps) i) as [k|] eqn:E.
    2:{ apply wp_unchanged; [done|]. cbn [seq_op]. by rewrite zlen_values, E. }
    intros ps1 p w ps2 -> ->.
    eapply wp_reads; [apply reads_load; eapply seg_mid; apply Hl|]. cbn [lvalue].
    apply wp_unchanged; [done|]. cbn [seq_op]. rewrite zlen_values, E. by rewrite (drop_values ps1).
  - unfold op_post. cbn [seq_op]. destruct ps as [|[p v] ps _] using rev_ind.
    + apply wp_bind. unfold listRotate. pose proof Hl as [_ _ _ _ Hln _]. rewrite Hln.
      apply wp_ret, wp_ret. split; [done|]. exists []. split; [done|]. by apply acts_refl.
    + apply wp_bind. eapply wp_mono; [by apply listRotate_spec|]. intros l' s' Ha. apply wp_ret.
      rewrite fmap_app, (reverse_snoc ps.*2 v), reverse_involutive. split; [done|]. by exists ((p, v) :: ps).
  - pose proof (walk_enough _ _ _ Hl). pose proof Hl as [Hs _ Hh Ht _ _].
    unfold listGetIterator. rewrite Hmem. cbn [negb lift]. apply wp_bind, wp_ret.
    eapply wp_reads; [done|]. eapply wp_reads; [|by apply wp_unchanged].
    destruct (dir =? AL_START_HEAD) eqn:E.
    + apply Z.eqb_eq in E as ->. rewrite Hh. eapply values_fwd; [done|lia].
    + cbn in Ho. destruct Ho as [->| ->]; [done|]. rewrite Ht. eapply values_bwd; [done|lia].
  - by apply copy_op.
Qed.

(** An operation adds at most one element. *)
Lemma seq_op_length m xs o : zlen (seq_op m xs o).1.1 <= zlen xs + 1.
Proof.
  pose proof (zlen_nonneg xs).
  destruct o as [v|v|i v after|i|key|i| |dir|]; cbn [seq_op fst]; try lia.
  - zlen_lia.
  - zlen_lia.
  - destruct (pos (zlen xs) i) as [k|]; cbn [fst]; [|lia]. set (j := if after then S k else k).
    rewrite zlen_app, zlen_cons. unfold zlen. rewrite length_take, length_drop. lia.
  - destruct (pos (zlen xs) i) as [k|]; cbn [fst]; [|lia].
    rewrite zlen_app. unfold zlen. rewrite length_take, length_drop. lia.
  - destruct (split_first _ xs) as [[[a v] b]|] eqn:E; cbn [fst]; [|lia].
    assert (xs = a ++ v :: b) as ->; [|zlen_lia]. revert a v b E. clear.
    induction xs as [|x xs IH]; intros a v b E; [done|]. cbn in E.
    destruct (matches_of m key x); [by simplify_eq|].
    destruct (split_first _ xs) as [[[a' v'] b']|]; [|done]. cbn in E. simplify_eq. cbn.
    f_equal. by apply IH.
  - destruct (pos (zlen xs) i); cbn [fst]; lia.
  - destruct xs as [|x xs _] using rev_ind; [done|].
    rewrite reverse_snoc, reverse_involutive. zlen_lia.
Qed.

Lemma run_list_spec m os : forall s l ps,
  listed s l ps -> has_methods l m -> Forall op_ok os -> zlen ps + zlen os < 2 ^ 63 ->
  wp (run_list l os) (fun r s' => r.2 = (seq_run m ps.*2 os).1 /\
    exists ps' fs, acts s l ps s' r.1 ps' fs /\ fs ++ freed_of m ps'.*2 = (seq_run m ps.*2 os).2) s.
Proof.
  induction os as [|o os IH]; intros s l ps Hl Hm Hos Hz; cbn [run_list seq_run].
  { apply wp_ret. split; [done|]. exists ps, []. split; [by apply acts_refl|done]. }
  apply Forall_cons in Hos as [Ho Hos]. rewrite zlen_cons in Hz.
  pose proof (zlen_nonneg os). pose proof (seq_op_length m ps.*2 o) as Hlen.
  apply wp_bind. eapply wp_mono; [apply (run_op_spec m); [done|done|done|lia]|].
  intros [l1 a] s1. unfold op_post. destruct (seq_op m ps.*2 o) as [[xs b] f].
  cbn [fst snd] in *. intros (-> & ps1 & <- & [Hl1 Hm1 Hfr1 Hp1 Hf1]).
  rewrite !zlen_values in Hlen.
  apply wp_bind. eapply wp_mono; [apply (IH s1 l1 ps1); [done|by eapply same_methods_has|done|lia]|].
  intros [l2 b2] s2 (Hb & ps2 & fs & [Hl2 Hm2 Hfr2 Hp2 Hf2] & Hfs). cbn [fst snd] in *.
  apply wp_ret. cbn [fst snd]. split; [by rewrite Hb|]. exists ps2, (f ++ fs).
  split; [|by rewrite <- app_assoc, Hfs]. constructor; [done| |by eapply frame_trans|lia|].
  - destruct Hm1 as (A1 & A2 & A3), Hm2 as (B1 & B2 & B3). split_and!; congruence.
  - by rewrite Hf2, Hf1, app_assoc.
Qed.
End client.

(** C40: adlist.c implements sequences.  A client creates a list with any methods,
    uses it in any way, reading in both directions, by index, by key or through a
    duplicate, and releases it.  Every answer is that of the sequence: what is
    found, returned or missing, in which order.  Afterwards the heap is the one of
    before, so nothing leaked and no other object changed, and the free method got
    every value that left the list or a copy, in order, once. *)
Theorem list_refines_sequence {V} `{EqDecision V} malloc_ok (m : methods V) (os : list (list_op V)) (s : lheap V) :
  (forall n, malloc_ok n = true) -> heap_ok s -> Forall op_ok os -> zlen os < 2 ^ 63 ->
  exists s', client malloc_ok m os s = Some ((seq_run m [] os).1, s') /\
    cells s' = cells s /\ freed s' = freed s ++ (seq_run m [] os).2.
Proof.
  intros Hmem Hok Hos Hz.
  assert (wp (client malloc_ok m os) (fun r s' => r = (seq_run m [] os).1 /\ cells s' = cells s /\
    freed s' = freed s ++ (seq_run m [] os).2) s) as (r & s' & E & -> & H1 & H2); [|by exists s'].
  unfold client, listCreate. rewrite Hmem. apply wp_bind, wp_ret.
  apply wp_bind. eapply wp_mono; [apply (run_list_spec malloc_ok Hmem m os s _ [])|].
  - constructor; [done|constructor|done|done|done|done].
  - done.
  - done.
  - zlen_lia.
  - intros [l a] s1 (Ha & ps & fs & [Hl (M1 & M2 & M3) Hfr1 Hp1 Hf1] & Hfs). cbn [fst snd] in *.
    apply wp_bind. eapply wp_mono; [by apply listRelease_spec|].
    intros _ s2 (Hfr2 & _ & _ & Hf2). apply wp_ret. split_and!; [done| |].
    + apply map_eq. intros q. assert (frame [] [] s s2) as [F _ _] by by eapply frame_trans.
      apply F; apply not_elem_of_nil.
    + rewrite Hf2, Hf1, <- app_assoc. cbn [fmap list_fmap] in Hfs. rewrite <- Hfs.
      unfold released_all, freed_of. by rewrite M2.
Qed.

(** Numbers with a copy that fails for 7, in a heap that has another object. *)
Definition some_methods : methods Z := mk_methods (Some (fun v => if v =? 7 then None else Some (v + 100))) true None.
Definition some_ops : list (list_op Z) :=
  [AddTail 1; AddHead 2; InsertAt (-1) 3 false; InsertAt 0 4 true; Read AL_START_TAIL; Rotate; Copy;
   DeleteKey 3; AddTail 7; Copy; DeleteAt 1; DeleteAt 9; ValueAt (-2); Read AL_START_HEAD].
Definition some_heap : lheap Z := mk_lheap {[ 8 := mk_lnode None (Some 3) 0 ]} 9 [].

Lemma list_refines_sequence_witness :
  exists s', client (fun _ => true) some_methods some_ops some_heap = Some ((seq_run some_methods [] some_ops).1, s') /\
    cells s' = cells some_heap /\ freed s' = freed some_heap ++ (seq_run some_methods [] some_ops).2.
Proof.
  apply list_refines_sequence; [done| |repeat constructor; done|by vm_compute].
  intros p [n Hp]. cbn in Hp. apply lookup_singleton_Some in Hp as [<- _]. done.
Defined.

Example some_ops_answers :
  (seq_run some_methods [] some_ops).1 =
    [Some []; Some []; Some []; Some []; Some [1; 3; 4; 2]; Some []; Some [101; 102; 104; 103];
     Some [3]; Some []; None; Some []; None; Some [4]; Some [1; 4; 7]].
Proof. vm_compute. reflexivity. Qed.
