(* ===== verification/Reader.v ===== *)
(** * read.c: the incremental reply reader

    The reader holds the bytes received ([buf], an sds string; [pos] is the
    cursor), a stack of at most nine read tasks ([rstack], [ridx]) and the root
    object under construction ([reply]).  A task that waits for a child keeps
    a pointer to its array object; in the model that object is the one at the
    end of the path of the task indices in the root object ([path]), and
    storing a child ([parent->element[task->idx] = r]) updates the root along
    that path ([attach]).  The reply objects are those of
    [defaultFunctions] of hiredis.c.  A result of [None] is an access outside an
    object, through NULL, or a failed [assert]; [malloc_ok] says which
    allocations of reply objects succeed, [alloc] supplies the sds blocks. *)

From S2P Require Import Prelude Reply Sds.

Definition REDIS_READER_MAX_BUF : Z := 1024 * 16.

(** ** Scanning *)

(** [while(pos < _len && s[pos] != '\r') pos++;] with [s] at offset [p]. *)
Fixpoint skip_to_cr (fuel : nat) (b : bytes) (p pos _len : Z) : option Z :=
  if negb (pos <? _len) then Some pos else
  match fuel with
  | O => None
  | S fuel' =>
      c ← byte_at b (p + pos);
      if bool_decide (c = CR) then Some pos else skip_to_cr fuel' b p (pos + 1) _len
  end.

(** The outer loop of [seekNewline]; the inner [None] is NULL. *)
Fixpoint seek_loop (fuel : nat) (b : bytes) (p pos _len : Z) : option (option Z) :=
  if negb (pos <? _len) then Some None else
  match fuel with
  | O => None
  | S fuel' =>
      pos ← skip_to_cr (S fuel') b p pos _len;
      c ← byte_at b (p + pos);
      if negb (bool_decide (c = CR)) then Some None else
      d ← byte_at b (p + pos + 1);
      if bool_decide (d = LF) then Some (Some pos)
      else seek_loop fuel' b p (pos + 1) _len
  end.
Definition seekNewline (b : bytes) (p len : Z) : option (option Z) :=
  let _len := i32 (len - 1) in
  seek_loop (Z.to_nat _len) b p 0 _len.

(** [while ((c = *(s++)) != '\r')]: the signed overflow of a numeral with too
    many digits is taken to wrap around. *)
Fixpoint long_loop (fuel : nat) (b : bytes) (p mult v : Z) : option Z :=
  match fuel with
  | O => None
  | S fuel' =>
      c ← byte_at b p;
      if bool_decide (c = CR) then Some (i64 (mult * v)) else
      let dec := digit_val c in
      if (0 <=? dec) && (dec <? 10)
      then long_loop fuel' b (p + 1) mult (i64 (i64 (v * 10) + dec))
      else Some (-1)
  end.
Definition readLongLong (b : bytes) (p : Z) : option Z :=
  c ← byte_at b p;
  if bool_decide (c = "-"%char) then long_loop (length b) b (p + 1) (-1) 0
  else if bool_decide (c = "+"%char) then long_loop (length b) b (p + 1) 1 0
  else long_loop (length b) b p 1 0.

(** ** The reader *)

Record redisReadTask := mk_task { tk_type : Z; tk_elements : Z; tk_idx : Z }.

(** The fields [rstack], [ridx] and [reply] of the reader. *)
Record read_state := mk_state {
  rstack : list redisReadTask;
  ridx : Z;
  reply : option redisReply
}.

Record redisReader := mk_reader {
  r_err : Z;
  r_errstr : bytes;
  r_buf : option sds;
  r_pos : Z;
  r_len : Z;
  r_maxbuf : Z;
  r_state : read_state
}.
Implicit Types (r : redisReader) (st : read_state).

Definition with_pos r (p : Z) : redisReader :=
  mk_reader (r_err r) (r_errstr r) (r_buf r) p (r_len r) (r_maxbuf r) (r_state r).
Definition with_buf r (b : sds) (p len : Z) : redisReader :=
  mk_reader (r_err r) (r_errstr r) (Some b) p len (r_maxbuf r) (r_state r).
Definition with_state r st : redisReader :=
  mk_reader (r_err r) (r_errstr r) (r_buf r) (r_pos r) (r_len r) (r_maxbuf r) st.
Definition with_reply st (x : option redisReply) : read_state :=
  mk_state (rstack st) (ridx st) x.

(** The array behind [r->buf]; empty for NULL, so that every access fails. *)
Definition data r : bytes := default [] (sds_buf <$> r_buf r).

(** [__redisReaderSetError]: the reply under construction and the buffer are
    freed, the stack is emptied. *)
Definition __redisReaderSetError r (type : Z) (str : bytes) : redisReader :=
  mk_reader type (take 127 str) None
    (if r_buf r is Some _ then 0 else r_pos r) (if r_buf r is Some _ then 0 else r_len r)
    (r_maxbuf r) (mk_state (rstack (r_state r)) (-1) None).

(** [chrtos] prints the byte as [sdscatrepr] does, in quotes. *)
Definition chrtos (byte : ascii) : bytes := [DQ] ++ repr_char byte ++ [DQ].
Definition __redisReaderSetErrorProtocolByte r (byte : ascii) : redisReader :=
  __redisReaderSetError r REDIS_ERR_PROTOCOL
    (s "Protocol error, got " ++ chrtos byte ++ s " as reply type byte").
Definition __redisReaderSetErrorOOM r : redisReader :=
  __redisReaderSetError r REDIS_ERR_OOM (s "Out of memory").

(** [readBytes]: the offset of the bytes, or NULL. *)
Definition readBytes r (n : Z) : option (Z * redisReader) :=
  if n <=? u64 (r_len r - r_pos r) then Some (r_pos r, with_pos r (u64 (r_pos r + n))) else None.

(** [readLine]: the offset and length of the line, the cursor behind its
    CR LF; the inner [None] is NULL. *)
Definition readLine r : option (option (Z * Z * redisReader)) :=
  let p := r_pos r in
  s ← seekNewline (data r) p (u64 (r_len r - r_pos r));
  match s with
  | Some len => Some (Some (p, len, with_pos r (u64 (r_pos r + (len + 2)))))
  | None => Some None
  end.

Definition task_at st (i : Z) : option redisReadTask :=
  if 0 <=? i then rstack st !! Z.to_nat i else None.
Definition set_task st (i : Z) (t : redisReadTask) : option read_state :=
  if (0 <=? i) && (i <? zlen (rstack st))
  then Some (mk_state (<[Z.to_nat i := t]> (rstack st)) (ridx st) (reply st)) else None.
Definition with_ridx st (i : Z) : read_state := mk_state (rstack st) i (reply st).

Fixpoint move_next (fuel : nat) st : option read_state :=
  if ridx st <? 0 then Some st else
  match fuel with
  | O => None
  | S fuel' =>
      if ridx st =? 0 then Some (with_ridx st (-1)) else
      cur ← task_at st (ridx st);
      prv ← task_at st (ridx st - 1);
      if negb (tk_type prv =? REDIS_REPLY_ARRAY) then None else
      if tk_idx cur =? i32 (tk_elements prv - 1)
      then move_next fuel' (with_ridx st (ridx st - 1))
      else if negb (tk_idx cur <? tk_elements prv) then None
      else set_task st (ridx st) (mk_task (-1) (-1) (i32 (tk_idx cur + 1)))
  end.
Definition moveToNextTask st : option read_state := move_next (length (rstack st)) st.

(** ** Reply objects *)

(** The indices that lead from the root object to the slot of the task. *)
Definition path st : list Z := map tk_idx (take (Z.to_nat (ridx st)) (drop 1 (rstack st))).

(** [parent->element[task->idx] = x], with the [assert] on the parent. *)
Fixpoint attach (p : list Z) (x root : redisReply) : option redisReply :=
  match p with
  | [] => None
  | i :: p' =>
      if negb (rtype root =? REDIS_REPLY_ARRAY) || (i <? 0) then None else
      old ← element root !! Z.to_nat i;
      x' ← (match p' with
            | [] => Some x
            | _ => child ← old; attach p' x child
            end);
      Some (mk_reply (rtype root) (integer root) (rlen root) (rstr root) (elements root)
              (<[Z.to_nat i := Some x']> (element root)))
  end.

(** Hand a new object over: to its parent, or to the reader as the root. *)
Definition install st (x : redisReply) : option read_state :=
  if ridx st =? 0 then Some (with_reply st (Some x)) else
  root ← reply st;
  root' ← attach (path st) x root;
  Some (with_reply st (Some root')).

Section reader.
Context (malloc_ok : Z -> bool) (alloc : Z -> option bytes).

(** [sizeof(redisReply)]. *)
Definition REPLY_SIZE : Z := 48.

(** The create functions of hiredis.c; [None] is NULL. *)
Definition createString (type : Z) (str : bytes) : option redisReply :=
  if malloc_ok REPLY_SIZE && malloc_ok (zlen str + 1)
  then Some (createStringObject type str) else None.
Definition createArray (elements : Z) : option redisReply :=
  if malloc_ok REPLY_SIZE && (if 0 <? elements then malloc_ok (8 * elements) else true)
  then Some (createArrayObject elements) else None.
Definition createInteger (value : Z) : option redisReply :=
  if malloc_ok REPLY_SIZE then Some (createIntegerObject value) else None.
Definition createNil : option redisReply :=
  if malloc_ok REPLY_SIZE then Some createNilObject else None.

Definition processLineItem r : option (Z * redisReader) :=
  cur ← task_at (r_state r) (ridx (r_state r));
  line ← readLine r;
  match line with
  | None => Some (REDIS_ERR, r)
  | Some (p, len, r) =>
      obj ← (if tk_type cur =? REDIS_REPLY_INTEGER
             then (v ← readLongLong (data r) p; Some (createInteger v))
             else Some (createString (tk_type cur) (slice (data r) p (p + len))));
      match obj with
      | None => Some (REDIS_ERR, __redisReaderSetErrorOOM r)
      | Some x =>
          st ← install (r_state r) x; st ← moveToNextTask st;
          Some (REDIS_OK, with_state r st)
      end
  end.

Definition processBulkItem r : option (Z * redisReader) :=
  cur ← task_at (r_state r) (ridx (r_state r));
  let p := r_pos r in
  newline ← seekNewline (data r) p (u64 (r_len r - r_pos r));
  match newline with
  | None => Some (REDIS_ERR, r)
  | Some s =>
      len ← readLongLong (data r) p;
      let finish obj bytelen :=
        match obj with
        | None => Some (REDIS_ERR, __redisReaderSetErrorOOM r)
        | Some x =>
            st ← install (r_state r) x; st ← moveToNextTask st;
            Some (REDIS_OK, with_state (with_pos r (u64 (r_pos r + bytelen))) st)
        end in
      let bytelen := s + 2 in
      if len <? 0 then finish createNil bytelen
      else
        let bytelen := u64 (bytelen + u64 (len + 2)) in
        if u64 (r_pos r + bytelen) <=? r_len r
        then finish (createString (tk_type cur) (slice (data r) (p + s + 2) (p + s + 2 + len))) bytelen
        else Some (REDIS_ERR, r)
  end.

Definition processMultiBulkItem r : option (Z * redisReader) :=
  cur ← task_at (r_state r) (ridx (r_state r));
  if ridx (r_state r) =? 8 then
    Some (REDIS_ERR, __redisReaderSetError r REDIS_ERR_PROTOCOL
                       (s "No support for nested multi bulk replies with depth > 7"))
  else
  line ← readLine r;
  match line with
  | None => Some (REDIS_ERR, r)
  | Some (p, _, r) =>
      n ← readLongLong (data r) p;
      if n =? -1 then
        match createNil with
        | None => Some (REDIS_ERR, __redisReaderSetErrorOOM r)
        | Some x =>
            st ← install (r_state r) x; st ← moveToNextTask st;
            Some (REDIS_OK, with_state r st)
        end
      else
        match createArray (i32 n) with
        | None => Some (REDIS_ERR, __redisReaderSetErrorOOM r)
        | Some x =>
            st ← install (r_state r) x;
            if 0 <? n then
              st ← set_task st (ridx st) (mk_task (tk_type cur) (i32 n) (tk_idx cur));
              st ← set_task st (ridx st + 1) (mk_task (-1) (-1) 0);
              Some (REDIS_OK, with_state r (with_ridx st (ridx st + 1)))
            else st ← moveToNextTask st; Some (REDIS_OK, with_state r st)
        end
  end.

(** [switch (p[0])]: the type of a type byte. *)
Definition type_of_byte (c : ascii) : option Z :=
  if bool_decide (c = "-"%char) then Some REDIS_REPLY_ERROR
  else if bool_decide (c = "+"%char) then Some REDIS_REPLY_STATUS
  else if bool_decide (c = ":"%char) then Some REDIS_REPLY_INTEGER
  else if bool_decide (c = "$"%char) then Some REDIS_REPLY_STRING
  else if bool_decide (c = "*"%char) then Some REDIS_REPLY_ARRAY
  else None.

Definition processTyped r (type : Z) : option (Z * redisReader) :=
  if (type =? REDIS_REPLY_ERROR) || (type =? REDIS_REPLY_STATUS) || (type =? REDIS_REPLY_INTEGER)
  then processLineItem r
  else if type =? REDIS_REPLY_STRING then processBulkItem r
  else if type =? REDIS_REPLY_ARRAY then processMultiBulkItem r
  else None.

Definition processItem r : option (Z * redisReader) :=
  cur ← task_at (r_state r) (ridx (r_state r));
  if tk_type cur <? 0 then
    match readBytes r 1 with
    | None => Some (REDIS_ERR, r)
    | Some (p, r) =>
        c ← byte_at (data r) p;
        match type_of_byte c with
        | None => Some (REDIS_ERR, __redisReaderSetErrorProtocolByte r c)
        | Some type =>
            st ← set_task (r_state r) (ridx (r_state r))
                   (mk_task type (tk_elements cur) (tk_idx cur));
            processTyped (with_state r st) type
        end
    end
  else processTyped r (tk_type cur).

(** ** The interface *)

Definition redisReaderCreate : option redisReader :=
  match sdsempty alloc with
  | Ok b => Some (mk_reader 0 [] (Some b) 0 0 REDIS_READER_MAX_BUF
                    (mk_state (repeat (mk_task 0 0 0) 9) (-1) None))
  | _ => None
  end.

(** [redisReaderFeed] of the bytes [d]. *)
Definition redisReaderFeed r (d : bytes) : option (Z * redisReader) :=
  if negb (r_err r =? 0) then Some (REDIS_ERR, r) else
  if zlen d <? 1 then Some (REDIS_OK, r) else
  b ← r_buf r;
  r ← (if (r_len r =? 0) && negb (r_maxbuf r =? 0) && (r_maxbuf r <? sds_free b)
       then match sdsempty alloc with Ok b => Some (with_buf r b 0 (r_len r)) | _ => None end
       else Some r);
  b ← r_buf r;
  match sdscatlen alloc b d with
  | Ok newbuf => Some (REDIS_OK, with_buf r newbuf (r_pos r) (sds_len newbuf))
  | Err _ => Some (REDIS_ERR, __redisReaderSetErrorOOM r)
  | Bad => None
  end.

(** [while (r->ridx >= 0) if (processItem(r) != REDIS_OK) break;]: every item
    that is read consumes a byte or more. *)
Fixpoint process_loop (fuel : nat) r : option redisReader :=
  if ridx (r_state r) <? 0 then Some r else
  match fuel with
  | O => None
  | S fuel' =>
      ret ← processItem r;
      if negb (fst ret =? REDIS_OK) then Some (snd ret) else process_loop fuel' (snd ret)
  end.

(** The root task, pushed when the stack is empty. *)
Definition start_root st : option read_state :=
  if ridx st =? -1
  then st ← set_task st 0 (mk_task (-1) (-1) (-1)); Some (with_ridx st 0)
  else Some st.

(** [redisReaderGetReply]: the return value, the reply or NULL, the reader. *)
Definition redisReaderGetReply r : option (Z * option redisReply * redisReader) :=
  if negb (r_err r =? 0) then Some (REDIS_ERR, None, r) else
  if r_len r =? 0 then Some (REDIS_OK, None, r) else
  st ← start_root (r_state r);
  r ← process_loop (S (Z.to_nat (r_len r - r_pos r))) (with_state r st);
  if negb (r_err r =? 0) then Some (REDIS_ERR, None, r) else
  r ← (if 1024 <=? r_pos r then
         b ← r_buf r;
         match sdsrange b (i32 (r_pos r)) (-1) with
         | Ok b => Some (with_buf r b 0 (sds_len b))
         | _ => None
         end
       else Some r);
  if ridx (r_state r) =? -1
  then Some (REDIS_OK, reply (r_state r), with_state r (with_reply (r_state r) None))
  else Some (REDIS_OK, None, r).
End reader.
