(* ===== verification/ReaderSpec.v ===== *)
(** * The reader on a list of unread bytes

    [processItem] looks at the buffer only behind the cursor.  [item] is the
    same step on the list [u] of the bytes received and not yet consumed:
    [Wait k st] when more input is needed ([k] bytes consumed, 0 or the type
    byte), [Got k st] when an item of [k] bytes was read, [Fail] for an error.
    [processItem_item] is the refinement; the other lemmas say how [item] behaves
    when more input arrives, which is what makes the reader incremental. *)

From S2P Require Import Prelude Hiutil Reply Sds SdsSpec Reader.

(** ** Scanning lists *)

(** The offset of the first CR LF. *)
Fixpoint find_crlf (u : bytes) : option Z :=
  match u with
  | c :: u' =>
      match u' with
      | d :: _ => if bool_decide (c = CR) && bool_decide (d = LF) then Some 0
                  else Z.succ <$> find_crlf u'
      | [] => None
      end
  | [] => None
  end.

Fixpoint long_digits (mult v : Z) (u : bytes) : option Z :=
  match u with
  | [] => None
  | c :: u' =>
      if bool_decide (c = CR) then Some (i64 (mult * v)) else
      let dec := digit_val c in
      if (0 <=? dec) && (dec <? 10) then long_digits mult (i64 (i64 (v * 10) + dec)) u'
      else Some (-1)
  end.
Definition long_of (u : bytes) : option Z :=
  match u with
  | [] => None
  | c :: u' =>
      if bool_decide (c = "-"%char) then long_digits (-1) 0 u'
      else if bool_decide (c = "+"%char) then long_digits 1 0 u'
      else long_digits 1 0 u
  end.

Lemma find_crlf_cons c d u :
  find_crlf (c :: d :: u) =
  if bool_decide (c = CR) && bool_decide (d = LF) then Some 0 else Z.succ <$> find_crlf (d :: u).
Proof. done. Qed.

Lemma find_crlf_range u : forall n, find_crlf u = Some n -> 0 <= n /\ n + 2 <= zlen u.
Proof.
  induction u as [|c u IH]; intros n; [done|]. cbn [find_crlf]. destruct u as [|d u]; [done|].
  destruct (_ && _).
  - intros [= <-]. zlen_lia.
  - destruct (find_crlf (d :: u)) as [m|] eqn:E; [|done]. intros [= <-].
    destruct (IH m eq_refl). rewrite (zlen_cons c). lia.
Qed.

Lemma find_crlf_split u : forall n, find_crlf u = Some n ->
  exists l rest, u = l ++ CRLF ++ rest /\ zlen l = n.
Proof.
  induction u as [|c u IH]; intros n; [done|]. cbn [find_crlf]. destruct u as [|d u]; [done|].
  destruct (bool_decide (c = CR) && bool_decide (d = LF)) eqn:E.
  - intros [= <-]. apply andb_true_iff in E as [->%bool_decide_eq_true ->%bool_decide_eq_true].
    by exists [], u.
  - destruct (find_crlf (d :: u)) as [m|] eqn:Ef; [|done]. intros [= <-].
    destruct (IH m eq_refl) as (l & rest & -> & Hl). exists (c :: l), rest.
    split; [done|]. rewrite zlen_cons. lia.
Qed.

Lemma find_crlf_app u v : forall n, find_crlf u = Some n -> find_crlf (u ++ v) = Some n.
Proof.
  induction u as [|c u IH]; intros n; [done|]. cbn [find_crlf app]. destruct u as [|d u]; [done|].
  cbn [app]. destruct (_ && _); [done|].
  destruct (find_crlf (d :: u)) as [m|] eqn:E; [|done]. intros Hn.
  cbn [app] in IH. by rewrite (IH m eq_refl).
Qed.

(** A line without CR ends at the CR LF behind it. *)
Lemma find_crlf_line l rest : CR ∉ l -> find_crlf (l ++ CRLF ++ rest) = Some (zlen l).
Proof.
  induction l as [|c l IH]; intros Hl; [done|].
  apply not_elem_of_cons in Hl as [Hc Hl]. specialize (IH Hl). cbn [app find_crlf].
  destruct (l ++ CRLF ++ rest) as [|d k] eqn:E; [by destruct l|].
  rewrite bool_decide_eq_false_2 by congruence. cbn [andb]. rewrite IH. cbn.
  f_equal. rewrite zlen_cons. lia.
Qed.

Lemma long_digits_app u v : forall mult n,
  CR ∈ u -> exists z, long_digits mult n u = Some z /\ long_digits mult n (u ++ v) = Some z.
Proof.
  induction u as [|c u IH]; intros mult n Hin; [by apply elem_of_nil in Hin|].
  cbn [long_digits app]. destruct (decide (c = CR)) as [->|Hne].
  - rewrite bool_decide_eq_true_2 by done. eauto.
  - rewrite bool_decide_eq_false_2 by done. apply elem_of_cons in Hin as [|Hin]; [congruence|].
    destruct (_ && _); eauto.
Qed.

(** A numeral in front of a CR LF is read the same whatever follows. *)
Lemma long_of_app u v n :
  find_crlf u = Some n -> exists z, long_of u = Some z /\ long_of (u ++ v) = Some z.
Proof.
  intros H. destruct (find_crlf_split u n H) as (l & rest & -> & _).
  rewrite <- app_assoc. set (w := (CRLF ++ rest) ++ v).
  assert (forall m k x, exists z, long_digits m k (x ++ CRLF ++ rest) = Some z /\
            long_digits m k (x ++ w) = Some z) as Hd.
  { intros m k x. destruct (long_digits_app (x ++ CRLF ++ rest) v m k) as (z & H1 & H2).
    - apply elem_of_app. right. by left.
    - exists z. rewrite <- app_assoc in H2. done. }
  destruct l as [|c l]; cbn [app long_of].
  - exact (Hd 1 0 []).
  - destruct (bool_decide (c = "-"%char)); [apply Hd|].
    destruct (bool_decide (c = "+"%char)); [apply Hd|]. exact (Hd 1 0 (c :: l)).
Qed.

(** ** The scans of the buffer *)

(** The unread bytes [u] of a buffer, the part before the cursor and the
    terminator behind. *)
Definition unread (b : bytes) (p : Z) (u : bytes) : Prop :=
  exists pre tail, b = pre ++ u ++ NUL :: tail /\ zlen pre = p.

Lemma unread_next b p c u : unread b p (c :: u) -> unread b (p + 1) u.
Proof.
  intros (pre & tail & -> & <-). exists (pre ++ [c]), tail. split; [|zlen_lia].
  by rewrite <- app_assoc.
Qed.

Lemma unread_head b p c u : unread b p (c :: u) -> byte_at b p = Some c.
Proof. intros (pre & tail & -> & <-). apply byte_at_app. Qed.

Lemma unread_nil b p : unread b p [] -> byte_at b p = Some NUL.
Proof. intros (pre & tail & -> & <-). apply byte_at_app. Qed.

Lemma unread_slice b p u i j :
  unread b p u -> 0 <= i -> i <= j -> j <= zlen u -> slice b (p + i) (p + j) = slice u i j.
Proof.
  intros (pre & tail & -> & <-) Hi Hij Hj. unfold slice.
  replace (Z.to_nat (zlen pre + i)) with (length pre + Z.to_nat i)%nat by (unfold zlen; lia).
  rewrite drop_app_add. replace (zlen pre + j - (zlen pre + i)) with (j - i) by lia.
  rewrite drop_app_le by (unfold zlen in *; lia).
  rewrite take_app_le; [done|]. rewrite length_drop. unfold zlen in *. lia.
Qed.

Lemma find_crlf_skip l u :
  CR ∉ l -> find_crlf (l ++ u) = Z.add (zlen l) <$> find_crlf u.
Proof.
  induction l as [|c l IH]; intros Hl; cbn [app].
  { destruct (find_crlf u); [|done]. cbn. by rewrite zlen_nil. }
  apply not_elem_of_cons in Hl as [Hc Hl]. cbn [find_crlf].
  destruct (l ++ u) as [|d k] eqn:E.
  { destruct l, u; [|done..]. done. }
  rewrite bool_decide_eq_false_2 by congruence. cbn [andb]. rewrite IH by done.
  destruct (find_crlf u); [|done]. cbn. f_equal. rewrite zlen_cons. lia.
Qed.

Lemma skip_to_cr_spec fuel b p : forall pos u,
  unread b (p + pos) u -> zlen u - 1 <= Z.of_nat fuel ->
  exists l u', u = l ++ u' /\ (CR ∉ l) /\
    skip_to_cr fuel b p pos (pos + zlen u - 1) = Some (pos + zlen l) /\
    (u' = [] \/ (exists c, u' = [c]) \/ exists u2, u' = CR :: u2).
Proof.
  induction fuel as [|fuel IH]; intros pos u Hu Hf; cbn [skip_to_cr].
  { destruct (Z.ltb_spec pos (pos + zlen u - 1)); [lia|]. cbn [negb].
    exists [], u. rewrite zlen_nil, Z.add_0_r. split_and!; [done|apply not_elem_of_nil|done|].
    destruct u as [|c [|d u]]; [by left|eauto|zlen_lia]. }
  destruct u as [|c [|d u]].
  - rewrite zlen_nil. destruct (Z.ltb_spec pos (pos + 0 - 1)); [lia|]. cbn [negb].
    exists [], []. rewrite zlen_nil, Z.add_0_r. split_and!; [done|apply not_elem_of_nil|done|by left].
  - rewrite zlen_singleton. destruct (Z.ltb_spec pos (pos + 1 - 1)); [lia|]. cbn [negb].
    exists [], [c]. rewrite zlen_nil, Z.add_0_r. split_and!; [done|apply not_elem_of_nil|done|eauto].
  - destruct (Z.ltb_spec pos (pos + zlen (c :: d :: u) - 1)) as [_|H]; [|zlen_lia]. cbn [negb].
    rewrite (unread_head _ _ _ _ Hu). cbn [mbind option_bind].
    destruct (decide (c = CR)) as [->|Hne].
    + rewrite bool_decide_eq_true_2 by done. exists [], (CR :: d :: u).
      rewrite zlen_nil, Z.add_0_r. split_and!; [done|apply not_elem_of_nil|done|eauto].
    + rewrite bool_decide_eq_false_2 by done. apply unread_next in Hu.
      rewrite <- Z.add_assoc in Hu. rewrite zlen_cons in *.
      destruct (IH (pos + 1) (d :: u) Hu ltac:(lia)) as (l & u' & Hlu & Hl & Hs & Hc).
      exists (c :: l), u'. split_and!; [by rewrite Hlu| |  |done].
      * apply not_elem_of_cons. done.
      * replace (pos + (1 + zlen (d :: u)) - 1) with (pos + 1 + zlen (d :: u) - 1) by lia.
        rewrite Hs, zlen_cons. f_equal. lia.
Qed.

Lemma seek_loop_spec b p : forall fuel pos u,
  unread b (p + pos) u -> zlen u - 1 <= Z.of_nat fuel ->
  seek_loop fuel b p pos (pos + zlen u - 1) = Some (Z.add pos <$> find_crlf u).
Proof.
  induction fuel as [|fuel IH]; intros pos u Hu Hf.
  { cbn [seek_loop]. destruct (Z.ltb_spec pos (pos + zlen u - 1)); [lia|]. cbn [negb].
    destruct u as [|c [|d u]]; [done|done|zlen_lia]. }
  cbn [seek_loop]. destruct (Z.ltb_spec pos (pos + zlen u - 1)) as [Hlt|]; cbn [negb].
  2:{ destruct u as [|c [|d u]]; [done|done|zlen_lia]. }
  destruct (skip_to_cr_spec (S fuel) b p pos u Hu ltac:(lia)) as (l & u' & -> & Hl & -> & Hc).
  rewrite find_crlf_skip by done. cbn [mbind option_bind].
  assert (unread b (p + (pos + zlen l)) u') as Hu'.
  { destruct Hu as (pre & tail & -> & Hp). exists (pre ++ l), tail.
    split; [by rewrite <- !app_assoc|zlen_lia]. }
  assert (forall v, zlen u' <= 1 ->
    seek_loop fuel b p (pos + zlen l + 1) (pos + zlen (l ++ u') - 1) = v -> v = Some None) as Hend.
  { intros v Hz <-. rewrite zlen_app. destruct fuel; cbn [seek_loop];
      (destruct (Z.ltb_spec (pos + zlen l + 1) (pos + (zlen l + zlen u') - 1)); [lia|done]). }
  destruct Hc as [->|[(c & ->)|(u2 & ->)]].
  - rewrite (unread_nil _ _ Hu'). cbn [mbind option_bind].
    change (bool_decide (NUL = CR)) with false. done.
  - rewrite (unread_head _ _ _ _ Hu'). cbn [mbind option_bind find_crlf fmap option_fmap option_map].
    destruct (bool_decide (c = CR)); cbn [negb]; [|done].
    apply unread_next in Hu'. rewrite <- Z.add_assoc in Hu' at 1. rewrite Z.add_assoc in Hu'.
    rewrite (unread_nil _ _ Hu'). cbn [mbind option_bind].
    rewrite bool_decide_eq_false_2 by done. by apply Hend.
  - rewrite (unread_head _ _ _ _ Hu'). cbn [mbind option_bind].
    rewrite bool_decide_eq_true_2 by done. cbn [negb].
    pose proof (unread_next _ _ _ _ Hu') as Hn.
    destruct u2 as [|d u2].
    + rewrite (unread_nil _ _ Hn). cbn [mbind option_bind find_crlf fmap option_fmap option_map].
      rewrite bool_decide_eq_false_2 by done. by apply Hend.
    + rewrite (unread_head _ _ _ _ Hn), find_crlf_cons. cbn [mbind option_bind].
      rewrite (bool_decide_eq_true_2 (CR = CR)) by done. cbn [andb].
      destruct (bool_decide (d = LF)); [cbn; do 2 f_equal; lia|].
      rewrite zlen_app, zlen_cons in *.
      replace (pos + (zlen l + (1 + zlen (d :: u2))) - 1)
        with (pos + zlen l + 1 + zlen (d :: u2) - 1) by lia.
      rewrite IH.
      * destruct (find_crlf (d :: u2)); [|done]. cbn [fmap option_fmap option_map]. do 2 f_equal. lia.
      * replace (p + (pos + zlen l + 1)) with (p + (pos + zlen l) + 1) by lia. done.
      * zlen_lia.
Qed.

Lemma seekNewline_spec b p u :
  unread b p u -> zlen u < 2 ^ 31 -> seekNewline b p (zlen u) = Some (find_crlf u).
Proof.
  intros Hu Hz. unfold seekNewline. pose proof (zlen_nonneg u).
  rewrite i32_small by lia. pose proof (seek_loop_spec b p (Z.to_nat (zlen u - 1)) 0 u) as H0.
  rewrite Z.add_0_r in H0. rewrite Z.add_0_l in H0. rewrite H0; [|done|lia].
  by destruct (find_crlf u).
Qed.

Lemma long_loop_spec b mult : forall fuel pre l v,
  b = pre ++ l -> (length l <= fuel)%nat ->
  long_loop fuel b (zlen pre) mult v = long_digits mult v l.
Proof.
  induction fuel as [|fuel IH]; intros pre l v Hb Hf.
  { destruct l; [done|cbn in Hf; lia]. }
  cbn [long_loop]. destruct l as [|c l].
  - rewrite app_nil_r in Hb. rewrite Hb. unfold byte_at. by rewrite Z.ltb_irrefl, andb_false_r.
  - assert (byte_at b (zlen pre) = Some c) as -> by (rewrite Hb; apply byte_at_app).
    cbn [mbind option_bind long_digits].
    destruct (bool_decide (c = CR)); [done|]. destruct (_ && _); [|done].
    replace (zlen pre + 1) with (zlen (pre ++ [c])) by zlen_lia.
    apply IH; [by rewrite <- app_assoc|]. cbn in Hf. lia.
Qed.

Lemma readLongLong_spec pre l : readLongLong (pre ++ l) (zlen pre) = long_of l.
Proof.
  unfold readLongLong, long_of. destruct l as [|c l].
  { rewrite app_nil_r. unfold byte_at. by rewrite Z.ltb_irrefl, andb_false_r. }
  rewrite byte_at_app. cbn [mbind option_bind].
  assert (forall m, long_loop (length (pre ++ c :: l)) (pre ++ c :: l) (zlen pre + 1) m 0 =
                    long_digits m 0 l) as Hs.
  { intros m. replace (zlen pre + 1) with (zlen (pre ++ [c])) by zlen_lia.
    apply long_loop_spec; [by rewrite <- app_assoc|]. rewrite length_app. cbn. lia. }
  destruct (bool_decide (c = "-"%char)); [apply Hs|].
  destruct (bool_decide (c = "+"%char)); [apply Hs|].
  apply long_loop_spec; [done|]. rewrite length_app. lia.
Qed.

Lemma readLongLong_unread b p u n :
  unread b p u -> find_crlf u = Some n -> readLongLong b p = long_of u.
Proof.
  intros (pre & tail & -> & <-) Hn. rewrite readLongLong_spec.
  destruct (long_of_app u (NUL :: tail) n Hn) as (z & -> & ->). done.
Qed.

(** ** One item of the unread bytes *)

Inductive item_out :=
| Wait (k : Z) (st : read_state)
| Got (k : Z) (st : read_state)
| Fail (st : read_state) (type : Z) (str : bytes).

(** [k] more bytes were consumed before. *)
Definition bump (k : Z) (o : item_out) : item_out :=
  match o with Wait j st => Wait (k + j) st | Got j st => Got (k + j) st | Fail _ _ _ => o end.

Definition deliver (st : read_state) (x : redisReply) : option read_state :=
  st ← install st x; moveToNextTask st.

Section item.
Context (malloc_ok : Z -> bool).
Implicit Types (st : read_state) (u v : bytes).

Definition finish_item st (obj : option redisReply) (k : Z) : option item_out :=
  match obj with
  | None => Some (Fail st REDIS_ERR_OOM (s "Out of memory"))
  | Some x => Got k <$> deliver st x
  end.

Definition line_item st (type : Z) u : option item_out :=
  match find_crlf u with
  | None => Some (Wait 0 st)
  | Some n =>
      if type =? REDIS_REPLY_INTEGER
      then v ← long_of u; finish_item st (createInteger malloc_ok v) (n + 2)
      else finish_item st (createString malloc_ok type (slice u 0 n)) (n + 2)
  end.

Definition bulk_item st (type : Z) u : option item_out :=
  match find_crlf u with
  | None => Some (Wait 0 st)
  | Some n =>
      len ← long_of u;
      if len <? 0 then finish_item st (createNil malloc_ok) (n + 2)
      else if n + 2 + len + 2 <=? zlen u
      then finish_item st (createString malloc_ok type (slice u (n + 2) (n + 2 + len)))
             (n + 2 + len + 2)
      else Some (Wait 0 st)
  end.

Definition open_array st (cur : redisReadTask) (type n : Z) (k : Z) : option item_out :=
  match createArray malloc_ok (i32 n) with
  | None => Some (Fail st REDIS_ERR_OOM (s "Out of memory"))
  | Some x =>
      st ← install st x;
      if 0 <? n then
        st ← set_task st (ridx st) (mk_task type (i32 n) (tk_idx cur));
        st ← set_task st (ridx st + 1) (mk_task (-1) (-1) 0);
        Some (Got k (with_ridx st (ridx st + 1)))
      else Got k <$> moveToNextTask st
  end.

Definition array_item st (cur : redisReadTask) (type : Z) u : option item_out :=
  if ridx st =? 8 then
    Some (Fail st REDIS_ERR_PROTOCOL (s "No support for nested multi bulk replies with depth > 7"))
  else
  match find_crlf u with
  | None => Some (Wait 0 st)
  | Some n =>
      v ← long_of u;
      if v =? -1 then finish_item st (createNil malloc_ok) (n + 2)
      else open_array st cur type v (n + 2)
  end.

Definition typed_item st (cur : redisReadTask) (type : Z) u : option item_out :=
  if (type =? REDIS_REPLY_ERROR) || (type =? REDIS_REPLY_STATUS) || (type =? REDIS_REPLY_INTEGER)
  then line_item st type u
  else if type =? REDIS_REPLY_STRING then bulk_item st type u
  else if type =? REDIS_REPLY_ARRAY then array_item st cur type u
  else None.

Definition item st u : option item_out :=
  cur ← task_at st (ridx st);
  if tk_type cur <? 0 then
    match u with
    | [] => Some (Wait 0 st)
    | c :: u' =>
        match type_of_byte c with
        | None => Some (Fail st REDIS_ERR_PROTOCOL
                    (s "Protocol error, got " ++ chrtos c ++ s " as reply type byte"))
        | Some type =>
            let cur' := mk_task type (tk_elements cur) (tk_idx cur) in
            st' ← set_task st (ridx st) cur';
            bump 1 <$> typed_item st' cur' type u'
        end
    end
  else typed_item st cur (tk_type cur) u.

(** ** The refinement *)

(** [u] is what the reader has received and not consumed. *)
Definition view (r : redisReader) u : Prop :=
  exists b, r_buf r = Some b /\ unread (sds_buf b) (r_pos r) u /\
    r_len r = r_pos r + zlen u /\ 0 <= r_pos r /\ r_len r < 2 ^ 31.

(** What a step on the list means for the reader. *)
Definition apply_out (r : redisReader) (o : item_out) : Z * redisReader :=
  match o with
  | Wait k st => (REDIS_ERR, with_state (with_pos r (r_pos r + k)) st)
  | Got k st => (REDIS_OK, with_state (with_pos r (r_pos r + k)) st)
  | Fail st type str => (REDIS_ERR, __redisReaderSetError (with_state r st) type str)
  end.

Lemma view_data r u : view r u -> unread (data r) (r_pos r) u.
Proof. intros (b & Hb & Hu & _). unfold data. by rewrite Hb. Qed.

Lemma view_avail r u : view r u -> u64 (r_len r - r_pos r) = zlen u /\ zlen u < 2 ^ 31.
Proof.
  intros (b & _ & _ & Hl & Hp & Hs). pose proof (zlen_nonneg u).
  rewrite Hl. replace (r_pos r + zlen u - r_pos r) with (zlen u) by lia.
  unfold u64. rewrite Z.mod_small; lia.
Qed.

Lemma view_pos r u k : view r u -> 0 <= k <= zlen u -> u64 (r_pos r + k) = r_pos r + k.
Proof. intros (b & _ & _ & Hl & Hp & Hs) Hk. unfold u64. apply Z.mod_small. lia. Qed.

Lemma seek_view r u :
  view r u -> seekNewline (data r) (r_pos r) (u64 (r_len r - r_pos r)) = Some (find_crlf u).
Proof.
  intros Hv. destruct (view_avail r u Hv) as [-> Hz]. apply seekNewline_spec; [|done].
  by apply view_data.
Qed.

Lemma readLine_view r u :
  view r u ->
  readLine r = Some (match find_crlf u with
                     | Some n => Some (r_pos r, n, with_pos r (r_pos r + (n + 2)))
                     | None => None
                     end).
Proof.
  intros Hv. unfold readLine. rewrite (seek_view r u Hv). cbn [mbind option_bind].
  destruct (find_crlf u) as [n|] eqn:E; [|done]. apply find_crlf_range in E.
  by rewrite (view_pos r u) by (done || lia).
Qed.

(** An object handed over at the end of an item. *)
Lemma with_pos_error r p type str :
  r_buf r <> None ->
  __redisReaderSetError (with_pos r p) type str = __redisReaderSetError r type str.
Proof. intros Hb. unfold __redisReaderSetError, with_pos. cbn. by destruct (r_buf r). Qed.

Lemma with_state_same r : with_state r (r_state r) = r.
Proof. by destruct r. Qed.

Lemma with_pos_same r : with_pos r (r_pos r) = r.
Proof. by destruct r. Qed.

Lemma apply_wait r : apply_out r (Wait 0 (r_state r)) = (REDIS_ERR, r).
Proof. unfold apply_out. by rewrite Z.add_0_r, with_pos_same, with_state_same. Qed.

Lemma view_buf r u : view r u -> r_buf r <> None.
Proof. by intros (b & -> & _). Qed.

Lemma finish_apply r u obj k :
  view r u ->
  match obj with
  | None => Some (REDIS_ERR, __redisReaderSetErrorOOM (with_pos r (r_pos r + k)))
  | Some x =>
      st ← install (r_state r) x; st ← moveToNextTask st;
      Some (REDIS_OK, with_state (with_pos r (r_pos r + k)) st)
  end = apply_out r <$> finish_item (r_state r) obj k.
Proof.
  intros Hv. destruct obj as [x|]; cbn [finish_item fmap option_fmap option_map].
  - unfold deliver. destruct (install (r_state r) x) as [st|]; [|done]. cbn [mbind option_bind].
    by destruct (moveToNextTask st).
  - unfold __redisReaderSetErrorOOM, apply_out.
    by rewrite with_pos_error, with_state_same by by apply (view_buf r u).
Qed.

Lemma line_apply r u cur :
  view r u -> task_at (r_state r) (ridx (r_state r)) = Some cur ->
  processLineItem malloc_ok r = apply_out r <$> line_item (r_state r) (tk_type cur) u.
Proof.
  intros Hv Hc. unfold processLineItem, line_item. rewrite Hc. cbn [mbind option_bind].
  rewrite (readLine_view r u Hv). cbn [mbind option_bind].
  destruct (find_crlf u) as [n|] eqn:E; [|by rewrite <- apply_wait].
  pose proof (find_crlf_range u n E) as Hn.
  change (data (with_pos r (r_pos r + (n + 2)))) with (data r).
  change (r_state (with_pos r (r_pos r + (n + 2)))) with (r_state r).
  rewrite (readLongLong_unread _ _ u n (view_data r u Hv) E).
  destruct (tk_type cur =? REDIS_REPLY_INTEGER).
  - destruct (long_of u) as [v|]; [|done]. cbn [mbind option_bind].
    rewrite <- (finish_apply r u _ _ Hv). by destruct (createInteger malloc_ok v).
  - cbn [mbind option_bind]. rewrite <- (finish_apply r u _ _ Hv).
    pose proof (unread_slice _ _ u 0 n (view_data r u Hv)) as Hs. rewrite Z.add_0_r in Hs.
    rewrite Hs by lia. by destruct (createString _ _ _).
Qed.

Lemma long_digits_range mult u : forall n z, long_digits mult n u = Some z -> - 2 ^ 63 <= z < 2 ^ 63.
Proof.
  induction u as [|c u IH]; intros n z; cbn [long_digits]; [done|].
  destruct (bool_decide (c = CR)).
  - intros [= <-]. unfold i64. pose proof (Z.mod_pos_bound (mult * n + 2 ^ 63) (2 ^ 64)). lia.
  - destruct (_ && _); [apply IH|]. intros [= <-]. lia.
Qed.

Lemma long_of_range u z : long_of u = Some z -> - 2 ^ 63 <= z < 2 ^ 63.
Proof.
  unfold long_of. destruct u as [|c u]; [done|].
  destruct (bool_decide (c = "-"%char)); [apply long_digits_range|].
  destruct (bool_decide (c = "+"%char)); apply long_digits_range.
Qed.

Lemma bulk_apply r u cur :
  view r u -> task_at (r_state r) (ridx (r_state r)) = Some cur ->
  processBulkItem malloc_ok r = apply_out r <$> bulk_item (r_state r) (tk_type cur) u.
Proof.
  intros Hv Hc. unfold processBulkItem, bulk_item. rewrite Hc. cbn [mbind option_bind].
  rewrite (seek_view r u Hv). cbn [mbind option_bind].
  destruct (find_crlf u) as [n|] eqn:E; [|by rewrite <- apply_wait].
  pose proof (find_crlf_range u n E) as Hn.
  rewrite (readLongLong_unread _ _ u n (view_data r u Hv) E).
  destruct (long_of u) as [len|] eqn:El; [|done]. cbn [mbind option_bind].
  pose proof (long_of_range u len El) as Hlen.
  pose proof Hv as (b & _ & _ & Hl & Hp & Hsm).
  destruct (Z.ltb_spec len 0).
  { rewrite (view_pos r u) by (done || lia). rewrite <- (finish_apply r u _ _ Hv).
    destruct (createNil malloc_ok); [done|].
    unfold __redisReaderSetErrorOOM. by rewrite with_pos_error by by apply (view_buf r u). }
  assert (u64 (n + 2 + u64 (len + 2)) = n + 2 + len + 2) as ->.
  { unfold u64. rewrite (Z.mod_small (len + 2)) by lia. rewrite Z.mod_small; lia. }
  assert (u64 (r_pos r + (n + 2 + len + 2)) = r_pos r + (n + 2 + len + 2)) as Hu.
  { unfold u64. apply Z.mod_small. lia. }
  rewrite Hu, Hl.
  replace (r_pos r + (n + 2 + len + 2) <=? r_pos r + zlen u) with (n + 2 + len + 2 <=? zlen u) by lia.
  destruct (Z.leb_spec (n + 2 + len + 2) (zlen u)); [|by rewrite <- apply_wait].
  rewrite <- (finish_apply r u _ _ Hv).
  pose proof (unread_slice _ _ u (n + 2) (n + 2 + len) (view_data r u Hv)) as Hs.
  replace (r_pos r + (n + 2)) with (r_pos r + n + 2) in Hs by lia.
  replace (r_pos r + (n + 2 + len)) with (r_pos r + n + 2 + len) in Hs by lia.
  rewrite Hs by lia. destruct (createString _ _ _); [done|].
  unfold __redisReaderSetErrorOOM. by rewrite with_pos_error by by apply (view_buf r u).
Qed.

Lemma array_apply r u cur :
  view r u -> task_at (r_state r) (ridx (r_state r)) = Some cur ->
  processMultiBulkItem malloc_ok r = apply_out r <$> array_item (r_state r) cur (tk_type cur) u.
Proof.
  intros Hv Hc. unfold processMultiBulkItem, array_item. rewrite Hc. cbn [mbind option_bind].
  destruct (ridx (r_state r) =? 8).
  { cbn [fmap option_fmap option_map apply_out]. by rewrite with_state_same. }
  rewrite (readLine_view r u Hv). cbn [mbind option_bind].
  destruct (find_crlf u) as [n|] eqn:E; [|by rewrite <- apply_wait].
  change (data (with_pos r (r_pos r + (n + 2)))) with (data r).
  change (r_state (with_pos r (r_pos r + (n + 2)))) with (r_state r).
  rewrite (readLongLong_unread _ _ u n (view_data r u Hv) E).
  destruct (long_of u) as [v|]; [|done]. cbn [mbind option_bind].
  destruct (v =? -1).
  { rewrite <- (finish_apply r u _ _ Hv). by destruct (createNil malloc_ok). }
  unfold open_array. destruct (createArray malloc_ok (i32 v)) as [x|].
  - destruct (install (r_state r) x) as [st|]; [|done]. cbn [mbind option_bind].
    destruct (0 <? v).
    + destruct (set_task st _ _) as [st1|]; [|done]. cbn [mbind option_bind].
      by destruct (set_task st1 _ _).
    + by destruct (moveToNextTask st).
  - cbn [fmap option_fmap option_map apply_out]. rewrite with_state_same.
    unfold __redisReaderSetErrorOOM. by rewrite with_pos_error by by apply (view_buf r u).
Qed.

Lemma typed_apply r u cur :
  view r u -> task_at (r_state r) (ridx (r_state r)) = Some cur ->
  processTyped malloc_ok r (tk_type cur) = apply_out r <$> typed_item (r_state r) cur (tk_type cur) u.
Proof.
  intros Hv Hc. unfold processTyped, typed_item.
  destruct (_ || _ || _); [by apply line_apply|].
  destruct (_ =? _); [by apply bulk_apply|].
  destruct (_ =? _); [by apply array_apply|done].
Qed.

Lemma set_task_at st i t st' :
  set_task st i t = Some st' -> ridx st' = ridx st /\ task_at st' i = Some t /\
  reply st' = reply st /\ zlen (rstack st') = zlen (rstack st).
Proof.
  unfold set_task. case_match eqn:E; [|done]. intros [= <-]. cbn. split_and!; try done.
  - unfold task_at. cbn. replace (0 <=? i) with true by lia.
    apply list_lookup_insert_eq. unfold zlen in E. lia.
  - unfold zlen. by rewrite length_insert.
Qed.

Lemma view_bump r c u : view r (c :: u) -> view (with_pos r (r_pos r + 1)) u.
Proof.
  intros (b & Hb & Hu & Hl & Hp & Hs). exists b. cbn. rewrite zlen_cons in Hl.
  split_and!; try done; try lia. by apply (unread_next _ _ c).
Qed.

Lemma apply_bump r st1 o :
  apply_out (with_state (with_pos r (r_pos r + 1)) st1) o = apply_out r (bump 1 o) \/
  r_buf r = None.
Proof.
  destruct (r_buf r) eqn:E; [left|by right].
  destruct o as [k st|k st|st ty str]; cbn; try by rewrite Z.add_assoc.
  by unfold __redisReaderSetError, with_state; cbn; rewrite E.
Qed.

(** The step of the reader is the step on the list of its unread bytes. *)
Lemma processItem_item r u :
  view r u -> processItem malloc_ok r = apply_out r <$> item (r_state r) u.
Proof.
  intros Hv. unfold processItem, item.
  destruct (task_at (r_state r) (ridx (r_state r))) as [cur|] eqn:Hc; [|done].
  cbn [mbind option_bind]. destruct (tk_type cur <? 0); [|by apply typed_apply].
  destruct (view_avail r u Hv) as [Ha _]. unfold readBytes. rewrite Ha.
  destruct u as [|c u]; [by rewrite <- apply_wait|].
  destruct (Z.leb_spec 1 (zlen (c :: u))); [|zlen_lia].
  rewrite (view_pos r (c :: u)) by (done || zlen_lia).
  change (data (with_pos r (r_pos r + 1))) with (data r).
  rewrite (unread_head _ _ _ _ (view_data r _ Hv)). cbn [mbind option_bind].
  destruct (type_of_byte c) as [type|].
  2:{ cbn [fmap option_fmap option_map apply_out].
      unfold __redisReaderSetErrorProtocolByte.
      by rewrite with_state_same, with_pos_error by by apply (view_buf r (c :: u)). }
  change (r_state (with_pos r (r_pos r + 1))) with (r_state r).
  destruct (set_task _ _ _) as [st|] eqn:Es; [|done]. cbn [mbind option_bind].
  destruct (set_task_at _ _ _ _ Es) as (Hi & Ht & _).
  set (r1 := with_state (with_pos r (r_pos r + 1)) st).
  assert (view r1 u) as Hv1 by by apply view_bump in Hv.
  pose proof (typed_apply r1 u (mk_task type (tk_elements cur) (tk_idx cur)) Hv1) as Hr.
  cbn [r_state r1 with_state tk_type] in Hr. rewrite Hi in Hr. rewrite (Hr Ht).
  destruct (typed_item st _ type u) as [o|]; [|done].
  cbn [fmap option_fmap option_map]. f_equal.
  destruct (apply_bump r st o) as [Hb|Hb]; [exact Hb|]. by destruct (view_buf r _ Hv).
Qed.

(** ** More input *)

Lemma slice_app_le u v i j : 0 <= i -> j <= zlen u -> slice (u ++ v) i j = slice u i j.
Proof. intros. by apply slice_prefix. Qed.

Lemma finish_not_wait st obj k o :
  finish_item st obj k = o ->
  match o with Some (Wait _ _) => False | Some (Got j _) => j = k | _ => True end.
Proof.
  intros <-. destruct obj as [x|]; cbn [finish_item]; [|done]. by destruct (deliver st x).
Qed.

Lemma open_array_not_wait st cur type n k o :
  open_array st cur type n k = o ->
  match o with Some (Wait _ _) => False | Some (Got j _) => j = k | _ => True end.
Proof.
  intros <-. unfold open_array. destruct (createArray _ _) as [x|]; [|done].
  destruct (install st x) as [st1|]; [|done]. cbn [mbind option_bind].
  destruct (0 <? n); [|by destruct (moveToNextTask st1)].
  destruct (set_task st1 _ _) as [st2|]; [|done]. cbn [mbind option_bind].
  by destruct (set_task st2 _ _).
Qed.

(** What a step on [u] says about the step on a longer input [w]. *)
Definition extends st u (o o' : option item_out) : Prop :=
  match o with
  | Some (Wait k st') => k = 0 /\ st' = st
  | Some (Got k _) => 2 <= k <= zlen u /\ o' = o
  | _ => o' = o
  end.

Lemma extends_same st u o k :
  match o with Some (Wait _ _) => False | Some (Got j _) => j = k | _ => True end ->
  2 <= k <= zlen u -> extends st u o o.
Proof. intros Ho Hk. destruct o as [[]|]; cbn in *; subst; done. Qed.

Lemma line_extends st type u v :
  extends st u (line_item st type u) (line_item st type (u ++ v)).
Proof.
  unfold line_item. destruct (find_crlf u) as [n|] eqn:E; [|done].
  pose proof (find_crlf_range u n E). rewrite (find_crlf_app u v n E).
  destruct (long_of_app u v n E) as (z & -> & ->). rewrite slice_app_le by lia.
  cbn [mbind option_bind].
  destruct (type =? REDIS_REPLY_INTEGER); (eapply extends_same; [by eapply finish_not_wait|lia]).
Qed.

Lemma bulk_extends st type u v :
  extends st u (bulk_item st type u) (bulk_item st type (u ++ v)).
Proof.
  unfold bulk_item. destruct (find_crlf u) as [n|] eqn:E; [|done].
  pose proof (find_crlf_range u n E). rewrite (find_crlf_app u v n E).
  destruct (long_of_app u v n E) as (z & -> & ->). cbn [mbind option_bind].
  destruct (Z.ltb_spec z 0).
  { eapply extends_same; [by eapply finish_not_wait|lia]. }
  destruct (Z.leb_spec (n + 2 + z + 2) (zlen u)); [|done].
  destruct (Z.leb_spec (n + 2 + z + 2) (zlen (u ++ v))); [|zlen_lia].
  rewrite slice_app_le by lia. eapply extends_same; [by eapply finish_not_wait|lia].
Qed.

Lemma array_extends st cur type u v :
  extends st u (array_item st cur type u) (array_item st cur type (u ++ v)).
Proof.
  unfold array_item. destruct (ridx st =? 8); [done|].
  destruct (find_crlf u) as [n|] eqn:E; [|done].
  pose proof (find_crlf_range u n E). rewrite (find_crlf_app u v n E).
  destruct (long_of_app u v n E) as (z & -> & ->). cbn [mbind option_bind].
  destruct (z =? -1).
  - eapply extends_same; [by eapply finish_not_wait|lia].
  - eapply extends_same; [by eapply open_array_not_wait|lia].
Qed.

Lemma typed_extends st cur type u v :
  extends st u (typed_item st cur type u) (typed_item st cur type (u ++ v)).
Proof.
  unfold typed_item. destruct (_ || _ || _); [apply line_extends|].
  destruct (_ =? _); [apply bulk_extends|]. destruct (_ =? _); [apply array_extends|done].
Qed.

Lemma type_of_byte_range c type : type_of_byte c = Some type -> 1 <= type <= 6.
Proof.
  unfold type_of_byte. do 5 (destruct (bool_decide _); [intros [= <-]; by compute|]). done.
Qed.

Lemma bump_0 o : bump 0 o = o.
Proof. by destruct o. Qed.

Lemma item_typed st cur u :
  task_at st (ridx st) = Some cur -> 0 <= tk_type cur ->
  item st u = typed_item st cur (tk_type cur) u.
Proof.
  intros Hc Hp. unfold item. rewrite Hc. cbn [mbind option_bind].
  by replace (tk_type cur <? 0) with false by lia.
Qed.

Lemma item_fresh st cur c u :
  task_at st (ridx st) = Some cur -> tk_type cur < 0 ->
  item st (c :: u) =
  match type_of_byte c with
  | None => Some (Fail st REDIS_ERR_PROTOCOL
              (s "Protocol error, got " ++ chrtos c ++ s " as reply type byte"))
  | Some type =>
      let cur' := mk_task type (tk_elements cur) (tk_idx cur) in
      st' ← set_task st (ridx st) cur'; bump 1 <$> typed_item st' cur' type u
  end.
Proof.
  intros Hc Hp. unfold item. rewrite Hc. cbn [mbind option_bind].
  by replace (tk_type cur <? 0) with true by lia.
Qed.

Lemma item_empty st cur :
  task_at st (ridx st) = Some cur -> tk_type cur < 0 -> item st [] = Some (Wait 0 st).
Proof.
  intros Hc Hp. unfold item. rewrite Hc. cbn [mbind option_bind].
  by replace (tk_type cur <? 0) with true by lia.
Qed.

Lemma fmap_bump_0 (o : option item_out) : bump 0 <$> o = o.
Proof. destruct o as [o|]; [|done]. cbn. by rewrite bump_0. Qed.

(** The step with more input: the same, or after a wait the step goes on where
    it stopped. *)
Lemma item_more st u v :
  match item st u with
  | Some (Wait k st') =>
      0 <= k <= zlen u /\ ridx st' = ridx st /\
      item st (u ++ v) = bump k <$> item st' (drop (Z.to_nat k) u ++ v)
  | Some (Got k _) => 0 < k <= zlen u /\ item st (u ++ v) = item st u
  | o => item st (u ++ v) = o
  end.
Proof.
  pose proof (zlen_nonneg u) as Hz.
  destruct (task_at st (ridx st)) as [cur|] eqn:Hc.
  2:{ unfold item. by rewrite Hc. }
  destruct (Z.lt_ge_cases (tk_type cur) 0) as [Hneg|Hpos].
  - destruct u as [|c u].
    { rewrite (item_empty st cur Hc Hneg). split; [unfold zlen; cbn; lia|]. split; [done|].
      by rewrite fmap_bump_0. }
    cbn [app]. rewrite (item_fresh st cur c u Hc Hneg), (item_fresh st cur c (u ++ v) Hc Hneg).
    destruct (type_of_byte c) as [type|] eqn:Et; [|done].
    set (cur' := mk_task type (tk_elements cur) (tk_idx cur)).
    cbv zeta. fold cur'.
    destruct (set_task st (ridx st) cur') as [st1|] eqn:Es; [|done]. cbn [mbind option_bind].
    destruct (set_task_at _ _ _ _ Es) as (Hi & Ht & _). apply type_of_byte_range in Et.
    pose proof (typed_extends st1 cur' type u v) as Hext. rewrite zlen_cons in *.
    pose proof (zlen_nonneg u).
    destruct (typed_item st1 cur' type u) as [[k st2|k st2|st2 ty str]|] eqn:Eo;
      cbn [fmap option_fmap option_map bump extends] in *.
    + destruct Hext as [-> ->]. rewrite Z.add_0_r. split; [lia|]. split; [done|].
      change (drop (Z.to_nat 1) (c :: u)) with u. rewrite <- Hi in Ht.
      rewrite (item_typed st1 cur' _ Ht); [done|cbn; lia].
    + destruct Hext as [Hk ->]. split; [lia|done].
    + by rewrite Hext.
    + by rewrite Hext.
  - rewrite (item_typed st cur u Hc Hpos), (item_typed st cur (u ++ v) Hc Hpos).
    pose proof (typed_extends st cur (tk_type cur) u v) as Hext.
    destruct (typed_item st cur (tk_type cur) u) as [[k st2|k st2|st2 ty str]|] eqn:Eo;
      cbn [extends] in Hext.
    + destruct Hext as [-> ->]. split; [lia|]. split; [done|].
      change (drop (Z.to_nat 0) u) with u. by rewrite fmap_bump_0, (item_typed st cur _ Hc Hpos).
    + destruct Hext as [Hk ->]. split; [lia|done].
    + exact Hext.
    + exact Hext.
Qed.
End item.
