(* ===== verification/ReaderStream.v ===== *)
(** * The reply reader decodes the protocol, whatever the packets

    [wire] is a reply as it is on the wire, [encode] its bytes and [reply_of] the
    object the reader must build.  [drain] is the loop of a client on the list
    of unread bytes: replies are taken until more input is needed.  It gives the
    same replies however the input is cut ([drain_split]), and on the encodings
    of replies it gives exactly these replies ([drain_encode]). *)

From S2P Require Import Prelude Hiutil Resp Reply Sds SdsSpec Reader ReaderSpec.

(** ** Replies on the wire *)

#[warnings="-register-all"]
Inductive wire :=
| WStatus (l : bytes)
| WError (l : bytes)
| WInt (n : Z)
| WBulk (l : bytes)
| WNil
| WNilArray
| WArray (ws : list wire).

Lemma wire_induction (P : wire -> Prop) :
  (forall l, P (WStatus l)) -> (forall l, P (WError l)) -> (forall n, P (WInt n)) ->
  (forall l, P (WBulk l)) -> P WNil -> P WNilArray ->
  (forall ws, Forall P ws -> P (WArray ws)) -> forall w, P w.
Proof.
  intros H1 H2 H3 H4 H5 H6 H7. fix IH 1.
  intros [l|l|n|l| | |ws]; [apply H1|apply H2|apply H3|apply H4|exact H5|exact H6|apply H7].
  induction ws as [|w ws IHws]; constructor; [apply IH|exact IHws].
Qed.

Fixpoint encode (w : wire) : bytes :=
  match w with
  | WStatus l => "+"%char :: l ++ CRLF
  | WError l => "-"%char :: l ++ CRLF
  | WInt n => ":"%char :: dec_signed n ++ CRLF
  | WBulk l => bulk l
  | WNil => s "$-1" ++ CRLF
  | WNilArray => s "*-1" ++ CRLF
  | WArray ws => request_header (zlen ws) ++ concat (map encode ws)
  end.

Fixpoint reply_of (w : wire) : redisReply :=
  match w with
  | WStatus l => createStringObject REDIS_REPLY_STATUS l
  | WError l => createStringObject REDIS_REPLY_ERROR l
  | WInt n => createIntegerObject n
  | WBulk l => createStringObject REDIS_REPLY_STRING l
  | WNil | WNilArray => createNilObject
  | WArray ws => array_reply (map reply_of ws)
  end.

(** The levels of array below a reply, itself included. *)
Fixpoint depth (w : wire) : Z :=
  match w with
  | WNilArray => 1
  | WArray ws => 1 + foldr Z.max 0 (map depth ws)
  | _ => 0
  end.

(** What the protocol allows: one line for a status or an error, 64 bits for an
    integer (the smallest one overflows in [readLongLong]). *)
Fixpoint wire_ok (w : wire) : bool :=
  match w with
  | WStatus l | WError l => bool_decide (CR ∉ l)
  | WInt n => (- 2 ^ 63 <? n) && (n <? 2 ^ 63)
  | WBulk l => zlen l <? 2 ^ 31
  | WNil | WNilArray => true
  | WArray ws => (zlen ws <? 2 ^ 31) && forallb wire_ok ws
  end.

(** ** Numerals *)

Lemma digit_not_CR c : isdigit c = true -> c <> CR.
Proof. intros Hd ->. by rewrite not_isdigit_CR in Hd. Qed.

Lemma digit_not_sign c : isdigit c = true -> c <> "-"%char /\ c <> "+"%char.
Proof. intros Hd. split; intros ->; done. Qed.

Lemma long_digits_value m l rest : forall v,
  Forall (fun c => isdigit c = true) l -> 0 <= v ->
  fold_left (fun v c => v * 10 + digit_val c) l v < 2 ^ 63 ->
  long_digits m v (l ++ CR :: rest) =
  Some (i64 (m * fold_left (fun v c => v * 10 + digit_val c) l v)).
Proof.
  induction l as [|c l IH]; intros v Hd Hv Hb; cbn [app long_digits fold_left]; [done|].
  apply Forall_cons in Hd as [Hc Hd]. pose proof (proj1 (isdigit_range c) Hc) as Hr.
  rewrite bool_decide_eq_false_2 by by apply digit_not_CR.
  replace ((0 <=? digit_val c) && (digit_val c <? 10)) with true by lia.
  cbn [fold_left] in Hb.
  pose proof (dec_fold_ge l (v * 10 + digit_val c) Hd ltac:(lia)).
  assert (i64 (i64 (v * 10) + digit_val c) = v * 10 + digit_val c) as ->.
  { unfold i64. rewrite (Z.mod_small (v * 10 + 2 ^ 63)) by lia. rewrite Z.mod_small; lia. }
  apply IH; [done|lia|done].
Qed.

Lemma long_of_dec n rest :
  - 2 ^ 63 < n < 2 ^ 63 -> long_of (dec_signed n ++ CR :: rest) = Some n.
Proof.
  intros Hn.
  assert (forall m k, 0 <= k < 2 ^ 63 ->
    long_digits m 0 (dec k ++ CR :: rest) = Some (i64 (m * k))) as Hd.
  { intros m k Hk. pose proof (dec_value_dec k ltac:(lia)) as Hv. unfold dec_value in Hv.
    rewrite long_digits_value; rewrite ?Hv; try lia; [done|]. apply dec_digits. lia. }
  assert (i64 n = n) as Hi by (unfold i64; rewrite Z.mod_small; lia).
  unfold dec_signed. destruct (Z.ltb_spec n 0).
  - cbn [app long_of]. rewrite bool_decide_eq_true_2 by done. rewrite Hd by lia.
    by replace (-1 * - n) with n by lia; rewrite Hi.
  - specialize (Hd 1 n ltac:(lia)). rewrite Z.mul_1_l, Hi in Hd. rewrite <- Hd.
    pose proof (dec_digits n ltac:(lia)) as Hf. pose proof (dec_nonempty n).
    destruct (dec n) as [|c l]; [done|]. cbn [app long_of].
    apply Forall_cons in Hf as [[Hm Hp]%digit_not_sign _].
    by rewrite !bool_decide_eq_false_2 by done.
Qed.

Lemma dec_signed_no_CR n : CR ∉ dec_signed n.
Proof.
  assert (forall k, 0 <= k -> CR ∉ dec k) as Hk.
  { intros k Hk Hin. pose proof (dec_digits k Hk) as Hf. rewrite Forall_forall in Hf.
    by specialize (Hf _ Hin). }
  unfold dec_signed. destruct (Z.ltb_spec n 0); [|apply Hk; lia].
  apply not_elem_of_cons. split; [done|]. apply Hk. lia.
Qed.

(** A number line in front of more input. *)
Lemma number_line n rest :
  - 2 ^ 63 < n < 2 ^ 63 ->
  find_crlf (dec_signed n ++ CRLF ++ rest) = Some (zlen (dec_signed n)) /\
  long_of (dec_signed n ++ CRLF ++ rest) = Some n.
Proof.
  intros Hn. split; [by apply find_crlf_line, dec_signed_no_CR|]. by apply long_of_dec.
Qed.

Lemma dec_signed_pos n : 0 <= n -> dec_signed n = dec n.
Proof. intros Hn. unfold dec_signed. by destruct (Z.ltb_spec n 0); [lia|]. Qed.

(** ** The position of the reader in a reply

    A frame is an open array: the elements read so far and their number when the
    array is complete.  The frames are listed innermost first. *)

Abbreviation frame := (list redisReply * Z)%type.
Implicit Types (f : frame) (fs : list frame) (x y : redisReply).

(** The array of a frame, with [c] in the slot that is being read. *)
Definition wrap f (c : option redisReply) : redisReply :=
  mk_reply REDIS_REPLY_ARRAY 0 0 None f.2
    (map Some f.1 ++ c :: repeat None (Z.to_nat (f.2 - zlen f.1 - 1))).

Fixpoint plug fs (c : option redisReply) : option redisReply :=
  match fs with
  | [] => c
  | f :: fs' => plug fs' (Some (wrap f c))
  end.

Definition frames_ok fs : Prop := Forall (fun f => zlen f.1 < f.2 /\ f.2 < 2 ^ 31) fs.

(** The read tasks of the frames and of the current item, innermost first. *)
Fixpoint tasks fs (type elements : Z) : list redisReadTask :=
  match fs with
  | [] => [mk_task type elements (-1)]
  | f :: fs' => mk_task type elements (zlen f.1) :: tasks fs' REDIS_REPLY_ARRAY f.2
  end.

(** The stack of the reader: the tasks, and above them what earlier items left. *)
Definition at_slot (st : read_state) fs (type elements : Z) : Prop :=
  exists stale, rstack st = rev (tasks fs type elements) ++ stale /\
    zlen (rstack st) = 9 /\ ridx st = zlen fs.

(** What is open after an object was read. *)
Fixpoint advance fs x : list frame + redisReply :=
  match fs with
  | [] => inr x
  | f :: fs' =>
      if zlen f.1 + 1 <? f.2 then inl ((f.1 ++ [x], f.2) :: fs')
      else advance fs' (array_reply (f.1 ++ [x]))
  end.

Definition after (st : read_state) (a : list frame + redisReply) : Prop :=
  match a with
  | inl fs => (exists e, at_slot st fs (-1) e) /\ reply st = plug fs None /\ frames_ok fs
  | inr y => ridx st = -1 /\ reply st = Some y /\ zlen (rstack st) = 9
  end.

Lemma plug_snoc fs f c : plug (fs ++ [f]) c = Some (wrap f (plug fs c)).
Proof. revert c. induction fs as [|g fs IH]; intros c; cbn [plug app]; [done|apply IH]. Qed.

Lemma length_tasks fs type e : length (tasks fs type e) = S (length fs).
Proof. revert type e. induction fs as [|f fs IH]; intros; cbn; [done|by rewrite IH]. Qed.

(** The first task above the lower ones is that of the current item. *)
Lemma tasks_cons fs type e :
  exists low idx, tasks fs type e = mk_task type e idx :: low /\ length low = length fs /\
    (forall type' e', tasks fs type' e' = mk_task type' e' idx :: low) /\
    idx = match fs with [] => -1 | f :: _ => zlen f.1 end.
Proof.
  destruct fs as [|f fs]; cbn [tasks].
  - by exists [], (-1).
  - exists (tasks fs REDIS_REPLY_ARRAY f.2), (zlen f.1). by rewrite length_tasks.
Qed.

Lemma task_at_middle (st : read_state) low cur stale i :
  rstack st = rev low ++ cur :: stale -> i = Z.of_nat (length low) -> task_at st i = Some cur.
Proof.
  intros Hst ->. unfold task_at. rewrite (proj2 (Z.leb_le 0 _) (Nat2Z.is_nonneg _)).
  rewrite Hst, Nat2Z.id. rewrite <- (length_rev low). by apply list_lookup_middle.
Qed.

Lemma set_task_middle (st : read_state) low cur stale i t :
  rstack st = rev low ++ cur :: stale -> i = Z.of_nat (length low) ->
  set_task st i t = Some (mk_state (rev low ++ t :: stale) (ridx st) (reply st)).
Proof.
  intros Hst ->. unfold set_task. rewrite Hst.
  replace ((0 <=? Z.of_nat (length low)) && (Z.of_nat (length low) <? zlen (rev low ++ cur :: stale)))
    with true.
  2:{ symmetry. apply andb_true_iff. rewrite Z.leb_le, Z.ltb_lt.
      unfold zlen. rewrite length_app, length_rev. cbn [length]. lia. }
  do 2 f_equal. rewrite Nat2Z.id. replace (length low) with (length (rev low) + 0)%nat
    by (rewrite length_rev; lia). by rewrite insert_app_r.
Qed.

(** The current task of a position, and the position with another task there. *)
Lemma at_slot_task st fs type e :
  at_slot st fs type e ->
  exists idx, task_at st (ridx st) = Some (mk_task type e idx) /\
    idx = match fs with [] => -1 | f :: _ => zlen f.1 end /\
    forall type' e', exists st', set_task st (ridx st) (mk_task type' e' idx) = Some st' /\
      at_slot st' fs type' e' /\ reply st' = reply st.
Proof.
  intros (stale & Hst & Hl & Hr). destruct (tasks_cons fs type e) as (low & idx & Ht & Hlow & Hall & Hi).
  rewrite Ht in Hst. cbn [rev] in Hst. rewrite <- app_assoc in Hst. cbn [app] in Hst.
  assert (ridx st = Z.of_nat (length low)) as Hrl by (rewrite Hr; unfold zlen; lia).
  exists idx. split; [by eapply task_at_middle|]. split; [done|].
  intros type' e'. rewrite (set_task_middle st low _ stale _ _ Hst Hrl).
  eexists. split; [done|]. split; [|done]. exists stale. cbn.
  rewrite Hall. cbn [rev]. split_and!; [by rewrite <- app_assoc| |done].
  rewrite <- Hl, Hst. unfold zlen. rewrite !length_app. done.
Qed.

(** ** Storing an object *)

Lemma path_frames st fs type e :
  at_slot st fs type e -> path st = rev (map (fun f => zlen f.1) fs).
Proof.
  intros (stale & Hst & Hl & Hr). unfold path. rewrite Hst, Hr.
  assert (forall t e, map tk_idx (tasks fs t e) = map (fun f => zlen f.1) fs ++ [-1]) as Ht.
  { clear. induction fs as [|f fs IH]; intros; cbn; [done|]. by rewrite IH. }
  rewrite <- firstn_map, <- skipn_map, map_app, map_rev, Ht, rev_app_distr. cbn [rev app].
  cbn [skipn app]. unfold zlen. rewrite Nat2Z.id.
  rewrite drop_0.  rewrite take_app_le by (rewrite length_rev, length_map; lia).
  apply take_ge. rewrite length_rev, length_map. lia.
Qed.

Lemma attach_plug fs : forall x root,
  frames_ok fs -> fs <> [] -> plug fs None = Some root ->
  attach (rev (map (fun f => zlen f.1) fs)) x root = plug fs (Some x).
Proof.
  induction fs as [|f fs IH] using rev_ind; [done|].
  intros x root Hok _ Hroot. apply Forall_app in Hok as [Hok Hf].
  apply Forall_cons in Hf as [[Hf1 Hf2] _].
  rewrite plug_snoc in Hroot. injection Hroot as <-. rewrite plug_snoc.
  rewrite map_app, rev_app_distr. cbn [map rev app attach].
  pose proof (zlen_nonneg f.1) as Hp.
  change (rtype (wrap f (plug fs None))) with REDIS_REPLY_ARRAY.
  rewrite Z.eqb_refl. cbn [negb orb]. rewrite (proj2 (Z.ltb_ge _ _) Hp).
  assert (forall c, element (wrap f c) =
            map Some f.1 ++ c :: repeat None (Z.to_nat (f.2 - zlen f.1 - 1))) as Hel by done.
  rewrite (Hel (plug fs None)).
  replace (Z.to_nat (zlen f.1)) with (length (map Some f.1)) by (rewrite length_map; unfold zlen; lia).
  rewrite list_lookup_middle by done. cbn [mbind option_bind].
  assert (forall c c', Some (mk_reply (rtype (wrap f c)) (integer (wrap f c)) (rlen (wrap f c))
      (rstr (wrap f c)) (elements (wrap f c))
      (<[length (map Some f.1) := Some c']> (element (wrap f c)))) = Some (wrap f (Some c'))) as Hw.
  { intros c c'. unfold wrap. cbn. do 2 f_equal.
    rewrite <- (Nat.add_0_r (length (map Some f.1))) at 1. by rewrite insert_app_r. }
  destruct (decide (fs = [])) as [->|Hne].
  - cbn [map rev plug mbind option_bind]. apply Hw.
  - assert (exists r, plug fs None = Some r) as [r Hr].
    { destruct fs as [|g fs' _] using rev_ind; [done|]. rewrite plug_snoc. eauto. }
    destruct (rev (map (fun f0 => zlen f0.1) fs)) as [|i p] eqn:Ep.
    { apply (f_equal length) in Ep. rewrite length_rev, length_map in Ep. by destruct fs. }
    rewrite Hr. cbn [mbind option_bind]. rewrite (IH x r Hok Hne Hr).
    assert (exists r', plug fs (Some x) = Some r') as [r' Hr'].
    { destruct fs as [|g fs' _] using rev_ind; [done|]. rewrite plug_snoc. eauto. }
    rewrite Hr'. cbn [mbind option_bind]. rewrite <- Hr. apply Hw.
Qed.

Lemma install_plug st fs type e x :
  at_slot st fs type e -> frames_ok fs -> reply st = plug fs None ->
  install st x = Some (with_reply st (plug fs (Some x))).
Proof.
  intros Hat Hok Hr. unfold install. rewrite (path_frames _ _ _ _ Hat).
  destruct Hat as (stale & Hst & Hl & Hi). rewrite Hi.
  destruct (Z.eqb_spec (zlen fs) 0) as [Hz|Hz].
  { destruct fs; [done|zlen_lia]. }
  assert (fs <> []) as Hne by (by intros ->).
  rewrite Hr. destruct (plug fs None) as [root|] eqn:Ep.
  - cbn [mbind option_bind]. rewrite (attach_plug fs x root) by done.
    destruct (plug fs (Some x)) eqn:E; [done|].
    destruct fs as [|g fs' _] using rev_ind; [done|]. by rewrite plug_snoc in E.
  - destruct fs as [|g fs' _] using rev_ind; [done|]. by rewrite plug_snoc in Ep.
Qed.

(** ** Going to the next item *)

Lemma wrap_next f x :
  zlen f.1 + 1 < f.2 -> wrap f (Some x) = wrap (f.1 ++ [x], f.2) None.
Proof.
  intros Hlt. unfold wrap. cbn [fst snd]. f_equal. rewrite map_app, <- app_assoc. cbn [map app].
  do 2 f_equal. rewrite zlen_app, zlen_singleton.
  replace (Z.to_nat (f.2 - zlen f.1 - 1)) with (S (Z.to_nat (f.2 - (zlen f.1 + 1) - 1))) by lia.
  done.
Qed.

Lemma wrap_last f x :
  zlen f.1 + 1 = f.2 -> wrap f (Some x) = array_reply (f.1 ++ [x]).
Proof.
  intros He. unfold wrap, array_reply. f_equal; [rewrite zlen_app, zlen_singleton; lia|].
  rewrite map_app. cbn [map]. replace (Z.to_nat (f.2 - zlen f.1 - 1)) with 0%nat by lia. done.
Qed.

Lemma move_next_frames fs : forall fuel st type e x,
  at_slot st fs type e -> frames_ok fs -> reply st = plug fs (Some x) -> (length fs < fuel)%nat ->
  exists st', move_next fuel st = Some st' /\ after st' (advance fs x).
Proof.
  induction fs as [|f fs IH]; intros fuel st type e x Hat Hok Hr Hf;
    (destruct fuel as [|fuel]; [cbn in Hf; lia|]);
    pose proof Hat as (stale & Hst & Hl & Hi); cbn [move_next]; rewrite Hi.
  - cbn. eexists. split; [done|]. cbn. split_and!; [done|by rewrite Hr|done].
  - apply Forall_cons in Hok as [[Hf1 Hf2] Hok].
    rewrite zlen_cons. pose proof (zlen_nonneg fs) as Hfs. pose proof (zlen_nonneg f.1) as Hd.
    destruct (Z.ltb_spec (1 + zlen fs) 0); [lia|].
    destruct (Z.eqb_spec (1 + zlen fs) 0); [lia|].
    destruct (at_slot_task st (f :: fs) type e Hat) as (idx & Hcur & Hidx & Hset).
    rewrite Hi, zlen_cons in Hcur, Hset. rewrite Hcur. cbn [mbind option_bind].
    destruct (tasks_cons fs REDIS_REPLY_ARRAY f.2) as (low & pidx & Hlow & Hlen & _).
    assert (task_at st (1 + zlen fs - 1) = Some (mk_task REDIS_REPLY_ARRAY f.2 pidx)) as Hprv.
    { apply (task_at_middle st low _ (mk_task type e (zlen f.1) :: stale)); [|unfold zlen; lia].
      rewrite Hst. cbn [tasks rev]. rewrite Hlow. cbn [rev]. by rewrite <- !app_assoc. }
    rewrite Hprv. cbn [mbind option_bind tk_type tk_idx tk_elements].
    rewrite Z.eqb_refl. cbn [negb]. rewrite Hidx, i32_small by lia. cbn [advance].
    destruct (Z.eqb_spec (zlen f.1) (f.2 - 1)) as [He|Hne].
    + destruct (Z.ltb_spec (zlen f.1 + 1) f.2); [lia|].
      apply (IH fuel _ REDIS_REPLY_ARRAY f.2); [|done| |cbn in Hf; lia].
      * exists (mk_task type e (zlen f.1) :: stale). cbn [rstack ridx with_ridx].
        split; [|split; [done|lia]]. rewrite Hst. cbn [tasks rev]. by rewrite <- app_assoc.
      * cbn [reply with_ridx]. rewrite Hr. cbn [plug]. by rewrite wrap_last by lia.
    + destruct (Z.ltb_spec (zlen f.1) f.2); [|lia]. cbn [negb].
      destruct (Z.ltb_spec (zlen f.1 + 1) f.2); [|lia].
      rewrite i32_small by lia. subst idx.
      rewrite Hst in *. cbn [tasks rev] in Hst.
      assert (rstack st = rev (tasks fs REDIS_REPLY_ARRAY f.2) ++ mk_task type e (zlen f.1) :: stale)
        as Hst' by (rewrite Hst, <- app_assoc; done).
      rewrite (set_task_middle st _ _ _ _ _ Hst') by (rewrite length_tasks; unfold zlen; lia).
      eexists. split; [done|]. cbn [after]. split_and!.
      * exists (-1). exists stale. cbn [rstack ridx tasks rev fst snd].
        split_and!.
        -- rewrite <- app_assoc. by rewrite zlen_app, zlen_singleton.
        -- rewrite <- Hl. unfold zlen. cbn [tasks rev]. rewrite !length_app. cbn [length]. lia.
        -- rewrite Hi, !zlen_cons. done.
      * cbn [reply plug]. rewrite Hr. cbn [plug]. by rewrite wrap_next.
      * constructor; [|done]. cbn [fst snd]. rewrite zlen_app, zlen_singleton. lia.
Qed.

(** An object read at a position goes to its place and the position advances. *)
Lemma deliver_frames st fs type e x :
  at_slot st fs type e -> frames_ok fs -> reply st = plug fs None -> zlen fs <= 8 ->
  exists st', deliver st x = Some st' /\ after st' (advance fs x).
Proof.
  intros Hat Hok Hr Hd. unfold deliver. rewrite (install_plug st fs type e x Hat Hok Hr).
  cbn [mbind option_bind]. unfold moveToNextTask.
  pose proof Hat as (stale & Hst & Hl & Hi).
  apply (move_next_frames fs _ _ type e); [by exists stale|done|done|].
  cbn [rstack with_reply]. unfold zlen in *. lia.
Qed.

Section stream.
Context (malloc_ok : Z -> bool).

(** ** Reading one reply *)

(** The bytes [u] take the reader from one state to another, item by item. *)
Inductive eats : read_state -> bytes -> read_state -> Prop :=
| eats_item st u st' : item malloc_ok st u = Some (Got (zlen u) st') -> eats st u st'
| eats_app st u1 st1 u2 st2 :
    eats st u1 st1 -> 0 <= ridx st1 -> eats st1 u2 st2 -> eats st (u1 ++ u2) st2.

(** The type byte: the rest is read with the type in the task. *)
Lemma item_type st fs e c type u :
  at_slot st fs (-1) e -> type_of_byte c = Some type ->
  exists st1 cur, at_slot st1 fs type e /\ reply st1 = reply st /\ tk_idx cur =
      (match fs with [] => -1 | f :: _ => zlen f.1 end) /\
    item malloc_ok st (c :: u) = bump 1 <$> typed_item malloc_ok st1 cur type u.
Proof.
  intros Hat Hc. destruct (at_slot_task st fs (-1) e Hat) as (idx & Hcur & Hidx & Hset).
  rewrite (item_fresh malloc_ok st _ c u Hcur) by done. rewrite Hc. cbn [tk_elements tk_idx].
  destruct (Hset type e) as (st1 & -> & Hat1 & Hr1). exists st1, (mk_task type e idx).
  by split_and!.
Qed.

Lemma scalar_item st fs e c type u x k :
  at_slot st fs (-1) e -> frames_ok fs -> reply st = plug fs None -> zlen fs <= 8 ->
  type_of_byte c = Some type ->
  (forall st1 cur, ridx st1 = zlen fs ->
     typed_item malloc_ok st1 cur type u = finish_item st1 (Some x) k) ->
  exists st', item malloc_ok st (c :: u) = Some (Got (1 + k) st') /\ after st' (advance fs x).
Proof.
  intros Hat Hok Hr Hd Hc Ht.
  destruct (item_type st fs e c type u Hat Hc) as (st1 & cur & Hat1 & Hr1 & _ & ->).
  rewrite Ht by (by destruct Hat1 as (? & _ & _ & ?)). cbn [finish_item].
  destruct (deliver_frames st1 fs type e x Hat1 Hok) as (st' & -> & Ha); [congruence|done|].
  by exists st'.
Qed.

(** A new array opens a frame, or is delivered when it is empty. *)
Lemma open_array_frames st fs e cur n k :
  at_slot st fs REDIS_REPLY_ARRAY e -> frames_ok fs -> reply st = plug fs None -> zlen fs < 8 ->
  tk_idx cur = (match fs with [] => -1 | f :: _ => zlen f.1 end) -> 0 <= n < 2 ^ 31 ->
  createArray malloc_ok n = Some (createArrayObject n) ->
  exists st', open_array malloc_ok st cur REDIS_REPLY_ARRAY n k = Some (Got k st') /\
    after st' (if n =? 0 then advance fs (array_reply []) else inl (([], n) :: fs)).
Proof.
  intros Hat1 Hok Hr Hd Hidx Hn Hc. unfold open_array. rewrite i32_small, Hc by lia.
  rewrite (install_plug st fs REDIS_REPLY_ARRAY e) by done. cbn [mbind option_bind].
  destruct (Z.eqb_spec n 0) as [->|Hnz].
  - cbn [Z.ltb Z.compare].
    destruct (deliver_frames st fs REDIS_REPLY_ARRAY e (array_reply []) Hat1 Hok) as (st' & Hdl & Ha);
      [done|lia|].
    unfold deliver in Hdl. rewrite (install_plug st fs REDIS_REPLY_ARRAY e) in Hdl by done.
    cbn [mbind option_bind] in Hdl.
    change (createArrayObject 0) with (array_reply []). rewrite Hdl. by exists st'.
  - destruct (Z.ltb_spec 0 n); [|lia].
    set (st2 := with_reply st (plug fs (Some (createArrayObject n)))).
    assert (at_slot st2 fs REDIS_REPLY_ARRAY e) as Hat2 by exact Hat1.
    destruct (at_slot_task st2 fs REDIS_REPLY_ARRAY e Hat2) as (idx & _ & Hidx2 & Hset).
    destruct (Hset REDIS_REPLY_ARRAY n) as (st3 & Hs3 & Hat3 & Hr3).
    rewrite Hidx, <- Hidx2, Hs3. cbn [mbind option_bind].
    destruct Hat3 as (stale3 & Hst3 & Hl3 & Hi3).
    destruct stale3 as [|t stale3].
    { rewrite app_nil_r in Hst3. rewrite Hst3 in Hl3. unfold zlen in *.
      rewrite length_rev, length_tasks in Hl3. lia. }
    rewrite (set_task_middle st3 (tasks fs REDIS_REPLY_ARRAY n) t stale3)
      by (done || (rewrite Hi3, length_tasks; unfold zlen; lia)).
    eexists. split; [done|]. cbn [after]. split_and!.
    + exists (-1), stale3. cbn [rstack ridx with_ridx tasks rev fst snd].
      change (zlen (@nil redisReply)) with 0.
      rewrite <- app_assoc. split_and!; [done| |rewrite Hi3, zlen_cons; lia].
      rewrite <- Hl3, Hst3. unfold zlen. rewrite !length_app. done.
    + cbn [reply with_ridx]. rewrite Hr3. cbn [reply st2 with_reply plug].
      do 2 f_equal. unfold createArrayObject, wrap. cbn [fst snd map app].
      change (zlen (@nil redisReply)) with 0.
      destruct (Z.ltb_spec 0 n); [|lia].
      assert (u64 n = n) as -> by (unfold u64; apply Z.mod_small; lia).
      replace (Z.to_nat n) with (S (Z.to_nat (n - 0 - 1))) by lia. done.
    + constructor; [|done]. cbn [fst snd].
      change (zlen (@nil redisReply)) with 0. lia.
Qed.

Hypothesis Hmalloc : forall n, malloc_ok n = true.

Lemma createString_ok type l : createString malloc_ok type l = Some (createStringObject type l).
Proof. unfold createString. by rewrite !Hmalloc. Qed.
Lemma createNil_ok : createNil malloc_ok = Some createNilObject.
Proof. unfold createNil. by rewrite Hmalloc. Qed.
Lemma createInteger_ok n : createInteger malloc_ok n = Some (createIntegerObject n).
Proof. unfold createInteger. by rewrite Hmalloc. Qed.
Lemma createArray_ok n : createArray malloc_ok n = Some (createArrayObject n).
Proof. unfold createArray. rewrite !Hmalloc. by destruct (0 <? n). Qed.

Lemma slice_all l rest : slice (l ++ rest) 0 (zlen l) = l.
Proof. pose proof (slice_app [] l rest) as H. exact H. Qed.

Lemma line_text st type l :
  CR ∉ l -> type <> REDIS_REPLY_INTEGER ->
  line_item malloc_ok st type (l ++ CRLF) =
  finish_item st (Some (createStringObject type l)) (zlen l + 2).
Proof.
  intros Hl Ht. unfold line_item. pose proof (find_crlf_line l [] Hl) as Hf.
  rewrite app_nil_r in Hf. rewrite Hf. destruct (Z.eqb_spec type REDIS_REPLY_INTEGER); [done|].
  by rewrite slice_all, createString_ok.
Qed.

Lemma bulk_text st type l :
  zlen l < 2 ^ 31 ->
  bulk_item malloc_ok st type (dec (zlen l) ++ CRLF ++ l ++ CRLF) =
  finish_item st (Some (createStringObject type l)) (zlen (dec (zlen l)) + zlen l + 4).
Proof.
  intros Hl. pose proof (zlen_nonneg l) as Hp. unfold bulk_item.
  rewrite <- (dec_signed_pos (zlen l)) by done.
  destruct (number_line (zlen l) (l ++ CRLF)) as [-> ->]; [lia|]. cbn [mbind option_bind].
  destruct (Z.ltb_spec (zlen l) 0); [lia|]. set (d := dec_signed (zlen l)).
  destruct (Z.leb_spec (zlen d + 2 + zlen l + 2) (zlen (d ++ CRLF ++ l ++ CRLF))); [|zlen_lia].
  pose proof (slice_app (d ++ CRLF) l CRLF) as Hs. rewrite <- app_assoc in Hs.
  replace (zlen (d ++ CRLF)) with (zlen d + 2) in Hs by zlen_lia.
  rewrite Hs, createString_ok. f_equal. lia.
Qed.

Lemma nil_text st : bulk_item malloc_ok st REDIS_REPLY_STRING (s "-1" ++ CRLF) =
  finish_item st (Some createNilObject) 4.
Proof. unfold bulk_item. rewrite createNil_ok. done. Qed.

Lemma nil_array_text st cur : ridx st < 8 ->
  array_item malloc_ok st cur REDIS_REPLY_ARRAY (s "-1" ++ CRLF) =
  finish_item st (Some createNilObject) 4.
Proof.
  intros Hr. unfold array_item. destruct (Z.eqb_spec (ridx st) 8); [lia|].
  rewrite createNil_ok. done.
Qed.

(** The header of an array. *)
Lemma array_header st fs e n :
  at_slot st fs (-1) e -> frames_ok fs -> reply st = plug fs None -> zlen fs < 8 ->
  0 <= n < 2 ^ 31 ->
  exists st', item malloc_ok st (request_header n) = Some (Got (zlen (request_header n)) st') /\
    after st' (if n =? 0 then advance fs (array_reply []) else inl (([], n) :: fs)).
Proof.
  intros Hat Hok Hr Hd Hn. unfold request_header.
  destruct (item_type st fs e "*"%char REDIS_REPLY_ARRAY (dec n ++ CRLF) Hat eq_refl)
    as (st1 & cur & Hat1 & Hr1 & Hidx & ->).
  change (typed_item malloc_ok st1 cur REDIS_REPLY_ARRAY (dec n ++ CRLF))
    with (array_item malloc_ok st1 cur REDIS_REPLY_ARRAY (dec n ++ CRLF)).
  unfold array_item. pose proof Hat1 as (stale & Hst & Hl & Hi).
  destruct (Z.eqb_spec (ridx st1) 8); [lia|].
  destruct (number_line n [] ltac:(lia)) as [Hf Hlo]. rewrite app_nil_r in Hf, Hlo.
  rewrite dec_signed_pos in Hf, Hlo by lia. rewrite Hf, Hlo. cbn [mbind option_bind].
  destruct (Z.eqb_spec n (-1)); [lia|].
  assert (zlen ("*"%char :: dec n ++ CRLF) = 1 + (zlen (dec n) + 2)) as Hz by zlen_lia. rewrite Hz.
  destruct (open_array_frames st1 fs e cur n (zlen (dec n) + 2)) as (st' & -> & Ha);
    [done|done|congruence|done|done|done|apply createArray_ok|]. by exists st'.
Qed.

Definition reads (st : read_state) (u : bytes) (a : list frame + redisReply) : Prop :=
  exists st', eats st u st' /\ after st' a.

(** Where a reply can be read. *)
Definition ready (st : read_state) fs : Prop :=
  (exists e, at_slot st fs (-1) e) /\ reply st = plug fs None /\ frames_ok fs.

Lemma item_reads st u st' a :
  item malloc_ok st u = Some (Got (zlen u) st') -> after st' a -> reads st u a.
Proof. intros Hi Ha. exists st'. split; [by apply eats_item|done]. Qed.

(** The rest of an array, from its first open element on. *)
Lemma elements_read ws : forall st f fs,
  Forall (fun w => forall st fs, ready st fs -> zlen fs + depth w <= 8 ->
            reads st (encode w) (advance fs (reply_of w))) ws ->
  ready st (f :: fs) -> zlen f.1 + zlen ws = f.2 -> ws <> [] ->
  Forall (fun w => zlen fs + 1 + depth w <= 8) ws ->
  reads st (concat (map encode ws)) (advance fs (array_reply (f.1 ++ map reply_of ws))).
Proof.
  induction ws as [|w ws IH]; intros st f fs Hall Hre Hn Hne Hd; [done|].
  apply Forall_cons in Hall as [Hw Hall]. apply Forall_cons in Hd as [Hdw Hd].
  destruct (Hw st (f :: fs) Hre) as (st1 & He & Ha); [rewrite zlen_cons; lia|].
  cbn [advance map concat] in *. rewrite zlen_cons in Hn.
  destruct ws as [|w' ws].
  - rewrite zlen_nil in Hn. destruct (Z.ltb_spec (zlen f.1 + 1) f.2); [lia|].
    rewrite app_nil_r. by exists st1.
  - rewrite zlen_cons in Hn. pose proof (zlen_nonneg ws).
    destruct (Z.ltb_spec (zlen f.1 + 1) f.2); [|lia].
    destruct (IH st1 (f.1 ++ [reply_of w], f.2) fs Hall Ha) as (st2 & He2 & Ha2).
    + cbn [fst snd]. rewrite zlen_app, zlen_singleton, zlen_cons. lia.
    + done.
    + done.
    + cbn [fst] in Ha2. rewrite <- app_assoc in Ha2. exists st2. split; [|done].
      eapply eats_app; [exact He| |exact He2].
      destruct Ha as ((e & stale & _ & _ & Hi) & _). rewrite Hi. apply zlen_nonneg.
Qed.

Lemma depth_nonneg w : 0 <= depth w.
Proof.
  destruct w; cbn; try lia. assert (forall l, 0 <= foldr Z.max 0 l) as H; [|specialize (H (map depth ws)); lia].
  induction l; cbn; lia.
Qed.

Lemma depth_elements ws :
  Forall (fun w => depth w <= foldr Z.max 0 (map depth ws)) ws.
Proof.
  induction ws as [|w ws IH]; [constructor|]. cbn [map foldr]. constructor; [lia|].
  eapply Forall_impl; [exact IH|]. cbn. lia.
Qed.

(** An array whose elements are read. *)
Lemma array_reads ws st fs :
  zlen ws < 2 ^ 31 -> ready st fs ->
  Forall (fun w => forall st fs, ready st fs -> zlen fs + depth w <= 8 -> reads st (encode w) (advance fs (reply_of w))) ws ->
  zlen fs + (1 + foldr Z.max 0 (map depth ws)) <= 8 -> reads st (encode (WArray ws)) (advance fs (reply_of (WArray ws))).
Proof.
  intros Hlen Hre IH Hd. pose proof Hre as ((e & Hat) & Hr & Hok). pose proof (zlen_nonneg fs).
  cbn [encode reply_of]. pose proof (depth_elements ws) as Hel. pose proof (zlen_nonneg ws) as Hz.
  assert (0 <= foldr Z.max 0 (map depth ws)) as Hmax by (clear; induction ws; cbn; lia).
  destruct (array_header st fs e (zlen ws) Hat Hok Hr) as (st1 & Hi & Ha); [lia|lia|].
  destruct (Z.eqb_spec (zlen ws) 0) as [Hnil|Hne].
  { destruct ws; [|zlen_lia]. cbn [map concat]. rewrite app_nil_r. by eapply item_reads. }
  destruct (elements_read ws st1 ([], zlen ws) fs) as (st2 & He2 & Ha2).
  - exact IH.
  - exact Ha.
  - cbn [fst snd]. unfold zlen. cbn [length]. lia.
  - by intros ->.
  - eapply Forall_impl; [exact Hel|]. cbn. lia.
  - exists st2. split; [|exact Ha2]. eapply eats_app; [by apply eats_item| |exact He2].
    destruct Ha as ((e1 & stale & _ & _ & Hi1) & _). rewrite Hi1. apply zlen_nonneg.
Qed.

(** The reader reads the encoding of a reply and stores the object. *)
Lemma encode_reads w : wire_ok w = true -> forall st fs,
  ready st fs -> zlen fs + depth w <= 8 -> reads st (encode w) (advance fs (reply_of w)).
Proof.
  induction w as [l|l|n|l| | |ws IH] using wire_induction; intros Hw st fs Hre Hd;
    pose proof Hre as ((e & Hat) & Hr & Hok); pose proof (zlen_nonneg fs) as Hfs;
    cbn [encode reply_of depth wire_ok] in *.
  - apply bool_decide_eq_true in Hw.
    destruct (scalar_item st fs e "+"%char REDIS_REPLY_STATUS (l ++ CRLF)
      (createStringObject REDIS_REPLY_STATUS l) (zlen l + 2) Hat Hok Hr) as (st' & Hi & Ha);
      [lia|done|intros st1 cur _; by apply line_text|].
    eapply item_reads; [|exact Ha]. rewrite Hi. do 2 f_equal. zlen_lia.
  - apply bool_decide_eq_true in Hw.
    destruct (scalar_item st fs e "-"%char REDIS_REPLY_ERROR (l ++ CRLF)
      (createStringObject REDIS_REPLY_ERROR l) (zlen l + 2) Hat Hok Hr) as (st' & Hi & Ha);
      [lia|done|intros st1 cur _; by apply line_text|].
    eapply item_reads; [|exact Ha]. rewrite Hi. do 2 f_equal. zlen_lia.
  - destruct (number_line n [] ltac:(lia)) as [Hf Hlo]. rewrite app_nil_r in Hf, Hlo.
    destruct (scalar_item st fs e ":"%char REDIS_REPLY_INTEGER (dec_signed n ++ CRLF)
      (createIntegerObject n) (zlen (dec_signed n) + 2) Hat Hok Hr) as (st' & Hi & Ha);
      [lia|done| |].
    { intros st1 cur _.
      change (typed_item malloc_ok st1 cur REDIS_REPLY_INTEGER (dec_signed n ++ CRLF))
        with (line_item malloc_ok st1 REDIS_REPLY_INTEGER (dec_signed n ++ CRLF)).
      unfold line_item. rewrite Hf, Hlo. cbn [mbind option_bind].
      by rewrite Z.eqb_refl, createInteger_ok. }
    eapply item_reads; [|exact Ha]. rewrite Hi. do 2 f_equal. zlen_lia.
  - destruct (scalar_item st fs e "$"%char REDIS_REPLY_STRING (dec (zlen l) ++ CRLF ++ l ++ CRLF)
      (createStringObject REDIS_REPLY_STRING l) (zlen (dec (zlen l)) + zlen l + 4) Hat Hok Hr)
      as (st' & Hi & Ha); [lia|done|intros st1 cur _; apply bulk_text; lia|].
    assert (bulk l = "$"%char :: dec (zlen l) ++ CRLF ++ l ++ CRLF) as Hb.
    { unfold bulk, bulk_header. rewrite <- app_comm_cons, <- !app_assoc. done. }
    rewrite Hb. eapply item_reads; [|exact Ha]. rewrite Hi. do 2 f_equal. zlen_lia.
  - destruct (scalar_item st fs e "$"%char REDIS_REPLY_STRING (s "-1" ++ CRLF)
      createNilObject 4 Hat Hok Hr) as (st' & Hi & Ha); [lia|done|intros st1 cur _; apply nil_text|].
    eapply item_reads; [|exact Ha]. exact Hi.
  - destruct (scalar_item st fs e "*"%char REDIS_REPLY_ARRAY (s "-1" ++ CRLF)
      createNilObject 4 Hat Hok Hr) as (st' & Hi & Ha);
      [lia|done|intros st1 cur Hr1; apply nil_array_text; lia|].
    eapply item_reads; [|exact Ha]. exact Hi.
  - apply andb_true_iff in Hw as [Hlen Hws]. apply array_reads; [lia|done| |lia].
    rewrite Forall_forall in IH |- *. intros w Hin. apply IH; [done|].
    apply (proj1 (forallb_forall wire_ok ws) Hws). by apply list_elem_of_In.
Qed.
End stream.

(** ** The loop of a client *)

Section drain.
Context (malloc_ok : Z -> bool).

(** Replies are taken until the reader needs more input: the replies, the state
    and the bytes that are left. *)
Inductive drains : read_state -> bytes -> list redisReply -> read_state -> bytes -> Prop :=
| drains_wait st st1 u k st' :
    start_root st = Some st1 -> item malloc_ok st1 u = Some (Wait k st') ->
    drains st u [] st' (drop (Z.to_nat k) u)
| drains_item st st1 u k st' rs st2 u2 :
    start_root st = Some st1 -> item malloc_ok st1 u = Some (Got k st') -> ridx st' <> -1 ->
    drains st' (drop (Z.to_nat k) u) rs st2 u2 -> drains st u rs st2 u2
| drains_reply st st1 u k st' x rs st2 u2 :
    start_root st = Some st1 -> item malloc_ok st1 u = Some (Got k st') ->
    ridx st' = -1 -> reply st' = Some x ->
    drains (with_reply st' None) (drop (Z.to_nat k) u) rs st2 u2 -> drains st u (x :: rs) st2 u2.

Lemma start_root_ridx st st1 : start_root st = Some st1 -> ridx st1 <> -1.
Proof.
  unfold start_root. destruct (Z.eqb_spec (ridx st) (-1)) as [E|E].
  - destruct (set_task st 0 _); [|done]. by intros [= <-].
  - by intros [= <-].
Qed.

Lemma start_root_started st : ridx st <> -1 -> start_root st = Some st.
Proof. intros H. unfold start_root. by destruct (Z.eqb_spec (ridx st) (-1)). Qed.

(** Only the started state matters. *)
Lemma drains_start st st' u rs st2 u2 :
  start_root st = start_root st' -> drains st u rs st2 u2 -> drains st' u rs st2 u2.
Proof.
  intros Hs Hd. destruct Hd; rewrite Hs in *;
    [eapply drains_wait|eapply drains_item|eapply drains_reply]; done.
Qed.

Lemma drop_more (u v : bytes) k j :
  0 <= k <= zlen u -> 0 <= j ->
  drop (Z.to_nat (k + j)) (u ++ v) = drop (Z.to_nat j) (drop (Z.to_nat k) u ++ v).
Proof.
  intros Hk Hj. rewrite Z2Nat.inj_add, <- drop_drop by lia. f_equal.
  apply drop_app_le. unfold zlen in Hk. lia.
Qed.

(** After a wait the reading goes on with the rest and the new input. *)
Lemma drains_resume st st1 u v k st' rs st2 u2 :
  start_root st = Some st1 -> item malloc_ok st1 u = Some (Wait k st') ->
  drains st (u ++ v) rs st2 u2 -> drains st' (drop (Z.to_nat k) u ++ v) rs st2 u2.
Proof.
  intros Hs Hi Hd. pose proof (item_more malloc_ok st1 u v) as Hm. rewrite Hi in Hm.
  destruct Hm as (Hk & Hr & Hm). pose proof (start_root_ridx st st1 Hs) as Hne.
  assert (start_root st' = Some st') as Hs' by (apply start_root_started; congruence).
  pose proof (item_more malloc_ok st' (drop (Z.to_nat k) u ++ v) []) as Hm2.
  remember (u ++ v) as w eqn:Hw.
  destruct Hd as [st sta w j stb Hsa Hj|st sta w j stb rs st2 u2 Hsa Hj Hn Hd
                 |st sta w j stb x rs st2 u2 Hsa Hj Hn Hx Hd];
    rewrite Hs in Hsa; injection Hsa as <-; rewrite Hm in Hj; subst w;
    destruct (item malloc_ok st' (drop (Z.to_nat k) u ++ v)) as [[i st''|i st''|]|] eqn:E;
    cbn in Hj; try done; injection Hj as <- <-.
  - rewrite drop_more by lia. by eapply drains_wait.
  - rewrite drop_more in Hd by lia. by eapply drains_item.
  - rewrite drop_more in Hd by lia. by eapply drains_reply.
Qed.

(** Reading a part first changes nothing. *)
Lemma drains_split st w rs st2 u2 : drains st w rs st2 u2 -> forall u v, w = u ++ v ->
  exists rs1 st1 u1 rs2, drains st u rs1 st1 u1 /\ drains st1 (u1 ++ v) rs2 st2 u2 /\
    rs = rs1 ++ rs2.
Proof.
  intros Hd. pose proof Hd as Hd0.
  induction Hd as [st sta w k st' Hs Hi|st sta w k st' rs st2 u2 Hs Hi Hn Hd IH
                  |st sta w k st' x rs st2 u2 Hs Hi Hn Hx Hd IH];
    intros u v ->; pose proof (item_more malloc_ok sta u v) as Hm;
    destruct (item malloc_ok sta u) as [[j stj|j stj|]|] eqn:E;
    try (rewrite Hi in Hm; done).
  - exists [], stj, (drop (Z.to_nat j) u), []. split_and!; [by eapply drains_wait| |done].
    by eapply drains_resume.
  - rewrite Hi in Hm. destruct Hm as [_ Hm]. done.
  - exists [], stj, (drop (Z.to_nat j) u), rs. split_and!; [by eapply drains_wait| |done].
    by eapply drains_resume.
  - rewrite Hi in Hm. destruct Hm as [Hj [= <- <-]].
    destruct (IH Hd (drop (Z.to_nat k) u) v) as (rs1 & st1 & u1 & rs2 & H1 & H2 & ->).
    { apply drop_app_le. unfold zlen in Hj. lia. }
    exists rs1, st1, u1, rs2. split_and!; [by eapply drains_item|done|done].
  - exists [], stj, (drop (Z.to_nat j) u), (x :: rs). split_and!; [by eapply drains_wait| |done].
    by eapply drains_resume.
  - rewrite Hi in Hm. destruct Hm as [Hj [= <- <-]].
    destruct (IH Hd (drop (Z.to_nat k) u) v) as (rs1 & st1 & u1 & rs2 & H1 & H2 & ->).
    { apply drop_app_le. unfold zlen in Hj. lia. }
    exists (x :: rs1), st1, u1, rs2. split_and!; [by eapply drains_reply|done|done].
Qed.

Lemma drains_resumed st st1 u v k st' rs st2 u2 :
  start_root st = Some st1 -> item malloc_ok st1 u = Some (Wait k st') ->
  drains st' (drop (Z.to_nat k) u ++ v) rs st2 u2 -> drains st (u ++ v) rs st2 u2.
Proof.
  intros Hs Hi Hd. pose proof (item_more malloc_ok st1 u v) as Hm. rewrite Hi in Hm.
  destruct Hm as (Hk & Hr & Hm). pose proof (start_root_ridx st st1 Hs) as Hne.
  assert (start_root st' = Some st') as Hs' by (apply start_root_started; congruence).
  remember (drop (Z.to_nat k) u ++ v) as w eqn:Hw.
  pose proof (item_more malloc_ok st' w []) as Hm2.
  destruct Hd as [st' sta w j stb Hsa Hj|st' sta w j stb rs st2 u2 Hsa Hj Hn Hd
                 |st' sta w j stb x rs st2 u2 Hsa Hj Hn Hx Hd];
    rewrite Hs' in Hsa; injection Hsa as <-; rewrite Hj in Hm, Hm2; cbn in Hm; subst w.
  - rewrite <- drop_more by lia. by eapply drains_wait.
  - rewrite <- drop_more in Hd by lia. by eapply drains_item.
  - rewrite <- drop_more in Hd by lia. by eapply drains_reply.
Qed.

(** Reading goes on where it stopped. *)
Lemma drains_app st u rs1 st1 u1 : drains st u rs1 st1 u1 -> forall v rs2 st2 u2,
  drains st1 (u1 ++ v) rs2 st2 u2 -> drains st (u ++ v) (rs1 ++ rs2) st2 u2.
Proof.
  induction 1 as [st sta u k st' Hs Hi|st sta u k st' rs st1 u1 Hs Hi Hn Hd IH
                 |st sta u k st' x rs st1 u1 Hs Hi Hn Hx Hd IH];
    intros v rs2 st2 u2 Hd2; [by eapply drains_resumed|..];
    pose proof (item_more malloc_ok sta u v) as Hm; rewrite Hi in Hm; destruct Hm as [Hk Hm];
    specialize (IH v rs2 st2 u2 Hd2);
    rewrite <- drop_app_le in IH by (unfold zlen in Hk; lia).
  - by eapply drains_item.
  - cbn [app]. by eapply drains_reply.
Qed.

(** What was read by [eats] is read in front of any input. *)
Definition settled (st : read_state) (u : bytes) (rs : list redisReply) (st2 : read_state)
  (u2 : bytes) : Prop :=
  if ridx st =? -1
  then exists x rs', reply st = Some x /\ rs = x :: rs' /\ drains (with_reply st None) u rs' st2 u2
  else drains st u rs st2 u2.

Lemma eats_drains st u st' : eats malloc_ok st u st' -> forall v rs st2 u2,
  ridx st <> -1 -> settled st' v rs st2 u2 -> drains st (u ++ v) rs st2 u2.
Proof.
  induction 1 as [st u st' Hi|st u1 st1 u2 st2' H1 IH1 Hr H2 IH2]; intros v rs st2 u3 Hne Hse.
  - pose proof (item_more malloc_ok st u v) as Hm. rewrite Hi in Hm. destruct Hm as [Hk Hm].
    assert (drop (Z.to_nat (zlen u)) (u ++ v) = v) as Hdrop.
    { unfold zlen. by rewrite Nat2Z.id, drop_app_length. }
    unfold settled in Hse. destruct (Z.eqb_spec (ridx st') (-1)) as [E|E].
    + destruct Hse as (x & rs' & Hx & -> & Hd).
      eapply drains_reply; [by apply start_root_started|exact Hm|done|done|by rewrite Hdrop].
    + eapply drains_item; [by apply start_root_started|exact Hm|done|by rewrite Hdrop].
  - rewrite <- app_assoc. apply IH1; [done|]. unfold settled.
    destruct (Z.eqb_spec (ridx st1) (-1)); [lia|]. apply IH2; [done|done].
Qed.

Definition idle (st : read_state) : Prop :=
  ridx st = -1 /\ zlen (rstack st) = 9 /\ reply st = None.

Lemma idle_start st : idle st -> exists st1, start_root st = Some st1 /\ ready st1 [] /\ ridx st1 = 0.
Proof.
  intros (Hi & Hl & Hr). unfold start_root. rewrite Hi. cbn [Z.eqb Pos.eqb].
  destruct (rstack st) as [|t stale] eqn:Hst; [done|].
  rewrite (set_task_middle st [] t stale) by done.
  eexists. split; [done|]. split; [|done]. split; [|split; [done|constructor]].
  exists (-1), stale. cbn [rstack ridx with_ridx tasks rev app]. by split_and!.
Qed.

Lemma drains_nil st : idle st ->
  exists st', drains st [] [] st' [] /\ start_root st' = start_root st.
Proof.
  intros Hi. destruct (idle_start st Hi) as (st1 & Hs & Hre & Hr).
  destruct Hre as ((e & Hat) & _). destruct (at_slot_task st1 [] (-1) e Hat) as (idx & Ht & _).
  exists st1. split; [|rewrite Hs; apply start_root_started; lia].
  change (@nil ascii) with (drop (Z.to_nat 0) (@nil ascii)) at 2.
  eapply drains_wait; [exact Hs|]. by eapply item_empty.
Qed.

(** The encodings of replies are read as these replies. *)
Lemma drain_encode (Hmalloc : forall n, malloc_ok n = true) ws : forall st,
  idle st -> Forall (fun w => wire_ok w = true /\ depth w <= 8) ws ->
  exists st', drains st (concat (map encode ws)) (map reply_of ws) st' [].
Proof.
  induction ws as [|w ws IH]; intros st Hi Hall; cbn [map concat].
  { destruct (drains_nil st Hi) as (st' & Hd & _). by exists st'. }
  apply Forall_cons in Hall as [[Hw Hd] Hall].
  destruct (idle_start st Hi) as (st1 & Hs & Hre & Hr).
  destruct (encode_reads malloc_ok Hmalloc w Hw st1 [] Hre) as (st2 & He & Hr2 & Hx & Hl2).
  { change (zlen (@nil frame)) with 0. lia. }
  destruct (IH (with_reply st2 None)) as (st3 & Hd3); [by split_and!|done|].
  exists st3. apply (drains_start st1); [rewrite Hs; apply start_root_started; lia|].
  eapply eats_drains; [exact He|lia|]. unfold settled. rewrite Hr2. cbn [Z.eqb Pos.eqb].
  eexists _, _. split_and!; [exact Hx|done|exact Hd3].
Qed.
End drain.
