(* ===== verification/ReaderApi.v ===== *)
(** * Feeding a reader and taking replies from it

    The interface of read.c ([redisReaderFeed], [redisReaderGetReply]) over the
    results of [ReaderStream]: a client that feeds packets and takes replies gets
    the replies that were sent, whatever the packets. *)

From S2P Require Import Prelude Hiutil Resp Reply Sds SdsSpec Reader ReaderSpec ReaderStream.

(** ** The step of a reader and its stack index *)

Lemma move_next_ridx fuel : forall st st', move_next fuel st = Some st' -> -1 <= ridx st -> -1 <= ridx st'.
Proof.
  induction fuel as [|fuel IH]; intros st st'; cbn [move_next];
    (destruct (Z.ltb_spec (ridx st) 0); [by intros [= <-]|]); [done|].
  destruct (Z.eqb_spec (ridx st) 0); [by intros [= <-]|].
  destruct (task_at st (ridx st)) as [cur|]; [|done]. cbn [mbind option_bind].
  destruct (task_at st (ridx st - 1)) as [prv|]; [|done]. cbn [mbind option_bind].
  destruct (negb _); [done|]. destruct (_ =? _).
  - intros Hm Hr. apply (IH _ _ Hm). cbn. lia.
  - destruct (negb _); [done|]. unfold set_task. destruct (_ && _); [|done]. by intros [= <-].
Qed.

Lemma deliver_ridx st x st' : deliver st x = Some st' -> -1 <= ridx st -> -1 <= ridx st'.
Proof.
  unfold deliver, install, moveToNextTask. intros Hd Hr.
  destruct (ridx st =? 0).
  - cbn [mbind option_bind] in Hd. by apply move_next_ridx in Hd.
  - destruct (reply st) as [root|]; [|done]. cbn [mbind option_bind] in Hd.
    destruct (attach _ _ _); [|done]. cbn [mbind option_bind] in Hd. by apply move_next_ridx in Hd.
Qed.

Section api.
Context (malloc_ok : Z -> bool).

Lemma finish_ridx st obj k j st' :
  finish_item st obj k = Some (Got j st') -> -1 <= ridx st -> -1 <= ridx st'.
Proof.
  destruct obj as [x|]; cbn [finish_item]; [|done].
  destruct (deliver st x) as [st1|] eqn:E; [|done]. intros [= <- <-]. by apply (deliver_ridx _ _ _ E).
Qed.

Lemma typed_ridx st cur type u j st' :
  typed_item malloc_ok st cur type u = Some (Got j st') -> -1 <= ridx st -> -1 <= ridx st'.
Proof.
  unfold typed_item, line_item, bulk_item, array_item, open_array.
  destruct (_ || _ || _).
  { destruct (find_crlf u); [|done]. destruct (long_of u); destruct (_ =? _);
      cbn [mbind option_bind]; try done; apply finish_ridx. }
  destruct (_ =? _).
  { destruct (find_crlf u); [|done]. destruct (long_of u) as [n|]; [|done]. cbn [mbind option_bind].
    destruct (n <? 0); [apply finish_ridx|]. destruct (_ <=? _); [apply finish_ridx|done]. }
  destruct (_ =? _); [|done]. destruct (_ =? 8); [done|].
  destruct (find_crlf u); [|done]. destruct (long_of u) as [n|]; [|done]. cbn [mbind option_bind].
  destruct (n =? -1); [apply finish_ridx|].
  destruct (createArray _ _) as [x|]; [|done].
  destruct (install st x) as [st1|] eqn:Ei; [|done]. cbn [mbind option_bind].
  assert (ridx st1 = ridx st) as Hr.
  { unfold install in Ei. destruct (ridx st =? 0); [by injection Ei as <-|].
    destruct (reply st); [|done]. cbn [mbind option_bind] in Ei.
    destruct (attach _ _ _); [|done]. by injection Ei as <-. }
  destruct (0 <? n).
  - destruct (set_task st1 _ _) as [st2|] eqn:E2; [|done]. cbn [mbind option_bind].
    destruct (set_task st2 _ _) as [st3|] eqn:E3; [|done]. cbn [mbind option_bind].
    intros [= <- <-] Hs. apply set_task_at in E2 as (E2 & _), E3 as (E3 & _). cbn. lia.
  - destruct (moveToNextTask st1) as [st2|] eqn:E2; [|done]. intros [= <- <-] Hs.
    apply move_next_ridx in E2; [done|lia].
Qed.

Lemma item_ridx st u j st' :
  item malloc_ok st u = Some (Got j st') -> -1 <= ridx st -> -1 <= ridx st'.
Proof.
  unfold item. destruct (task_at st (ridx st)) as [cur|]; [|done]. cbn [mbind option_bind].
  destruct (tk_type cur <? 0); [|apply typed_ridx].
  destruct u as [|c u]; [done|]. destruct (type_of_byte c); [|done].
  cbv zeta. destruct (set_task _ _ _) as [st1|] eqn:E; [|done]. cbn [mbind option_bind].
  apply set_task_at in E as (E & _).
  destruct (typed_item _ st1 _ _ u) as [[i st2|i st2|]|] eqn:Et; cbn; try done.
  intros [= <- <-] Hr. apply (typed_ridx _ _ _ _ _ _ Et). lia.
Qed.

(** Nothing to read: the reader stays as it is. *)
Lemma item_nil st k st' : item malloc_ok st [] = Some (Wait k st') -> k = 0 /\ st' = st.
Proof.
  unfold item. destruct (task_at st (ridx st)) as [cur|] eqn:Hc; [|done]. cbn [mbind option_bind].
  destruct (tk_type cur <? 0); [by intros [= <- <-]|]. intros Hi.
  pose proof (typed_extends malloc_ok st cur (tk_type cur) [] []) as He. by rewrite Hi in He.
Qed.

(** ** The reader between two calls *)

(** [u] is what was received and not read yet; nothing has failed. *)
Definition open_reader (r : redisReader) (u : bytes) : Prop :=
  exists b, r_buf r = Some b /\ sds_wf b /\ r_len r = sds_len b /\ 0 <= r_pos r <= r_len r /\
    u = drop (Z.to_nat (r_pos r)) (sds_value b) /\ r_len r < 2 ^ 30 /\ r_err r = 0 /\
    -1 <= ridx (r_state r).

Lemma open_size r u : open_reader r u -> zlen u = r_len r - r_pos r.
Proof.
  intros (b & _ & Hw & Hl & Hp & -> & _). rewrite Hl in *. rewrite <- sds_value_zlen in * by done.
  unfold zlen in *. rewrite length_drop. lia.
Qed.

Lemma open_view r u : open_reader r u -> view r u.
Proof.
  intros Ho. pose proof (open_size r u Ho) as Hz.
  destruct Ho as (b & Hb & Hw & Hl & Hp & Hu & Hs & _). exists b. split_and!; try done; try lia.
  destruct (sds_wf_rep b Hw) as (tail & Heq & _). rewrite Heq. cbn [sds_buf sds_rep].
  exists (take (Z.to_nat (r_pos r)) (sds_value b)), tail. split.
  - rewrite Hu, app_assoc. by rewrite take_drop.
  - rewrite Hl in Hp. rewrite <- sds_value_zlen in Hp by done. unfold zlen in *.
    rewrite length_take. lia.
Qed.

Lemma open_step r u k st' :
  open_reader r u -> 0 <= k <= zlen u -> -1 <= ridx st' ->
  open_reader (with_state (with_pos r (r_pos r + k)) st') (drop (Z.to_nat k) u).
Proof.
  intros Ho Hk Hr. pose proof (open_size r u Ho) as Hz.
  destruct Ho as (b & Hb & Hw & Hl & Hp & Hu & Hs & He & _). exists b. cbn.
  split_and!; try done; try lia. rewrite Hu, drop_drop. f_equal. lia.
Qed.

(** ** Taking one reply *)

Lemma process_loop_spec fuel : forall r u rs st2 u2,
  open_reader r u -> 0 <= ridx (r_state r) -> drains malloc_ok (r_state r) u rs st2 u2 ->
  zlen u < Z.of_nat fuel ->
  exists r' u', process_loop malloc_ok fuel r = Some r' /\ open_reader r' u' /\ r_len r' = r_len r /\
    match rs with
    | [] => r_state r' = st2 /\ u' = u2 /\ ridx (r_state r') <> -1
    | x :: rs' => ridx (r_state r') = -1 /\ reply (r_state r') = Some x /\
                  drains malloc_ok (with_reply (r_state r') None) u' rs' st2 u2
    end.
Proof.
  induction fuel as [|fuel IH]; intros r u rs st2 u2 Ho Hr Hd Hf; [pose proof (zlen_nonneg u); lia|].
  cbn [process_loop]. destruct (Z.ltb_spec (ridx (r_state r)) 0); [lia|].
  rewrite (processItem_item malloc_ok r u (open_view r u Ho)).
  pose proof (item_more malloc_ok (r_state r) u []) as Hm.
  assert (start_root (r_state r) = Some (r_state r)) as Hst by (apply start_root_started; lia).
  destruct Hd as [st sta w j stb Hsa Hj|st sta w j stb rs st2 u2 Hsa Hj Hn Hd
                 |st sta w j stb x rs st2 u2 Hsa Hj Hn Hx Hd];
    rewrite Hst in Hsa; injection Hsa as <-; rewrite Hj in *;
    cbn [fmap option_fmap option_map mbind option_bind apply_out fst snd].
  - destruct Hm as (Hk & Hri & _). eexists _, _. split; [done|].
    split; [apply (open_step r w j stb Ho Hk); lia|]. split_and!; try done. cbn. lia.
  - destruct Hm as (Hk & _). pose proof (item_ridx _ _ _ _ Hj ltac:(lia)) as Hri.
    destruct (IH (with_state (with_pos r (r_pos r + j)) stb) (drop (Z.to_nat j) w) rs st2 u2)
      as (r' & u' & Hp & Ho' & Hl' & Hres); [apply open_step; [done|lia|done]|cbn; lia|done| |].
    { unfold zlen in *. rewrite length_drop. lia. }
    exists r', u'. rewrite Z.eqb_refl. by split_and!.
  - destruct Hm as (Hk & _). rewrite Z.eqb_refl. cbn [negb].
    exists (with_state (with_pos r (r_pos r + j)) stb), (drop (Z.to_nat j) w).
    split.
    { destruct fuel; cbn [process_loop r_state with_state]; by rewrite Hn. }
    split; [apply open_step; [done|lia|lia]|]. by split_and!.
Qed.

(** Dropping the bytes before the cursor. *)
Definition trimmed (r : redisReader) : option redisReader :=
  if 1024 <=? r_pos r then
    b ← r_buf r;
    match sdsrange b (i32 (r_pos r)) (-1) with
    | Ok b => Some (with_buf r b 0 (sds_len b))
    | _ => None
    end
  else Some r.

Lemma substring_to_end v p : 0 <= p <= zlen v -> 0 < zlen v -> substring v p (-1) = drop (Z.to_nat p) v.
Proof.
  intros Hp Hv. unfold substring. destruct (Z.ltb_spec p 0); [lia|]. cbn [Z.ltb Z.compare].
  replace (Z.max 0 p) with p by lia.
  replace (Z.min (zlen v - 1) (Z.max 0 (zlen v + -1)) + 1) with (zlen v) by lia.
  unfold slice. apply take_ge. rewrite length_drop. unfold zlen in *. lia.
Qed.

Lemma trimmed_spec r u :
  open_reader r u ->
  exists r', trimmed r = Some r' /\ open_reader r' u /\ r_state r' = r_state r /\ r_len r' <= r_len r.
Proof.
  intros Ho. unfold trimmed. destruct (Z.leb_spec 1024 (r_pos r)); [|by exists r].
  pose proof (open_size r u Ho) as Hz.
  destruct Ho as (b & Hb & Hw & Hl & Hp & Hu & Hs & He & Hr). rewrite Hb. cbn [mbind option_bind].
  rewrite i32_small by lia.
  pose proof (sdsrange_spec plenty b (r_pos r) (-1) Hw) as Hrange.
  pose proof (sds_value_zlen b Hw) as Hv.
  destruct (sdsrange b (r_pos r) (-1)) as [b'|e|]; [|by destruct Hrange|done].
  destruct Hrange as [Hw' Hv']. rewrite substring_to_end in Hv' by lia.
  pose proof (sds_value_zlen b' Hw') as Hz'. rewrite Hv', <- Hu in Hz'.
  eexists. split; [done|]. pose proof (zlen_nonneg u). split_and!; [|done|cbn; lia].
  exists b'. cbn. change (Z.to_nat 0) with 0%nat. rewrite drop_0, Hv'. split_and!; try done; lia.
Qed.

Lemma getReply_spec r u rs st2 u2 :
  open_reader r u -> drains malloc_ok (r_state r) u rs st2 u2 ->
  exists x r', redisReaderGetReply malloc_ok r = Some (REDIS_OK, x, r') /\ r_len r' <= r_len r /\
    match rs with
    | [] => x = None /\ open_reader r' u2 /\ start_root (r_state r') = start_root st2
    | y :: rs' => x = Some y /\
        exists u', open_reader r' u' /\ drains malloc_ok (r_state r') u' rs' st2 u2
    end.
Proof.
  intros Ho Hd. pose proof (open_size r u Ho) as Hz.
  pose proof Ho as (b & Hb & Hw & Hl & Hp & Hu & Hs & He & Hr).
  unfold redisReaderGetReply. rewrite He. cbn [negb Z.eqb].
  destruct (Z.eqb_spec (r_len r) 0) as [H0|H0].
  { assert (u = []) as -> by (destruct u; [done|zlen_lia]).
    exists None, r. split; [done|]. split; [done|].
    destruct Hd as [st sta w j stb Hsa Hj|st sta w j stb rs st2 u2 Hsa Hj Hn Hd
                   |st sta w j stb x rs st2 u2 Hsa Hj Hn Hx Hd].
    - assert (w = []) as -> by (destruct w; [done|zlen_lia]).
      destruct (item_nil _ _ _ Hj) as [-> ->]. split_and!; [done|exact Ho|].
      rewrite Hsa. symmetry. apply start_root_started. by apply (start_root_ridx _ _ Hsa).
    - pose proof (item_more malloc_ok sta w []) as Hm. rewrite Hj in Hm. lia.
    - pose proof (item_more malloc_ok sta w []) as Hm. rewrite Hj in Hm. lia. }
  assert (exists st1, start_root (r_state r) = Some st1) as [st1 Hst1].
  { destruct Hd; eauto. }
  rewrite Hst1. cbn [mbind option_bind].
  pose proof (start_root_ridx _ _ Hst1) as Hr1.
  assert (0 <= ridx st1) as Hr0.
  { unfold start_root in Hst1. destruct (Z.eqb_spec (ridx (r_state r)) (-1)).
    - destruct (set_task _ _ _); [|done]. by injection Hst1 as <-.
    - injection Hst1 as <-. lia. }
  assert (open_reader (with_state r st1) u) as Ho1.
  { exists b. cbn. split_and!; try done; lia. }
  destruct (process_loop_spec (S (Z.to_nat (r_len r - r_pos r))) (with_state r st1) u rs st2 u2)
    as (r' & u' & -> & Ho' & Hl' & Hres); [done|done| |lia|].
  { cbn [r_state with_state]. apply (drains_start malloc_ok (r_state r)); [|done].
    rewrite Hst1. symmetry. by apply start_root_started. }
  cbn [mbind option_bind]. pose proof Ho' as (b' & _ & _ & _ & _ & _ & _ & He' & _).
  rewrite He'. cbn [negb Z.eqb].
  destruct (trimmed_spec r' u' Ho') as (r2 & Ht & Ho2 & Hst2 & Hl2).
  unfold trimmed in Ht. rewrite Ht. cbn [mbind option_bind]. rewrite Hst2.
  cbn [r_len with_state] in Hl'. destruct rs as [|x rs'].
  - destruct Hres as (Hs2 & -> & Hne). destruct (Z.eqb_spec (ridx (r_state r')) (-1)); [done|].
    exists None, r2. split; [done|]. split; [lia|]. split_and!; [done|done|congruence].
  - destruct Hres as (Hne & Hx & Hd'). rewrite Hne. cbn [Z.eqb Pos.eqb].
    exists (Some x), (with_state r2 (with_reply (r_state r') None)).
    split; [by rewrite Hx|]. split; [cbn; lia|]. split; [done|].
    exists u'. split; [|done].
    destruct Ho2 as (b2 & ? & ? & ? & ? & ? & ? & ? & ?). exists b2. cbn. split_and!; try done; lia.
Qed.

(** ** A client *)

(** Replies are taken until the reader returns NULL. *)
Fixpoint get_all (fuel : nat) (r : redisReader) : option (list redisReply * redisReader) :=
  match fuel with
  | O => None
  | S fuel' =>
      g ← redisReaderGetReply malloc_ok r;
      match g with
      | (ret, x, r) =>
          if negb (ret =? REDIS_OK) then None else
          match x with
          | None => Some ([], r)
          | Some x => l ← get_all fuel' r; Some (x :: l.1, l.2)
          end
      end
  end.

Lemma get_all_spec rs : forall fuel r u st2 u2,
  open_reader r u -> drains malloc_ok (r_state r) u rs st2 u2 -> (length rs < fuel)%nat ->
  exists r', get_all fuel r = Some (rs, r') /\ open_reader r' u2 /\
    start_root (r_state r') = start_root st2 /\ r_len r' <= r_len r.
Proof.
  induction rs as [|x rs IH]; intros fuel r u st2 u2 Ho Hd Hf; (destruct fuel as [|fuel]; [lia|]);
    cbn [get_all]; destruct (getReply_spec r u _ st2 u2 Ho Hd) as (y & r' & -> & Hl & Hres);
    cbn [mbind option_bind]; rewrite Z.eqb_refl; cbn [negb].
  - destruct Hres as (-> & Ho' & Hst). by exists r'.
  - destruct Hres as (-> & u' & Ho' & Hd').
    destruct (IH fuel r' u' st2 u2 Ho' Hd') as (r2 & -> & Ho2 & Hst2 & Hl2); [cbn in Hf; lia|].
    exists r2. cbn [mbind option_bind fst snd]. split_and!; try done. lia.
Qed.

Lemma drains_count st u rs st2 u2 :
  drains malloc_ok st u rs st2 u2 -> (length rs <= length u)%nat.
Proof.
  induction 1 as [st sta w j stb Hsa Hj|st sta w j stb rs st2 u2 Hsa Hj Hn Hd IH
                 |st sta w j stb x rs st2 u2 Hsa Hj Hn Hx Hd IH]; [cbn; lia|..];
    pose proof (item_more malloc_ok sta w []) as Hm; rewrite Hj in Hm; destruct Hm as [Hk _];
    rewrite length_drop in IH; unfold zlen in Hk; cbn [length]; lia.
Qed.

Context (alloc : Z -> option bytes).
Hypothesis Halloc : forall n b, 0 <= n -> alloc n = Some b -> zlen b = n.
Hypothesis Hmem : forall n, alloc n <> None.

Lemma feed_spec r u d :
  open_reader r u -> r_len r + zlen d < 2 ^ 30 - 1 ->
  exists r', redisReaderFeed alloc r d = Some (REDIS_OK, r') /\ open_reader r' (u ++ d) /\
    r_state r' = r_state r /\ r_len r' <= r_len r + zlen d.
Proof.
  intros Ho Hd. pose proof Ho as (b & Hb & Hw & Hl & Hp & Hu & Hs & He & Hr).
  unfold redisReaderFeed. rewrite He. cbn [negb Z.eqb]. pose proof (zlen_nonneg d).
  destruct (Z.ltb_spec (zlen d) 1).
  { assert (d = []) as -> by (destruct d; [done|zlen_lia]). exists r. rewrite app_nil_r.
    split_and!; try done; lia. }
  rewrite Hb. cbn [mbind option_bind].
  assert (exists b1 p, (if (r_len r =? 0) && negb (r_maxbuf r =? 0) && (r_maxbuf r <? sds_free b)
      then match sdsempty alloc with Ok b => Some (with_buf r b 0 (r_len r)) | _ => None end
      else Some r) = Some (with_buf r b1 p (r_len r)) /\ sds_wf b1 /\ r_len r = sds_len b1 /\
      0 <= p <= r_len r /\ u = drop (Z.to_nat p) (sds_value b1)) as (b1 & p & -> & Hw1 & Hl1 & Hp1 & Hu1).
  { destruct (_ && _ && _) eqn:E.
    - assert (r_len r = 0) as Hr0 by lia.
      assert (u = []) as -> by (pose proof (open_size r u Ho); destruct u; [done|zlen_lia]).
      pose proof (implements_yields alloc Hmem _ _ (sdsempty_spec alloc Halloc)) as (b1 & -> & Hw1 & Hv1).
      exists b1, 0. pose proof (sds_value_zlen b1 Hw1) as Hz. rewrite Hv1 in *. 
      change (zlen (@nil ascii)) with 0 in Hz. split_and!; try done; lia.
    - exists b, (r_pos r). split_and!; try done; try lia.
      destruct r; cbn in *. by subst. }
  cbn [mbind option_bind with_buf r_buf r_pos r_len r_err r_errstr r_maxbuf r_state].
  pose proof (yields_catlen alloc Halloc Hmem b1 d Hw1) as Hcat.
  rewrite sds_value_zlen in Hcat by done. destruct (Hcat ltac:(lia)) as (b2 & -> & Hw2 & Hv2).
  pose proof (sds_value_zlen b2 Hw2) as Hz2. rewrite Hv2, zlen_app, sds_value_zlen in Hz2 by done.
  eexists. split; [done|]. cbn [r_state r_len with_buf]. split_and!; try done; try lia.
  exists b2. cbn. split_and!; try done; try lia.
  rewrite Hv2, Hu1. symmetry. apply drop_app_le.
  rewrite <- (sds_value_zlen b1) in * by done. unfold zlen in *. lia.
Qed.

(** Packets are fed one after the other; after each one the replies that are
    complete are taken. *)
Fixpoint read_packets (r : redisReader) (packets : list bytes)
  : option (list redisReply * redisReader) :=
  match packets with
  | [] => Some ([], r)
  | d :: packets' =>
      f ← redisReaderFeed alloc r d;
      if negb (f.1 =? REDIS_OK) then None else
      l ← get_all (S (Z.to_nat (r_len f.2))) f.2;
      l' ← read_packets l.2 packets';
      Some (l.1 ++ l'.1, l'.2)
  end.

(** Once drained, nothing more is read without input. *)
Lemma drains_again st u rs st2 u2 :
  drains malloc_ok st u rs st2 u2 -> drains malloc_ok st2 u2 [] st2 u2.
Proof.
  induction 1 as [st sta w j stb Hsa Hj|st sta w j stb rs st2 u2 Hsa Hj Hn Hd IH
                 |st sta w j stb x rs st2 u2 Hsa Hj Hn Hx Hd IH]; [|exact IH..].
  pose proof (item_more malloc_ok sta w []) as Hm. rewrite Hj in Hm.
  destruct Hm as (Hk & Hr & Hm). rewrite !app_nil_r in Hm. rewrite Hj in Hm.
  destruct (item malloc_ok stb (drop (Z.to_nat j) w)) as [[i st'|i st'|]|] eqn:E; cbn in Hm; try done.
  injection Hm as Hi ->. assert (i = 0) as -> by lia.
  assert (start_root st' = Some st') as Hs'.
  { apply start_root_started. rewrite Hr. by apply (start_root_ridx _ _ Hsa). }
  pose proof (drains_wait malloc_ok st' st' _ 0 st' Hs' E) as Hw. exact Hw.
Qed.

Lemma drains_det st u rs st2 u2 : drains malloc_ok st u rs st2 u2 -> forall rs' st2' u2',
  drains malloc_ok st u rs' st2' u2' -> rs = rs'.
Proof.
  induction 1 as [st sta w j stb Hsa Hj|st sta w j stb rs st2 u2 Hsa Hj Hn Hd IH
                 |st sta w j stb x rs st2 u2 Hsa Hj Hn Hx Hd IH]; intros rs' st2' u2' Hd'; inversion Hd'; simplify_eq;
    try done; try (by apply (IH _ _ _)); try congruence.
  - eapply IH. eassumption.
  - f_equal. eapply IH. eassumption.
Qed.

Lemma read_packets_spec packets : forall r u rs st2 u2,
  open_reader r u -> r_len r + zlen (concat packets) < 2 ^ 30 - 1 ->
  (exists sw uw, drains malloc_ok (r_state r) u [] sw uw) ->
  drains malloc_ok (r_state r) (u ++ concat packets) rs st2 u2 ->
  exists r', read_packets r packets = Some (rs, r').
Proof.
  induction packets as [|d packets IH]; intros r u rs st2 u2 Ho Hs (sw & uw & Hw) Hd;
    cbn [read_packets concat] in *.
  { rewrite app_nil_r in Hd. rewrite (drains_det _ _ _ _ _ Hd _ _ _ Hw). by exists r. }
  rewrite zlen_app in Hs. pose proof (zlen_nonneg (concat packets)).
  destruct (feed_spec r u d Ho ltac:(lia)) as (r1 & -> & Ho1 & Hst1 & Hl1).
  cbn [mbind option_bind fst snd]. rewrite Z.eqb_refl. cbn [negb].
  rewrite app_assoc in Hd.
  destruct (drains_split malloc_ok _ _ _ _ _ Hd (u ++ d) (concat packets) eq_refl)
    as (rs1 & st1 & u1 & rs2 & Hd1 & Hd2 & ->).
  rewrite <- Hst1 in Hd1.
  pose proof (drains_count _ _ _ _ _ Hd1) as Hc. pose proof (open_size r1 _ Ho1) as Hz1.
  pose proof Ho1 as (_ & _ & _ & _ & Hp1 & _).
  destruct (get_all_spec rs1 (S (Z.to_nat (r_len r1))) r1 _ _ _ Ho1 Hd1) as (r2 & -> & Ho2 & Hst2 & Hl2).
  { unfold zlen in Hz1. lia. }
  cbn [mbind option_bind fst snd].
  destruct (IH r2 u1 rs2 st2 u2 Ho2 ltac:(lia)) as (r3 & ->).
  - exists st1, u1. apply (drains_start malloc_ok st1); [done|]. by eapply drains_again.
  - by apply (drains_start malloc_ok st1).
  - cbn [mbind option_bind fst snd]. by exists r3.
Qed.

Lemma create_open :
  exists r, redisReaderCreate alloc = Some r /\ open_reader r [] /\ idle (r_state r) /\ r_len r = 0.
Proof.
  unfold redisReaderCreate.
  destruct (implements_yields alloc Hmem _ _ (sdsempty_spec alloc Halloc)) as (b & -> & Hw & Hv).
  pose proof (sds_value_zlen b Hw) as Hz. rewrite Hv in Hz. change (zlen (@nil ascii)) with 0 in Hz.
  eexists. split; [done|]. split; [|by split_and!]. exists b. cbn. rewrite Hv. by split_and!.
Qed.
End api.

(** C7: the reader is a decoder of the protocol.  Replies of any kind, nested up
    to the depth the reader supports, are sent; the stream is cut into packets
    anywhere; the client feeds each packet and takes the replies that are
    complete.  It gets exactly the replies that were sent, in order, each one an
    object with the contents that were sent, provided memory suffices. *)
Theorem redisReader_stream malloc_ok alloc (ws : list wire) (packets : list bytes) :
  (forall n, malloc_ok n = true) ->
  (forall n b, 0 <= n -> alloc n = Some b -> zlen b = n) -> (forall n, alloc n <> None) ->
  Forall (fun w => wire_ok w = true /\ depth w <= 8) ws ->
  concat packets = concat (map encode ws) -> zlen (concat packets) < 2 ^ 30 - 1 ->
  exists r r', redisReaderCreate alloc = Some r /\
    read_packets malloc_ok alloc r packets = Some (map reply_of ws, r').
Proof.
  intros Hm Ha Hmem Hws Hc Hl.
  destruct (create_open alloc Ha Hmem) as (r & Hcr & Ho & Hi & Hr0). exists r.
  destruct (drain_encode malloc_ok Hm ws (r_state r) Hi Hws) as (st' & Hd).
  destruct (read_packets_spec malloc_ok alloc Ha Hmem packets r [] (map reply_of ws) st' [] Ho)
    as (r' & Hr); [lia| |by rewrite Hc|by exists r'].
  destruct (drains_nil malloc_ok _ Hi) as (st0 & H0 & _). by exists st0, [].
Qed.

(** A pipeline of three replies in seven packets, one of them empty. *)
Definition some_wires : list wire :=
  [WStatus (s "OK"); WArray [WBulk (s "a" ++ CRLF); WNil; WArray [WInt (-7); WNilArray]];
   WError (s "MOVED 3999 127.0.0.1:6381")].
Definition some_packets : list bytes :=
  [s "+O"; s "K" ++ [CR]; [LF] ++ s "*3" ++ CRLF ++ s "$3"; CRLF ++ s "a" ++ CRLF ++ [CR]; [];
   [LF] ++ s "$-1" ++ CRLF ++ s "*2" ++ CRLF ++ s ":-";
   s "7" ++ CRLF ++ s "*-1" ++ CRLF ++ s "-MOVED 3999 127.0.0.1:6381" ++ CRLF].

Lemma redisReader_stream_witness :
  exists r r', redisReaderCreate plenty = Some r /\
    read_packets (fun _ => true) plenty r some_packets = Some (map reply_of some_wires, r').
Proof.
  apply (redisReader_stream (fun _ => true) plenty some_wires some_packets); try done.
  - exact plenty_size.
  - repeat constructor; vm_compute; done.
Defined.

(** ** Inputs outside the protocol

    The reply returned for the bytes [b], fed to a new reader. *)
Definition read_one (b : bytes) : option (option redisReply) :=
  r ← redisReaderCreate plenty;
  f ← redisReaderFeed plenty r b;
  x ← redisReaderGetReply (fun _ => true) f.2;
  Some x.1.2.

(** A count of 2^32 elements is truncated to 0 for the object and kept for the
    task: the first element is stored through the vector of an object that has none. *)
Example huge_count_stores_outside : read_one (s "*4294967296" ++ CRLF ++ s ":1" ++ CRLF) = None.
Proof. vm_compute. reflexivity. Qed.

(** A negative count other than -1 gives an array of 2^64 - 2 elements and no
    vector. *)
Example negative_count_array :
  read_one (s "*-2" ++ CRLF) = Some (Some (mk_reply REDIS_REPLY_ARRAY 0 0 None (2 ^ 64 - 2) [])).
Proof. vm_compute. reflexivity. Qed.

(** Malformed and negative lengths of bulk strings are read as nil. *)
Example bad_bulk_length_is_nil :
  read_one (s "$abc" ++ CRLF) = Some (Some createNilObject) /\
  read_one (s "$-5" ++ CRLF) = Some (Some createNilObject).
Proof. vm_compute. split; reflexivity. Qed.
