(* ===== verification/ReaderTyping.v ===== *)
(** * read.c: every reply is well typed

    Whatever a server sends and whichever reply objects cannot be allocated, the
    reader returns: finished replies, each a tree of the shape that hiredis.h
    promises to a client, until the first error.  The bytes are arbitrary, but for
    the counts of arrays: a count below -1 or from 2^31 on is the input of
    [negative_count_array] and [huge_count_stores_outside] of ReaderApi. *)

From S2P Require Import Prelude Reply Sds SdsSpec Reader ReaderSpec ReaderStream ReaderApi.

(** ** Types *)

(** A finished reply whose arrays are nested at most [d] deep: the fields that its
    type does not use are empty, the length of a string is that of its bytes, an
    array has as many elements as it says and none of them is NULL. *)
#[warnings="-register-all"]
Inductive typed (d : nat) : redisReply -> Prop :=
| typed_text type l :
    type ∈ [REDIS_REPLY_STRING; REDIS_REPLY_STATUS; REDIS_REPLY_ERROR] ->
    typed d (mk_reply type 0 (zlen l) (Some l) 0 [])
| typed_integer v : -2 ^ 63 <= v < 2 ^ 63 -> typed d (mk_reply REDIS_REPLY_INTEGER v 0 None 0 [])
| typed_nil : typed d (mk_reply REDIS_REPLY_NIL 0 0 None 0 [])
| typed_array d' l :
    d = S d' -> Forall (typed d') l ->
    typed d (mk_reply REDIS_REPLY_ARRAY 0 0 None (zlen l) (map Some l)).

(** Every byte [*] that a line with a number follows has a count that an [int]
    holds, or -1. *)
Definition count_fits (t : bytes) : bool :=
  match find_crlf t, long_of t with
  | Some _, Some n => (-1 <=? n) && (n <? 2 ^ 31)
  | _, _ => true
  end.
Fixpoint counts_fit (t : bytes) : bool :=
  match t with
  | [] => true
  | c :: t' => (negb (bool_decide (c = "*"%char)) || count_fits t') && counts_fit t'
  end.

Lemma counts_fit_drop k : forall t, counts_fit t = true -> counts_fit (drop k t) = true.
Proof.
  induction k as [|k IH]; intros [|c t]; cbn [drop counts_fit]; try done.
  intros [_ Ht]%andb_true_iff. by apply IH.
Qed.

(** ** Open arrays *)

(** The elements that the open arrays have, the innermost first. *)
Fixpoint frames_typed (fs : list frame) : Prop :=
  match fs with
  | [] => True
  | f :: fs' => Forall (typed (8 - S (length fs'))) f.1 /\ frames_typed fs'
  end.

(** What was read: arrays that go on, or a whole reply. *)
Definition sound (a : list frame + redisReply) : Prop :=
  match a with inl fs => frames_typed fs /\ (length fs <= 8)%nat | inr y => typed 8 y end.

Lemma advance_sound fs : forall x,
  frames_typed fs -> (length fs <= 8)%nat -> typed (8 - length fs) x -> sound (advance fs x).
Proof.
  induction fs as [|f fs IH]; intros x Hf Hl Hx; cbn [advance]; [exact Hx|].
  cbn [frames_typed length] in *. destruct Hf as [Hf1 Hf2].
  assert (Forall (typed (8 - S (length fs))) (f.1 ++ [x])) as Hall by by apply Forall_app; split; [|constructor].
  destruct (zlen f.1 + 1 <? f.2); [by split|].
  apply IH; [done|lia|]. apply (typed_array _ (8 - S (length fs))); [lia|done].
Qed.

(** A task that was given its type has the count of its array before it. *)
Definition wants (type : Z) (t : bytes) : Prop :=
  type = -1 \/ (type ∈ [1; 2; 3; 5; 6] /\ (type = REDIS_REPLY_ARRAY -> count_fits t = true)).

(** The reader waits for the item of a task; [t] is all that is still to come. *)
Record expects (st : read_state) (t : bytes) : Prop := {
  ex_task : exists fs type e, at_slot st fs type e /\ frames_ok fs /\ reply st = plug fs None /\
    frames_typed fs /\ (length fs <= 8)%nat /\ wants type t;
  ex_fits : counts_fit t = true
}.

(** Between two items. *)
Definition after_item (st : read_state) (t : bytes) : Prop :=
  counts_fit t = true /\ exists a, after st a /\ sound a.

Lemma after_expects st t : after_item st t -> ridx st <> -1 -> expects st t.
Proof.
  intros [Hc ([fs|y] & Ha & Hs)] Hr; [|by destruct Ha].
  destruct Ha as ([e He] & Hp & Ho), Hs as [Ht Hl]. split; [|done].
  exists fs, (-1), e. split_and!; try done. by left.
Qed.

Section typing.
Context (malloc_ok : Z -> bool).

(** *** One item *)

(** The outcome of a step: never a fault. *)
Definition good (o : option item_out) (st : read_state) : Prop :=
  match o with
  | None => False
  | Some (Wait k st') => k = 0 /\ st' = st
  | Some (Got k st') => exists a, after st' a /\ sound a
  | Some (Fail _ type _) => type <> 0
  end.

Lemma finish_good st fs type e x k :
  at_slot st fs type e -> frames_ok fs -> reply st = plug fs None -> frames_typed fs ->
  (length fs <= 8)%nat -> match x with Some x => typed (8 - length fs) x | None => True end ->
  good (finish_item st x k) st.
Proof.
  intros Hat Hok Hr Hf Hl Hx. destruct x as [x|]; [|done]. cbn [finish_item].
  destruct (deliver_frames st fs type e x Hat Hok Hr) as (st' & -> & Ha); [unfold zlen; lia|].
  exists (advance fs x). split; [done|]. by apply advance_sound.
Qed.

Lemma string_typed d type l :
  type ∈ [1; 5; 6] -> zlen l < 2 ^ 31 ->
  match createString malloc_ok type l with Some x => typed d x | None => True end.
Proof.
  intros Ht Hl. unfold createString. destruct (_ && _); [|done]. unfold createStringObject.
  rewrite i32_small by (pose proof (zlen_nonneg l); lia). by constructor.
Qed.

Lemma slice_length (u : bytes) i j : zlen (slice u i j) <= zlen u.
Proof. unfold slice, zlen. rewrite length_take, length_drop. lia. Qed.

(** The task of the current item, on the bytes [u] of [u ++ v]. *)
Lemma typed_item_good st fs type e cur u v :
  at_slot st fs type e -> frames_ok fs -> reply st = plug fs None -> frames_typed fs ->
  (length fs <= 8)%nat -> type ∈ [1; 2; 3; 5; 6] ->
  (type = REDIS_REPLY_ARRAY -> count_fits (u ++ v) = true) ->
  tk_idx cur = (match fs with [] => -1 | f :: _ => zlen f.1 end) -> zlen u < 2 ^ 31 ->
  good (typed_item malloc_ok st cur type u) st.
Proof.
  intros Hat Hok Hr Hf Hl Ht Hc Hi Hu.
  assert (forall x k, match x with Some x => typed (8 - length fs) x | None => True end ->
    good (finish_item st x k) st) as Hfin by (intros; by eapply finish_good).
  assert (forall i j ty, ty ∈ [1; 5; 6] -> match createString malloc_ok ty (slice u i j) with
    Some x => typed (8 - length fs) x | None => True end) as Hstr.
  { intros i j ty Hty. apply string_typed; [done|]. pose proof (slice_length u i j). lia. }
  assert (match createNil malloc_ok with Some x => typed (8 - length fs) x | None => True end) as Hnil.
  { unfold createNil. destruct (malloc_ok _); [apply typed_nil|done]. }
  assert (forall n, find_crlf u = Some n -> exists z, long_of u = Some z /\ long_of (u ++ v) = Some z /\
    -2 ^ 63 <= z < 2 ^ 63) as Hlong.
  { intros n E. destruct (long_of_app u v n E) as (z & E1 & E2). exists z. split_and!; try done; by eapply long_of_range. }
  unfold typed_item, line_item, bulk_item, array_item. unfold REDIS_REPLY_ARRAY in Hc.
  set_unfold in Ht. destruct Ht as [->|[->|[->|[->|[->|[]]]]]]; cbn [Z.eqb Pos.eqb orb].
  - destruct (find_crlf u) as [n|] eqn:E; [|done]. destruct (Hlong n eq_refl) as (z & -> & _ & Hz).
    cbn [mbind option_bind]. destruct (z <? 0); [by apply Hfin|].
    destruct (_ <=? _); [|done]. apply Hfin, Hstr. set_solver.
  - destruct (Z.eqb_spec (ridx st) 8) as [|H8]; [done|].
    destruct (find_crlf u) as [n|] eqn:E; [|done]. destruct (Hlong n eq_refl) as (z & -> & Hz & Hb).
    cbn [mbind option_bind]. specialize (Hc eq_refl). unfold count_fits in Hc.
    rewrite (find_crlf_app u v n E), Hz in Hc. destruct (Z.eqb_spec z (-1)); [by apply Hfin|].
    assert (zlen fs < 8) as Hl8.
    { destruct Hat as (_ & _ & _ & Hx). unfold zlen in *. lia. }
    destruct (createArray malloc_ok z) as [x|] eqn:Ec.
    2:{ unfold open_array. rewrite i32_small by lia. by rewrite Ec. }
    assert (x = createArrayObject z) as -> by (unfold createArray in Ec; by case_match; simplify_eq).
    destruct (open_array_frames malloc_ok st fs e cur z (n + 2)) as (st' & Ho & Ha); try done; [lia|].
    unfold REDIS_REPLY_ARRAY in Ho. rewrite Ho. eexists. split; [exact Ha|]. destruct (z =? 0).
    + apply advance_sound; [done|done|]. apply (typed_array _ (7 - length fs)); [unfold zlen in Hl8; lia|constructor].
    + cbn. split; [by split|unfold zlen in Hl8; lia].
  - destruct (find_crlf u) as [n|] eqn:E; [|done]. destruct (Hlong n eq_refl) as (z & -> & _ & Hz).
    cbn [mbind option_bind]. apply Hfin. unfold createInteger. destruct (malloc_ok _); [by apply typed_integer|done].
  - destruct (find_crlf u) as [n|] eqn:E; [|done]. apply Hfin, Hstr. set_solver.
  - destruct (find_crlf u) as [n|] eqn:E; [|done]. apply Hfin, Hstr. set_solver.
Qed.

Lemma expects_ridx st t : expects st t -> 0 <= ridx st.
Proof. intros [(fs & _ & _ & (_ & _ & _ & ->) & _) _]. apply zlen_nonneg. Qed.

(** What a step on [u] leaves, when [v] comes after it. *)
Definition progress (u v : bytes) (o : option item_out) : Prop :=
  match o with
  | None => False
  | Some (Wait k st') => 0 <= k <= zlen u /\ expects st' (drop (Z.to_nat k) u ++ v)
  | Some (Got k st') => 0 < k <= zlen u /\ after_item st' (drop (Z.to_nat k) u ++ v)
  | Some (Fail _ type _) => type <> 0
  end.

Lemma item_progress st u v : expects st (u ++ v) -> zlen u < 2 ^ 31 -> progress u v (item malloc_ok st u).
Proof.
  intros [(fs & type & e & Hat & Hok & Hr & Hf & Hl & Hw) Hc] Hu.
  pose proof (item_more malloc_ok st u []) as Hm.
  destruct (at_slot_task st fs type e Hat) as (idx & Hcur & Hidx & Hset).
  assert (forall k, counts_fit (drop k u ++ v) = true) as Hd.
  { intros k. destruct (Nat.le_gt_cases k (length u)).
    - rewrite <- drop_app_le by lia. by apply counts_fit_drop.
    - rewrite drop_ge by lia. pose proof (counts_fit_drop (length u) _ Hc) as Hx. by rewrite drop_app_length in Hx. }
  destruct Hw as [->|[Hty Hw]].
  - destruct u as [|c u].
    { rewrite (item_empty malloc_ok st _ Hcur) by done. split; [done|]. split; [|exact Hc].
      exists fs, (-1), e. split_and!; try done. by left. }
    rewrite (item_fresh malloc_ok st _ c u Hcur) in * by done.
    destruct (type_of_byte c) as [type|] eqn:Ec; [|done]. cbn [tk_elements tk_idx] in *.
    destruct (Hset type e) as (st1 & Hs1 & Hat1 & Hr1). rewrite Hs1 in *. cbn [mbind option_bind] in *.
    cbn [app counts_fit] in Hc. apply andb_true_iff in Hc as [Hc1 Hc].
    assert (type ∈ [1; 2; 3; 5; 6]) as Hty.
    { unfold type_of_byte in Ec. repeat case_bool_decide; simplify_eq; vm_compute; set_solver. }
    assert (type = REDIS_REPLY_ARRAY -> count_fits (u ++ v) = true) as Hw.
    { intros ->. unfold type_of_byte in Ec. by repeat case_bool_decide; simplify_eq. }
    pose proof (typed_item_good st1 fs type e (mk_task type e idx) u v Hat1 Hok ltac:(congruence) Hf Hl Hty Hw Hidx)
      as Hg. rewrite zlen_cons in Hu. specialize (Hg ltac:(lia)).
    destruct (typed_item malloc_ok st1 _ type u) as [[k st'|k st'|]|]; try done;
      cbn [fmap option_fmap option_map bump progress good] in *; (split; [lia|]).
    + destruct Hg as [-> ->]. rewrite Z.add_0_r. change (drop (Z.to_nat 1) (c :: u)) with u.
      split; [|done]. exists fs, type, e. split_and!; try done; [congruence|]. by right.
    + by split.
  - rewrite (item_typed malloc_ok st _ u Hcur) in * by (set_unfold in Hty; cbn; lia). cbn [tk_type] in *.
    pose proof (typed_item_good st fs type e (mk_task type e idx) u v Hat Hok Hr Hf Hl Hty Hw Hidx Hu) as Hg.
    destruct (typed_item malloc_ok st _ type u) as [[k st'|k st'|]|]; try done; (split; [lia|]).
    + destruct Hg as [-> ->]. split; [|done]. exists fs, type, e. split_and!; try done. by right.
    + by split.
Qed.

(** *** One reply *)

(** Between two calls: an error, or a position in a stream that goes on with [v]. *)
Definition resting (st : read_state) (t : bytes) : Prop :=
  expects st t \/ (idle st /\ counts_fit t = true).

Lemma resting_start st t : resting st t -> exists st1, start_root st = Some st1 /\ expects st1 t.
Proof.
  intros [He|[Hi Hc]].
  - exists st. split; [|done]. apply start_root_started. pose proof (expects_ridx _ _ He). lia.
  - destruct (idle_start st Hi) as (st1 & Hs & ([e He] & Hr & Ho) & _). exists st1. split; [done|].
    split; [|done]. exists [], (-1), e. split_and!; try done; [cbn; lia|by left].
Qed.

Lemma process_loop_typed fuel : forall r u v,
  open_reader r u -> expects (r_state r) (u ++ v) -> zlen u < Z.of_nat fuel ->
  exists r', process_loop malloc_ok fuel r = Some r' /\
    (r_err r' <> 0 \/ exists u', open_reader r' u' /\ r_len r' = r_len r /\ zlen u' <= zlen u /\
      (expects (r_state r') (u' ++ v) \/
       exists y, typed 8 y /\ reply (r_state r') = Some y /\ idle (with_reply (r_state r') None) /\
         counts_fit (u' ++ v) = true /\ zlen u' < zlen u)).
Proof.
  induction fuel as [|fuel IH]; intros r u v Ho He Hf; [pose proof (zlen_nonneg u); lia|].
  cbn [process_loop]. pose proof (expects_ridx _ _ He) as Hr. destruct (Z.ltb_spec (ridx (r_state r)) 0); [lia|].
  pose proof (open_view r u Ho) as Hv. rewrite (processItem_item malloc_ok r u Hv).
  pose proof (item_progress (r_state r) u v He ltac:(by destruct (view_avail r u Hv))) as Hp.
  assert (forall k, 0 <= k <= zlen u -> zlen (drop (Z.to_nat k) u) = zlen u - k) as Hz.
  { intros k Hk. unfold zlen in *. rewrite length_drop. lia. }
  destruct (item malloc_ok (r_state r) u) as [[k st|k st|st ty str]|] eqn:Ei; [..|done];
    cbn [fmap option_fmap option_map mbind option_bind apply_out fst snd progress] in *.
  - destruct Hp as [Hk Hx]. eexists. split; [done|]. right. exists (drop (Z.to_nat k) u).
    pose proof (expects_ridx _ _ Hx). rewrite Hz by lia.
    split_and!; [apply open_step; [done|lia|lia]|done|lia|by left].
  - rewrite Z.eqb_refl. cbn [negb]. destruct Hp as [Hk Ha]. set (r1 := with_state _ st).
    assert (-1 <= ridx st) as Hi by (by eapply item_ridx; [exact Ei|lia]).
    assert (open_reader r1 (drop (Z.to_nat k) u)) as Ho1 by (apply open_step; [done|lia|done]).
    specialize (Hz k ltac:(lia)). destruct (decide (ridx st = -1)) as [Hend|Hne].
    + exists r1. split; [by destruct fuel; cbn [process_loop r1 r_state with_state]; rewrite Hend|].
      right. exists (drop (Z.to_nat k) u). split_and!; [done..|lia|]. right.
      destruct Ha as [Hc ([fs|y] & Ha & Hs)].
      { destruct Ha as ([e (_ & _ & _ & Hx)] & _). pose proof (zlen_nonneg fs). lia. }
      destruct Ha as (_ & Hy & Hl). exists y. split_and!; try done. lia.
    + destruct (IH r1 (drop (Z.to_nat k) u) v Ho1) as (r' & Hr' & Hres); [by apply after_expects|lia|].
      exists r'. split; [done|]. destruct Hres as [|(u' & ? & Hlen & ? & [?|(y & ? & ? & ? & ? & ?)])]; [by left|..];
        right; exists u'; (split_and!; [done|done|lia|]); [by left|].
      right. exists y. split_and!; try done. lia.
  - eexists. split; [done|]. by left.
Qed.

(** A reader between two calls: it has failed, or [u] is unread and [v] will come. *)
Definition settled_at (r : redisReader) u v : Prop :=
  r_err r <> 0 \/ (open_reader r u /\ resting (r_state r) (u ++ v)).

Lemma open_state r u st : open_reader r u -> -1 <= ridx st -> open_reader (with_state r st) u.
Proof. intros (b & ? & ? & ? & ? & ? & ? & ? & _) Hr. exists b. cbn. split_and!; try done; lia. Qed.

Lemma getReply_typed r u v :
  settled_at r u v ->
  exists ret x r', redisReaderGetReply malloc_ok r = Some (ret, x, r') /\
    exists u', settled_at r' u' v /\ (r_err r' = 0 -> r_err r = 0 /\ r_len r' <= r_len r) /\
      match x with
      | Some y => typed 8 y /\ r_err r = 0 /\ r_err r' = 0 /\ zlen u' < zlen u
      | None => True
      end.
Proof.
  unfold redisReaderGetReply. intros [He|[Ho Hs]].
  { destruct (Z.eqb_spec (r_err r) 0); [done|]. eexists _, None, r. split; [reflexivity|]. exists u. split; [by left|]. split; [by intros|done]. }
  pose proof (open_size r u Ho) as Hz. pose proof Ho as (_ & _ & _ & _ & Hp & _ & _ & He & _). rewrite He. cbn [negb Z.eqb].
  destruct (Z.eqb_spec (r_len r) 0) as [H0|H0].
  { eexists _, None, r. split; [reflexivity|]. exists u. split; [by right|]. split; [lia|done]. }
  destruct (resting_start _ _ Hs) as (st1 & -> & Hx). cbn [mbind option_bind]. pose proof (expects_ridx _ _ Hx) as Hr1.
  destruct (process_loop_typed (S (Z.to_nat (r_len r - r_pos r))) (with_state r st1) u v)
    as (r' & -> & Hres); [apply open_state; [done|lia]|done|lia|]. cbn [mbind option_bind].
  destruct (Z.eqb_spec (r_err r') 0) as [He'|He']; cbn [negb].
  2:{ eexists _, None, r'. split; [reflexivity|]. exists u. split; [by left|]. split; [by intros|done]. }
  destruct Hres as [|(u' & Ho' & Hl & Hzu & Hres)]; [done|].
  destruct (trimmed_spec r' u' Ho') as (r2 & Ht & Ho2 & Hst2 & Hl2). unfold trimmed in Ht. rewrite Ht.
  cbn [mbind option_bind]. rewrite Hst2. cbn [r_len with_state] in Hl.
  destruct Hres as [Hx'|(y & Hy & Hre & Hi & Hc & Hlt)].
  - pose proof (expects_ridx _ _ Hx') as Hr'. destruct (Z.eqb_spec (ridx (r_state r')) (-1)); [lia|].
    eexists _, None, r2. split; [reflexivity|]. exists u'. split; [|split; [lia|done]].
    right. split; [done|]. rewrite Hst2. by left.
  - pose proof Hi as (Hri & _). cbn [ridx with_reply] in Hri. rewrite Hri, Hre. cbn [Z.eqb Pos.eqb].
    eexists _, (Some y), _. split; [reflexivity|]. exists u'.
    split; [|split; [cbn; lia|split_and!; [done|done| |lia]]].
    + right. split; [apply open_state; [done|cbn; lia]|]. by right.
    + cbn. by destruct Ho2 as (_ & _ & _ & _ & _ & _ & _ & ? & _).
Qed.

(** ** A client that reads anything

    It takes replies until there is none, whatever the return code, and feeds the
    next packet, also after an error. *)
Fixpoint take_replies (fuel : nat) (r : redisReader) : option (list redisReply * redisReader) :=
  match fuel with
  | O => None
  | S fuel' =>
      g ← redisReaderGetReply malloc_ok r;
      match g.1.2 with
      | None => Some ([], g.2)
      | Some x => l ← take_replies fuel' g.2; Some (x :: l.1, l.2)
      end
  end.

Lemma take_typed fuel : forall r u v,
  settled_at r u v -> (r_err r = 0 -> zlen u < Z.of_nat fuel) -> (0 < fuel)%nat ->
  exists l r', take_replies fuel r = Some (l, r') /\ Forall (typed 8) l /\
    exists u', settled_at r' u' v /\ (r_err r' = 0 -> r_err r = 0 /\ r_len r' <= r_len r).
Proof.
  induction fuel as [|fuel IH]; intros r u v Hs Hf Hn; [lia|]. cbn [take_replies].
  destruct (getReply_typed r u v Hs) as (ret & x & r1 & -> & u1 & Hs1 & Hl1 & Hx).
  cbn [mbind option_bind fst snd]. destruct x as [y|].
  - destruct Hx as (Hy & He & He1 & Hlt). specialize (Hf He). pose proof (zlen_nonneg u1).
    destruct (IH r1 u1 v Hs1) as (l & r2 & -> & Hall & u2 & Hs2 & Hl2); [lia|lia|].
    exists (y :: l), r2. split_and!; [done|by constructor|]. exists u2. split; [done|].
    intros E. destruct (Hl2 E), (Hl1 He1). split; [done|lia].
  - exists [], r1. split_and!; [done|constructor|]. by exists u1.
Qed.

Context (alloc : Z -> option bytes).
Hypothesis Halloc : forall n b, 0 <= n -> alloc n = Some b -> zlen b = n.
Hypothesis Hmem : forall n, alloc n <> None.

Fixpoint take_packets (r : redisReader) (packets : list bytes) : option (list redisReply * redisReader) :=
  match packets with
  | [] => Some ([], r)
  | d :: packets' =>
      f ← redisReaderFeed alloc r d;
      l ← take_replies (S (Z.to_nat (r_len f.2))) f.2;
      l' ← take_packets l.2 packets';
      Some (l.1 ++ l'.1, l'.2)
  end.

Lemma feed_typed r u d v :
  settled_at r u (d ++ v) -> (r_err r = 0 -> r_len r + zlen d < 2 ^ 30 - 1) ->
  exists ret r', redisReaderFeed alloc r d = Some (ret, r') /\ settled_at r' (u ++ d) v /\
    (r_err r' = 0 -> r_err r = 0 /\ r_len r' <= r_len r + zlen d).
Proof.
  intros [He|[Ho Hs]] Hl.
  - unfold redisReaderFeed. destruct (Z.eqb_spec (r_err r) 0); [done|]. eexists _, r. split; [reflexivity|].
    split; [by left|]. by intros.
  - pose proof Ho as (_ & _ & _ & _ & _ & _ & _ & He & _).
    destruct (feed_spec alloc Halloc Hmem r u d Ho (Hl He)) as (r' & -> & Ho' & Hst & Hl').
    exists REDIS_OK, r'. split; [done|]. split; [|done]. right. split; [done|]. rewrite Hst. by rewrite <- app_assoc.
Qed.

Lemma take_packets_typed packets : forall r u,
  settled_at r u (concat packets) -> (r_err r = 0 -> r_len r + zlen (concat packets) < 2 ^ 30 - 1) ->
  exists l r', take_packets r packets = Some (l, r') /\ Forall (typed 8) l.
Proof.
  induction packets as [|d packets IH]; intros r u Hs Hl; cbn [take_packets concat] in *; [by exists [], r|].
  rewrite zlen_app in Hl. pose proof (zlen_nonneg (concat packets)).
  destruct (feed_typed r u d _ Hs) as (ret & r1 & -> & Hs1 & Hl1); [intros E; specialize (Hl E); lia|].
  cbn [mbind option_bind fst snd].
  destruct (take_typed (S (Z.to_nat (r_len r1))) r1 _ _ Hs1) as (l & r2 & -> & Hall & u2 & Hs2 & Hl2); [|lia|].
  { intros E. destruct Hs1 as [|[Ho1 _]]; [done|]. pose proof (open_size _ _ Ho1).
    destruct Ho1 as (_ & _ & _ & _ & Hp & _). lia. }
  cbn [mbind option_bind fst snd].
  destruct (IH r2 u2 Hs2) as (l' & r3 & -> & Hall').
  { intros E. destruct (Hl2 E) as [E1 ?]. destruct (Hl1 E1) as [E0 ?]. specialize (Hl E0). lia. }
  cbn [mbind option_bind fst snd]. eexists _, r3. split; [done|]. by apply Forall_app.
Qed.
End typing.

(** C8: replies are well typed.  A server sends any bytes whose array counts an
    [int] can hold, cut into packets anywhere, and allocations of reply objects fail
    as they like.  A client that feeds the packets and takes replies always gets an
    answer, and each reply is a well formed tree: a type the client knows, strings
    with their length, arrays without missing elements that are nested at most eight
    deep. *)
Theorem replies_well_typed malloc_ok alloc (packets : list bytes) :
  (forall n b, 0 <= n -> alloc n = Some b -> zlen b = n) -> (forall n, alloc n <> None) ->
  counts_fit (concat packets) = true -> zlen (concat packets) < 2 ^ 30 - 1 ->
  exists r l r', redisReaderCreate alloc = Some r /\
    take_packets malloc_ok alloc r packets = Some (l, r') /\ Forall (typed 8) l.
Proof.
  intros Ha Hm Hc Hl. destruct (create_open alloc Ha Hm) as (r & Hcr & Ho & Hi & Hr0).
  destruct (take_packets_typed malloc_ok alloc Ha Hm packets r []) as (l & r' & Ht & Hall).
  - right. split; [done|]. right. by split.
  - intros _. lia.
  - by exists r, l, r'.
Qed.

(** An array in three packets, a string with a bad length, and a byte that is not
    a type. *)
Definition odd_packets : list bytes :=
  [s "*2" ++ CRLF ++ s "*"; s "1" ++ CRLF ++ s ":x" ++ CRLF; s "$3" ++ CRLF ++ s "a*b" ++ CRLF;
   s "$abc" ++ CRLF; s "?"; s "+late" ++ CRLF].

Lemma replies_well_typed_witness :
  exists r l r', redisReaderCreate plenty = Some r /\
    take_packets (fun _ => true) plenty r odd_packets = Some (l, r') /\ Forall (typed 8) l.
Proof.
  apply (replies_well_typed (fun _ => true) plenty odd_packets); try done. exact plenty_size.
Defined.

Example odd_replies :
  (r ← redisReaderCreate plenty; fst <$> take_packets (fun _ => true) plenty r odd_packets) =
  Some [array_reply [array_reply [createIntegerObject (-1)]; createStringObject REDIS_REPLY_STRING (s "a*b")];
        createNilObject].
Proof. vm_compute. reflexivity. Qed.
