(* ===== verification/ReplyFree.v ===== *)
(** * hiredis.c: freeing a reply

    A reply is a tree of blocks: its object, the bytes of a string, the array of the
    elements.  A block is named by the way to its reply.  [freeReplyObject] gives the
    blocks in the order in which it frees them; for the well typed replies of the
    reader they are all the blocks of the reply, each once. *)

From S2P Require Import Prelude Reply Sds SdsSpec Reader ReaderSpec ReaderStream ReaderApi ReaderTyping.

Inductive part := Object | Str | Elements.
Abbreviation block := (list nat * part)%type.

(** The elements, numbered from [j]; NULL is left out. *)
Section elements.
Context (f : redisReply -> list nat -> list block).
Fixpoint of_elements (l : list (option redisReply)) (p : list nat) (j : nat) : list block :=
  match l with
  | [] => []
  | e :: l => (match e with Some r => f r (p ++ [j]) | None => [] end) ++ of_elements l p (S j)
  end.
End elements.

(** What is allocated: by the fields, whatever the type is. *)
Fixpoint blocks (r : redisReply) (p : list nat) : list block :=
  [(p, Object)] ++ (if rstr r is Some _ then [(p, Str)] else []) ++
  (if element r is [] then [] else [(p, Elements)]) ++ of_elements blocks (element r) p 0.

(** The loop over the elements, [n] to go; [None]: outside of the array. *)
Section loop.
Context (free : redisReply -> list nat -> option (list block)).
Fixpoint free_elements (l : list (option redisReply)) (n : Z) (p : list nat) (j : nat) : option (list block) :=
  if n <=? 0 then Some [] else
  match l with
  | [] => None
  | e :: l =>
      a ← match e with Some r => free r (p ++ [j]) | None => Some [] end;
      b ← free_elements l (n - 1) p (S j);
      Some (a ++ b)
  end.
End loop.
Fixpoint freeReplyObject (r : redisReply) (p : list nat) : option (list block) :=
  content ←
    (if rtype r =? REDIS_REPLY_INTEGER then Some []
     else if rtype r =? REDIS_REPLY_ARRAY then
       match element r with
       | [] => Some []
       | _ => l ← free_elements freeReplyObject (element r) (elements r) p 0; Some (l ++ [(p, Elements)])
       end
     else if bool_decide (rtype r ∈ [REDIS_REPLY_ERROR; REDIS_REPLY_STATUS; REDIS_REPLY_STRING]) then
       Some (if rstr r is Some _ then [(p, Str)] else [])
     else Some []);
  Some (content ++ [(p, Object)]).

(** Blocks of a reply are below it. *)
Definition below (p : list nat) (b : block) : Prop := exists q, b.1 = p ++ q.
Lemma below_element p j b : below (p ++ [j]) b -> exists q, b.1 = p ++ j :: q.
Proof. intros [q ->]. exists q. by rewrite <- app_assoc. Qed.

Lemma elements_below l : Forall (fun r => forall p, Forall (below p) (blocks r p)) l ->
  forall p j, Forall (fun b => exists i q, (j <= i)%nat /\ b.1 = p ++ i :: q) (of_elements blocks (map Some l) p j).
Proof.
  induction 1 as [|r l Hr _ IH]; intros p j; cbn [map of_elements]; [constructor|]. apply Forall_app. split.
  - eapply Forall_impl; [apply Hr|]. intros b (q & Hq)%below_element. by exists j, q.
  - eapply Forall_impl; [apply IH|]. intros b (i & q & Hi & Hq). exists i, q. split; [lia|done].
Qed.

(** ** Well typed replies *)

Section typed_ind.
Context (P : redisReply -> Prop).
Hypothesis Htext : forall type l, type ∈ [REDIS_REPLY_STRING; REDIS_REPLY_STATUS; REDIS_REPLY_ERROR] ->
  P (mk_reply type 0 (zlen l) (Some l) 0 []).
Hypothesis Hint : forall v, P (mk_reply REDIS_REPLY_INTEGER v 0 None 0 []).
Hypothesis Hnil : P (mk_reply REDIS_REPLY_NIL 0 0 None 0 []).
Hypothesis Harray : forall l, Forall P l -> P (mk_reply REDIS_REPLY_ARRAY 0 0 None (zlen l) (map Some l)).
Lemma typed_shape d : forall r, typed d r -> P r.
Proof.
  induction d as [|d IH]; intros r Hr; destruct Hr as [type l Ht|v Hv| |d' l Hd Hl]; auto; [done|].
  injection Hd as ->. apply Harray. eapply Forall_impl; [exact Hl|exact IH].
Qed.
End typed_ind.

Lemma free_all_elements l :
  Forall (fun r => forall p, exists bs, freeReplyObject r p = Some bs /\ bs ≡ₚ blocks r p) l ->
  forall p j, exists bs, free_elements freeReplyObject (map Some l) (zlen l) p j = Some bs /\
    bs ≡ₚ of_elements blocks (map Some l) p j.
Proof.
  induction 1 as [|r l Hr _ IH]; intros p j; cbn [map free_elements of_elements]; [by exists []|].
  rewrite zlen_cons. pose proof (zlen_nonneg l). destruct (Z.leb_spec (1 + zlen l) 0); [lia|].
  destruct (Hr (p ++ [j])) as (a & -> & Ha). cbn [mbind option_bind].
  replace (1 + zlen l - 1) with (zlen l) by lia. destruct (IH p (S j)) as (b & -> & Hb). cbn [mbind option_bind].
  exists (a ++ b). split; [done|]. by rewrite Ha, Hb.
Qed.

Lemma freed_blocks d r : typed d r -> forall p, exists bs, freeReplyObject r p = Some bs /\ bs ≡ₚ blocks r p.
Proof.
  revert r. apply (typed_shape (fun r => forall p, exists bs, freeReplyObject r p = Some bs /\ bs ≡ₚ blocks r p)).
  - intros type l Ht p. set_unfold in Ht.
    destruct Ht as [->|[->|[->|[]]]]; eexists; (split; [vm_compute; reflexivity|]); apply perm_swap.
  - intros v p. by eexists.
  - intros p. by eexists.
  - intros l IH p. cbn [freeReplyObject blocks rtype rstr element elements Z.eqb].
    change (REDIS_REPLY_ARRAY =? REDIS_REPLY_INTEGER) with false. change (REDIS_REPLY_ARRAY =? REDIS_REPLY_ARRAY) with true.
    destruct (free_all_elements l IH p 0) as (bs & E & Hbs). destruct l as [|x l]; [by eexists|].
    cbn [map] in *. rewrite E. cbn [mbind option_bind]. eexists. split; [reflexivity|]. rewrite Hbs, <- app_assoc.
    cbn [app]. rewrite Permutation_app_comm. cbn [app]. apply perm_swap.
Qed.

Lemma elements_NoDup l : Forall (fun r => (forall p, Forall (below p) (blocks r p)) /\ forall p, NoDup (blocks r p)) l ->
  forall p j, NoDup (of_elements blocks (map Some l) p j).
Proof.
  induction 1 as [|r l [Hb Hn] Hl IH]; intros p j; cbn [map of_elements]; [constructor|]. apply NoDup_app. split_and!; [done| |done].
  intros b Hin Hin2. pose proof (proj1 (Forall_forall _ _) (Hb (p ++ [j])) b Hin) as Hb1. apply below_element in Hb1 as [q Hq].
  assert (Forall (fun r => forall p, Forall (below p) (blocks r p)) l) as Hbl by (eapply Forall_impl; [exact Hl|by intros ? []]).
  pose proof (proj1 (Forall_forall _ _) (elements_below l Hbl p (S j)) b Hin2) as (i & q2 & Hi & Hq2).
  rewrite Hq in Hq2. apply (inj (app p)) in Hq2. injection Hq2 as -> _. lia.
Qed.

Definition apart (r : redisReply) : Prop := (forall p, Forall (below p) (blocks r p)) /\ forall p, NoDup (blocks r p).
Lemma apart_leaf type v n str : apart (mk_reply type v n str 0 []).
Proof.
  split; intros p; destruct str; cbn; repeat constructor; try (exists []; by rewrite app_nil_r); set_solver.
Qed.
Lemma apart_array type v n m l : Forall apart l -> apart (mk_reply type v n None m (map Some l)).
Proof.
  intros Hl. assert (Forall (fun r => forall p, Forall (below p) (blocks r p)) l) as Hb by (eapply Forall_impl; [exact Hl|by intros ? []]).
  split; intros p; cbn [blocks rstr element]; pose proof (elements_below l Hb p 0) as He.
  - apply Forall_cons. split; [exists []; by rewrite app_nil_r|]. cbn [app].
    apply Forall_app. split; [destruct l; repeat constructor; exists []; by rewrite app_nil_r|].
    eapply Forall_impl; [exact He|]. intros b (i & q & _ & Hq). by exists (i :: q).
  - assert (forall x, x ∈ of_elements blocks (map Some l) p 0 -> x.1 <> p) as Hne.
    { intros x Hx E. pose proof (proj1 (Forall_forall _ _) He x Hx) as (i & q & _ & Hq). rewrite E in Hq.
      apply (f_equal length) in Hq. rewrite length_app in Hq. cbn in Hq. lia. }
    cbn [app]. apply NoDup_cons. split.
    + rewrite elem_of_app. intros [Hin|Hin]; [destruct l; set_solver|by apply Hne in Hin].
    + apply NoDup_app. split_and!; [destruct l; repeat constructor; set_solver| |by apply elements_NoDup].
      intros x Hx Hx2. apply Hne in Hx2. destruct l; set_solver.
Qed.
Lemma blocks_apart d r : typed d r -> apart r.
Proof.
  revert r. apply (typed_shape apart); intros.
  - apply apart_leaf.
  - apply apart_leaf.
  - apply apart_leaf.
  - by apply apart_array.
Qed.

(** C18: [freeReplyObject] frees a reply, all of it and nothing twice.  On every reply
    that the reader can return the array of the elements is read inside its bounds,
    and the blocks that are freed are the blocks of the reply, each exactly once. *)
Theorem freeReplyObject_once d r p : typed d r ->
  exists freed, freeReplyObject r p = Some freed /\ NoDup freed /\ (forall b, b ∈ freed <-> b ∈ blocks r p).
Proof.
  intros Ht. destruct (freed_blocks d r Ht p) as (bs & E & Hp). exists bs. split; [done|].
  rewrite Hp. split; [apply (blocks_apart d r Ht)|]. intros b. by rewrite Hp.
Qed.

(** An array with an array and a string in it. *)
Definition nested : redisReply := array_reply [array_reply []; createStringObject REDIS_REPLY_STATUS (s "OK")].
Lemma freeReplyObject_once_witness :
  exists freed, freeReplyObject nested [] = Some freed /\ NoDup freed /\ (forall b, b ∈ freed <-> b ∈ blocks nested []).
Proof.
  apply (freeReplyObject_once 8 nested []). apply (typed_array 8 7 [array_reply []; _]); [done|].
  repeat constructor; [by apply (typed_array 7 6 [])|apply (typed_text 7 REDIS_REPLY_STATUS (s "OK")); set_solver].
Defined.
Example nested_freed :
  freeReplyObject nested [] = Some [([0%nat], Object); ([1%nat], Str); ([1%nat], Object); ([], Elements); ([], Object)].
Proof. vm_compute. reflexivity. Qed.

(** A reply of another shape: the bytes of an integer stay allocated, an element
    that the array does not have is read. *)
Example integer_with_bytes_leaks :
  freeReplyObject (mk_reply REDIS_REPLY_INTEGER 1 1 (Some (s "1")) 0 []) [] = Some [([], Object)].
Proof. vm_compute. reflexivity. Qed.
Example short_array_overrun : freeReplyObject (mk_reply REDIS_REPLY_ARRAY 0 0 None 2 [None]) [] = None.
Proof. vm_compute. reflexivity. Qed.
