(* ===== verification/Vformat.v ===== *)
(** * hiredis.c: printf-like commands

    [redisvFormatCommand] and the function of sds.c behind it,
    [sdscatvprintf].  The format is the memory of a C string, its NUL included,
    read through bounds checked offsets; the variable arguments are a list of
    tagged values, taken in order, and taking one as another type is a fault.
    What printf prints for one conversion and its argument is the parameter
    [printf]. *)

From S2P Require Import Prelude Resp Format Sds SdsSpec.

(** A variable argument; a pointer is the memory it points to. *)
Inductive vararg :=
| VPtr (mem : bytes)
| VSize (n : Z)
| VInt (z : Z)
| VLong (z : Z)
| VLongLong (z : Z)
| VDouble (bits : Z).

(** The type a conversion takes its argument as. *)
Inductive argtype := TInt | TLong | TLongLong | TDouble.

Definition va_arg_of (t : argtype) (a : vararg) : bool :=
  match t, a with
  | TInt, VInt _ | TLong, VLong _ | TLongLong, VLongLong _ | TDouble, VDouble _ => true
  | _, _ => false
  end.

Section vformat.
Context (alloc : Z -> option bytes) (printf : bytes -> vararg -> bytes).

(** ** sdscatvprintf

    [vsnprintf] stores at most [buflen - 1] bytes and a NUL. *)
Definition vsnprintf (b : bytes) (buflen : Z) (out : bytes) : option bytes :=
  blit b 0 (take (Z.to_nat (buflen - 1)) out ++ [NUL]).

Fixpoint catvprintf_loop (fuel : nat) (buflen : Z) (out : bytes) : nullable bytes :=
  match fuel with
  | O => Bad
  | S fuel' =>
      let! buf := malloc alloc buflen in
      let! buf := access (poke buf (buflen - 2) NUL) in
      let! buf := access (vsnprintf buf buflen out) in
      let! c := access (byte_at buf (buflen - 2)) in
      if bool_decide (c = NUL) then Ok buf else catvprintf_loop fuel' (buflen * 2) out
  end.

(** The buffer doubles until it holds the output and one byte more. *)
Definition sdscatvprintf (x : sds) (fmt : bytes) (a : vararg) : nullable sds :=
  let out := printf fmt a in
  let! buf := catvprintf_loop (S (length out)) 16 out in
  let! t := access (c_string buf) in
  sdscatlen alloc x t.

(** ** Recognising a conversion *)

(** The loops that skip characters: up to the NUL or one that fails [f]. *)
Fixpoint skip_while (fuel : nat) (f : ascii -> bool) (fmt : bytes) (p : Z) : option Z :=
  c ← byte_at fmt p;
  if bool_decide (c = NUL) || negb (f c) then Some p else
  match fuel with
  | O => None
  | S fuel' => skip_while fuel' f fmt (p + 1)
  end.

Definition intfmts : bytes := s "diouxX".
Definition fltfmts : bytes := s "eEfFgGaA".
Definition fmtflags : bytes := s "#0-+ ".

(** The test of the letter after a size modifier, which must not be NUL. *)
Definition sized (fmt : bytes) (p : Z) (t : argtype) : option (option (argtype * Z)) :=
  c ← byte_at fmt p;
  Some (if negb (bool_decide (c = NUL)) && strchr intfmts c then Some (t, p) else None).

(** From [c + 1]: the type of the argument and the offset of the conversion
    letter, or [fmt_invalid].  [strchr] finds the NUL too. *)
Definition conversion (fmt : bytes) (p : Z) : option (option (argtype * Z)) :=
  let n := length fmt in
  p ← skip_while n (fun c => strchr fmtflags c) fmt p;
  p ← skip_while n isdigit fmt p;
  c ← byte_at fmt p;
  p ← (if bool_decide (c = "."%char) then skip_while n isdigit fmt (p + 1) else Some p);
  c ← byte_at fmt p;
  if strchr intfmts c then Some (Some (TInt, p)) else
  if strchr fltfmts c then Some (Some (TDouble, p)) else
  d ← byte_at fmt (p + 1);
  if bool_decide (c = "h"%char) && bool_decide (d = "h"%char) then sized fmt (p + 2) TInt else
  if bool_decide (c = "h"%char) then sized fmt (p + 1) TInt else
  if bool_decide (c = "l"%char) && bool_decide (d = "l"%char) then sized fmt (p + 2) TLongLong else
  if bool_decide (c = "l"%char) then sized fmt (p + 1) TLong else
  Some None.

(** ** redisvFormatCommand *)

(** The local variables: [c], the arguments left, [curarg], [touched],
    [curargv] and [totlen]. *)
Record vstate := mk_vstate {
  v_c : Z;
  v_ap : list vararg;
  v_curarg : sds;
  v_touched : bool;
  v_argv : list sds;
  v_totlen : Z
}.

(** NULL from an allocation: [goto memory_err]. *)
Definition memory {A} (x : nullable A) : outcome Z A :=
  match x with Ok a => Ok a | Err _ => Err (-1) | Bad => Bad end.

(** The argument is complete: it is put into [curargv]. *)
Definition push_arg (st : vstate) : outcome Z vstate :=
  let! _ := memory (malloc alloc (8 * (zlen (v_argv st) + 1))) in
  Ok (mk_vstate (v_c st) (v_ap st) (v_curarg st) (v_touched st) (v_argv st ++ [v_curarg st])
        (i32 (v_totlen st + bulklen (sds_len (v_curarg st))))).

Definition next_arg (st : vstate) : outcome Z vstate :=
  let! st := push_arg st in
  let! curarg := memory (sdsempty alloc) in
  Ok (mk_vstate (v_c st) (v_ap st) curarg false (v_argv st) (v_totlen st)).

(** [newarg] becomes [curarg]; the outer block increments [c] twice. *)
Definition touched_arg (st : vstate) (c : Z) (ap : list vararg) (newarg : nullable sds)
  : outcome Z vstate :=
  let! curarg := memory newarg in
  Ok (mk_vstate (c + 2) ap curarg true (v_argv st) (v_totlen st)).

(** [if (size > 0) newarg = sdscatlen(curarg,arg,size);] *)
Definition cat_some (x : sds) (t : bytes) : nullable sds :=
  if 0 <? zlen t then sdscatlen alloc x t else Ok x.

(** [case 's'], [case 'b'] and [case '%']. *)
Definition fmt_s (st : vstate) : outcome Z vstate :=
  match v_ap st with
  | VPtr mem :: ap =>
      let! arg := access (c_string mem) in
      touched_arg st (v_c st) ap (cat_some (v_curarg st) arg)
  | _ => Bad
  end.
Definition fmt_b (st : vstate) : outcome Z vstate :=
  match v_ap st with
  | VPtr mem :: VSize size :: ap =>
      if zlen mem <? size then Bad else
      touched_arg st (v_c st) ap (cat_some (v_curarg st) (take (Z.to_nat size) mem))
  | _ => Bad
  end.
Definition fmt_percent (st : vstate) : outcome Z vstate :=
  touched_arg st (v_c st) (v_ap st) (sdscatlen alloc (v_curarg st) (s "%")).

(** The default case: a conversion of printf, copied to the 16 bytes of [_format]
    with a NUL after it. *)
Definition fmt_printf (fmt : bytes) (st : vstate) : outcome Z vstate :=
  let! conv := access (conversion fmt (v_c st + 1)) in
  match conv with
  | None => Err (-2)
  | Some (t, p) =>
      match v_ap st with
      | a :: ap =>
          if negb (va_arg_of t a) then Bad else
          if p + 1 - v_c st <? 16 - 2 then
            let! _format := access (c_string (slice fmt (v_c st) (p + 1) ++ [NUL])) in
            touched_arg st (p - 1) ap (sdscatvprintf (v_curarg st) _format a)
          else touched_arg st (v_c st) ap (Ok (v_curarg st))
      | [] => Bad
      end
  end.

(** The body of the loop. *)
Definition fmt_step (fmt : bytes) (c d : ascii) (st : vstate) : outcome Z vstate :=
  if negb (bool_decide (c = "%"%char)) || bool_decide (d = NUL) then
    let! st :=
      (if bool_decide (c = " "%char) then
         if v_touched st then next_arg st else Ok st
       else
         let! curarg := memory (sdscatlen alloc (v_curarg st) [c]) in
         Ok (mk_vstate (v_c st) (v_ap st) curarg true (v_argv st) (v_totlen st))) in
    Ok (mk_vstate (v_c st + 1) (v_ap st) (v_curarg st) (v_touched st) (v_argv st) (v_totlen st))
  else if bool_decide (d = "s"%char) then fmt_s st
  else if bool_decide (d = "b"%char) then fmt_b st
  else if bool_decide (d = "%"%char) then fmt_percent st
  else fmt_printf fmt st.

(** The loop up to the NUL; [c[1]] is read only behind a percent sign. *)
Fixpoint fmt_loop (fuel : nat) (fmt : bytes) (st : vstate) : outcome Z vstate :=
  let! c := access (byte_at fmt (v_c st)) in
  if bool_decide (c = NUL) then Ok st else
  match fuel with
  | O => Bad
  | S fuel' =>
      let! d := (if bool_decide (c = "%"%char) then access (byte_at fmt (v_c st + 1)) else Ok NUL) in
      let! st := fmt_step fmt c d st in
      fmt_loop fuel' fmt st
  end.

(** The command at the protocol level; the assertion says that it fills its
    block. *)
Definition build_command (argv : list sds) (totlen : Z) : outcome Z (bytes * Z) :=
  let totlen := i32 (totlen + (1 + countDigits (zlen argv) + 2)) in
  let! cmd := memory (malloc alloc (u64 (totlen + 1))) in
  let! r := access (sprintf cmd 0 ("*"%char :: dec_signed (zlen argv) ++ CRLF)) in
  let! r := access (format_args (map sds_buf argv) (Some (map sds_len argv))
                      (seq 0 (length argv)) r.1 r.2) in
  if negb (r.2 =? totlen) then Bad else
  let! b := access (poke r.1 r.2 NUL) in
  Ok (b, totlen).

Definition vformat (fmt : bytes) (ap : list vararg) : outcome Z (bytes * Z) :=
  let! curarg := memory (sdsempty alloc) in
  let! st := fmt_loop (length fmt) fmt (mk_vstate 0 ap curarg false [] 0) in
  let! st := (if v_touched st then push_arg st else Ok st) in
  build_command (v_argv st) (v_totlen st).

(** [fmt] is the memory at [format], up to its NUL. *)
Definition redisvFormatCommand (fmt : bytes) (ap : list vararg) : fmt_result :=
  match vformat fmt ap with
  | Ok (cmd, len) => FmtOk cmd len
  | Err e => FmtError e
  | Bad => FmtOverflow
  end.
End vformat.

(** [redisFormatCommand] only starts and ends the [va_list]. *)
Definition redisFormatCommand := redisvFormatCommand.
