(* ===== verification/VformatSpec.v ===== *)
(** * printf-like commands are requests

    [redisvFormatCommand] against the words of its format: a format is a sequence
    of blanks and pieces (characters, [%s], [%b], [%%] and conversions of printf);
    the command is the request of the words between the blanks, every piece
    replaced by what it stands for. *)

From S2P Require Import Prelude Resp Format Sds SdsSpec Vformat.

(** ** Formats *)

Inductive size_mod := SzNone | SzHH | SzH | SzLL | SzL.

(** A conversion of printf: flags, width, precision, size and letter. *)
Record cspec := mk_cspec {
  cs_flags : bytes;
  cs_width : bytes;
  cs_prec : option bytes;
  cs_size : size_mod;
  cs_letter : ascii
}.

Definition size_text (z : size_mod) : bytes :=
  match z with
  | SzNone => [] | SzHH => s "hh" | SzH => s "h" | SzLL => s "ll" | SzL => s "l"
  end.
Definition prec_text (p : option bytes) : bytes :=
  if p is Some d then "."%char :: d else [].
Definition cs_text (k : cspec) : bytes :=
  cs_flags k ++ cs_width k ++ prec_text (cs_prec k) ++ size_text (cs_size k) ++ [cs_letter k].

Definition cs_type (k : cspec) : argtype :=
  match cs_size k with
  | SzNone => if bool_decide (cs_letter k ∈ intfmts) then TInt else TDouble
  | SzHH | SzH => TInt
  | SzLL => TLongLong
  | SzL => TLong
  end.

Definition cs_ok (k : cspec) : Prop :=
  Forall (fun c => c ∈ fmtflags) (cs_flags k) /\ Forall isdigit (cs_width k) /\
  Forall isdigit (default [] (cs_prec k)) /\
  (cs_letter k ∈ intfmts \/ (cs_size k = SzNone /\ cs_letter k ∈ fltfmts)) /\
  zlen (cs_text k) < 13.

Inductive piece :=
| Lit (c : ascii)
| Str (l : bytes)
| Bin (l : bytes)
| Percent
| Conv (k : cspec) (a : vararg).

Inductive item := Blank | Piece (p : piece).

Definition render (i : item) : bytes :=
  match i with
  | Blank => s " "
  | Piece (Lit c) => [c]
  | Piece (Str _) => s "%s"
  | Piece (Bin _) => s "%b"
  | Piece Percent => s "%%"
  | Piece (Conv k _) => "%"%char :: cs_text k
  end.
Definition arguments (i : item) : list vararg :=
  match i with
  | Piece (Str l) => [VPtr (l ++ [NUL])]
  | Piece (Bin l) => [VPtr l; VSize (zlen l)]
  | Piece (Conv _ a) => [a]
  | _ => []
  end.

Section words.
Context (printf : bytes -> vararg -> bytes).

Definition value (p : piece) : bytes :=
  match p with
  | Lit c => [c]
  | Str l | Bin l => l
  | Percent => s "%"
  | Conv k a => printf ("%"%char :: cs_text k) a
  end.

(** The words of a format; [cur] is the word begun.  A word exists once it has a
    piece, even one that stands for nothing. *)
Fixpoint words (l : list item) (cur : option bytes) : list bytes :=
  match l with
  | [] => option_list cur
  | Blank :: l' => option_list cur ++ words l' None
  | Piece p :: l' => words l' (Some (default [] cur ++ value p))
  end.

Definition item_ok (i : item) : Prop :=
  match i with
  | Blank => True
  | Piece (Lit c) => c <> NUL /\ c <> "%"%char /\ c <> " "%char
  | Piece (Str l) => NUL ∉ l
  | Piece (Conv k a) => cs_ok k /\ va_arg_of (cs_type k) a = true /\ NUL ∉ value (Conv k a)
  | Piece _ => True
  end.
End words.

#[global] Instance size_mod_eq_dec : EqDecision size_mod.
Proof. solve_decision. Defined.
#[global] Instance cs_ok_dec k : Decision (cs_ok k).
Proof. unfold cs_ok. apply _. Defined.
#[global] Instance item_ok_dec printf i : Decision (item_ok printf i).
Proof. destruct i as [|[]]; cbn [item_ok]; apply _. Defined.

(** ** Reading a conversion *)

Lemma byte_at_mid pre c rest i : i = zlen pre -> byte_at (pre ++ c :: rest) i = Some c.
Proof. intros ->. apply byte_at_app. Qed.

Lemma skip_while_run f run : forall fuel pre x rest,
  Forall (fun c => c <> NUL /\ f c = true) run -> x = NUL \/ f x = false ->
  (length run <= fuel)%nat ->
  skip_while fuel f (pre ++ run ++ x :: rest) (zlen pre) = Some (zlen (pre ++ run)).
Proof.
  induction run as [|c run IH]; intros fuel pre x rest Hr Hx Hf.
  - cbn [app]. destruct fuel; cbn [skip_while]; rewrite byte_at_app; cbn [mbind option_bind];
      rewrite app_nil_r; destruct Hx as [->| ->]; cbn; rewrite ?orb_true_r; done.
  - inversion Hr as [|? ? [Hn Hc] Hr']; simplify_eq. destruct fuel as [|fuel]; [cbn in Hf; lia|].
    cbn [skip_while app]. rewrite byte_at_app. cbn [mbind option_bind].
    rewrite bool_decide_eq_false_2, Hc by done. cbn [orb negb].
    specialize (IH fuel (pre ++ [c]) x rest Hr' Hx ltac:(cbn in Hf; lia)).
    rewrite zlen_app, zlen_singleton, <- !app_assoc in IH. exact IH.
Qed.

Lemma strchr_spec l c : strchr l c = true <-> c ∈ l \/ c = NUL.
Proof. unfold strchr. rewrite orb_true_iff, !bool_decide_eq_true. done. Qed.
Lemma strchr_true l c : c ∈ l -> strchr l c = true.
Proof. intros ?. apply strchr_spec. by left. Qed.
Lemma strchr_false l c : c ∉ l -> c <> NUL -> strchr l c = false.
Proof. intros ? ?. apply not_true_is_false. rewrite strchr_spec. tauto. Qed.

Lemma digit_range c : isdigit c = true -> 48 <= code c <= 57.
Proof. unfold isdigit. lia. Qed.

(** Leading zeros of a width are read as flags. *)
Lemma split_zeros w : exists z w', w = z ++ w' /\ Forall (fun c => c = "0"%char) z /\
  (w' = [] \/ exists c w2, w' = c :: w2 /\ c <> "0"%char).
Proof.
  induction w as [|c w (z & w' & -> & Hz & Hw)].
  - exists [], []. auto.
  - destruct (decide (c = "0"%char)) as [->|Hc].
    + exists ("0"%char :: z), w'. split; [done|]. split; [by constructor|done].
    + exists [], (c :: z ++ w'). split; [done|]. split; [done|]. right. eauto.
Qed.

(** The character behind flags, width and precision. *)
Definition after_number (x : ascii) : Prop := x <> NUL /\ (x ∉ fmtflags) /\ isdigit x = false.

Lemma flag_true c : c ∈ fmtflags -> c <> NUL /\ strchr fmtflags c = true.
Proof.
  intros Hc. split; [|apply strchr_spec; by left].
  intros ->. revert Hc. apply (bool_decide_unpack (NUL ∉ fmtflags)). by vm_compute.
Qed.

Lemma digit_true c : isdigit c = true -> c <> NUL /\ isdigit c = true.
Proof. intros Hc. split; [|done]. intros ->. done. Qed.

Lemma digit_not_flag c : isdigit c = true -> c <> "0"%char -> strchr fmtflags c = false.
Proof.
  intros Hd H0. apply strchr_false; [|by apply digit_true].
  unfold fmtflags. cbn [s String.list_ascii_of_string]. rewrite !not_elem_of_cons.
  split_and!; try (intros ->; done). by intros Hn%elem_of_nil.
Qed.

Lemma skip_prefix pre fl w x rest (fuel : nat) :
  Forall (fun c => c ∈ fmtflags) fl -> Forall isdigit w -> after_number x ->
  (length (fl ++ w) <= fuel)%nat ->
  skip_while fuel (fun c => strchr fmtflags c) (pre ++ fl ++ w ++ x :: rest) (zlen pre)
    ≫= skip_while fuel isdigit (pre ++ fl ++ w ++ x :: rest)
  = Some (zlen (pre ++ fl ++ w)).
Proof.
  intros Hfl Hw (Hx0 & Hxf & Hxd) Hfuel.
  destruct (split_zeros w) as (z & w' & -> & Hz & Hw').
  apply Forall_app in Hw as [_ Hw]. rewrite !length_app in Hfuel.
  assert (exists y more, w' ++ x :: rest = y :: more /\ strchr fmtflags y = false) as (y & more & Hy & Hyf).
  { destruct Hw' as [->|(c & w2 & -> & Hc)].
    - exists x, rest. split; [done|]. by apply strchr_false.
    - exists c, (w2 ++ x :: rest). split; [done|]. inversion Hw as [|? ? Hd _]; simplify_eq.
      apply digit_not_flag; [by apply Is_true_true|done]. }
  replace (pre ++ fl ++ (z ++ w') ++ x :: rest) with (pre ++ (fl ++ z) ++ y :: more)
    by (rewrite <- Hy, <- !app_assoc; done).
  rewrite (skip_while_run _ (fl ++ z) fuel pre y more); cbn [mbind option_bind].
  - rewrite <- Hy.
    replace (pre ++ (fl ++ z) ++ w' ++ x :: rest) with ((pre ++ fl ++ z) ++ w' ++ x :: rest)
      by (rewrite <- !app_assoc; done).
    rewrite (skip_while_run _ w' fuel (pre ++ fl ++ z) x rest).
    + by rewrite <- !app_assoc.
    + eapply Forall_impl; [exact Hw|]. intros c Hc. apply digit_true. by apply Is_true_true.
    + by right.
    + lia.
  - apply Forall_app. split; [eapply Forall_impl; [exact Hfl|]; intros c Hc; by apply flag_true|].
    eapply Forall_impl; [exact Hz|]. intros c ->. done.
  - by right.
  - rewrite length_app. lia.
Qed.

Definition after_number_b (x : ascii) : bool :=
  negb (bool_decide (x = NUL)) && negb (bool_decide (x ∈ fmtflags)) && negb (isdigit x).
Lemma after_number_ok x : after_number_b x = true -> after_number x.
Proof.
  unfold after_number_b, after_number. rewrite !andb_true_iff, !negb_true_iff, !bool_decide_eq_false.
  tauto.
Qed.

Lemma letter_after c : c ∈ intfmts \/ c ∈ fltfmts -> after_number c /\ c <> "."%char.
Proof.
  intros Hc. assert (c ∈ intfmts ++ fltfmts) as H by (apply elem_of_app; tauto). clear Hc. revert c H.
  apply Forall_forall. unfold intfmts, fltfmts. cbn [s String.list_ascii_of_string app].
  repeat (apply Forall_cons; split; [split; [apply after_number_ok; by vm_compute|done]|]). done.
Qed.

(** The test of the letter and of the size before it. *)
Definition sized_letter (fmt : bytes) (p : Z) : option (option (argtype * Z)) :=
  c ← byte_at fmt p;
  if strchr intfmts c then Some (Some (TInt, p)) else
  if strchr fltfmts c then Some (Some (TDouble, p)) else
  d ← byte_at fmt (p + 1);
  if bool_decide (c = "h"%char) && bool_decide (d = "h"%char) then sized fmt (p + 2) TInt else
  if bool_decide (c = "h"%char) then sized fmt (p + 1) TInt else
  if bool_decide (c = "l"%char) && bool_decide (d = "l"%char) then sized fmt (p + 2) TLongLong else
  if bool_decide (c = "l"%char) then sized fmt (p + 1) TLong else
  Some None.

Lemma sized_spec pre c rest t : c ∈ intfmts -> c <> NUL ->
  sized (pre ++ c :: rest) (zlen pre) t = Some (Some (t, zlen pre)).
Proof.
  intros Hc Hn. unfold sized. rewrite byte_at_app. cbn [mbind option_bind].
  rewrite bool_decide_eq_false_2 by done. by rewrite strchr_true.
Qed.

Lemma byte_at_next pre x y rest : byte_at (pre ++ x :: y :: rest) (zlen pre + 1) = Some y.
Proof.
  change (x :: y :: rest) with ([x] ++ y :: rest). rewrite app_assoc. apply byte_at_mid. zlen_lia.
Qed.

Lemma sized_letter_spec k pre rest :
  cs_letter k ∈ intfmts \/ (cs_size k = SzNone /\ cs_letter k ∈ fltfmts) ->
  sized_letter (pre ++ size_text (cs_size k) ++ cs_letter k :: rest) (zlen pre) =
  Some (Some (cs_type k, zlen (pre ++ size_text (cs_size k)))).
Proof.
  intros Hl. set (c := cs_letter k) in *.
  assert (after_number c /\ c <> "."%char) as [(Hn & _) _] by (apply letter_after; tauto).
  assert (c ∈ intfmts -> c <> "h"%char /\ c <> "l"%char) as Hhl.
  { intros Hc. split; intros ->; revert Hc; apply (bool_decide_unpack (_ ∉ intfmts)); by vm_compute. }
  unfold sized_letter, cs_type. fold c. destruct (cs_size k); cbn [size_text].
  - cbn [app]. rewrite app_nil_r, byte_at_app. cbn [mbind option_bind]. destruct (decide (c ∈ intfmts)) as [Hi|Hi].
    + rewrite (bool_decide_eq_true_2 _ Hi). by rewrite strchr_true.
    + rewrite (bool_decide_eq_false_2 _ Hi). destruct Hl as [Hl|[_ Hf]]; [by destruct Hi|].
      rewrite strchr_false by done. by rewrite strchr_true.
  - destruct Hl as [Hi|[? _]]; [|done]. cbn [s String.list_ascii_of_string app].
    rewrite byte_at_app. cbn [mbind option_bind]. rewrite byte_at_next. cbn [mbind option_bind].
    cbn.
    change ("h"%char :: "h"%char :: c :: rest) with (s "hh" ++ c :: rest). rewrite app_assoc.
    replace (zlen pre + 2) with (zlen (pre ++ s "hh")) by (by rewrite zlen_app). by apply sized_spec.
  - destruct Hl as [Hi|[? _]]; [|done]. destruct (Hhl Hi). cbn [s String.list_ascii_of_string app].
    rewrite byte_at_app. cbn [mbind option_bind]. rewrite byte_at_next. cbn [mbind option_bind].
    rewrite (bool_decide_eq_false_2 (c = _)) by done. cbn.
    change ("h"%char :: c :: rest) with (s "h" ++ c :: rest). rewrite app_assoc.
    replace (zlen pre + 1) with (zlen (pre ++ s "h")) by (by rewrite zlen_app). by apply sized_spec.
  - destruct Hl as [Hi|[? _]]; [|done]. cbn [s String.list_ascii_of_string app].
    rewrite byte_at_app. cbn [mbind option_bind]. rewrite byte_at_next. cbn [mbind option_bind].
    cbn.
    change ("l"%char :: "l"%char :: c :: rest) with (s "ll" ++ c :: rest). rewrite app_assoc.
    replace (zlen pre + 2) with (zlen (pre ++ s "ll")) by (by rewrite zlen_app). by apply sized_spec.
  - destruct Hl as [Hi|[? _]]; [|done]. destruct (Hhl Hi). cbn [s String.list_ascii_of_string app].
    rewrite byte_at_app. cbn [mbind option_bind]. rewrite byte_at_next. cbn [mbind option_bind].
    rewrite (bool_decide_eq_false_2 (c = "l"%char)) by done. cbn.
    change ("l"%char :: c :: rest) with (s "l" ++ c :: rest). rewrite app_assoc.
    replace (zlen pre + 1) with (zlen (pre ++ s "l")) by (by rewrite zlen_app). by apply sized_spec.
Qed.

Lemma conversion_spec k pre rest :
  cs_ok k ->
  conversion (pre ++ cs_text k ++ rest) (zlen pre) =
  Some (Some (cs_type k, zlen (pre ++ cs_text k) - 1)).
Proof.
  intros (Hfl & Hw & Hp & Hl & _). set (fmt := pre ++ cs_text k ++ rest).
  set (num := pre ++ cs_flags k ++ cs_width k).
  set (tail := size_text (cs_size k) ++ cs_letter k :: rest).
  assert (fmt = num ++ prec_text (cs_prec k) ++ tail) as Hf.
  { unfold fmt, num, tail, cs_text. by rewrite <- !app_assoc. }
  assert (exists x more, tail = x :: more /\ after_number x /\ x <> "."%char) as (x & more & Ht & Hx & Hd).
  { unfold tail. destruct (letter_after (cs_letter k)) as [? ?]; [tauto|].
    destruct (cs_size k); cbn [size_text s String.list_ascii_of_string app]; eexists _, _;
      (split; [reflexivity|]); split; try done; by apply after_number_ok. }
  assert (exists y mid, prec_text (cs_prec k) ++ tail = y :: mid /\ after_number y) as (y & mid & Hy & Hya).
  { destruct (cs_prec k); cbn [prec_text app]; [|by exists x, more].
    eexists _, _. split; [reflexivity|]. by apply after_number_ok. }
  assert (conversion fmt (zlen pre) =
    (skip_while (length fmt) (fun c => strchr fmtflags c) fmt (zlen pre)
       ≫= skip_while (length fmt) isdigit fmt) ≫= fun p =>
    c ← byte_at fmt p;
    (if bool_decide (c = "."%char) then skip_while (length fmt) isdigit fmt (p + 1) else Some p)
      ≫= sized_letter fmt) as ->.
  { unfold conversion. by destruct (skip_while _ _ _ _). }
  assert (fmt = pre ++ cs_flags k ++ cs_width k ++ y :: mid) as Hf1.
  { rewrite Hf, Hy. unfold num. by rewrite <- !app_assoc. }
  rewrite Hf1 at 2 4. rewrite skip_prefix; [|done|done|done|].
  2:{ rewrite Hf1, !length_app. lia. }
  cbn [mbind option_bind]. fold num.
  assert (zlen (pre ++ cs_text k) - 1 = zlen (num ++ prec_text (cs_prec k) ++ size_text (cs_size k))) as ->.
  { unfold num, cs_text. rewrite !zlen_app, zlen_singleton. lia. }
  assert (byte_at fmt (zlen num) = Some y) as ->.
  { rewrite Hf, Hy. apply byte_at_app. }
  cbn [mbind option_bind].
  assert ((if bool_decide (y = "."%char) then skip_while (length fmt) isdigit fmt (zlen num + 1)
           else Some (zlen num)) = Some (zlen (num ++ prec_text (cs_prec k)))) as ->.
  { destruct (cs_prec k) as [d|]; cbn [prec_text app default] in *.
    - injection Hy as <- <-. cbn. rewrite Hf, Ht.
      replace (num ++ "."%char :: d ++ x :: more) with ((num ++ s ".") ++ d ++ x :: more)
        by (by rewrite <- app_assoc).
      replace (zlen num + 1) with (zlen (num ++ s ".")) by (by rewrite zlen_app).
      rewrite skip_while_run.
      + by rewrite <- app_assoc.
      + eapply Forall_impl; [exact Hp|]. intros c Hc. apply digit_true. by apply Is_true_true.
      + right. by destruct Hx as (_ & _ & ?).
      + rewrite !length_app. lia.
    - rewrite Hy in Ht. injection Ht as -> _. rewrite bool_decide_eq_false_2 by done.
      by rewrite app_nil_r. }
  cbn [mbind option_bind]. rewrite Hf, app_assoc. unfold tail.
  rewrite sized_letter_spec by done. by rewrite <- !app_assoc.
Qed.

(** ** sdscatvprintf *)

Lemma vsnprintf_short b buflen out :
  zlen b = buflen -> zlen out < buflen ->
  exists rest, vsnprintf b buflen out = Some (out ++ NUL :: rest) /\
    rest = drop (Z.to_nat (zlen out + 1)) b.
Proof.
  intros Hb Ho. pose proof (zlen_nonneg out). unfold vsnprintf.
  rewrite take_ge by (unfold zlen in *; lia).
  destruct (split_block b (zlen out + 1)) as (x & y & -> & Hx); [lia|].
  exists y. pose proof (blit_app [] x (out ++ [NUL]) y) as Hbl. cbn [app] in Hbl.
  rewrite zlen_nil in Hbl. rewrite Hbl by zlen_lia. split; [by rewrite <- app_assoc|].
  rewrite drop_app_length'; [done|unfold zlen in *; lia].
Qed.

Lemma vsnprintf_long b buflen out :
  1 <= buflen -> zlen b = buflen -> buflen - 1 <= zlen out ->
  vsnprintf b buflen out = Some (take (Z.to_nat (buflen - 1)) out ++ [NUL]).
Proof.
  intros H1 Hb Ho. unfold vsnprintf. set (t := take _ out).
  assert (zlen t = buflen - 1) as Ht by (unfold t, zlen in *; rewrite length_take; lia).
  pose proof (blit_app [] b (t ++ [NUL]) []) as Hbl. rewrite !app_nil_r, zlen_nil in Hbl. apply Hbl.
  zlen_lia.
Qed.

Section vformat_spec.
Context (alloc : Z -> option bytes) (printf : bytes -> vararg -> bytes).
Hypothesis Halloc : forall n b, 0 <= n -> alloc n = Some b -> zlen b = n.

Lemma poke_zlen b i c b' : poke b i c = Some b' -> zlen b' = zlen b /\ b' !! Z.to_nat i = Some c.
Proof.
  unfold poke. intros Hp. case_match eqn:E; [|done]. simplify_eq. unfold zlen in *.
  rewrite length_insert. split; [done|]. apply list_lookup_insert_eq. lia.
Qed.

Lemma byte_at_lookup b i : 0 <= i < zlen b -> byte_at b i = b !! Z.to_nat i.
Proof. intros Hi. unfold byte_at. by replace ((0 <=? i) && (i <? zlen b)) with true by lia. Qed.

(** The buffer ends up with the whole output, NUL terminated. *)
Lemma catvprintf_loop_spec fuel out : forall buflen,
  NUL ∉ out -> 16 <= buflen -> zlen out + 2 - buflen < Z.of_nat fuel -> (0 < fuel)%nat ->
  match catvprintf_loop alloc fuel buflen out with
  | Ok b => c_string b = Some out
  | Err _ => exists n, alloc n = None
  | Bad => False
  end.
Proof.
  induction fuel as [|fuel IH]; intros buflen Hn Hb Hf H0; [lia|]. cbn [catvprintf_loop].
  unfold malloc. destruct (alloc buflen) as [b|] eqn:E; [|cbn; eauto].
  apply Halloc in E; [|lia]. cbn [outcome_bind].
  destruct (poke b (buflen - 2) NUL) as [b1|] eqn:Hp.
  2:{ unfold poke in Hp. case_match eqn:E1; [done|]. lia. }
  apply poke_zlen in Hp as [Hz Hl]. cbn [access outcome_bind].
  assert (Forall (fun c => c <> NUL) out) as Hnul.
  { apply Forall_forall. intros c Hc ->. done. }
  destruct (Z.le_gt_cases (zlen out) (buflen - 2)) as [Hs|Hs].
  - destruct (vsnprintf_short b1 buflen out) as (rest & -> & Hr); [lia|lia|].
    cbn [access outcome_bind].
    assert (byte_at (out ++ NUL :: rest) (buflen - 2) = Some NUL) as ->.
    { rewrite byte_at_lookup.
      2:{ rewrite Hr, zlen_app, zlen_cons. unfold zlen in *. rewrite length_drop. lia. }
      destruct (decide (buflen - 2 = zlen out)) as [->|Hne].
      - unfold zlen. rewrite Nat2Z.id. by apply list_lookup_middle.
      - change (NUL :: rest) with ([NUL] ++ rest).
        rewrite app_assoc, lookup_app_r by (rewrite length_app; cbn; unfold zlen in *; lia).
        rewrite Hr, lookup_drop, <- Hl. f_equal. rewrite length_app. cbn. unfold zlen in *. lia. }
    cbn [outcome_bind access]. rewrite bool_decide_eq_true_2 by done. by apply c_string_app.
  - rewrite (vsnprintf_long b1 buflen out) by lia. cbn [access outcome_bind].
    destruct (out !! Z.to_nat (buflen - 2)) as [c|] eqn:Ec.
    2:{ apply lookup_ge_None in Ec. unfold zlen in *. lia. }
    assert (byte_at (take (Z.to_nat (buflen - 1)) out ++ [NUL]) (buflen - 2) = Some c) as ->.
    { assert (length (take (Z.to_nat (buflen - 1)) out) = Z.to_nat (buflen - 1)) as Hlt.
      { rewrite length_take. unfold zlen in *. lia. }
      rewrite byte_at_lookup by (rewrite zlen_app; unfold zlen; rewrite Hlt; cbn; lia).
      rewrite lookup_app_l by lia. rewrite lookup_take. case_decide; [done|lia]. }
    cbn [outcome_bind access]. rewrite bool_decide_eq_false_2.
    2:{ rewrite Forall_forall in Hnul. apply Hnul. by apply (list_elem_of_lookup_2 _ _ _ Ec). }
    apply IH; [done|lia|lia|lia].
Qed.

Lemma sdscatvprintf_spec x fmt a :
  sds_wf x -> NUL ∉ printf fmt a -> sds_len x + zlen (printf fmt a) < 2 ^ 30 - 1 ->
  implements alloc (sdscatvprintf alloc printf x fmt a) (sds_value x ++ printf fmt a).
Proof.
  intros Hw Hn Hl. unfold sdscatvprintf.
  pose proof (catvprintf_loop_spec (S (length (printf fmt a))) (printf fmt a) 16 Hn) as Hc.
  destruct (catvprintf_loop _ _ _ _) as [b|e|]; cbn [outcome_bind].
  - rewrite Hc; [|lia|unfold zlen; lia|lia]. cbn [access outcome_bind]. by apply sdscatlen_spec.
  - apply Hc; [lia|unfold zlen; lia|lia].
  - apply Hc; [lia|unfold zlen; lia|lia].
Qed.

(** ** The loop *)

(** A result, or memory is exhausted. *)
Definition delivers {A} (o : outcome Z A) (P : A -> Prop) : Prop :=
  match o with
  | Ok a => P a
  | Err e => e = -1 /\ exists n, alloc n = None
  | Bad => False
  end.

Lemma delivers_bind {A B} (o : outcome Z A) (f : A -> outcome Z B) (P : A -> Prop) Q :
  delivers o P -> (forall a, P a -> delivers (f a) Q) -> delivers (outcome_bind o f) Q.
Proof. destruct o; cbn; auto. Qed.

Lemma delivers_mono {A} (o : outcome Z A) (P Q : A -> Prop) :
  delivers o P -> (forall a, P a -> Q a) -> delivers o Q.
Proof. destruct o; cbn; auto. Qed.

Lemma delivers_memory x v :
  implements alloc x v -> delivers (memory x) (fun y => sds_wf y /\ sds_value y = v).
Proof. destruct x; cbn; auto. Qed.

Lemma delivers_malloc n : 0 <= n -> delivers (memory (malloc alloc n)) (fun b => zlen b = n).
Proof.
  intros Hn. unfold malloc. destruct (alloc n) as [b|] eqn:E; cbn; [by apply Halloc|].
  split; [done|by exists n].
Qed.

(** The variables after the words [dn] are complete and [cur] is begun. *)
Record vinv (st : vstate) (dn : list bytes) (cur : option bytes) : Prop := {
  vi_wf : sds_wf (v_curarg st);
  vi_cur : sds_value (v_curarg st) = default [] cur;
  vi_touched : v_touched st = bool_decide (is_Some cur);
  vi_argv : map sds_value (v_argv st) = dn;
  vi_argv_wf : Forall sds_wf (v_argv st);
  vi_totlen : v_totlen st = zlen (bulks dn)
}.

Lemma words_ge l : forall cur, zlen (default [] cur) <= zlen (bulks (words printf l cur)).
Proof.
  induction l as [|[|p] l IH]; intros cur; cbn [words].
  - destruct cur; [|done]. apply zlen_bulks_in. by left.
  - rewrite bulks_app, zlen_app. pose proof (zlen_nonneg (bulks (words printf l None))).
    assert (zlen (default [] cur) <= zlen (bulks (option_list cur))); [|lia].
    destruct cur; [|done]. apply zlen_bulks_in. by left.
  - set (w := default [] cur ++ value printf p) in *. specialize (IH (Some w)).
    change (default [] (Some w)) with w in IH.
    assert (zlen w = zlen (default [] cur) + zlen (value printf p)) by apply zlen_app.
    pose proof (zlen_nonneg (value printf p)). lia.
Qed.

Lemma words_app l k cur dn :
  zlen (bulks (dn ++ words printf l cur)) < k -> zlen (default [] cur) < k /\ zlen (bulks dn) < k.
Proof.
  rewrite bulks_app, zlen_app. intros Hk. pose proof (words_ge l cur).
  pose proof (zlen_nonneg (bulks dn)). pose proof (zlen_nonneg (bulks (words printf l cur))). lia.
Qed.

(** The number of bytes of a request is below this bound. *)
Definition room : Z := 2 ^ 30 - 1.

Lemma push_arg_spec st dn v :
  vinv st dn (Some v) -> zlen (bulks (dn ++ [v])) < room ->
  delivers (push_arg alloc st) (fun st' =>
    v_c st' = v_c st /\ v_ap st' = v_ap st /\ Forall sds_wf (v_argv st') /\
    map sds_value (v_argv st') = dn ++ [v] /\ v_totlen st' = zlen (bulks (dn ++ [v]))).
Proof.
  intros [Hw Hc _ Hm Hf Ht] Hr. unfold push_arg.
  eapply delivers_bind; [apply delivers_malloc; pose proof (zlen_nonneg (v_argv st)); lia|].
  intros _ _. cbn. split_and!; try done.
  - by apply Forall_snoc.
  - by rewrite map_app, Hm; cbn; rewrite Hc.
  - rewrite bulks_app, zlen_app in *. change (bulks [v]) with (bulk v ++ []) in *.
    rewrite app_nil_r in *. unfold room in Hr. pose proof (zlen_nonneg (bulks dn)).
    assert (sds_len (v_curarg st) = zlen v) as -> by (rewrite <- sds_value_zlen, Hc; done).
    pose proof (zlen_bulk v). pose proof (zlen_nonneg (dec (zlen v))). pose proof (zlen_nonneg v).
    rewrite bulklen_bulk, i32_small, Ht by lia. done.
Qed.

Lemma touched_arg_spec st dn cur c ap newarg v :
  vinv st dn cur -> implements alloc newarg v ->
  delivers (touched_arg st c ap newarg) (fun st' =>
    v_c st' = c + 2 /\ v_ap st' = ap /\ vinv st' dn (Some v)).
Proof.
  intros [Hw Hc _ Hm Hf Ht] Hn. unfold touched_arg.
  eapply delivers_bind; [by apply delivers_memory|]. intros y [Hy Hv]. cbn.
  split_and!; [done|done|]. by constructor; cbn.
Qed.

Lemma cat_some_spec x t :
  sds_wf x -> zlen (sds_value x ++ t) < room ->
  implements alloc (cat_some alloc x t) (sds_value x ++ t).
Proof.
  intros Hw Hl. unfold cat_some, room in *. destruct (Z.ltb_spec 0 (zlen t)).
  - apply sdscatlen_spec; [done|done|]. rewrite zlen_app, sds_value_zlen in Hl by done. lia.
  - assert (t = []) as -> by (destruct t; [done|zlen_lia]). by rewrite app_nil_r.
Qed.

(** ** The characters behind a percent sign *)

Definition special : bytes := [NUL; "s"%char; "b"%char; "%"%char].

Lemma cs_text_chars k : cs_ok k -> Forall (fun c => c ∉ special) (cs_text k).
Proof.
  intros (Hf & Hw & Hp & Hl & _).
  assert (forall l, Forall isdigit l -> Forall (fun c => c ∉ special) l) as Hdig.
  { intros l Hd. eapply Forall_impl; [exact Hd|]. intros c Hc Hs.
    assert (isdigit c = true) as Hc' by (by apply Is_true_true). clear Hc. revert Hc'.
    revert c Hs. apply (proj1 (Forall_forall (fun c => isdigit c = true -> False) special)).
    repeat constructor; done. }
  assert (Forall (fun c => c ∉ special) (fmtflags ++ s ".hl" ++ intfmts ++ fltfmts)) as Hall.
  { apply (bool_decide_unpack _). by vm_compute. }
  rewrite !Forall_app in Hall. destruct Hall as (H1 & H2 & H3 & H4).
  unfold cs_text. rewrite !Forall_app. split_and!.
  - eapply Forall_impl; [exact Hf|]. intros c Hc. rewrite Forall_forall in H1. by apply H1.
  - by apply Hdig.
  - destruct (cs_prec k); cbn [prec_text]; [|done]. constructor; [|by apply Hdig].
    rewrite Forall_forall in H2. apply H2. left.
  - destruct (cs_size k); apply (bool_decide_unpack _); by vm_compute.
  - constructor; [|done]. rewrite Forall_forall in H3, H4. destruct Hl as [Hl|[_ Hl]]; auto.
Qed.

(** ** One item *)

(** What an item adds to the words. *)
Definition advance (i : item) (dn : list bytes) (cur : option bytes)
  : list bytes * option bytes :=
  match i with
  | Blank => (dn ++ option_list cur, None)
  | Piece p => (dn, Some (default [] cur ++ value printf p))
  end.

Lemma advance_words i l dn cur :
  (advance i dn cur).1 ++ words printf l (advance i dn cur).2 = dn ++ words printf (i :: l) cur.
Proof. destruct i; cbn [advance fst snd words]; [by rewrite <- app_assoc|done]. Qed.

(** The second character of the loop: [c[1]], read behind a percent sign. *)
Definition second (i : item) (d : ascii) : Prop :=
  match i with
  | Blank | Piece (Lit _) => True
  | Piece (Str _) => d = "s"%char
  | Piece (Bin _) => d = "b"%char
  | Piece Percent => d = "%"%char
  | Piece (Conv k _) => d ∉ special
  end.

Lemma fmt_printf_spec pre k a rest st dn cur ap :
  cs_ok k -> va_arg_of (cs_type k) a = true -> NUL ∉ value printf (Conv k a) ->
  v_c st = zlen pre -> v_ap st = a :: ap -> vinv st dn cur ->
  zlen (default [] cur ++ value printf (Conv k a)) < room ->
  delivers (fmt_printf alloc printf (pre ++ ("%"%char :: cs_text k) ++ rest) st) (fun st' =>
    v_c st' = zlen (pre ++ ("%"%char :: cs_text k)) /\ v_ap st' = ap /\
    vinv st' dn (Some (default [] cur ++ value printf (Conv k a)))).
Proof.
  intros Hk Ha Hn Hc Hap Hv Hr. unfold fmt_printf. rewrite Hc.
  replace (pre ++ ("%"%char :: cs_text k) ++ rest) with ((pre ++ s "%") ++ cs_text k ++ rest)
    by (by rewrite <- app_assoc).
  replace (zlen pre + 1) with (zlen (pre ++ s "%")) by (by rewrite zlen_app).
  rewrite conversion_spec by done. cbn [access outcome_bind]. rewrite Hap, Ha. cbn [negb].
  pose proof (cs_text_chars k Hk) as Hchars. destruct Hk as (_ & _ & _ & _ & Hlen).
  assert (zlen ((pre ++ s "%") ++ cs_text k) = zlen pre + 1 + zlen (cs_text k)) as Hz.
  { rewrite !zlen_app. done. }
  rewrite Hz. destruct (Z.ltb_spec (zlen pre + 1 + zlen (cs_text k) - 1 + 1 - zlen pre) (16 - 2)); [|lia].
  assert (slice ((pre ++ s "%") ++ cs_text k ++ rest) (zlen pre)
            (zlen pre + 1 + zlen (cs_text k) - 1 + 1) = "%"%char :: cs_text k) as ->.
  { unfold slice. rewrite <- app_assoc, drop_app_length' by (unfold zlen; lia).
    cbn [s String.list_ascii_of_string app]. rewrite app_comm_cons.
    rewrite take_app_length'; [done|]. cbn [length]. unfold zlen. lia. }
  rewrite c_string_app.
  2:{ constructor; [done|]. eapply Forall_impl; [exact Hchars|]. intros c Hs ->. apply Hs. left. }
  cbn [access outcome_bind]. pose proof Hv as [Hw Hcur _ _ _ _]. rewrite <- Hcur in Hr |- *.
  eapply delivers_mono; [apply (touched_arg_spec st dn cur); [done|]|].
  - apply sdscatvprintf_spec; [done|done|]. unfold room in Hr.
    rewrite zlen_app, sds_value_zlen in Hr by done. exact Hr.
  - cbn beta. intros st' (Hc' & Hap' & Hv'). split_and!; [|done|done].
    change (pre ++ "%"%char :: cs_text k) with (pre ++ s "%" ++ cs_text k).
    rewrite app_assoc, Hz, Hc'. lia.
Qed.

(** A blank ends an argument, another character goes into it. *)
Lemma blank_step pre rest st dn cur ap d :
  v_c st = zlen pre -> v_ap st = ap -> vinv st dn cur -> zlen (bulks (dn ++ option_list cur)) < room ->
  delivers (fmt_step alloc printf (pre ++ s " " ++ rest) " "%char d st) (fun st' =>
    v_c st' = zlen (pre ++ s " ") /\ v_ap st' = ap /\ vinv st' (dn ++ option_list cur) None).
Proof.
  intros Hc Hap Hv Hdn. pose proof Hv as [Hw Hval Ht Hm Hf Htot]. unfold fmt_step.
  rewrite (bool_decide_eq_false_2 (" "%char = "%"%char)) by done.
  cbn [negb orb]. rewrite (bool_decide_eq_true_2 (" "%char = " "%char)) by done.
  rewrite Ht. destruct cur as [v|]; cbn [option_list] in *.
  - rewrite bool_decide_eq_true_2 by eauto. unfold next_arg.
    eapply delivers_bind; [eapply delivers_bind; [by apply push_arg_spec|]|].
    { intros st1 (H1 & H2 & H3 & H4 & H5). cbn beta.
      eapply delivers_bind; [apply delivers_memory, (sdsempty_spec alloc Halloc)|].
      intros y [Hy Hyv]. cbn.
      instantiate (1 := fun st' => v_c st' = v_c st /\ v_ap st' = ap /\ vinv st' (dn ++ [v]) None).
      cbn. rewrite H1, H2. split_and!; [done|done|]. by constructor; cbn. }
    intros st1 (H1 & H2 & Hv1). cbn. split_and!; [|done|].
    + rewrite H1, Hc, zlen_app. done.
    + destruct Hv1. by constructor.
  - rewrite bool_decide_eq_false_2 by (intros [? ?]; done). cbn [outcome_bind delivers].
    split_and!; cbn; [by rewrite Hc, zlen_app|done|]. rewrite app_nil_r. by constructor.
Qed.
Lemma char_step ch pre rest st dn cur ap d :
  ch <> "%"%char -> ch <> " "%char -> v_c st = zlen pre -> v_ap st = ap -> vinv st dn cur ->
  zlen (default [] cur ++ [ch]) < room ->
  delivers (fmt_step alloc printf (pre ++ [ch] ++ rest) ch d st) (fun st' =>
    v_c st' = zlen (pre ++ [ch]) /\ v_ap st' = ap /\ vinv st' dn (Some (default [] cur ++ [ch]))).
Proof.
  intros Hp Hs Hc Hap Hv Hcur. pose proof Hv as [Hw Hval Ht Hm Hf Htot]. unfold fmt_step.
  rewrite (bool_decide_eq_false_2 (ch = _)) by done. cbn [negb orb].
  rewrite (bool_decide_eq_false_2 (ch = _)) by done.
  eapply delivers_bind; [eapply delivers_bind; [apply delivers_memory, sdscatlen_spec; [done|done|]|]|].
  { rewrite <- Hval in Hcur. cbn [default value] in Hcur. unfold room in Hcur.
    change (zlen (sds_value (v_curarg st) ++ [ch]) < 2 ^ 30 - 1) in Hcur.
    rewrite zlen_app, sds_value_zlen in Hcur by done. exact Hcur. }
  { intros y [Hy Hyv]. cbn beta.
    instantiate (1 := fun st' => v_c st' = v_c st /\ v_ap st' = ap /\
      vinv st' dn (Some (default [] cur ++ [ch]))). cbn.
    split_and!; [done|done|]. constructor; cbn; [done|by rewrite Hyv, Hval|done..]. }
  intros st1 (H1 & H2 & Hv1). cbn. split_and!; [by rewrite H1, Hc, zlen_app|done|].
  destruct Hv1. by constructor.
Qed.

Lemma fmt_step_spec i l pre rest st dn cur ap c tl d :
  item_ok printf i -> render i = c :: tl -> (c = "%"%char -> second i d) ->
  v_c st = zlen pre -> v_ap st = arguments i ++ ap -> vinv st dn cur ->
  zlen (bulks (dn ++ words printf (i :: l) cur)) < room ->
  delivers (fmt_step alloc printf (pre ++ render i ++ rest) c d st) (fun st' =>
    v_c st' = zlen (pre ++ render i) /\ v_ap st' = ap /\
    vinv st' (advance i dn cur).1 (advance i dn cur).2).
Proof.
  intros Hok Hr Hd Hc Hap Hv Hroom. rewrite <- (advance_words i l) in Hroom.
  pose proof (words_app l room _ _ Hroom) as [Hcur Hdn]. pose proof Hv as [Hw Hval Ht Hm Hf Htot].
  destruct i as [|[ch|x|x| |k a]]; cbn [advance fst snd] in *.
  - cbn in Hr, Hap. injection Hr as <- <-. by apply blank_step.
  - cbn in Hr, Hap, Hok. injection Hr as <- <-. destruct Hok as (Hn & Hp & Hs). by apply char_step.
  - cbn in Hr. injection Hr as <- <-. rewrite (Hd eq_refl). unfold fmt_step. cbn. unfold fmt_s. rewrite Hap.
    cbn [arguments app]. rewrite c_string_app.
    2:{ apply Forall_forall. intros y Hy ->. done. }
    cbn [access outcome_bind].
    eapply delivers_mono; [apply (touched_arg_spec st dn cur); [done|]|].
    { apply cat_some_spec; [done|]. by rewrite Hval. }
    cbn beta. intros st' (H1 & H2 & H3). rewrite Hval in H3.
    split_and!; [by rewrite H1, Hc, zlen_app|done|done].
  - cbn in Hr. injection Hr as <- <-. rewrite (Hd eq_refl). unfold fmt_step. cbn. unfold fmt_b. rewrite Hap.
    cbn [arguments app]. rewrite Z.ltb_irrefl, take_ge by (unfold zlen; lia).
    eapply delivers_mono; [apply (touched_arg_spec st dn cur); [done|]|].
    { apply cat_some_spec; [done|]. by rewrite Hval. }
    cbn beta. intros st' (H1 & H2 & H3). rewrite Hval in H3.
    split_and!; [by rewrite H1, Hc, zlen_app|done|done].
  - cbn in Hr, Hap. injection Hr as <- <-. rewrite (Hd eq_refl). unfold fmt_step. cbn. unfold fmt_percent.
    eapply delivers_mono; [apply (touched_arg_spec st dn cur); [done|]|].
    { apply sdscatlen_spec; [done|done|]. rewrite <- Hval in Hcur. unfold room in Hcur.
      change (zlen (sds_value (v_curarg st) ++ s "%") < 2 ^ 30 - 1) in Hcur.
      rewrite zlen_app, sds_value_zlen in Hcur by done. exact Hcur. }
    cbn beta. intros st' (H1 & H2 & H3). rewrite Hval in H3.
    split_and!; [by rewrite H1, Hc, zlen_app|by rewrite H2|done].
  - cbn in Hr. injection Hr as <- <-. specialize (Hd eq_refl). cbn in Hd.
    unfold special in Hd. rewrite !not_elem_of_cons in Hd. destruct Hd as (D1 & D2 & D3 & D4 & _).
    unfold fmt_step. rewrite (bool_decide_eq_true_2 ("%"%char = _)) by done. rewrite !bool_decide_eq_false_2 by done.
    cbn [negb orb]. destruct Hok as (Hk & Ha & Hn). apply fmt_printf_spec; done.
Qed.

Lemma render_cons i : item_ok printf i -> exists c tl, render i = c :: tl /\ c <> NUL /\
  (c = "%"%char -> exists d tl', tl = d :: tl' /\ second i d).
Proof.
  intros Hok. destruct i as [|[ch|x|x| |k a]]; cbn.
  - exists " "%char, []. done.
  - destruct Hok as (Hn & Hp & _). exists ch, []. done.
  - exists "%"%char, (s "s"). split_and!; [done|done|]. intros _. by exists "s"%char, [].
  - exists "%"%char, (s "b"). split_and!; [done|done|]. intros _. by exists "b"%char, [].
  - exists "%"%char, (s "%"). split_and!; [done|done|]. intros _. by exists "%"%char, [].
  - exists "%"%char, (cs_text k). split_and!; [done|done|]. intros _.
    destruct Hok as (Hk & _). pose proof (cs_text_chars k Hk) as Hc.
    destruct (cs_text k) as [|d tl'] eqn:E.
    { unfold cs_text in E. apply (f_equal length) in E. rewrite !length_app in E. cbn in E. lia. }
    exists d, tl'. split; [done|]. by inversion Hc.
Qed.

Lemma fmt_loop_spec l : forall fuel pre junk st dn cur,
  Forall (item_ok printf) l -> (length (concat (map render l)) <= fuel)%nat ->
  v_c st = zlen pre -> v_ap st = concat (map arguments l) -> vinv st dn cur ->
  zlen (bulks (dn ++ words printf l cur)) < room ->
  delivers (fmt_loop alloc printf fuel (pre ++ concat (map render l) ++ NUL :: junk) st) (fun st' =>
    exists dn' cur', vinv st' dn' cur' /\ dn' ++ option_list cur' = dn ++ words printf l cur).
Proof.
  induction l as [|i l IH]; intros fuel pre junk st dn cur Hok Hf Hc Hap Hv Hr.
  - cbn [map concat app words] in *. destruct fuel; cbn [fmt_loop];
      rewrite byte_at_mid by done; cbn [access outcome_bind]; rewrite bool_decide_eq_true_2 by done;
      cbn; by exists dn, cur.
  - inversion Hok as [|? ? Hi Hl]; simplify_eq. cbn [map concat] in *.
    destruct (render_cons i Hi) as (c & tl & Hren & Hcn & Hsec).
    rewrite length_app, Hren in Hf. cbn [length] in Hf. destruct fuel as [|fuel]; [lia|].
    cbn [fmt_loop]. rewrite <- app_assoc. set (rest := concat (map render l) ++ NUL :: junk) in *.
    assert (byte_at (pre ++ render i ++ rest) (v_c st) = Some c) as ->.
    { rewrite Hren. by apply byte_at_mid. }
    cbn [access outcome_bind]. rewrite bool_decide_eq_false_2 by done.
    assert (exists d, (if bool_decide (c = "%"%char)
        then access (byte_at (pre ++ render i ++ rest) (v_c st + 1)) else Ok NUL) = Ok (E := Z) d /\
        (c = "%"%char -> second i d)) as (d & -> & Hd).
    { destruct (decide (c = "%"%char)) as [->|Hp].
      - destruct (Hsec eq_refl) as (d & tl' & -> & Hd). exists d.
        rewrite bool_decide_eq_true_2, Hren, Hc by done. cbn [app]. by rewrite byte_at_next.
      - exists NUL. by rewrite bool_decide_eq_false_2. }
    cbn [outcome_bind].
    eapply delivers_bind; [by apply (fmt_step_spec i l pre rest st dn cur (concat (map arguments l)) c tl d)|].
    intros st' (Hc' & Hap' & Hv'). cbn beta. unfold rest. rewrite app_assoc.
    eapply delivers_mono; [apply (IH fuel (pre ++ render i) junk st' (advance i dn cur).1 (advance i dn cur).2)|].
    + done.
    + lia.
    + done.
    + done.
    + done.
    + by rewrite advance_words.
    + cbn beta. by rewrite advance_words.
Qed.

(** ** The command *)

Lemma describes_sds (argv : list sds) :
  Forall sds_wf argv ->
  describes (map sds_value argv) (map sds_buf argv) (Some (map sds_len argv)).
Proof.
  intros Hw. split_and!.
  - rewrite map_map. apply map_ext_in. intros x Hx. symmetry. apply sds_value_zlen.
    rewrite Forall_forall in Hw. apply Hw. by apply list_elem_of_In.
  - by rewrite !length_map.
  - intros j a Ha. change (map sds_value argv) with (sds_value <$> argv) in Ha.
    rewrite list_lookup_fmap in Ha. apply fmap_Some in Ha as (x & Hx & ->).
    rewrite Forall_forall in Hw. destruct (sds_wf_rep x) as (tail & Hs & _).
    { apply Hw. by apply (list_elem_of_lookup_2 _ _ _ Hx). }
    exists (NUL :: tail). trans (sds_buf <$> (argv !! j)); [apply list_lookup_fmap|].
    rewrite Hx. cbn. f_equal. by rewrite Hs at 1.
Qed.

Lemma build_command_spec argv args :
  Forall sds_wf argv -> map sds_value argv = args -> zlen (request args) < room ->
  delivers (build_command alloc argv (zlen (bulks args))) (fun r =>
    r = (request args ++ [NUL], zlen (request args))).
Proof.
  intros Hw Ha Hr. unfold room in Hr. destruct (format_header args) as (Hh & Hc & Hn & Hhl); [lia|].
  assert (zlen argv = zlen args) as Hl by (rewrite <- Ha; unfold zlen; by rewrite length_map).
  unfold build_command. rewrite Hl, Hh, Hc.
  assert (zlen (request args) = zlen (request_header (zlen args)) + zlen (bulks args)) as Hrl.
  { unfold request. by rewrite zlen_app. }
  set (h := request_header (zlen args)) in *. pose proof (zlen_nonneg (bulks args)).
  assert (i32 (zlen (bulks args) + zlen h) = zlen (request args)) as ->.
  { rewrite i32_small by lia. lia. }
  assert (u64 (zlen (request args) + 1) = zlen (request args) + 1) as ->.
  { unfold u64. rewrite Z.mod_small; lia. }
  eapply delivers_bind; [apply delivers_malloc; lia|]. intros blk Hb. cbn beta in Hb |- *.
  destruct (split_block blk (zlen h + 1)) as (x & y & -> & Hx); [lia|]. rewrite zlen_app in Hb.
  pose proof (sprintf_app [] h x y Hx) as Hs. cbn [app] in Hs. rewrite zlen_nil in Hs. rewrite Hs.
  cbn [access outcome_bind fst snd].
  destruct (format_args_app args (map sds_buf argv) (Some (map sds_len argv)) args [] h (NUL :: y))
    as (rest & Hlr & Hf); [rewrite <- Ha; by apply describes_sds|done|zlen_lia|].
  cbn [length] in Hf. replace (length argv) with (length args) by (unfold zlen in Hl; lia).
  rewrite Hf. cbn [access outcome_bind fst snd]. fold (request args). rewrite Z.eqb_refl. cbn [negb].
  rewrite zlen_cons in Hlr. destruct rest as [|c [|? ?]]; [zlen_lia| |zlen_lia].
  rewrite poke_app. done.
Qed.

Lemma vformat_spec l junk :
  Forall (item_ok printf) l -> zlen (request (words printf l None)) < room ->
  delivers (vformat alloc printf (concat (map render l) ++ NUL :: junk) (concat (map arguments l)))
    (fun r => r = (request (words printf l None) ++ [NUL], zlen (request (words printf l None)))).
Proof.
  intros Hok Hr. set (ws := words printf l None) in *. unfold vformat.
  assert (zlen (bulks ws) <= zlen (request ws)) as Hb.
  { unfold request. rewrite zlen_app. pose proof (zlen_nonneg (request_header (zlen ws))). lia. }
  eapply delivers_bind; [apply delivers_memory, (sdsempty_spec alloc Halloc)|].
  intros y [Hy Hyv]. cbn beta.
  eapply delivers_bind; [apply (fmt_loop_spec l _ [] junk _ [] None)|].
  { done. }
  { rewrite length_app. lia. }
  { done. }
  { done. }
  { by constructor. }
  { cbn [app]. fold ws. lia. }
  intros st (dn & cur & Hv & Hw). cbn beta. cbn [app] in Hw. fold ws in Hw.
  pose proof Hv as [Hcw Hval Ht Hm Hf Htot]. rewrite Ht.
  destruct cur as [v|].
  - change (dn ++ [v] = ws) in Hw. rewrite bool_decide_eq_true_2 by eauto.
    eapply delivers_bind; [apply (push_arg_spec st dn v); [done|rewrite Hw; lia]|].
    intros st' (_ & _ & Hf' & Hm' & Htot'). cbn beta. rewrite Htot', Hw.
    apply build_command_spec; [done|by rewrite Hm'|done].
  - rewrite bool_decide_eq_false_2 by (intros [? ?]; done). cbn [outcome_bind].
    change (dn ++ [] = ws) in Hw. rewrite app_nil_r in Hw. rewrite Htot, Hw. apply build_command_spec; [done|by rewrite Hm|done].
Qed.
End vformat_spec.


(** SET, a key of two pieces with a field width, and a binary value. *)
Definition some_printf (fmt : bytes) (a : vararg) : bytes :=
  match a with VInt z => s "  " ++ dec_signed z | _ => [] end.
Definition some_format : list item :=
  map (fun c => Piece (Lit c)) (s "SET") ++ [Blank; Blank; Piece (Str (s "key:"));
   Piece (Conv (mk_cspec [] (s "4") None SzHH "d"%char) (VInt 42)); Blank;
   Piece (Bin (s "a b" ++ [NUL])); Piece Percent; Blank; Piece (Str [])].

Example some_format_words :
  concat (map render some_format) = s "SET  %s%4hhd %b%% %s" /\
  words some_printf some_format None = [s "SET"; s "key:  42"; s "a b" ++ [NUL; "%"%char]; []].
Proof. vm_compute. split; reflexivity. Qed.


(** ** Formats that go wrong *)

Definition format_of (fmt : bytes) (ap : list vararg) : fmt_result :=
  redisvFormatCommand plenty some_printf (fmt ++ [NUL]) ap.

(** A conversion cut off by the end of the format is taken for an integer
    conversion, and the format is read behind its NUL. *)
Example incomplete_conversion_reads_on : format_of (s "GET %-") [VInt 1] = FmtOverflow.
Proof. vm_compute. reflexivity. Qed.

(** A conversion that does not fit the 16 bytes of [_format] takes its argument
    and is copied as text, without its first two characters. *)
Example long_conversion_is_text :
  format_of (s "GET %000000000012d") [VInt 7] = format_of (s "GET 00000000012d") [] .
Proof. vm_compute. reflexivity. Qed.

(** An unknown conversion. *)
Example unknown_conversion : format_of (s "GET %y") [] = FmtError (-2).
Proof. vm_compute. reflexivity. Qed.
