(* ===== verification/Net.v ===== *)
(** * net.c: sockets of a connection

    The functions of net.c on a [redisContext], over the system calls they use,
    which are the class [Posix]: [W] is the operating system with its table of
    descriptors, [errno] included.  A call returns what the C function returns;
    constants have their values on Linux.  Strings are C strings without their
    NUL; [strdup] and the allocation of a [struct timeval], which the code does
    not test, succeed. *)

From S2P Require Import Prelude Effects Reply Sds Reader.

(** ** The operating system *)

Inductive sockaddr :=
| SaInet (raw : bytes)
| SaUnix (sun_path : bytes).

Record addrinfo := mk_ai {
  ai_family : Z;
  ai_socktype : Z;
  ai_protocol : Z;
  ai_addr : sockaddr
}.

Inductive optval :=
| OptInt (v : Z)
| OptTime (tv : timeval).

Class Posix (W : Type) := {
  errno : W -> Z;
  set_errno : Z -> W -> W;
  strerror : Z -> bytes;
  gai_strerror : Z -> bytes;
  sys_socket : Z -> Z -> Z -> W -> Z * W;
  sys_close : Z -> W -> W;
  sys_fcntl : Z -> Z -> Z -> W -> Z * W;
  sys_setsockopt : Z -> Z -> Z -> optval -> W -> Z * W;
  (** the result and the value of SO_ERROR *)
  sys_getsockopt_error : Z -> W -> Z * Z * W;
  sys_bind : Z -> sockaddr -> W -> Z * W;
  sys_connect : Z -> sockaddr -> W -> Z * W;
  sys_poll : Z -> Z -> W -> Z * W;
  sys_getaddrinfo : option bytes -> option bytes -> Z -> W -> Z * list addrinfo * W;
  (** the result and the bytes stored in the buffer *)
  sys_read : Z -> Z -> W -> Z * bytes * W;
  sys_write : Z -> bytes -> W -> Z * W
}.

Definition EINTR : Z := 4.
Definition EAGAIN : Z := 11.
Definition EWOULDBLOCK : Z := 11.
Definition EADDRNOTAVAIL : Z := 99.
Definition ETIMEDOUT : Z := 110.
Definition EHOSTUNREACH : Z := 113.
Definition EINPROGRESS : Z := 115.
Definition AF_LOCAL : Z := 1.
Definition AF_INET : Z := 2.
Definition AF_INET6 : Z := 10.
Definition SOCK_STREAM : Z := 1.
Definition SOL_SOCKET : Z := 1.
Definition SO_REUSEADDR : Z := 2.
Definition SO_KEEPALIVE : Z := 9.
Definition SO_RCVTIMEO : Z := 20.
Definition SO_SNDTIMEO : Z := 21.
Definition IPPROTO_TCP : Z := 6.
Definition TCP_NODELAY : Z := 1.
Definition TCP_KEEPIDLE : Z := 4.
Definition TCP_KEEPINTVL : Z := 5.
Definition TCP_KEEPCNT : Z := 6.
Definition F_GETFL : Z := 3.
Definition F_SETFL : Z := 4.
Definition O_NONBLOCK : Z := 0x800.
Definition INT_MAX : Z := 2 ^ 31 - 1.
Definition LONG_MAX : Z := 2 ^ 63 - 1.

(** ** The context *)

Inductive redisConnectionType := REDIS_CONN_TCP | REDIS_CONN_UNIX.

Record redisContext := mk_context {
  c_err : Z;
  c_errstr : bytes;
  c_fd : Z;
  c_flags : Z;
  c_obuf : option sds;
  c_reader : option redisReader;
  c_connection_type : redisConnectionType;
  c_timeout : option timeval;
  c_host : option bytes;
  c_source_addr : option bytes;
  c_port : Z;
  c_path : option bytes
}.
Implicit Types (c : redisContext).

Definition set_err (e : Z) (str : bytes) c : redisContext :=
  mk_context e str (c_fd c) (c_flags c) (c_obuf c) (c_reader c) (c_connection_type c)
    (c_timeout c) (c_host c) (c_source_addr c) (c_port c) (c_path c).
Definition set_fd (fd : Z) c : redisContext :=
  mk_context (c_err c) (c_errstr c) fd (c_flags c) (c_obuf c) (c_reader c) (c_connection_type c)
    (c_timeout c) (c_host c) (c_source_addr c) (c_port c) (c_path c).
Definition set_flags (f : Z) c : redisContext :=
  mk_context (c_err c) (c_errstr c) (c_fd c) f (c_obuf c) (c_reader c) (c_connection_type c)
    (c_timeout c) (c_host c) (c_source_addr c) (c_port c) (c_path c).
Definition set_bufs (o : option sds) (r : option redisReader) c : redisContext :=
  mk_context (c_err c) (c_errstr c) (c_fd c) (c_flags c) o r (c_connection_type c)
    (c_timeout c) (c_host c) (c_source_addr c) (c_port c) (c_path c).
Definition set_timeout (tv : option timeval) c : redisContext :=
  mk_context (c_err c) (c_errstr c) (c_fd c) (c_flags c) (c_obuf c) (c_reader c)
    (c_connection_type c) tv (c_host c) (c_source_addr c) (c_port c) (c_path c).
Definition set_tcp (host source : option bytes) (port : Z) c : redisContext :=
  mk_context (c_err c) (c_errstr c) (c_fd c) (c_flags c) (c_obuf c) (c_reader c)
    REDIS_CONN_TCP (c_timeout c) host source port (c_path c).
Definition set_unix (path : bytes) c : redisContext :=
  mk_context (c_err c) (c_errstr c) (c_fd c) (c_flags c) (c_obuf c) (c_reader c)
    REDIS_CONN_UNIX (c_timeout c) (c_host c) (c_source_addr c) (c_port c) (Some path).

Definition has_flag c (f : Z) : bool := negb (Z.land (c_flags c) f =? 0).

(** A context and the system it runs on. *)
Record conn (W : Type) := mk_conn { ctx : redisContext; os : W }.
Arguments mk_conn {W}.
Arguments ctx {W}.
Arguments os {W}.

Section net.
Context {W : Type} `{Posix W}.
Abbreviation M := (prog (conn W)).

Definition get_ctx : M redisContext := gets ctx.
Definition upd (f : redisContext -> redisContext) : M () :=
  modify (fun st => mk_conn (f (ctx st)) (os st)).
(** A system call. *)
Definition sys {A} (f : W -> A * W) : M A :=
  fun st => let '(a, w) := f (os st) in Some (a, mk_conn (ctx st) w).
Definition get_errno : M Z := gets (fun st => errno (os st)).

(** [__redisSetError] of hiredis.c with a string, and with NULL: then the text
    is the one of [errno]. *)
Definition __redisSetError (type : Z) (str : bytes) : M () := upd (set_err type (take 127 str)).
Definition __redisSetError_null (type : Z) : M () :=
  if negb (type =? REDIS_ERR_IO) then fault else
  e ← get_errno;
  upd (set_err type (take 127 (strerror e))).

Definition redisContextCloseFd : M () :=
  c ← get_ctx;
  if 0 <=? c_fd c then
    _ ← sys (fun w => ((), sys_close (c_fd c) w));
    upd (set_fd (-1))
  else mret ().

Definition __redisSetErrorFromErrno (type : Z) (prefix : option bytes) : M () :=
  e ← get_errno;
  let text := (if prefix is Some p then p ++ s ": " else []) ++ strerror e in
  __redisSetError type (take 127 text).

(** [if (... == -1) { error; close; return REDIS_ERR; }] *)
Definition fail_close (prefix : option bytes) : M Z :=
  _ ← __redisSetErrorFromErrno REDIS_ERR_IO prefix;
  _ ← redisContextCloseFd;
  mret REDIS_ERR.

Definition redisSetReuseAddr : M Z :=
  c ← get_ctx;
  r ← sys (sys_setsockopt (c_fd c) SOL_SOCKET SO_REUSEADDR (OptInt 1));
  if r =? -1 then fail_close None else mret REDIS_OK.

Definition redisCreateSocket (type : Z) : M Z :=
  fd ← sys (sys_socket type SOCK_STREAM 0);
  if fd =? -1 then
    _ ← __redisSetErrorFromErrno REDIS_ERR_IO None;
    mret REDIS_ERR
  else
    _ ← upd (set_fd fd);
    if type =? AF_INET then
      r ← redisSetReuseAddr;
      if r =? REDIS_ERR then mret REDIS_ERR else mret REDIS_OK
    else mret REDIS_OK.

Definition redisSetBlocking (blocking : bool) : M Z :=
  c ← get_ctx;
  flags ← sys (sys_fcntl (c_fd c) F_GETFL 0);
  if flags =? -1 then fail_close (Some (s "fcntl(F_GETFL)")) else
  let flags := if blocking then Z.ldiff flags O_NONBLOCK else Z.lor flags O_NONBLOCK in
  r ← sys (sys_fcntl (c_fd c) F_SETFL flags);
  if r =? -1 then fail_close (Some (s "fcntl(F_SETFL)")) else mret REDIS_OK.

(** One of the [setsockopt] of [redisKeepAlive]. *)
Definition keepalive_option (fd level name : Z) (v : Z) : M Z :=
  r ← sys (sys_setsockopt fd level name (OptInt v));
  if r <? 0 then
    e ← get_errno;
    _ ← __redisSetError REDIS_ERR_OTHER (strerror e);
    mret REDIS_ERR
  else mret REDIS_OK.

Definition redisKeepAlive (interval : Z) : M Z :=
  c ← get_ctx;
  let fd := c_fd c in
  r ← sys (sys_setsockopt fd SOL_SOCKET SO_KEEPALIVE (OptInt 1));
  if r =? -1 then
    e ← get_errno;
    _ ← __redisSetError REDIS_ERR_OTHER (strerror e);
    mret REDIS_ERR
  else
    r ← keepalive_option fd IPPROTO_TCP TCP_KEEPIDLE interval;
    if negb (r =? REDIS_OK) then mret REDIS_ERR else
    let v := Z.quot interval 3 in
    let v := if v =? 0 then 1 else v in
    r ← keepalive_option fd IPPROTO_TCP TCP_KEEPINTVL v;
    if negb (r =? REDIS_OK) then mret REDIS_ERR else
    keepalive_option fd IPPROTO_TCP TCP_KEEPCNT 3.

Definition redisSetTcpNoDelay : M Z :=
  c ← get_ctx;
  r ← sys (sys_setsockopt (c_fd c) IPPROTO_TCP TCP_NODELAY (OptInt 1));
  if r =? -1 then fail_close (Some (s "setsockopt(TCP_NODELAY)")) else mret REDIS_OK.

Definition redisCheckSocketError : M Z :=
  c ← get_ctx;
  r ← sys (sys_getsockopt_error (c_fd c));
  if r.1 =? -1 then
    _ ← __redisSetErrorFromErrno REDIS_ERR_IO (Some (s "getsockopt(SO_ERROR)"));
    mret REDIS_ERR
  else if negb (r.2 =? 0) then
    _ ← sys (fun w => ((), set_errno r.2 w));
    _ ← __redisSetErrorFromErrno REDIS_ERR_IO None;
    mret REDIS_ERR
  else mret REDIS_OK.

Definition MAX_MSEC : Z := Z.quot (LONG_MAX - 999) 1000.

(** [msec], or [None] when the timeout is refused. *)
Definition poll_msec (timeout : option timeval) : option Z :=
  match timeout with
  | None => Some (-1)
  | Some tv =>
      if (1000000 <? tv_usec tv) || (MAX_MSEC <? tv_sec tv) then None else
      let msec := i64 (tv_sec tv * 1000 + Z.quot (tv_usec tv + 999) 1000) in
      Some (if (msec <? 0) || (INT_MAX <? msec) then INT_MAX else msec)
  end.

Definition redisContextWaitReady (timeout : option timeval) : M Z :=
  c ← get_ctx;
  match poll_msec timeout with
  | None => fail_close None
  | Some msec =>
      e ← get_errno;
      if e =? EINPROGRESS then
        res ← sys (sys_poll (c_fd c) msec);
        if res =? -1 then fail_close (Some (s "poll(2)"))
        else if res =? 0 then
          _ ← sys (fun w => ((), set_errno ETIMEDOUT w));
          fail_close None
        else
          r ← redisCheckSocketError;
          mret (if negb (r =? REDIS_OK) then REDIS_ERR else REDIS_OK)
      else fail_close None
  end.

Definition redisContextSetTimeout (tv : timeval) : M Z :=
  c ← get_ctx;
  r ← sys (sys_setsockopt (c_fd c) SOL_SOCKET SO_RCVTIMEO (OptTime tv));
  if r =? -1 then
    _ ← __redisSetErrorFromErrno REDIS_ERR_IO (Some (s "setsockopt(SO_RCVTIMEO)"));
    mret REDIS_ERR
  else
    r ← sys (sys_setsockopt (c_fd c) SOL_SOCKET SO_SNDTIMEO (OptTime tv));
    if r =? -1 then
      _ ← __redisSetErrorFromErrno REDIS_ERR_IO (Some (s "setsockopt(SO_SNDTIMEO)"));
      mret REDIS_ERR
    else mret REDIS_OK.

(** ** Connecting *)

(** How an address was left: with [continue], [goto error] or [goto end]. *)
Inductive attempt := NextAddr (reuses : Z) | AddrError | AddrEnd.

(** [for (b = bservinfo; b != NULL; b = b->ai_next)]: [bound]. *)
Fixpoint bind_any (fd : Z) (l : list addrinfo) : M bool :=
  match l with
  | [] => mret false
  | b :: l' =>
      r ← sys (sys_bind fd (ai_addr b));
      if negb (r =? -1) then mret true else bind_any fd l'
  end.

(** [if (c->tcp.source_addr)]: whether to go on. *)
Definition bind_source (fd family : Z) (reuseaddr : bool) : M bool :=
  c ← get_ctx;
  match c_source_addr c with
  | None => mret true
  | Some source =>
      g ← sys (sys_getaddrinfo (Some source) None family);
      if negb (g.1 =? 0) then
        _ ← __redisSetError REDIS_ERR_OTHER (take 127 (s "Can't get addr: " ++ gai_strerror g.1));
        mret false
      else
        n ← (if reuseaddr then sys (sys_setsockopt fd SOL_SOCKET SO_REUSEADDR (OptInt 1)) else mret 0);
        if n <? 0 then mret false else
        bound ← bind_any fd g.2;
        if bound : bool then mret true else
        e ← get_errno;
        _ ← __redisSetError REDIS_ERR_OTHER (take 127 (s "Can't bind socket: " ++ strerror e));
        mret false
  end.

(** The end of the body of the loop, once connected. *)
Definition finish_connect (blocking : bool) : M attempt :=
  r ← (if blocking then redisSetBlocking true else mret REDIS_OK);
  if negb (r =? REDIS_OK) then mret AddrError else
  r ← redisSetTcpNoDelay;
  if negb (r =? REDIS_OK) then mret AddrError else
  _ ← upd (fun c => set_flags (Z.lor (c_flags c) REDIS_CONNECTED) c);
  mret AddrEnd.

(** The body of the loop over the addresses; [goto addrretry] is taken less than
    [REDIS_CONNECT_RETRIES] times. *)
Fixpoint try_addr (fuel : nat) (p : addrinfo) (family : Z) (blocking reuseaddr : bool)
  (reuses : Z) : M attempt :=
  match fuel with
  | O => fault
  | S fuel' =>
      fd ← sys (sys_socket (ai_family p) (ai_socktype p) (ai_protocol p));
      if fd =? -1 then mret (NextAddr reuses) else
      _ ← upd (set_fd fd);
      r ← redisSetBlocking false;
      if negb (r =? REDIS_OK) then mret AddrError else
      ok ← bind_source fd family reuseaddr;
      if negb ok then mret AddrError else
      r ← sys (sys_connect fd (ai_addr p));
      if r =? -1 then
        e ← get_errno;
        if e =? EHOSTUNREACH then
          _ ← redisContextCloseFd;
          mret (NextAddr reuses)
        else if (e =? EINPROGRESS) && negb blocking then finish_connect blocking
        else if (e =? EADDRNOTAVAIL) && reuseaddr then
          let reuses := reuses + 1 in
          if REDIS_CONNECT_RETRIES <=? reuses then mret AddrError
          else try_addr fuel' p family blocking reuseaddr reuses
        else
          c ← get_ctx;
          r ← redisContextWaitReady (c_timeout c);
          if negb (r =? REDIS_OK) then mret AddrError else finish_connect blocking
      else finish_connect blocking
  end.

Definition retry_fuel : nat := Z.to_nat REDIS_CONNECT_RETRIES.

Fixpoint try_addrs (ps : list addrinfo) (family : Z) (blocking reuseaddr : bool) (reuses : Z)
  : M Z :=
  match ps with
  | [] =>
      e ← get_errno;
      _ ← __redisSetError REDIS_ERR_OTHER (take 127 (s "Can't create socket: " ++ strerror e));
      mret REDIS_ERR
  | p :: ps' =>
      a ← try_addr retry_fuel p family blocking reuseaddr reuses;
      match a with
      | NextAddr reuses => try_addrs ps' family blocking reuseaddr reuses
      | AddrError => mret REDIS_ERR
      | AddrEnd => mret REDIS_OK
      end
  end.

(** [addr] is the caller's string or, when reconnecting, the one of the context,
    which may be NULL; copying NULL is a fault. *)
Definition _redisContextConnectTcp (addr : option bytes) (port : Z) (timeout : option timeval)
  (source_addr : option bytes) : M Z :=
  c ← get_ctx;
  let blocking := has_flag c REDIS_BLOCK in
  let reuseaddr := has_flag c REDIS_REUSEADDR in
  if (if addr is None then bool_decide (is_Some (c_host c)) else false) then fault else
  _ ← upd (fun c => set_timeout timeout (set_tcp addr source_addr port c));
  let _port := take 5 (dec_signed port) in
  g ← sys (sys_getaddrinfo addr (Some _port) AF_INET);
  g ← (if negb (g.1 =? 0) then
         g ← sys (sys_getaddrinfo addr (Some _port) AF_INET6);
         mret (g, AF_INET6)
       else mret (g, AF_INET));
  let '(rv, servinfo, family) := g in
  if negb (rv =? 0) then
    _ ← __redisSetError REDIS_ERR_OTHER (gai_strerror rv);
    mret REDIS_ERR
  else try_addrs servinfo family blocking reuseaddr 0.

Definition redisContextConnectTcp (addr : option bytes) (port : Z) (timeout : option timeval) : M Z :=
  _redisContextConnectTcp addr port timeout None.
Definition redisContextConnectBindTcp (addr : option bytes) (port : Z) (timeout : option timeval)
  (source_addr : option bytes) : M Z :=
  _redisContextConnectTcp addr port timeout source_addr.

Definition redisContextConnectUnix (path : bytes) (timeout : option timeval) : M Z :=
  c ← get_ctx;
  let blocking := has_flag c REDIS_BLOCK in
  r ← redisCreateSocket AF_LOCAL;
  if r <? 0 then mret REDIS_ERR else
  r ← redisSetBlocking false;
  if negb (r =? REDIS_OK) then mret REDIS_ERR else
  _ ← upd (fun c => set_timeout timeout (set_unix path c));
  c ← get_ctx;
  r ← sys (sys_connect (c_fd c) (SaUnix (take 107 path)));
  e ← get_errno;
  ready ← (if (r =? -1) && negb ((e =? EINPROGRESS) && negb blocking)
           then redisContextWaitReady timeout else mret REDIS_OK);
  if negb (ready =? REDIS_OK) then mret REDIS_ERR else
  r ← (if blocking then redisSetBlocking true else mret REDIS_OK);
  if negb (r =? REDIS_OK) then mret REDIS_ERR else
  _ ← upd (fun c => set_flags (Z.lor (c_flags c) REDIS_CONNECTED) c);
  mret REDIS_OK.
End net.
