(* ===== verification/NetSpec.v ===== *)
(** * Connecting: errors and descriptors

    What the functions that connect leave behind, on any system that treats its
    table of descriptors as POSIX says ([PosixLaws]): either a connected context
    that owns one new descriptor, or an error in the context and no descriptor
    more than before. *)

From S2P Require Import Prelude Effects Reply Net.

(** [fds] is the set of open descriptors: [socket] returns -1 or a new one,
    [close] removes one, no other call changes the set. *)
Class PosixLaws (W : Type) `{Posix W} := {
  fds : W -> gset Z;
  fds_set_errno e w : fds (set_errno e w) = fds w;
  fds_socket f t p w :
    let r := sys_socket f t p w in
    (r.1 = -1 /\ fds r.2 = fds w) \/ (0 <= r.1 /\ (r.1 ∉ fds w) /\ fds r.2 = {[r.1]} ∪ fds w);
  fds_close fd w : fds (sys_close fd w) = fds w ∖ {[fd]};
  fds_fcntl fd cmd arg w : fds (sys_fcntl fd cmd arg w).2 = fds w;
  fds_setsockopt fd l n v w : fds (sys_setsockopt fd l n v w).2 = fds w;
  fds_getsockopt fd w : fds (sys_getsockopt_error fd w).2 = fds w;
  fds_bind fd a w : fds (sys_bind fd a w).2 = fds w;
  fds_connect fd a w : fds (sys_connect fd a w).2 = fds w;
  fds_poll fd t w : fds (sys_poll fd t w).2 = fds w;
  fds_getaddrinfo n p f w : fds (sys_getaddrinfo n p f w).2 = fds w;
  fds_read fd n w : fds (sys_read fd n w).2 = fds w;
  fds_write fd d w : fds (sys_write fd d w).2 = fds w
}.

Section spec.
Context {W : Type} `{HL : PosixLaws W}.
Abbreviation M := (prog (conn W)).
Implicit Types (st : conn W) (F : gset Z).

(** ** The descriptor of a context

    [F] are the descriptors of others; 0 is one of them, so that a context
    without a descriptor, whose number is 0 or -1, owns nothing. *)
Definition closed F st : Prop := 0 ∈ F /\ c_fd (ctx st) <= 0 /\ fds (os st) = F.
Definition opened F st : Prop :=
  0 ∈ F /\ 0 < c_fd (ctx st) /\ (c_fd (ctx st) ∉ F) /\ fds (os st) = {[c_fd (ctx st)]} ∪ F.
Definition owned F st : Prop := closed F st \/ opened F st.

(** Only the error, the flags and the buffers of the context change. *)
Definition same_fd : relation (conn W) := fun st st' =>
  c_fd (ctx st') = c_fd (ctx st) /\ fds (os st') = fds (os st) /\
  (c_err (ctx st) <> 0 -> c_err (ctx st') <> 0).
#[global] Instance same_fd_preorder : PreOrder same_fd.
Proof. split; [by intros st|]. intros x y z (? & ? & ?) (? & ? & ?). split_and!; [congruence..|auto]. Qed.

Lemma opened_same F st st' : same_fd st st' -> opened F st -> opened F st'.
Proof. intros (E1 & E2 & _) (? & ? & ? & ?). unfold opened. rewrite E1, E2. done. Qed.
Lemma closed_same F st st' : same_fd st st' -> closed F st -> closed F st'.
Proof. intros (E1 & E2 & _) (? & ? & ?). unfold closed. rewrite E1, E2. done. Qed.
Lemma owned_same F st st' : same_fd st st' -> owned F st -> owned F st'.
Proof. intros Hs [Hc|Ho]; [left; by eapply closed_same|right; by eapply opened_same]. Qed.

Lemma wlp_sys {A} (f : W -> A * W) (Q : A -> conn W -> Prop) st :
  Q (f (os st)).1 (mk_conn (ctx st) (f (os st)).2) -> wlp (sys f) Q st.
Proof. intros HQ a st' Ha. unfold sys in Ha. destruct (f (os st)) as [b w]. by simplify_eq. Qed.

Lemma wlp_keeps {A} R (m : M A) Q st :
  keeps R m -> (forall a st', R st st' -> Q a st') -> wlp m Q st.
Proof. intros Hk HQ a st' Ha. apply HQ. by eapply Hk. Qed.

Lemma keeps_sys {A} (f : W -> A * W) : (forall w, fds (f w).2 = fds w) -> keeps same_fd (sys f).
Proof.
  intros Hf st a st' Ha. unfold sys in Ha. pose proof (Hf (os st)).
  destruct (f (os st)) as [b w]. simplify_eq. by split_and!.
Qed.
Lemma keeps_upd f :
  (forall c, c_fd (f c) = c_fd c) -> (forall c, c_err c <> 0 -> c_err (f c) <> 0) ->
  keeps same_fd (upd (W := W) f).
Proof. intros Hf He. apply keeps_modify. intros st. by split_and!; cbn; auto. Qed.
Lemma keeps_set_errno e : keeps same_fd (sys (fun w => ((), set_errno e w))).
Proof. apply keeps_sys. intros w. apply fds_set_errno. Qed.
Lemma keeps_get_ctx : keeps same_fd (get_ctx (W := W)).
Proof. apply keeps_gets. apply _. Qed.
Lemma keeps_get_errno : keeps same_fd get_errno.
Proof. apply keeps_gets. apply _. Qed.
#[local] Hint Resolve keeps_set_errno keeps_get_ctx keeps_get_errno : keeps.
#[local] Hint Extern 1 (keeps same_fd (sys _)) =>
  apply keeps_sys; intros; first [apply fds_fcntl | apply fds_setsockopt | apply fds_getsockopt
  | apply fds_bind | apply fds_connect | apply fds_poll | apply fds_getaddrinfo
  | apply fds_read | apply fds_write] : keeps.

Lemma keeps_context_error type str : type <> 0 -> keeps same_fd (__redisSetError (W := W) type str).
Proof. intros Ht. by apply keeps_upd. Qed.
Lemma keeps_from_errno type prefix : type <> 0 -> keeps same_fd (__redisSetErrorFromErrno type prefix).
Proof.
  intros Ht. unfold __redisSetErrorFromErrno. apply (keeps_bind same_fd); [apply keeps_get_errno|].
  intros e. by apply keeps_context_error.
Qed.
#[local] Hint Extern 1 (_ <> 0) => done : keeps.
#[local] Hint Resolve keeps_context_error keeps_from_errno : keeps.

Lemma keeps_keepalive interval : keeps same_fd (redisKeepAlive interval).
Proof. unfold redisKeepAlive, keepalive_option. keeps_steps. Qed.
Lemma keeps_check_socket : keeps same_fd redisCheckSocketError.
Proof. unfold redisCheckSocketError. keeps_steps. Qed.
Lemma keeps_set_timeout tv : keeps same_fd (redisContextSetTimeout tv).
Proof. unfold redisContextSetTimeout. keeps_steps. Qed.

(** ** A function that may fail

    Success leaves the descriptor open and the error field alone; failure sets
    the error field. *)
Definition attempted F (e : Z) (r : Z) st : Prop :=
  (r = REDIS_OK /\ opened F st /\ c_err (ctx st) = e) \/
  (r = REDIS_ERR /\ owned F st /\ c_err (ctx st) <> 0).

Definition tries F (m : M Z) : Prop :=
  forall st, opened F st -> wlp m (attempted F (c_err (ctx st))) st.

Lemma tries_ok F st : opened F st -> wlp (mret REDIS_OK) (attempted F (c_err (ctx st))) st.
Proof. intros Ho. apply wlp_ret. by left. Qed.

Lemma close_opened F st e (Q : () -> conn W -> Prop) :
  opened F st -> c_err (ctx st) = e ->
  (forall st', closed F st' -> c_fd (ctx st') = -1 -> c_err (ctx st') = e -> Q () st') ->
  wlp redisContextCloseFd Q st.
Proof.
  intros (Hz & Hp & Hn & Hf) He HQ. unfold redisContextCloseFd, get_ctx.
  apply wlp_bind, wlp_gets. destruct (Z.leb_spec 0 (c_fd (ctx st))); [|lia].
  apply wlp_bind, wlp_sys. cbn. apply wlp_modify. cbn. apply HQ; cbn; [|done|done].
  split_and!; cbn; [done|lia|]. rewrite fds_close, Hf. set_solver.
Qed.

Lemma wlp_from_errno type prefix (Q : () -> conn W -> Prop) st :
  type <> 0 -> (forall st', same_fd st st' -> c_err (ctx st') <> 0 -> Q () st') ->
  wlp (__redisSetErrorFromErrno type prefix) Q st.
Proof.
  intros Ht HQ. unfold __redisSetErrorFromErrno, get_errno. apply wlp_bind, wlp_gets.
  apply wlp_modify. apply HQ; [|done]. by split_and!.
Qed.

Lemma wlp_fail_close F prefix e st : opened F st -> wlp (fail_close prefix) (attempted F e) st.
Proof.
  intros Ho. unfold fail_close. apply wlp_bind, wlp_from_errno; [done|]. intros st1 Hs He.
  apply wlp_bind. eapply close_opened; [by eapply opened_same|done|].
  intros st2 Hc _ He2. apply wlp_ret. right. split_and!; [done|by left|congruence].
Qed.

Lemma opened_sys {A} F st (w : W * A) : opened F st -> fds w.1 = fds (os st) -> opened F (mk_conn (ctx st) w.1).
Proof. intros (? & ? & ? & ?) Hw. unfold opened. cbn. by rewrite Hw. Qed.

(** The next call of a function that keeps the descriptor. *)
Lemma wlp_sys_same {A} (f : W -> A * W) (Q : A -> conn W -> Prop) st :
  (forall w, fds (f w).2 = fds w) ->
  (forall a w', fds w' = fds (os st) -> Q a (mk_conn (ctx st) w')) -> wlp (sys f) Q st.
Proof. intros Hf HQ. apply wlp_sys. apply HQ. apply Hf. Qed.

Lemma opened_world F c w w' : opened F (mk_conn c w) -> fds w' = fds w -> opened F (mk_conn c w').
Proof. intros (? & ? & ? & ?) Hw. unfold opened in *. cbn in *. by rewrite Hw. Qed.
End spec.

#[export] Hint Resolve keeps_set_errno keeps_get_ctx keeps_get_errno keeps_context_error
  keeps_from_errno keeps_keepalive keeps_set_timeout same_fd_preorder : keeps.
#[export] Hint Extern 1 (_ <> 0) => done : keeps.
#[export] Hint Extern 1 (keeps same_fd (sys _)) =>
  apply keeps_sys; intros; first [apply fds_fcntl | apply fds_setsockopt | apply fds_getsockopt
  | apply fds_bind | apply fds_connect | apply fds_poll | apply fds_getaddrinfo
  | apply fds_read | apply fds_write] : keeps.

(** A step that leaves the descriptor open. *)
Ltac same_world :=
  match goal with
  | |- wlp (sys _) _ _ =>
      apply wlp_sys_same;
      [intros; first [apply fds_fcntl | apply fds_setsockopt | apply fds_getsockopt | apply fds_bind
        | apply fds_connect | apply fds_poll | apply fds_getaddrinfo | apply fds_read
        | apply fds_write | apply fds_set_errno]
      | intros ? ? ?]
  end.
Ltac net_step := first [same_world
  | lazymatch goal with
    | |- wlp (__redisSetErrorFromErrno _ _) _ _ => apply wlp_from_errno; [done|intros ? ? ?]
    end
  | progress (unfold get_ctx, get_errno, upd) | wlp_step].
Ltac net_steps := repeat (net_step; cbn beta iota).
Ltac still_open := cbn [ctx os] in *; first [eassumption | by (eapply opened_world; [eassumption|cbn; congruence])].

Section connecting.
Context {W : Type} `{HL : PosixLaws W}.
Abbreviation M := (prog (conn W)).
Implicit Types (st : conn W) (F : gset Z).

(** The end of a branch: an error that closes, or success. *)
#[local] Ltac net_end :=
  first
    [ by (eapply wlp_fail_close; still_open)
    | by (left; split_and!; [done|still_open|done])
    | by (right; split_and!; [done|right; eapply opened_same; [eassumption|still_open]|done])
    | idtac ].

Lemma tries_blocking F b : tries F (redisSetBlocking b).
Proof. intros [c w] Ho. unfold redisSetBlocking. net_steps; net_end. Qed.

Lemma tries_nodelay F : tries F redisSetTcpNoDelay.
Proof. intros [c w] Ho. unfold redisSetTcpNoDelay. net_steps; net_end. Qed.

Lemma wlp_tries F (m : M Z) (Q : Z -> conn W -> Prop) st :
  tries F m -> opened F st ->
  (forall st', opened F st' -> c_err (ctx st') = c_err (ctx st) -> Q REDIS_OK st') ->
  (forall st', owned F st' -> c_err (ctx st') <> 0 -> Q REDIS_ERR st') -> wlp m Q st.
Proof.
  intros Hm Ho Hok Herr r st' Hr. destruct (Hm st Ho r st' Hr) as [(-> & ? & ?)|(-> & ? & ?)]; auto.
Qed.

Lemma tries_check F : tries F redisCheckSocketError.
Proof. intros [c w] Ho. unfold redisCheckSocketError. net_steps; net_end. Qed.

Lemma tries_wait F tm : tries F (redisContextWaitReady tm).
Proof.
  intros [c w] Ho. unfold redisContextWaitReady, get_ctx, get_errno.
  apply wlp_bind, wlp_gets. destruct (poll_msec tm) as [msec|]; [|net_end].
  apply wlp_bind, wlp_gets. destruct (_ =? EINPROGRESS); [|net_end].
  apply wlp_bind. same_world. cbn [ctx os] in *. case_match; [net_end|]. case_match.
  - apply wlp_bind. same_world. net_end.
  - apply wlp_bind. eapply wlp_tries; [apply tries_check|still_open|..]; cbn [ctx].
    + intros st' Ho' He. apply wlp_ret. by left.
    + intros st' Ho' He. apply wlp_ret. by right.
Qed.
(** ** Trying the addresses *)

Definition connected st : Prop := has_flag (ctx st) REDIS_CONNECTED = true.

Lemma land_lor_flag x f : f <> 0 -> negb (Z.land (Z.lor x f) f =? 0) = true.
Proof.
  intros Hf. assert (Z.land (Z.lor x f) f = f) as ->; [|by apply negb_true_iff, Z.eqb_neq].
  apply Z.bits_inj'. intros n _. rewrite Z.land_spec, Z.lor_spec.
  by destruct (Z.testbit x n), (Z.testbit f n).
Qed.

Lemma opened_ctx F c c' w : c_fd c' = c_fd c -> opened F (mk_conn c w) -> opened F (mk_conn c' w).
Proof. intros Hf (? & ? & ? & ?). unfold opened in *. cbn in *. by rewrite Hf. Qed.
Lemma closed_ctx F c c' w : c_fd c' = c_fd c -> closed F (mk_conn c w) -> closed F (mk_conn c' w).
Proof. intros Hf (? & ? & ?). unfold closed in *. cbn in *. by rewrite Hf. Qed.

(** How an address is left. *)
Definition addr_left F (e : Z) (a : attempt) st : Prop :=
  match a with
  | NextAddr _ => closed F st /\ c_err (ctx st) = e
  | AddrError => owned F st /\ c_err (ctx st) <> 0
  | AddrEnd => opened F st /\ c_err (ctx st) = e /\ connected st
  end.

Lemma finish_connect_spec F b st :
  opened F st -> wlp (finish_connect b) (addr_left F (c_err (ctx st))) st.
Proof.
  intros Ho. unfold finish_connect. apply wlp_bind.
  assert (tries F (if b then redisSetBlocking true else mret REDIS_OK)) as Ht.
  { destruct b; [apply tries_blocking|]. intros st' Ho'. by apply tries_ok. }
  eapply wlp_tries; [exact Ht|done|..]; intros st1 Ho1 He1; cbn; [|by apply wlp_ret].
  apply wlp_bind. eapply wlp_tries; [apply tries_nodelay|done|..]; intros [c2 w2] Ho2 He2; cbn;
    [|by apply wlp_ret].
  apply wlp_bind, wlp_modify, wlp_ret. cbn. split_and!.
  - by eapply opened_ctx.
  - by rewrite <- He1.
  - by apply land_lor_flag.
Qed.

Lemma bind_any_spec fd l : forall c w (Q : bool -> conn W -> Prop),
  (forall b w', fds w' = fds w -> Q b (mk_conn c w')) -> wlp (bind_any fd l) Q (mk_conn c w).
Proof.
  induction l as [|b l IH]; intros c w Q HQ; cbn [bind_any]; [by apply wlp_ret, HQ|].
  apply wlp_bind. same_world. cbn [ctx os] in *. case_match; [apply wlp_ret; by apply HQ|].
  apply IH. intros b' w2 Hw2. apply HQ. congruence.
Qed.

Lemma bind_source_spec F fd family st :
  opened F st ->
  wlp (bind_source fd family false) (fun ok st' => if ok : bool
    then opened F st' /\ c_err (ctx st') = c_err (ctx st)
    else owned F st' /\ c_err (ctx st') <> 0) st.
Proof.
  destruct st as [c w]. intros Ho. unfold bind_source, get_ctx, get_errno, __redisSetError, upd.
  apply wlp_bind, wlp_gets. cbn [ctx]. destruct (c_source_addr c) as [source|]; [|by apply wlp_ret].
  apply wlp_bind. same_world. cbn [ctx os] in *. case_match.
  { apply wlp_bind, wlp_modify, wlp_ret. cbn. split; [|done]. right. eapply opened_ctx, opened_world; done. }
  apply wlp_bind, wlp_ret. cbn [Z.ltb Z.compare]. apply wlp_bind, bind_any_spec. intros b w2 Hw2.
  cbn [ctx os] in *. destruct b.
  - apply wlp_ret. split; [|done]. eapply opened_world; [done|congruence].
  - apply wlp_bind, wlp_gets, wlp_bind, wlp_modify, wlp_ret. cbn. split; [|done]. right.
    eapply opened_ctx, opened_world; [done|done|cbn [ctx os]; congruence].
Qed.

Lemma new_socket F st (r : Z * W) :
  closed F st -> (r.1 = -1 /\ fds r.2 = fds (os st)) \/
    (0 <= r.1 /\ (r.1 ∉ fds (os st)) /\ fds r.2 = {[r.1]} ∪ fds (os st)) ->
  (r.1 = -1 /\ closed F (mk_conn (ctx st) r.2)) \/
  (r.1 <> -1 /\ opened F (mk_conn (set_fd r.1 (ctx st)) r.2)).
Proof.
  intros (Hz & Hp & Hf) [[Hr Hw]|(Hr & Hn & Hw)]; [left|right].
  - split; [done|]. split_and!; cbn; [done|done|congruence].
  - rewrite Hf in *. split; [lia|]. assert (r.1 <> 0) by (intros E; by rewrite E in Hn).
    split_and!; cbn; [done|lia|done|done].
Qed.

Lemma wlp_socket F f t p (Q : Z -> conn W -> Prop) st :
  closed F st ->
  (forall w', closed F (mk_conn (ctx st) w') -> Q (-1) (mk_conn (ctx st) w')) ->
  (forall r w', r <> -1 -> opened F (mk_conn (set_fd r (ctx st)) w') -> Q r (mk_conn (ctx st) w')) ->
  wlp (sys (sys_socket f t p)) Q st.
Proof.
  intros Hc Hno Hyes. apply wlp_sys.
  destruct (new_socket F st _ Hc (fds_socket f t p (os st))) as [[E Hc']|[E Ho]].
  - rewrite E. by apply Hno.
  - by apply Hyes.
Qed.

Lemma try_addr_spec F fuel p family b reuses st :
  closed F st -> wlp (try_addr fuel p family b false reuses) (addr_left F (c_err (ctx st))) st.
Proof.
  destruct st as [c w]. intros Hc. destruct fuel as [|fuel]; cbn [try_addr]; [apply wlp_fault|].
  apply wlp_bind. eapply wlp_socket; [done|..]; cbn [ctx].
  { intros w' Hc'. cbn. by apply wlp_ret. }
  intros r w1 Hr Ho. destruct (Z.eqb_spec r (-1)); [done|]. unfold upd, get_ctx, get_errno.
  apply wlp_bind, wlp_modify. cbn [ctx os].
  apply wlp_bind. eapply wlp_tries; [apply tries_blocking|done|..]; intros st2 Ho2 He2; cbn;
    [|by apply wlp_ret].
  apply wlp_bind. eapply wlp_mono; [by apply bind_source_spec|]. intros ok [c3 w3] Hok. cbn beta.
  destruct ok; cbn [negb]; [|by apply wlp_ret]. destruct Hok as [Ho3 He3]. cbn [ctx set_fd c_err] in *.
  rewrite He2 in He3. apply wlp_bind. same_world. cbn [ctx os] in *.
  assert (opened F (mk_conn c3 w')) as Ho4 by still_open.
  rewrite <- He3. case_match; [|by apply (finish_connect_spec F b (mk_conn c3 w'))].
  apply wlp_bind, wlp_gets. cbn [os]. case_match.
  { apply wlp_bind. eapply close_opened; [done|reflexivity|]. intros st5 Hc5 _ He5. by apply wlp_ret. }
  case_match; [by apply (finish_connect_spec F b (mk_conn c3 w'))|]. rewrite andb_false_r.
  apply wlp_bind, wlp_gets. cbn [ctx].
  apply wlp_bind. eapply wlp_tries; [apply tries_wait|done|..]; intros st5 Ho5 He5; cbn;
    [|by apply wlp_ret].
  cbn [ctx] in He5. rewrite <- He5. by apply finish_connect_spec.
Qed.

(** The result of a function that connects. *)
Definition connects F (e : Z) (r : Z) st : Prop :=
  (r = REDIS_OK /\ opened F st /\ c_err (ctx st) = e /\ connected st) \/
  (r = REDIS_ERR /\ owned F st /\ c_err (ctx st) <> 0).

Lemma try_addrs_spec F family b ps : forall reuses st,
  closed F st -> wlp (try_addrs ps family b false reuses) (connects F (c_err (ctx st))) st.
Proof.
  induction ps as [|p ps IH]; intros reuses [c w] Hc; cbn [try_addrs];
    unfold get_errno, __redisSetError, upd.
  { apply wlp_bind, wlp_gets, wlp_bind, wlp_modify, wlp_ret. right.
    split_and!; [done| |done]. left. by eapply closed_ctx. }
  apply wlp_bind. eapply wlp_mono; [by apply try_addr_spec|]. intros [rs| |] st' Ha; cbn in Ha.
  - destruct Ha as [Hc' He]. cbn [ctx] in *. rewrite <- He. by apply IH.
  - apply wlp_ret. right. tauto.
  - apply wlp_ret. left. tauto.
Qed.
Lemma tcp_spec F addr port tm source st :
  closed F st -> has_flag (ctx st) REDIS_REUSEADDR = false ->
  wlp (_redisContextConnectTcp addr port tm source) (connects F (c_err (ctx st))) st.
Proof.
  destruct st as [c w]. intros Hc Hr. cbn [ctx] in *. unfold _redisContextConnectTcp, get_ctx, upd.
  apply wlp_bind, wlp_gets. cbn [ctx]. rewrite Hr.
  destruct (if addr is None then _ else false); [apply wlp_fault|].
  apply wlp_bind, wlp_modify. cbn [ctx os].
  set (c1 := set_timeout tm (set_tcp addr source port c)).
  assert (forall w', fds w' = fds w -> closed F (mk_conn c1 w')) as Hc1.
  { intros w' Hw. apply (closed_same F (mk_conn c w)); [|done]. by split_and!. }
  apply wlp_bind. same_world. apply wlp_bind. cbn [ctx os] in *.
  assert (forall a w2, fds w2 = fds w ->
    wlp (let '(rv, servinfo, family) := a in
         if negb (rv =? 0) then
           _ ← __redisSetError REDIS_ERR_OTHER (gai_strerror rv); mret REDIS_ERR
         else try_addrs servinfo family (has_flag c REDIS_BLOCK) false 0)
      (connects F (c_err c)) (mk_conn c1 w2)) as Hend.
  { intros [[rv l] family] w2 Hw2. unfold __redisSetError, upd. case_match.
    - apply wlp_bind, wlp_modify, wlp_ret. right. split_and!; [done| |done]. left.
      eapply closed_ctx; [|by apply Hc1]. done.
    - change (c_err c) with (c_err (ctx (mk_conn c1 w2))). apply try_addrs_spec. by apply Hc1. }
  case_match.
  - apply wlp_bind. same_world. apply wlp_ret. cbn [ctx os] in *. apply (Hend (_, AF_INET6)). congruence.
  - apply wlp_ret. apply (Hend (_, AF_INET)). congruence.
Qed.

Lemma unix_spec F path tm st :
  closed F st -> wlp (redisContextConnectUnix path tm) (connects F (c_err (ctx st))) st.
Proof.
  destruct st as [c w]. intros Hc. unfold redisContextConnectUnix, redisCreateSocket, get_ctx, get_errno, upd.
  apply wlp_bind, wlp_gets. cbn [ctx]. set (b := has_flag c REDIS_BLOCK).
  apply wlp_bind, wlp_bind. eapply wlp_socket; [done|..]; cbn [ctx os].
  { intros w1 Hc1. cbn. apply wlp_bind, wlp_from_errno; [done|]. intros st1 Hs He. apply wlp_ret, wlp_ret.
    right. split_and!; [done|left; by eapply closed_same|done]. }
  intros r w1 Hr Ho. destruct (Z.eqb_spec r (-1)); [done|]. apply wlp_bind, wlp_modify. cbn.
  apply wlp_ret. cbn. assert (forall st', owned F st' -> c_err (ctx st') <> 0 ->
    wlp (mret REDIS_ERR) (connects F (c_err c)) st') as Herr by (intros; apply wlp_ret; by right).
  apply wlp_bind. eapply wlp_tries; [apply tries_blocking|done|..]; intros [c2 w2] Ho2 He2; cbn; [|by apply Herr].
  apply wlp_bind, wlp_modify. cbn [ctx os]. apply wlp_bind, wlp_gets, wlp_bind. cbn [ctx].
  set (c3 := set_timeout tm (set_unix path c2)).
  assert (opened F (mk_conn c3 w2)) as Ho3 by (by apply (opened_ctx F c2)).
  same_world. cbn [ctx os] in *. apply wlp_bind, wlp_gets. apply wlp_bind. cbn [os].
  assert (opened F (mk_conn c3 w')) as Ho4 by still_open.
  assert (c_err c3 = c_err c) as He3 by done.
  match goal with |- wlp (if ?x then _ else _) _ _ =>
    assert (tries F (if x then redisContextWaitReady tm else mret REDIS_OK)) as Ht end.
  { case_match; [apply tries_wait|]. intros st' Ho'. by apply tries_ok. }
  eapply wlp_tries; [exact Ht|done|..]; intros st5 Ho5 He5; cbn; [|by apply Herr].
  assert (tries F (if b then redisSetBlocking true else mret REDIS_OK)) as Hb.
  { destruct b; [apply tries_blocking|]. intros st' Ho'. by apply tries_ok. }
  apply wlp_bind. eapply wlp_tries; [exact Hb|done|..]; intros [c6 w6] Ho6 He6; cbn; [|by apply Herr].
  apply wlp_bind, wlp_modify, wlp_ret. left. cbn [ctx os] in *. split_and!.
  - done.
  - by eapply opened_ctx.
  - cbn. congruence.
  - by apply land_lor_flag.
Qed.
End connecting.

(** ** Nothing faults

    The programs of net.c return on every system; in particular [goto addrretry]
    is taken finitely often. *)
Section total.
Context {W : Type} `{Posix W}.

Lemma total_sys {A} (f : W -> A * W) : total (sys f).
Proof. intros st. unfold sys. destruct (f (os st)) as [a w]. by eexists _, _. Qed.
#[local] Hint Resolve total_sys : total.

Lemma total_close : total redisContextCloseFd.
Proof. unfold redisContextCloseFd, get_ctx, upd. total_steps. Qed.
Lemma total_from_errno type prefix : total (__redisSetErrorFromErrno type prefix).
Proof. unfold __redisSetErrorFromErrno, get_errno, __redisSetError, upd. total_steps. Qed.
Lemma total_set_error type str : total (__redisSetError (W := W) type str).
Proof. unfold __redisSetError, upd. total_steps. Qed.
#[local] Hint Resolve total_close total_from_errno total_set_error : total.
Lemma total_fail_close prefix : total (fail_close prefix).
Proof. unfold fail_close. total_steps. Qed.
#[local] Hint Resolve total_fail_close : total.
Lemma total_blocking b : total (redisSetBlocking b).
Proof. unfold redisSetBlocking, get_ctx. total_steps. Qed.
Lemma total_nodelay : total redisSetTcpNoDelay.
Proof. unfold redisSetTcpNoDelay, get_ctx. total_steps. Qed.
Lemma total_check : total redisCheckSocketError.
Proof. unfold redisCheckSocketError, get_ctx. total_steps. Qed.
#[local] Hint Resolve total_blocking total_nodelay total_check : total.
Lemma total_wait tm : total (redisContextWaitReady tm).
Proof. unfold redisContextWaitReady, get_ctx, get_errno. total_steps. Qed.
Lemma total_bind_any fd l : total (bind_any fd l).
Proof. induction l as [|b l IH]; cbn [bind_any]; total_steps. Qed.
#[local] Hint Resolve total_wait total_bind_any : total.
Lemma total_bind_source fd family reuse : total (bind_source fd family reuse).
Proof. unfold bind_source, get_ctx, get_errno. total_steps. Qed.
Lemma total_finish b : total (finish_connect b).
Proof. unfold finish_connect, upd. total_steps. Qed.
#[local] Hint Resolve total_bind_source total_finish : total.

Lemma total_try_addr fuel p family b reuse : forall reuses,
  (0 < fuel)%nat -> REDIS_CONNECT_RETRIES <= reuses + Z.of_nat fuel ->
  total (try_addr fuel p family b reuse reuses).
Proof.
  induction fuel as [|fuel IH]; intros reuses H0 Hf; [lia|].
  cbn [try_addr]. unfold upd, get_ctx, get_errno. total_steps. apply IH; lia.
Qed.

Definition next_ge (n : Z) (a : attempt) : Prop :=
  match a with NextAddr r => n <= r | _ => True end.

(** The retries are counted over all addresses. *)
Lemma try_addr_reuses fuel p family b reuse : forall reuses st,
  wlp (try_addr fuel p family b reuse reuses) (fun a _ => next_ge reuses a) st.
Proof.
  assert (forall n b st, wlp (finish_connect b) (fun a _ => next_ge n a) st) as Hfin.
  { intros n b' st. unfold finish_connect. repeat (wlp_step || intros ? ? _); done. }
  induction fuel as [|fuel IH]; intros reuses st; cbn [try_addr]; [apply wlp_fault|].
  repeat (cbv beta zeta; first
    [ apply Hfin
    | eapply wlp_mono; [apply IH|intros [r| |] ?; cbn; lia]
    | wlp_step
    | intros ? ? _ ]); cbn; done || lia.
Qed.

Lemma total_try_addrs family b reuse ps : forall reuses,
  0 <= reuses -> total (try_addrs ps family b reuse reuses).
Proof.
  induction ps as [|p ps IH]; intros reuses Hr; cbn [try_addrs].
  { unfold get_errno. total_steps. }
  intros st. destruct (total_try_addr retry_fuel p family b reuse reuses) with (st := st)
    as (a & st1 & E); [unfold retry_fuel, REDIS_CONNECT_RETRIES; lia..|].
  rewrite (bind_eq _ _ _ _ _ E). apply try_addr_reuses in E.
  destruct a as [r| |]; [apply IH; cbn in E; lia|apply total_ret..].
Qed.

Lemma total_tcp addr port tm source st :
  (addr = None -> c_host (ctx st) = None) ->
  exists r st', _redisContextConnectTcp addr port tm source st = Some (r, st').
Proof.
  intros Ha. unfold _redisContextConnectTcp, get_ctx.
  erewrite bind_eq by reflexivity.
  assert ((if addr is None then bool_decide (is_Some (c_host (ctx st))) else false) = false) as ->.
  { destruct addr; [done|]. apply bool_decide_eq_false_2. rewrite Ha by done. by intros [? ?]. }
  pose proof (total_try_addrs) as Ht.
  apply total_bind; [apply total_modify|]. intros _. apply total_bind; [auto with total|]. intros g.
  apply total_bind; [total_steps|]. intros [[rv l] family]. total_steps. apply Ht. lia.
Qed.

Lemma total_unix path tm : total (redisContextConnectUnix path tm).
Proof.
  unfold redisContextConnectUnix, redisCreateSocket, redisSetReuseAddr, get_ctx, get_errno, upd.
  total_steps.
Qed.
End total.
