(* ===== verification/NetScript.v ===== *)
(** * A scripted system

    An instance of [Posix] for concrete runs and for statements about the traffic
    of one connection: what [read], [write] and [connect] do comes from scripts.
    A read takes at most the bytes asked for, the rest of the packet stays; at the
    end of the script the peer has closed.  A write that is not scripted takes
    everything.  The table of descriptors is a set. *)

From S2P Require Import Prelude Effects Reply Net NetSpec.

Inductive rd := RdData (d : bytes) | RdErr (e : Z).
Inductive wr := WrSome (k : Z) | WrErr (e : Z).

Record net := mk_net {
  n_errno : Z;
  n_fds : gset Z;
  n_reads : list rd;
  n_writes : list wr;
  n_sent : bytes;
  (** the answers of [getaddrinfo]: an error number or addresses *)
  n_resolve : list (Z * list addrinfo);
  (** the errors of [connect], 0 for success; then every one succeeds *)
  n_connects : list Z;
  (** options that [setsockopt] refuses *)
  n_refused : list Z
}.
Implicit Types (w : net).

Definition net_errno w (e : Z) : net :=
  mk_net e (n_fds w) (n_reads w) (n_writes w) (n_sent w) (n_resolve w) (n_connects w) (n_refused w).
Definition net_fds w (f : gset Z) : net :=
  mk_net (n_errno w) f (n_reads w) (n_writes w) (n_sent w) (n_resolve w) (n_connects w) (n_refused w).
Definition net_reads w (l : list rd) : net :=
  mk_net (n_errno w) (n_fds w) l (n_writes w) (n_sent w) (n_resolve w) (n_connects w) (n_refused w).
Definition net_writes w (l : list wr) (d : bytes) : net :=
  mk_net (n_errno w) (n_fds w) (n_reads w) l (n_sent w ++ d) (n_resolve w) (n_connects w) (n_refused w).
Definition net_resolve w l : net :=
  mk_net (n_errno w) (n_fds w) (n_reads w) (n_writes w) (n_sent w) l (n_connects w) (n_refused w).
Definition net_connects w l : net :=
  mk_net (n_errno w) (n_fds w) (n_reads w) (n_writes w) (n_sent w) (n_resolve w) l (n_refused w).

(** The lowest descriptor that is free, as POSIX says. *)
Fixpoint lowest (fuel : nat) (f : gset Z) (n : Z) : Z :=
  match fuel with
  | O => n
  | S fuel' => if decide (n ∈ f) then lowest fuel' f (n + 1) else n
  end.
Definition new_fd (f : gset Z) : Z := lowest (S (base.size f)) f 0.

Definition net_read (n : Z) w : Z * bytes * net :=
  match n_reads w with
  | [] => (0, [], w)
  | RdErr e :: l => (-1, [], net_errno (net_reads w l) e)
  | RdData d :: l =>
      if zlen d <=? n then (zlen d, d, net_reads w l)
      else (n, take (Z.to_nat n) d, net_reads w (RdData (drop (Z.to_nat n) d) :: l))
  end.

Definition net_write (d : bytes) w : Z * net :=
  match n_writes w with
  | [] => (zlen d, net_writes w [] d)
  | WrErr e :: l => (-1, net_errno (net_writes w l []) e)
  | WrSome k :: l => let k := Z.min k (zlen d) in (k, net_writes w l (take (Z.to_nat k) d))
  end.

Definition net_connect w : Z * net :=
  match n_connects w with
  | [] => (0, w)
  | e :: l => if e =? 0 then (0, net_connects w l) else (-1, net_errno (net_connects w l) e)
  end.

#[global] Instance net_posix : Posix net := {
  errno := n_errno;
  set_errno e w := net_errno w e;
  strerror e := s "error " ++ dec e;
  gai_strerror e := s "resolver error";
  sys_socket _ _ _ w := (new_fd (n_fds w), net_fds w ({[new_fd (n_fds w)]} ∪ n_fds w));
  sys_close fd w := net_fds w (n_fds w ∖ {[fd]});
  sys_fcntl _ _ _ w := (0, w);
  sys_setsockopt _ _ o _ w := (if bool_decide (o ∈ n_refused w) then -1 else 0, w);
  sys_getsockopt_error _ w := (0, 0, w);
  sys_bind _ _ w := (0, w);
  sys_connect _ _ w := net_connect w;
  sys_poll _ _ w := (1, w);
  sys_getaddrinfo _ _ _ w :=
    match n_resolve w with
    | [] => (0, [mk_ai AF_INET SOCK_STREAM 0 (SaInet [])], w)
    | (e, l) :: r => (e, l, net_resolve w r)
    end;
  sys_read _ n w := net_read n w;
  sys_write _ d w := net_write d w
}.

(** ** The laws *)

Lemma lowest_spec fuel f : forall n,
  n <= lowest fuel f n /\
  (lowest fuel f n ∈ f -> forall i, n <= i < n + Z.of_nat fuel -> i ∈ f).
Proof.
  induction fuel as [|fuel IH]; intros n; cbn [lowest]; [split; [lia|]; intros _ i ?; lia|].
  destruct (decide (n ∈ f)) as [Hn|Hn].
  - destruct (IH (n + 1)) as [Hle Hin]. split; [lia|]. intros Hl i Hi.
    destruct (decide (i = n)) as [->|]; [done|]. apply Hin; [done|lia].
  - split; [lia|]. done.
Qed.

Lemma new_fd_spec f : 0 <= new_fd f /\ new_fd f ∉ f.
Proof.
  unfold new_fd. destruct (lowest_spec (S (base.size f)) f 0) as [Hle Hin]. split; [done|].
  intros Hf. specialize (Hin Hf).
  pose (l := map Z.of_nat (seq 0 (S (base.size f)))).
  assert (list_to_set l ⊆@{gset Z} f) as Hsub.
  { intros i Hi%elem_of_list_to_set. unfold l in Hi. apply list_elem_of_fmap in Hi as (k & -> & Hk).
    apply elem_of_seq in Hk. apply Hin. lia. }
  apply subseteq_size in Hsub. rewrite size_list_to_set in Hsub.
  - unfold l in Hsub. rewrite length_map, length_seq in Hsub. lia.
  - unfold l. apply NoDup_fmap_2; [intros ? ? ?; lia|apply NoDup_seq].
Qed.

#[global] Program Instance net_laws : PosixLaws net := { fds := n_fds }.
Next Obligation. done. Qed.
Next Obligation. intros f t p w. right. cbn. destruct (new_fd_spec (n_fds w)). done. Qed.
Next Obligation. done. Qed.
Next Obligation. done. Qed.
Next Obligation. done. Qed.
Next Obligation. done. Qed.
Next Obligation. done. Qed.
Next Obligation. intros fd a w. cbn. unfold net_connect. by repeat case_match. Qed.
Next Obligation. done. Qed.
Next Obligation. intros n p f w. cbn. by repeat case_match. Qed.
Next Obligation. intros fd n w. cbn. unfold net_read. by repeat case_match. Qed.
Next Obligation. intros fd d w. cbn. unfold net_write. by repeat case_match. Qed.
