(* ===== verification/HiutilIo.v ===== *)
(** * hiutil.c: memory and sockets

    The wrappers of the allocator, options of a socket, and the loops that send or receive a number of bytes on a
    blocking descriptor.  The system calls that [Posix] does not have are the class
    [Sockets]; [SocketLaws] is what POSIX says of sending and receiving, and that a
    call is not interrupted for ever. *)

From S2P Require Import Prelude Effects Net NetSpec NetScript.

(** ** Memory

    [alloc] as for [Sds]: a fresh block, or [None] when memory is exhausted. *)
Section memory.
Context (alloc : Z -> option bytes).
Definition _hi_alloc (size : Z) : option bytes := alloc size.
Definition _hi_zalloc (size : Z) : option bytes := _ ← _hi_alloc size; Some (repeat NUL (Z.to_nat size)).
Definition _hi_calloc (nmemb size : Z) : option bytes := _hi_zalloc (u64 (nmemb * size)).
(** The old bytes stay, as far as there is room. *)
Definition _hi_realloc (old : bytes) (size : Z) : option bytes :=
  b ← alloc size; Some (take (Z.to_nat size) old ++ drop (length old) b).

Lemma hi_realloc_keeps old size b : (forall n b, alloc n = Some b -> zlen b = n) -> zlen old <= size ->
  _hi_realloc old size = Some b -> zlen b = size /\ take (length old) b = old.
Proof.
  intros Ha Hs E. unfold _hi_realloc in E. destruct (alloc size) as [n|] eqn:En; [|done]. injection E as <-. apply Ha in En.
  rewrite take_ge by (unfold zlen in *; lia). rewrite take_app_length. split; [|done].
  unfold zlen in *. rewrite length_app, length_drop. lia.
Qed.
End memory.
(** The product is not checked, as [calloc] of the library does. *)
Example calloc_overflows : _hi_calloc (fun _ => Some []) (2 ^ 63) 2 = Some [].
Proof. vm_compute. reflexivity. Qed.

Class Sockets (W : Type) `{Posix W} := {
  sys_send : Z -> bytes -> W -> Z * W;
  (** the result and the bytes stored in the buffer *)
  sys_recv : Z -> Z -> W -> Z * bytes * W;
  sys_linger : Z -> Z -> Z -> W -> Z * W;
  (** the result and the value of an option of SOL_SOCKET *)
  sys_getsockopt : Z -> Z -> W -> Z * Z * W
}.
Definition SO_ERROR : Z := 4.
Definition SO_SNDBUF : Z := 7.
Definition SO_RCVBUF : Z := 8.

Section io.
Context {W : Type} `{Sockets W}.
Abbreviation M := (prog W).

Definition syscall {A} (f : W -> A * W) : M A := fun w => Some (f w).

(** ** Options *)

Definition hi_set_blocking (sd : Z) : M Z :=
  flags ← syscall (sys_fcntl sd F_GETFL 0);
  if flags <? 0 then mret flags else syscall (sys_fcntl sd F_SETFL (Z.ldiff flags O_NONBLOCK)).
Definition hi_set_nonblocking (sd : Z) : M Z :=
  flags ← syscall (sys_fcntl sd F_GETFL 0);
  if flags <? 0 then mret flags else syscall (sys_fcntl sd F_SETFL (Z.lor flags O_NONBLOCK)).
Definition hi_set_reuseaddr (sd : Z) : M Z := syscall (sys_setsockopt sd SOL_SOCKET SO_REUSEADDR (OptInt 1)).
Definition hi_set_tcpnodelay (sd : Z) : M Z := syscall (sys_setsockopt sd IPPROTO_TCP TCP_NODELAY (OptInt 1)).
Definition hi_set_linger (sd timeout : Z) : M Z := syscall (sys_linger sd 1 timeout).
Definition hi_set_sndbuf (sd size : Z) : M Z := syscall (sys_setsockopt sd SOL_SOCKET SO_SNDBUF (OptInt size)).
Definition hi_set_rcvbuf (sd size : Z) : M Z := syscall (sys_setsockopt sd SOL_SOCKET SO_RCVBUF (OptInt size)).
Definition hi_get_soerror (sd : Z) : M Z :=
  r ← syscall (sys_getsockopt sd SO_ERROR);
  if r.1 =? 0 then _ ← modify (set_errno r.2); mret r.1 else mret r.1.
Definition hi_get_sndbuf (sd : Z) : M Z :=
  r ← syscall (sys_getsockopt sd SO_SNDBUF); mret (if r.1 <? 0 then r.1 else r.2).
Definition hi_get_rcvbuf (sd : Z) : M Z :=
  r ← syscall (sys_getsockopt sd SO_RCVBUF); mret (if r.1 <? 0 then r.1 else r.2).

(** ** Loops

    [ptr] is what is left to send, [n] what there was. *)
Fixpoint sendn_loop (fuel : nat) (sd : Z) (ptr : bytes) (n : Z) : M Z :=
  if zlen ptr =? 0 then mret n else
  match fuel with
  | O => fault
  | S fuel =>
      nsend ← syscall (sys_send sd ptr);
      if nsend <? 0 then
        e ← gets errno;
        if e =? EINTR then sendn_loop fuel sd ptr n else mret nsend
      else if nsend =? 0 then mret (-1)
      else sendn_loop fuel sd (drop (Z.to_nat nsend) ptr) n
  end.
Definition _hi_sendn (fuel : nat) (sd : Z) (vptr : bytes) : M Z := sendn_loop fuel sd vptr (zlen vptr).

(** [got] is in the buffer; the buffer is returned too. *)
Fixpoint recvn_loop (fuel : nat) (sd : Z) (nleft : Z) (got : bytes) : M (Z * bytes) :=
  if nleft =? 0 then mret (zlen got, got) else
  match fuel with
  | O => fault
  | S fuel =>
      r ← syscall (sys_recv sd nleft);
      let '(nrecv, d) := r in
      if nrecv <? 0 then
        e ← gets errno;
        if e =? EINTR then recvn_loop fuel sd nleft got else mret (nrecv, got)
      else if nrecv =? 0 then mret (zlen got, got)
      else recvn_loop fuel sd (nleft - nrecv) (got ++ d)
  end.
Definition _hi_recvn (fuel : nat) (sd n : Z) : M (Z * bytes) := recvn_loop fuel sd n [].
End io.

(** ** What the loops promise *)

(** [peer w]: what was sent; [stream w]: what is to come; [patience w]: how often
    calls are still interrupted. *)
Class SocketLaws (W : Type) `{Sockets W} := {
  peer : W -> bytes;
  stream : W -> bytes;
  patience : W -> nat;
  sent sd d w : let r := sys_send sd d w in
    r.1 <= zlen d /\ peer r.2 = peer w ++ take (Z.to_nat r.1) d /\ (patience r.2 <= patience w)%nat /\
    (r.1 < 0 -> errno r.2 = EINTR -> (patience r.2 < patience w)%nat);
  received sd n w : 0 < n -> let r := sys_recv sd n w in
    r.1.1 <= n /\ stream w = r.1.2 ++ stream r.2 /\ zlen r.1.2 = Z.max 0 r.1.1 /\ (patience r.2 <= patience w)%nat /\
    (r.1.1 < 0 -> errno r.2 = EINTR -> (patience r.2 < patience w)%nat)
}.

Section spec.
Context {W : Type} `{SocketLaws W}.

Lemma take_take_drop (a b : nat) (l : bytes) : take a l ++ take b (drop a l) = take (a + b) l.
Proof. by rewrite take_take_drop. Qed.

Lemma sendn_loop_spec fuel sd n : forall ptr w, zlen ptr + Z.of_nat (patience w) < Z.of_nat fuel ->
  wp (sendn_loop fuel sd ptr n) (fun r w' =>
    (r = n /\ peer w' = peer w ++ ptr) \/ (r < 0 /\ exists k, (k < length ptr)%nat /\ peer w' = peer w ++ take k ptr)) w.
Proof.
  induction fuel as [|fuel IH]; intros ptr w Hf; [pose proof (zlen_nonneg ptr); lia|]. cbn [sendn_loop].
  destruct (Z.eqb_spec (zlen ptr) 0) as [E|E].
  { apply wp_ret. left. destruct ptr; [by rewrite app_nil_r|zlen_lia]. }
  assert (0 < length ptr)%nat as Hp by (unfold zlen in E; lia).
  apply wp_bind. unfold wp at 1, syscall. destruct (sent sd ptr w) as (Hle & Hpeer & Hpat & Hint).
  destruct (sys_send sd ptr w) as [nsend w1]. cbn [fst snd] in *. eexists _, _. split; [reflexivity|].
  destruct (Z.ltb_spec nsend 0).
  - rewrite (Z2Nat.nonpos nsend), take_0, app_nil_r in Hpeer by lia. apply wp_bind. unfold wp at 1, gets. eexists _, _. split; [reflexivity|].
    destruct (Z.eqb_spec (errno w1) EINTR) as [Ee|Ee].
    + specialize (Hint ltac:(lia) Ee). rewrite <- Hpeer. apply IH. lia.
    + apply wp_ret. right. split; [done|]. exists O. by rewrite take_0, app_nil_r.
  - destruct (Z.eqb_spec nsend 0) as [->|Hn].
    + apply wp_ret. right. split; [done|]. by exists O.
    + assert (zlen (drop (Z.to_nat nsend) ptr) = zlen ptr - nsend) as Hd by (unfold zlen in *; rewrite length_drop; lia).
      eapply wp_mono; [apply IH; lia|]. intros r w2 [[-> Hr]|(Hneg & k & Hk & Hr)].
      * left. split; [done|]. by rewrite Hr, Hpeer, <- app_assoc, take_drop.
      * right. split; [done|]. exists (Z.to_nat nsend + k)%nat. rewrite length_drop in Hk.
        split; [lia|]. by rewrite Hr, Hpeer, <- app_assoc, take_take_drop.
Qed.

Lemma recvn_loop_spec fuel sd : forall nleft got w, 0 <= nleft -> nleft + Z.of_nat (patience w) < Z.of_nat fuel ->
  wp (recvn_loop fuel sd nleft got) (fun r w' => exists d, r.2 = got ++ d /\ stream w = d ++ stream w' /\
    zlen d <= nleft /\ (r.1 = zlen r.2 \/ r.1 < 0)) w.
Proof.
  induction fuel as [|fuel IH]; intros nleft got w Hnl Hf; [lia|]. cbn [recvn_loop].
  destruct (Z.eqb_spec nleft 0) as [E|E].
  { apply wp_ret. exists []. rewrite app_nil_r. split_and!; [done|done|done|by left]. }
  apply wp_bind. unfold wp at 1, syscall. destruct (received sd nleft w ltac:(lia)) as (Hle & Hs & Hz & Hpat & Hint).
  destruct (sys_recv sd nleft w) as [[nrecv d] w1]. cbn [fst snd] in *. eexists _, _. split; [reflexivity|]. cbn iota beta.
  destruct (Z.ltb_spec nrecv 0).
  - assert (d = []) as -> by (destruct d; [done|zlen_lia]). apply wp_bind. unfold wp at 1, gets. eexists _, _. split; [reflexivity|].
    destruct (Z.eqb_spec (errno w1) EINTR) as [Ee|Ee].
    + specialize (Hint ltac:(lia) Ee). rewrite Hs. apply IH; lia.
    + apply wp_ret. exists []. rewrite app_nil_r. split_and!; [done|done|zlen_lia|by right].
  - destruct (Z.eqb_spec nrecv 0) as [->|Hn].
    + assert (d = []) as -> by (destruct d; [done|zlen_lia]). apply wp_ret. exists []. rewrite app_nil_r.
      split_and!; [done|done|zlen_lia|by left].
    + eapply wp_mono; [apply IH; lia|]. intros [r b] w2 (d2 & -> & Hs2 & Hl & Hr). exists (d ++ d2).
      rewrite Hs, Hs2, <- !app_assoc. split_and!; [done|done|zlen_lia|by rewrite app_assoc].
Qed.
End spec.

(** ** The scripted system *)

#[global] Instance net_sockets : Sockets net := {
  sys_send _ d w := net_write d w;
  sys_recv _ n w := net_read n w;
  sys_linger _ _ _ w := (0, w);
  sys_getsockopt _ _ w := (0, 0, w)
}.
Definition packet (r : rd) : bytes := if r is RdData d then d else [].
#[global, refine] Instance net_socket_laws : SocketLaws net := {
  peer := n_sent;
  stream w := concat (map packet (n_reads w));
  patience w := (length (n_reads w) + length (n_writes w))%nat
}.
Proof.
  - intros sd d w. cbn. unfold net_write. destruct (n_writes w) as [|[k|e] l]; cbn.
    + split_and!; [done| |lia|pose proof (zlen_nonneg d); lia]. rewrite take_ge; [done|unfold zlen; lia].
    + split_and!; [lia|done|lia|lia].
    + split_and!; [pose proof (zlen_nonneg d); lia|done|lia|lia].
  - intros sd n w Hn. cbn. unfold net_read. destruct (n_reads w) as [|[d|e] l] eqn:E; cbn.
    + rewrite E. cbn. split_and!; try done; intros; lia.
    + destruct (Z.leb_spec (zlen d) n); cbn.
      * pose proof (zlen_nonneg d). split_and!; [done|done|lia|lia|lia].
      * assert (length (take (Z.to_nat n) d) = Z.to_nat n) as Hl by (rewrite length_take; unfold zlen in *; lia).
        split_and!; [done|by rewrite app_assoc, take_drop|unfold zlen; lia|lia|lia].
    + split_and!; [lia|done|done|lia|lia].
Defined.
Example sendn_resumes :
  (fun x => (x.1, n_sent x.2)) <$> _hi_sendn 9 3 (s "PING") (mk_net 0 {[0; 1; 2]} [] [WrSome 1; WrErr EINTR; WrSome 2] [] [] [] []) =
  Some (4, s "PING").
Proof. vm_compute. reflexivity. Qed.
Example recvn_stops_at_end :
  fst <$> _hi_recvn 9 3 6 (mk_net 0 {[0; 1; 2]} [RdData (s "ab"); RdErr EINTR; RdData (s "c")] [] [] [] [] []) =
  Some (3, s "abc").
Proof. vm_compute. reflexivity. Qed.
