(* ===== verification/Context.v ===== *)
(** * hiredis.c: a connection

    The functions of hiredis.c on a [redisContext]: creating and freeing it,
    the two buffers, requests and replies.  The output buffer is an sds string,
    the input goes to the reader of [Reader].  A fault is an access through NULL
    or outside an object; [alloc] and [malloc_ok] say which allocations succeed. *)

From S2P Require Import Prelude Effects Reply Resp Format Sds Reader Vformat Net.

Section context.
Context {W : Type} `{Posix W} (alloc : Z -> option bytes) (malloc_ok : Z -> bool).
Context (printf : bytes -> vararg -> bytes).
Abbreviation M := (prog (conn W)).
Implicit Types (c : redisContext).

(** ** Creating and freeing *)

(** NULL of a constructor of sds strings. *)
Definition null_sds (x : nullable sds) : option (option sds) :=
  match x with Ok y => Some (Some y) | Err _ => Some None | Bad => None end.

Definition sizeof_context : Z := 256.

(** [close] is the only effect of [redisFree] on the system. *)
Definition redisFree (c : redisContext) : prog W () :=
  if 0 <? c_fd c then modify (sys_close (c_fd c)) else mret ().

(** The result is NULL when memory is exhausted. *)
Definition redisContextInit : prog W (option redisContext) :=
  if negb (malloc_ok sizeof_context) then mret None else
  obuf ← lift (null_sds (sdsempty alloc));
  let reader := redisReaderCreate alloc in
  let c := mk_context 0 [] 0 0 obuf reader REDIS_CONN_TCP None None None 0 None in
  if (if obuf is None then true else false) || (if reader is None then true else false) then
    _ ← redisFree c;
    mret None
  else mret (Some c).

Definition redisFreeKeepFd (c : redisContext) : prog W Z :=
  _ ← redisFree (set_fd (-1) c);
  mret (c_fd c).

(** Run a function of a context that was just made. *)
Definition on_context (m : M ()) (c : redisContext) : prog W (option redisContext) :=
  fun w =>
    match m (mk_conn c w) with
    | Some (_, st) => Some (Some (ctx st), os st)
    | None => None
    end.

(** [c = redisContextInit(); if (c == NULL) return NULL; ...] *)
Definition new_context (flags : Z -> Z) (connect : M Z) : prog W (option redisContext) :=
  c ← redisContextInit;
  match c with
  | None => mret None
  | Some c => on_context (_ ← connect; mret ()) (set_flags (flags (c_flags c)) c)
  end.

Definition block (f : Z) : Z := Z.lor f REDIS_BLOCK.
Definition nonblock (f : Z) : Z := Z.ldiff f REDIS_BLOCK.

Definition redisConnect (ip : bytes) (port : Z) : prog W (option redisContext) :=
  new_context block (redisContextConnectTcp (Some ip) port None).
Definition redisConnectWithTimeout (ip : bytes) (port : Z) (tv : timeval)
  : prog W (option redisContext) :=
  new_context block (redisContextConnectTcp (Some ip) port (Some tv)).
Definition redisConnectNonBlock (ip : bytes) (port : Z) : prog W (option redisContext) :=
  new_context nonblock (redisContextConnectTcp (Some ip) port None).

(** These two do not test for NULL. *)
Definition redisConnectBindNonBlock (ip : bytes) (port : Z) (source_addr : option bytes)
  : prog W (option redisContext) :=
  c ← redisContextInit;
  c ← lift c;
  on_context (_ ← redisContextConnectBindTcp (Some ip) port None source_addr; mret ())
    (set_flags (nonblock (c_flags c)) c).
Definition redisConnectBindNonBlockWithReuse (ip : bytes) (port : Z) (source_addr : option bytes)
  : prog W (option redisContext) :=
  c ← redisContextInit;
  c ← lift c;
  on_context (_ ← redisContextConnectBindTcp (Some ip) port None source_addr; mret ())
    (set_flags (Z.lor (nonblock (c_flags c)) REDIS_REUSEADDR) c).

Definition redisConnectUnix (path : bytes) : prog W (option redisContext) :=
  new_context block (redisContextConnectUnix path None).
Definition redisConnectUnixWithTimeout (path : bytes) (tv : timeval) : prog W (option redisContext) :=
  new_context block (redisContextConnectUnix path (Some tv)).
Definition redisConnectUnixNonBlock (path : bytes) : prog W (option redisContext) :=
  new_context nonblock (redisContextConnectUnix path None).
Definition redisConnectFd (fd : Z) : prog W (option redisContext) :=
  c ← redisContextInit;
  mret ((fun c => set_flags (Z.lor (Z.lor (c_flags c) REDIS_BLOCK) REDIS_CONNECTED) (set_fd fd c)) <$> c).

(** The buffers are made anew, their allocation is not tested; the third branch
    of the code is for a connection type that does not exist. *)
Definition redisReconnect : M Z :=
  _ ← upd (set_err 0 []);
  c ← get_ctx;
  _ ← (if 0 <? c_fd c then sys (fun w => ((), sys_close (c_fd c) w)) else mret ());
  obuf ← lift (null_sds (sdsempty alloc));
  _ ← upd (set_bufs obuf (redisReaderCreate alloc));
  match c_connection_type c with
  | REDIS_CONN_TCP => redisContextConnectBindTcp (c_host c) (c_port c) (c_timeout c) (c_source_addr c)
  | REDIS_CONN_UNIX =>
      path ← lift (c_path c);
      redisContextConnectUnix path (c_timeout c)
  end.

Definition redisSetTimeout (tv : timeval) : M Z :=
  c ← get_ctx;
  if has_flag c REDIS_BLOCK then redisContextSetTimeout tv else mret REDIS_ERR.

Definition REDIS_KEEPALIVE_INTERVAL : Z := 15.
Definition redisEnableKeepAlive : M Z :=
  r ← redisKeepAlive REDIS_KEEPALIVE_INTERVAL;
  mret (if negb (r =? REDIS_OK) then REDIS_ERR else REDIS_OK).

(** ** Input and output *)

Definition put_reader (r : redisReader) : M () := upd (fun c => set_bufs (c_obuf c) (Some r) c).
Definition put_obuf (b : option sds) : M () := upd (fun c => set_bufs b (c_reader c) c).

(** The error branches of [read] and [write]: whether to go on. *)
Definition io_failed : M bool :=
  c ← get_ctx;
  e ← get_errno;
  if ((e =? EAGAIN) && negb (has_flag c REDIS_BLOCK)) || (e =? EINTR) then mret true else
  _ ← (if (e =? EWOULDBLOCK) && has_flag c REDIS_BLOCK
       then __redisSetError REDIS_ERR_TIMEOUT (s "Socket timeout")
       else __redisSetError_null REDIS_ERR_IO);
  mret false.

Definition redisBufferRead : M Z :=
  c ← get_ctx;
  if negb (c_err c =? 0) then mret REDIS_ERR else
  r ← sys (sys_read (c_fd c) (1024 * 16));
  let '(nread, buf) := r in
  if nread =? -1 then
    again ← io_failed;
    mret (if again : bool then REDIS_OK else REDIS_ERR)
  else if nread =? 0 then
    _ ← __redisSetError REDIS_ERR_EOF (s "Server closed the connection");
    mret REDIS_ERR
  else
    reader ← lift (c_reader c);
    f ← lift (redisReaderFeed alloc reader (take (Z.to_nat nread) buf));
    _ ← put_reader f.2;
    if negb (f.1 =? REDIS_OK) then
      _ ← __redisSetError (r_err f.2) (r_errstr f.2);
      mret REDIS_ERR
    else mret REDIS_OK.

(** The result and [*done]. *)
Definition redisBufferWrite : M (Z * bool) :=
  c ← get_ctx;
  if negb (c_err c =? 0) then mret (REDIS_ERR, false) else
  obuf ← lift (c_obuf c);
  ok ← (if 0 <? sds_len obuf then
          nwritten ← sys (sys_write (c_fd c) (sds_value obuf));
          if nwritten =? -1 then io_failed
          else if 0 <? nwritten then
            _ ← (if nwritten =? sds_len obuf then
                   b ← lift (null_sds (sdsempty alloc)); put_obuf b
                 else
                   b ← lift (null_sds (sdsrange obuf nwritten (-1))); put_obuf b);
            mret true
          else mret true
        else mret true);
  if negb ok then mret (REDIS_ERR, false) else
  c ← get_ctx;
  obuf ← lift (c_obuf c);
  mret (REDIS_OK, sds_len obuf =? 0).

Definition redisGetReplyFromReader : M (Z * option redisReply) :=
  c ← get_ctx;
  reader ← lift (c_reader c);
  g ← lift (redisReaderGetReply malloc_ok reader);
  let '(ret, x, reader) := g in
  _ ← put_reader reader;
  if ret =? REDIS_ERR then
    _ ← __redisSetError (r_err reader) (r_errstr reader);
    mret (REDIS_ERR, None)
  else mret (REDIS_OK, x).

(** The [do ... while] loops of [redisGetReply]. *)
Fixpoint write_until_done (fuel : nat) : M Z :=
  match fuel with
  | O => fault
  | S fuel' =>
      r ← redisBufferWrite;
      if r.1 =? REDIS_ERR then mret REDIS_ERR
      else if r.2 : bool then mret REDIS_OK else write_until_done fuel'
  end.
Fixpoint read_until_reply (fuel : nat) : M (Z * option redisReply) :=
  match fuel with
  | O => fault
  | S fuel' =>
      r ← redisBufferRead;
      if r =? REDIS_ERR then mret (REDIS_ERR, None) else
      g ← redisGetReplyFromReader;
      if g.1 =? REDIS_ERR then mret (REDIS_ERR, None) else
      if g.2 is Some x then mret (REDIS_OK, Some x) else read_until_reply fuel'
  end.

Definition redisGetReply (fuel : nat) : M (Z * option redisReply) :=
  g ← redisGetReplyFromReader;
  if g.1 =? REDIS_ERR then mret (REDIS_ERR, None) else
  c ← get_ctx;
  if (if g.2 is None then true else false) && has_flag c REDIS_BLOCK then
    w ← write_until_done fuel;
    if w =? REDIS_ERR then mret (REDIS_ERR, None) else read_until_reply fuel
  else mret (REDIS_OK, g.2).

(** ** Commands *)

Definition __redisAppendCommand (cmd : bytes) : M Z :=
  c ← get_ctx;
  obuf ← lift (c_obuf c);
  newbuf ← lift (null_sds (sdscatlen alloc obuf cmd));
  match newbuf with
  | None =>
      _ ← __redisSetError REDIS_ERR_OOM (s "Out of memory");
      mret REDIS_ERR
  | Some b => _ ← put_obuf (Some b); mret REDIS_OK
  end.

Definition redisAppendFormattedCommand (cmd : bytes) : M Z :=
  r ← __redisAppendCommand cmd;
  mret (if negb (r =? REDIS_OK) then REDIS_ERR else REDIS_OK).

(** What a formatting function made: its [len] bytes are appended. *)
Definition append_formatted (f : fmt_result) : M Z :=
  match f with
  | FmtError e =>
      if e =? -1 then
        _ ← __redisSetError REDIS_ERR_OOM (s "Out of memory");
        mret REDIS_ERR
      else if e =? -2 then
        _ ← __redisSetError REDIS_ERR_OTHER (s "Invalid format string");
        mret REDIS_ERR
      else fault
  | FmtOverflow => fault
  | FmtOk cmd len =>
      if (len <? 0) || (zlen cmd <? len) then fault else
      redisAppendFormattedCommand (take (Z.to_nat len) cmd)
  end.

Definition redisvAppendCommand (format : bytes) (ap : list vararg) : M Z :=
  append_formatted (redisvFormatCommand alloc printf format ap).
Definition redisAppendCommand := redisvAppendCommand.
Definition redisAppendCommandArgv (argc : Z) (argv : list bytes) (argvlen : option (list Z)) : M Z :=
  append_formatted (redisFormatSdsCommandArgv malloc_ok argc argv argvlen).

Definition __redisBlockForReply (fuel : nat) : M (option redisReply) :=
  c ← get_ctx;
  if has_flag c REDIS_BLOCK then
    r ← redisGetReply fuel;
    mret (if negb (r.1 =? REDIS_OK) then None else r.2)
  else mret None.

Definition redisvCommand (fuel : nat) (format : bytes) (ap : list vararg) : M (option redisReply) :=
  r ← redisvAppendCommand format ap;
  if negb (r =? REDIS_OK) then mret None else __redisBlockForReply fuel.
Definition redisCommand := redisvCommand.
Definition redisCommandArgv (fuel : nat) (argc : Z) (argv : list bytes)
  (argvlen : option (list Z)) : M (option redisReply) :=
  r ← redisAppendCommandArgv argc argv argvlen;
  if negb (r =? REDIS_OK) then mret None else __redisBlockForReply fuel.
End context.
