(* ===== verification/ContextSpec.v ===== *)
(** * Connections: errors and descriptors

    The constructors of hiredis.c either give a connected context or one with an
    error; whatever a client does with it afterwards, freeing it closes its
    descriptor and no other. *)

From S2P Require Import Prelude Effects Reply Format Resp Sds SdsSpec Reader Vformat Net NetSpec NetScript Context.

(** ** Constructors *)

Inductive connector :=
| Tcp (ip : bytes) (port : Z)
| TcpTimeout (ip : bytes) (port : Z) (tv : timeval)
| TcpNonBlock (ip : bytes) (port : Z)
| TcpBind (ip : bytes) (port : Z) (source : option bytes)
| Unix (path : bytes)
| UnixTimeout (path : bytes) (tv : timeval)
| UnixNonBlock (path : bytes).

Section connect.
Context {W : Type} `{HL : PosixLaws W} (alloc : Z -> option bytes) (malloc_ok : Z -> bool).
Hypothesis Halloc : forall n b, 0 <= n -> alloc n = Some b -> zlen b = n.

Definition run_connect (k : connector) : prog W (option redisContext) :=
  match k with
  | Tcp ip port => redisConnect alloc malloc_ok ip port
  | TcpTimeout ip port tv => redisConnectWithTimeout alloc malloc_ok ip port tv
  | TcpNonBlock ip port => redisConnectNonBlock alloc malloc_ok ip port
  | TcpBind ip port source => redisConnectBindNonBlock alloc malloc_ok ip port source
  | Unix path => redisConnectUnix alloc malloc_ok path
  | UnixTimeout path tv => redisConnectUnixWithTimeout alloc malloc_ok path tv
  | UnixNonBlock path => redisConnectUnixNonBlock alloc malloc_ok path
  end.

Definition is_bind (k : connector) : bool := if k is TcpBind _ _ _ then true else false.

(** What a constructor may return when [F] was open before. *)
Definition connect_result (F : gset Z) (x : option redisContext) (w : W) : Prop :=
  match x with
  | None => fds w = F
  | Some c =>
      (c_err c = 0 /\ connected (mk_conn c w) /\ opened F (mk_conn c w)) \/
      (c_err c <> 0 /\ owned F (mk_conn c w))
  end.

(** A new context, before it is connected. *)
Definition blank (c : redisContext) : Prop :=
  c_err c = 0 /\ c_fd c = 0 /\ c_flags c = 0 /\ c_host c = None.

Lemma init_spec (w : W) :
  exists x, redisContextInit alloc malloc_ok w = Some (x, w) /\ (if x is Some c then blank c else True).
Proof.
  unfold redisContextInit. destruct (negb _); [by exists None|].
  pose proof (sdsempty_spec alloc Halloc) as He. unfold mbind, prog_bind, lift.
  destruct (sdsempty alloc) as [y|e|]; cbn; [|by exists None|done].
  destruct (redisReaderCreate alloc); cbn; by eexists.
Qed.

(** The result of connecting a blank context. *)
Lemma on_context_spec (m : prog (conn W) Z) c (w : W) :
  0 ∈ fds w -> c_err c = 0 ->
  wp m (connects (fds w) 0) (mk_conn c w) ->
  exists x w', on_context (_ ← m; mret ()) c w = Some (x, w') /\ connect_result (fds w) x w'.
Proof.
  intros Hz He (r & [c' w'] & Hm & Hr). unfold on_context.
  rewrite (bind_eq _ _ _ _ _ Hm). cbn. eexists _, _. split; [done|].
  destruct Hr as [(_ & Ho & Hc & Hf)|(_ & Ho & Hc)]; cbn in *; [left|right]; done.
Qed.

Lemma blank_flags f c (w : W) : 0 ∈ fds w -> blank c -> closed (fds w) (mk_conn (set_flags f c) w).
Proof. intros Hz (_ & Hf & _). split_and!; cbn; [done|lia|done]. Qed.

Lemma wp_tcp f c (w : W) ip port tm source :
  0 ∈ fds w -> blank c -> has_flag (set_flags f c) REDIS_REUSEADDR = false ->
  wp (_redisContextConnectTcp (Some ip) port tm source) (connects (fds w) 0)
    (mk_conn (set_flags f c) w).
Proof.
  intros Hz Hb Hr. pose proof Hb as (He & _).
  destruct (total_tcp (Some ip) port tm source (mk_conn (set_flags f c) w)) as (r & st' & E); [done|].
  exists r, st'. split; [done|]. rewrite <- He.
  exact (tcp_spec _ _ _ _ _ (mk_conn (set_flags f c) w) (blank_flags f c w Hz Hb) Hr _ _ E).
Qed.

Lemma wp_unix f c (w : W) path tm :
  0 ∈ fds w -> blank c ->
  wp (redisContextConnectUnix path tm) (connects (fds w) 0) (mk_conn (set_flags f c) w).
Proof.
  intros Hz Hb. pose proof Hb as (He & _). apply wlp_total; [apply total_unix|]. rewrite <- He.
  exact (unix_spec _ _ _ (mk_conn (set_flags f c) w) (blank_flags f c w Hz Hb)).
Qed.

Lemma new_context_spec flags m (w : W) :
  0 ∈ fds w ->
  (forall c, blank c -> wp m (connects (fds w) 0) (mk_conn (set_flags (flags (c_flags c)) c) w)) ->
  exists x w', new_context alloc malloc_ok flags m w = Some (x, w') /\ connect_result (fds w) x w'.
Proof.
  intros Hz Hm. unfold new_context. destruct (init_spec w) as (x & Hi & Hb).
  rewrite (bind_eq _ _ _ _ _ Hi). destruct x as [c|]; [|by exists None, w].
  apply on_context_spec; [done|by destruct Hb|by apply Hm].
Qed.

Lemma run_connect_spec k (w : W) :
  0 ∈ fds w -> (is_bind k = true -> forall w' : W, redisContextInit alloc malloc_ok w' <> Some (None, w')) ->
  exists x w', run_connect k w = Some (x, w') /\ connect_result (fds w) x w'.
Proof.
  intros Hz Hbind. destruct k; cbn [run_connect];
    try (apply new_context_spec; [done|]; intros c Hb; pose proof Hb as (_ & _ & Hf & _);
         first [apply wp_unix | apply wp_tcp]; try done; cbn; rewrite Hf; done).
  unfold redisConnectBindNonBlock. destruct (init_spec w) as (x & Hi & Hb).
  rewrite (bind_eq _ _ _ _ _ Hi). destruct x as [c|]; [|by destruct (Hbind eq_refl w)].
  cbn. pose proof Hb as (He & _ & Hf & _).
  apply on_context_spec; [done|done|]. apply wp_tcp; [done|done|]. cbn. by rewrite Hf.
Qed.
End connect.

(** ** The life of a connection *)

(** What happens between connecting and freeing: calls of the client, and others
    who open descriptors. *)
Inductive life_step :=
| SetTimeout (tv : timeval)
| EnableKeepAlive
| BufferRead
| BufferWrite
| GetReply (fuel : nat)
| Append (cmd : bytes)
| AppendFormat (format : bytes) (ap : list vararg)
| CommandArgv (fuel : nat) (argc : Z) (argv : list bytes) (argvlen : option (list Z))
| OthersOpen (family type protocol : Z).

Section life.
Context {W : Type} `{HL : PosixLaws W} (alloc : Z -> option bytes) (malloc_ok : Z -> bool).
Context (printf : bytes -> vararg -> bytes).
Abbreviation M := (prog (conn W)).

(** The descriptors others opened. *)
Definition run_step (x : life_step) : M (gset Z) :=
  match x with
  | SetTimeout tv => _ ← redisSetTimeout tv; mret ∅
  | EnableKeepAlive => _ ← redisEnableKeepAlive; mret ∅
  | BufferRead => _ ← redisBufferRead alloc; mret ∅
  | BufferWrite => _ ← redisBufferWrite alloc; mret ∅
  | GetReply fuel => _ ← redisGetReply alloc malloc_ok fuel; mret ∅
  | Append cmd => _ ← redisAppendFormattedCommand alloc cmd; mret ∅
  | AppendFormat format ap => _ ← redisvAppendCommand alloc printf format ap; mret ∅
  | CommandArgv fuel argc argv argvlen =>
      _ ← redisCommandArgv alloc malloc_ok fuel argc argv argvlen; mret ∅
  | OthersOpen f t p => fd ← sys (sys_socket f t p); mret (if fd =? -1 then ∅ else {[fd]})
  end.

Fixpoint run_steps (l : list life_step) : M (gset Z) :=
  match l with
  | [] => mret ∅
  | x :: l' => a ← run_step x; b ← run_steps l'; mret (b ∪ a)
  end.

(** The descriptor and the table of descriptors stay. *)
Definition same_owner : relation (conn W) := fun st st' =>
  c_fd (ctx st') = c_fd (ctx st) /\ fds (os st') = fds (os st).
#[local] Instance same_owner_preorder : PreOrder same_owner.
Proof. split; [by intros st|]. intros x y z (? & ?) (? & ?). split; congruence. Qed.

Lemma owner_same_fd {A} (m : M A) : keeps same_fd m -> keeps same_owner m.
Proof. intros Hm st a st' Ha. destruct (Hm st a st' Ha) as (? & ? & _). done. Qed.

Lemma owner_upd f : (forall c, c_fd (f c) = c_fd c) -> keeps same_owner (upd (W := W) f).
Proof. intros Hf. apply keeps_modify. intros st. by split; cbn. Qed.
Lemma owner_sys {A} (f : W -> A * W) : keeps same_fd (sys f) -> keeps same_owner (sys f).
Proof. apply owner_same_fd. Qed.
Lemma owner_get_ctx : keeps same_owner (get_ctx (W := W)).
Proof. apply keeps_gets. apply _. Qed.
Lemma owner_get_errno : keeps same_owner get_errno.
Proof. apply keeps_gets. apply _. Qed.
Lemma owner_set_error type str : keeps same_owner (__redisSetError (W := W) type str).
Proof. by apply owner_upd. Qed.
Lemma owner_put_reader r : keeps same_owner (put_reader (W := W) r).
Proof. by apply owner_upd. Qed.
Lemma owner_put_obuf b : keeps same_owner (put_obuf (W := W) b).
Proof. by apply owner_upd. Qed.
Lemma owner_lift {A} (x : option A) : keeps same_owner (lift (S := conn W) x).
Proof. apply keeps_lift. apply _. Qed.
#[local] Hint Resolve owner_sys owner_get_ctx owner_get_errno owner_set_error owner_put_reader
  owner_put_obuf owner_lift : keeps.
#[local] Hint Extern 2 (keeps same_owner (upd _)) => by apply owner_upd : keeps.
Lemma owner_error_null type : keeps same_owner (__redisSetError_null (W := W) type).
Proof. unfold __redisSetError_null. keeps_steps. Qed.
#[local] Hint Resolve owner_error_null : keeps.
Lemma owner_io_failed : keeps same_owner (io_failed (W := W)).
Proof. unfold io_failed. keeps_steps. Qed.
#[local] Hint Resolve owner_io_failed : keeps.
Lemma owner_read : keeps same_owner (redisBufferRead alloc).
Proof. unfold redisBufferRead. keeps_steps. Qed.
Lemma owner_write : keeps same_owner (redisBufferWrite alloc).
Proof. unfold redisBufferWrite. keeps_steps. Qed.
Lemma owner_from_reader : keeps same_owner (redisGetReplyFromReader (W := W) malloc_ok).
Proof. unfold redisGetReplyFromReader. keeps_steps. Qed.
#[local] Hint Resolve owner_read owner_write owner_from_reader : keeps.
Lemma owner_write_until fuel : keeps same_owner (write_until_done alloc fuel).
Proof. induction fuel; cbn [write_until_done]; keeps_steps. Qed.
Lemma owner_read_until fuel : keeps same_owner (read_until_reply alloc malloc_ok fuel).
Proof. induction fuel; cbn [read_until_reply]; keeps_steps. Qed.
#[local] Hint Resolve owner_write_until owner_read_until : keeps.
Lemma owner_get_reply fuel : keeps same_owner (redisGetReply alloc malloc_ok fuel).
Proof. unfold redisGetReply. keeps_steps. Qed.
Lemma owner_append cmd : keeps same_owner (redisAppendFormattedCommand (W := W) alloc cmd).
Proof. unfold redisAppendFormattedCommand, __redisAppendCommand. keeps_steps. Qed.
#[local] Hint Resolve owner_get_reply owner_append : keeps.
Lemma owner_append_formatted f : keeps same_owner (append_formatted (W := W) alloc f).
Proof. unfold append_formatted. keeps_steps. Qed.
#[local] Hint Resolve owner_append_formatted : keeps.

Definition is_others (x : life_step) : bool := if x is OthersOpen _ _ _ then true else false.

Lemma owner_step x : is_others x = false -> keeps same_owner (run_step x).
Proof.
  intros Hx. destruct x; cbn [run_step]; try done.
  - unfold redisSetTimeout. keeps_steps. apply owner_same_fd, keeps_set_timeout.
  - unfold redisEnableKeepAlive. keeps_steps. apply owner_same_fd, keeps_keepalive.
  - keeps_steps.
  - keeps_steps.
  - keeps_steps.
  - keeps_steps.
  - unfold redisvAppendCommand. keeps_steps.
  - unfold redisCommandArgv, redisAppendCommandArgv, __redisBlockForReply. keeps_steps.
Qed.

Lemma owned_owner F st st' : same_owner st st' -> owned F st -> owned F st'.
Proof.
  intros [E1 E2] [(? & ? & ?)|(? & ? & ? & ?)]; [left; unfold closed|right; unfold opened];
    rewrite E1, E2; done.
Qed.

Lemma owned_others F st r w' :
  owned F st -> 0 <= r -> r ∉ fds (os st) -> fds w' = {[r]} ∪ fds (os st) ->
  owned (F ∪ {[r]}) (mk_conn (ctx st) w').
Proof.
  intros [(Hz & Hp & Hf)|(Hz & Hp & Hn & Hf)] Hr Hnew Hw; [left|right].
  - split_and!; cbn; [set_solver|done|]. rewrite Hw, Hf. set_solver.
  - split_and!; cbn; [set_solver|done| |rewrite Hw, Hf; set_solver].
    rewrite Hf in Hnew. set_solver.
Qed.

(** What a step returns when it opens nothing. *)
Lemma step_opens x st a st' : is_others x = false -> run_step x st = Some (a, st') -> a = ∅.
Proof.
  intros Hx E. destruct x; try done; cbn [run_step] in E;
    apply bind_inv in E as (r & st1 & _ & E); by apply ret_inv in E as [-> _].
Qed.

Lemma run_step_spec x F st a st' :
  owned F st -> run_step x st = Some (a, st') -> owned (F ∪ a) st'.
Proof.
  intros Ho E. destruct (is_others x) eqn:Ex.
  - destruct x; try done. cbn [run_step] in E. apply bind_inv in E as (fd & st1 & Es & E).
    apply ret_inv in E as [-> ->]. unfold sys in Es.
    pose proof (fds_socket family type protocol (os st)) as Hs.
    destruct (sys_socket _ _ _ _) as [r w']. cbn [fst snd] in Hs. simplify_eq.
    destruct Hs as [[-> Hw]|(Hp & Hn & Hw)].
    + cbn [Z.eqb Pos.eqb]. rewrite union_empty_r_L. by apply (owned_owner F st).
    + destruct (Z.eqb_spec fd (-1)); [lia|]. by apply owned_others.
  - rewrite (step_opens _ _ _ _ Ex E), union_empty_r_L.
    eapply owned_owner; [by eapply owner_step|done].
Qed.

Lemma run_steps_spec l : forall F st others st',
  owned F st -> run_steps l st = Some (others, st') -> owned (F ∪ others) st'.
Proof.
  induction l as [|x l IH]; intros F st others st' Ho Hr; cbn [run_steps] in Hr.
  { apply ret_inv in Hr as [-> ->]. by rewrite union_empty_r_L. }
  apply bind_inv in Hr as (a & st1 & E1 & Hr). apply bind_inv in Hr as (b & st2 & E2 & Hr).
  apply ret_inv in Hr as [-> ->]. rewrite (union_comm_L b), union_assoc_L.
  eapply IH; [|done]. by eapply run_step_spec.
Qed.

Lemma free_spec F c (w : W) :
  owned F (mk_conn c w) -> exists w', redisFree c w = Some ((), w') /\ fds w' = F.
Proof.
  intros Ho. unfold redisFree. destruct Ho as [(Hz & Hp & Hf)|(Hz & Hp & Hn & Hf)]; cbn in *.
  - destruct (Z.ltb_spec 0 (c_fd c)); [lia|]. by exists w.
  - destruct (Z.ltb_spec 0 (c_fd c)); [|lia]. eexists. split; [done|]. rewrite fds_close, Hf.
    rewrite difference_union_distr_l_L, difference_diag_L, union_empty_l_L.
    apply difference_disjoint_L. set_solver.
Qed.
End life.


(** Three addresses: no route to the first, a timeout on the third. *)
Definition three_addrs : list addrinfo := repeat (mk_ai AF_INET SOCK_STREAM 0 (SaInet [])) 3.
Definition hard_net : net :=
  mk_net 0 {[0; 1; 2]} [] [] [] [(1, []); (0, three_addrs)] [EHOSTUNREACH; EINPROGRESS; EADDRNOTAVAIL] [].



Definition easy_net (resolve : list (Z * list addrinfo)) (connects refused : list Z) : net :=
  mk_net 0 {[0; 1; 2]} [RdErr EINTR; RdData (s "+OK")] [WrErr 104] [] resolve connects refused.
Definition some_life : list life_step :=
  [SetTimeout (mk_timeval 1 0); OthersOpen AF_INET SOCK_STREAM 0; Append (s "PING"); BufferRead;
   BufferWrite; OthersOpen AF_INET SOCK_STREAM 0; GetReply 3].

(** The state of the context and the descriptors after a run. *)
Definition live (k : connector) (l : list life_step) (w : net) : option (gset Z * redisContext * net) :=
  match run_connect plenty (fun _ => true) k w with
  | Some (Some c, w1) =>
      r ← run_steps plenty (fun _ => true) (fun _ _ => []) l (mk_conn c w1);
      Some (r.1, ctx r.2, os r.2)
  | _ => None
  end.

Example some_life_descriptors :
  (fun r => (r.1.1, c_fd r.1.2, c_err r.1.2)) <$> live (Tcp (s "redis") 6379) some_life (easy_net [] [] [])
  = Some ({[4; 5]}, 3, REDIS_ERR_IO).
Proof. vm_compute. reflexivity. Qed.


(** ** Connections that go wrong *)

Definition with_reuse (w : net) : option (redisContext * net) :=
  match redisConnectBindNonBlockWithReuse plenty (fun _ => true) (s "redis") 6379 (Some (s "10.0.0.1")) w with
  | Some (Some c, w1) => Some (c, w1)
  | _ => None
  end.

(** [goto addrretry] makes a new socket and forgets the old one: it stays open. *)
Example retry_leaks_descriptor :
  (r ← with_reuse (easy_net [] [EADDRNOTAVAIL] []);
   f ← redisFree r.1 r.2; Some (c_err r.1, n_fds f.2)) = Some (0, {[0; 1; 2; 3]}).
Proof. vm_compute. reflexivity. Qed.

(** When the retries are used up, or SO_REUSEADDR is refused, the constructor
    returns a context that is not connected and has no error. *)
Example retries_fail_silently :
  (fun r => (c_err r.1, has_flag r.1 REDIS_CONNECTED)) <$>
    with_reuse (easy_net [] (repeat EADDRNOTAVAIL 10) []) = Some (0, false).
Proof. vm_compute. reflexivity. Qed.
Example refused_option_fails_silently :
  (fun r => (c_err r.1, has_flag r.1 REDIS_CONNECTED)) <$>
    with_reuse (easy_net [] [] [SO_REUSEADDR]) = Some (0, false).
Proof. vm_compute. reflexivity. Qed.

(** A reconnection that fails before its socket is made leaves the number of the
    closed descriptor in the context; [redisFree] closes it again, although
    somebody else has it by then. *)
Example reconnect_closes_foreign_descriptor :
  match run_connect plenty (fun _ => true) (Tcp (s "redis") 6379)
          (easy_net [(0, three_addrs); (1, []); (1, [])] [] []) with
  | Some (Some c, w1) =>
      r ← redisReconnect plenty (mk_conn c w1);
      o ← run_step plenty (fun _ => true) (fun _ _ => []) (OthersOpen AF_INET SOCK_STREAM 0) r.2;
      f ← redisFree (ctx o.2) (os o.2);
      Some (r.1, o.1, n_fds f.2)
  | _ => None
  end = Some (REDIS_ERR, {[3]}, {[0; 1; 2]}).
Proof. vm_compute. reflexivity. Qed.

(** A context made from a descriptor is taken for a TCP connection to the host
    NULL when it is reconnected. *)
Example reconnect_of_descriptor :
  match redisConnectFd plenty (fun _ => true) 7 (easy_net [] [] []) with
  | Some (Some c, w1) => fst <$> redisReconnect plenty (mk_conn c w1)
  | _ => None
  end = Some REDIS_OK.
Proof. vm_compute. reflexivity. Qed.

(** Without memory the constructors that bind use NULL. *)
Example bind_without_memory :
  redisConnectBindNonBlock plenty (fun _ => false) (s "redis") 6379 None (easy_net [] [] []) = None.
Proof. vm_compute. reflexivity. Qed.
