(* ===== verification/ContextPipeline.v ===== *)
(** * A blocking connection delivers

    A client appends commands and asks for replies.  However the peer cuts its
    answers into packets, however few bytes each [write] takes and however often
    both are interrupted, the commands are sent in order and every
    [redisGetReply] returns the next reply. *)

From S2P Require Import Prelude Effects Hiutil Reply Sds SdsSpec Reader ReaderSpec ReaderStream ReaderApi Vformat Net NetSpec NetScript Context.

(** ** Traffic *)

(** What the peer will have sent. *)
Definition packet (x : rd) : bytes := if x is RdData d then d else [].
Definition incoming (l : list rd) : bytes := concat (map packet l).

Arguments incoming : simpl never.
Lemma incoming_cons x l : incoming (x :: l) = packet x ++ incoming l.
Proof. done. Qed.

(** Data, or an interrupted call; some bytes taken, or an interrupted call. *)
Definition rd_ok (x : rd) : Prop := match x with RdData d => d <> [] | RdErr e => e = EINTR end.
Definition wr_ok (x : wr) : Prop := match x with WrSome k => 0 < k | WrErr e => e = EINTR end.

Section pipe.
Context (malloc_ok : Z -> bool) (alloc : Z -> option bytes) (blocking : bool).
Hypothesis Halloc : forall n b, 0 <= n -> alloc n = Some b -> zlen b = n.
Hypothesis Hmem : forall n, alloc n <> None.
Implicit Types (rs : list redisReply).

(** The reader has yet to give the replies [rs] out of what it holds and what
    comes in. *)
Definition decodes (r : redisReader) (more : bytes) rs : Prop :=
  exists u st2 u2, open_reader r u /\ drains malloc_ok (r_state r) (u ++ more) rs st2 u2 /\
    (exists sw uw rs1, drains malloc_ok (r_state r) u rs1 sw uw) /\
    r_len r + zlen more < 2 ^ 30 - 1.

(** A working connection: [rs] are the replies to come, [cmds] the bytes sent and
    the ones in the output buffer. *)
Record pipe (st : conn net) rs (cmds : bytes) : Prop := {
  pi_err : c_err (ctx st) = 0;
  pi_block : has_flag (ctx st) REDIS_BLOCK = blocking;
  pi_reader : exists r, c_reader (ctx st) = Some r /\ decodes r (incoming (n_reads (os st))) rs;
  pi_obuf : exists o, c_obuf (ctx st) = Some o /\ sds_wf o /\ n_sent (os st) ++ sds_value o = cmds;
  pi_reads : Forall rd_ok (n_reads (os st));
  pi_writes : Forall wr_ok (n_writes (os st))
}.

(** The output buffer is empty. *)
Definition flushed (st : conn net) : Prop := exists o, c_obuf (ctx st) = Some o /\ sds_len o = 0.

(** ** Taking a reply from the reader *)

Lemma getReply_decodes r more rs :
  decodes r more rs ->
  exists x r', redisReaderGetReply malloc_ok r = Some (REDIS_OK, x, r') /\
    match x with
    | Some y => exists rs', rs = y :: rs' /\ decodes r' more rs'
    | None => decodes r' more rs /\ (more = [] -> rs = [])
    end.
Proof.
  intros (u & st2 & u2 & Ho & Hd & _ & Hl).
  destruct (drains_split malloc_ok _ _ _ _ _ Hd u more eq_refl) as (rs1 & st1 & u1 & rs2 & H1 & H2 & ->).
  destruct (getReply_spec malloc_ok r u rs1 st1 u1 Ho H1) as (x & r' & Hg & Hl' & Hx).
  exists x, r'. split; [done|]. destruct rs1 as [|y rs1].
  - destruct Hx as (-> & Ho' & Hs). pose proof (drains_again malloc_ok _ _ _ _ _ H1) as Hag. split.
    + exists u1, st2, u2. split_and!; [done|by apply (drains_start malloc_ok st1)| |lia].
      exists st1, u1, []. by apply (drains_start malloc_ok st1).
    + intros ->. rewrite app_nil_r in H2. symmetry. exact (drains_det malloc_ok _ _ _ _ _ Hag _ _ _ H2).
  - destruct Hx as (-> & u' & Ho' & Hd'). exists (rs1 ++ rs2). split; [done|].
    exists u', st2, u2. split_and!; [done|by eapply drains_app|by exists st1, u1, rs1|lia].
Qed.

(** New input. *)
Lemma feed_decodes r d more rs :
  decodes r (d ++ more) rs ->
  exists r', redisReaderFeed alloc r d = Some (REDIS_OK, r') /\ decodes r' more rs.
Proof.
  intros (u & st2 & u2 & Ho & Hd & (sw & uw & rs1 & Hw) & Hl).
  rewrite zlen_app in Hl. pose proof (zlen_nonneg more).
  destruct (feed_spec alloc Halloc Hmem r u d Ho ltac:(lia)) as (r' & Hf & Ho' & Hs & Hl').
  exists r'. split; [done|]. rewrite app_assoc in Hd.
  destruct (drains_split malloc_ok _ _ _ _ _ Hd (u ++ d) more eq_refl)
    as (rs2 & st3 & u3 & rs3 & H1 & H2 & Hrs).
  exists (u ++ d), st2, u2. rewrite Hs. split_and!; [done|done|by exists st3, u3, rs2|lia].
Qed.

(** What the reader of the context gives when asked. *)
Definition gives (st : conn net) (x : option redisReply) : Prop :=
  exists r r', c_reader (ctx st) = Some r /\ redisReaderGetReply malloc_ok r = Some (REDIS_OK, x, r').

Lemma from_reader_pipe st rs cmds :
  pipe st rs cmds ->
  exists x c', redisGetReplyFromReader malloc_ok st = Some ((REDIS_OK, x), mk_conn c' (os st)) /\
    c_obuf c' = c_obuf (ctx st) /\ gives st x /\
    match x with
    | Some y => exists rs', rs = y :: rs' /\ pipe (mk_conn c' (os st)) rs' cmds
    | None => pipe (mk_conn c' (os st)) rs cmds /\ (incoming (n_reads (os st)) = [] -> rs = [])
    end.
Proof.
  intros [He Hb (r & Hr & Hd) Ho Hrd Hwr].
  destruct (getReply_decodes r _ rs Hd) as (x & r' & Hg & Hx).
  exists x, (set_bufs (c_obuf (ctx st)) (Some r') (ctx st)).
  unfold redisGetReplyFromReader, get_ctx, put_reader, upd, mbind, prog_bind, gets, lift, modify.
  rewrite Hr. cbn. rewrite Hg. cbn. split; [done|]. split; [done|]. split; [by exists r, r'|].
  destruct x as [y|].
  - destruct Hx as (rs' & -> & Hd'). exists rs'. split; [done|]. constructor; cbn; try done. by exists r'.
  - destruct Hx as [Hd' Hn]. split; [|done]. constructor; cbn; try done. by exists r'.
Qed.

(** ** Writing *)

Definition to_write (st : conn net) : nat :=
  length (n_writes (os st)) + length (default [] (sds_value <$> c_obuf (ctx st))).

(** An interrupted call is tried again. *)
Lemma wp_eintr (Q : bool -> conn net -> Prop) st :
  n_errno (os st) = EINTR -> Q true st -> wp io_failed Q st.
Proof.
  intros He HQ. unfold io_failed, get_ctx, get_errno. apply wp_bind, wp_gets, wp_bind, wp_gets.
  cbn [errno net_posix]. rewrite He. cbn. by apply wp_ret.
Qed.

Lemma wp_sys {A} (f : net -> A * net) (Q : A -> conn net -> Prop) st :
  Q (f (os st)).1 (mk_conn (ctx st) (f (os st)).2) -> wp (sys f) Q st.
Proof.
  intros HQ. destruct (f (os st)) as [a w] eqn:E. exists a, (mk_conn (ctx st) w). unfold sys.
  by rewrite E.
Qed.

(** The rest of the buffer. *)
Lemma rest_of_buffer o k :
  sds_wf o -> 0 < k < sds_len o ->
  exists o', sdsrange o k (-1) = Ok o' /\ sds_wf o' /\ sds_value o' = drop (Z.to_nat k) (sds_value o).
Proof.
  intros Hw Hk. pose proof (sdsrange_spec plenty o k (-1) Hw) as Hr. pose proof Hw as (? & ? & Hs & _).
  destruct (sdsrange o k (-1)) as [o'|e|]; [|by destruct Hr|done]. destruct Hr as [Hw' Hv].
  exists o'. split_and!; [done|done|]. rewrite Hv.
  apply substring_to_end; rewrite sds_value_zlen by done; lia.
Qed.

Lemma empty_obuf : exists o, sdsempty alloc = Ok o /\ sds_wf o /\ sds_value o = [].
Proof.
  destruct (implements_yields alloc Hmem _ _ (sdsempty_spec alloc Halloc)) as (o & E & Hw & Hv). by exists o.
Qed.

Lemma pipe_obuf st rs old cmds o w' :
  pipe st rs old -> sds_wf o -> n_sent w' ++ sds_value o = cmds ->
  n_reads w' = n_reads (os st) -> Forall wr_ok (n_writes w') ->
  pipe (mk_conn (set_bufs (Some o) (c_reader (ctx st)) (ctx st)) w') rs cmds.
Proof.
  intros [He Hb Hr _ Hrd _] Hw Hs Hreads Hwr. constructor; cbn; try done; rewrite ?Hreads; try done. by exists o.
Qed.

(** Some bytes were taken: they are cut off the buffer. *)
Lemma cut_spec st rs cmds o k w' (Q : () -> conn net -> Prop) :
  pipe st rs cmds -> sds_wf o -> 0 < k <= sds_len o ->
  n_sent w' ++ drop (Z.to_nat k) (sds_value o) = cmds ->
  n_reads w' = n_reads (os st) -> Forall wr_ok (n_writes w') ->
  (forall c' o', pipe (mk_conn c' w') rs cmds -> c_obuf c' = Some o' -> sds_wf o' ->
     sds_len o' = sds_len o - k -> Q () (mk_conn c' w')) ->
  wp (if k =? sds_len o then
        b ← lift (null_sds (sdsempty alloc)); put_obuf b
      else
        b ← lift (null_sds (sdsrange o k (-1))); put_obuf b) Q (mk_conn (ctx st) w').
Proof.
  intros Hp Hw Hk Hs Hr Hwr HQ. pose proof (sds_value_zlen o Hw) as Hz.
  assert (exists o', (if k =? sds_len o then sdsempty alloc else sdsrange o k (-1)) = Ok o' /\
    sds_wf o' /\ sds_value o' = drop (Z.to_nat k) (sds_value o)) as (o' & Ho' & Hw' & Hv').
  { destruct (Z.eqb_spec k (sds_len o)) as [->|].
    - destruct empty_obuf as (oe & Hee & Hwe & Hve). exists oe. split_and!; [done|done|].
      rewrite Hve, drop_ge; [done|]. unfold zlen in Hz. lia.
    - apply rest_of_buffer; [done|lia]. }
  assert (Q () (mk_conn (set_bufs (Some o') (c_reader (ctx st)) (ctx st)) w')) as Hq.
  { apply (HQ _ o'); [|done|done|].
    - apply (pipe_obuf st rs cmds); [done|done|by rewrite Hv'|done|done].
    - rewrite <- sds_value_zlen, Hv' by done. unfold zlen in *. rewrite length_drop. lia. }
  unfold put_obuf, upd.
  destruct (k =? sds_len o); apply wp_bind; (eapply wp_lift; [by rewrite Ho'|]); by apply wp_modify.
Qed.

Lemma write_step st rs cmds :
  pipe st rs cmds ->
  wp (redisBufferWrite alloc) (fun r st' => r.1 = REDIS_OK /\ pipe st' rs cmds /\
    n_reads (os st') = n_reads (os st) /\ (to_write st' <= to_write st)%nat /\
    if r.2 then flushed st' else (to_write st' < to_write st)%nat) st.
Proof.
  intros Hp. pose proof Hp as [He Hb _ (o & Ho & Hw & Hs) Hrd Hwr].
  pose proof (sds_value_zlen o Hw) as Hz. pose proof (zlen_nonneg (sds_value o)).
  unfold redisBufferWrite, get_ctx. apply wp_bind, wp_gets. rewrite He. cbn [Z.eqb negb].
  apply wp_bind. eapply wp_lift; [exact Ho|].
  set (Qend := fun r st' => r.1 = REDIS_OK /\ pipe st' rs cmds /\ n_reads (os st') = n_reads (os st) /\
    (to_write st' <= to_write st)%nat /\ if r.2 : bool then flushed st' else (to_write st' < to_write st)%nat).
  assert (forall st' o', pipe st' rs cmds -> n_reads (os st') = n_reads (os st) ->
    c_obuf (ctx st') = Some o' -> sds_wf o' -> (to_write st' <= to_write st)%nat ->
    (sds_len o' = 0 \/ (to_write st' < to_write st)%nat) ->
    wp (if negb true then mret (REDIS_ERR, false) else
        c ← gets ctx; obuf ← lift (c_obuf c); mret (REDIS_OK, sds_len obuf =? 0)) Qend st') as Hend.
  { intros st' o' Hp' Hr' Ho' Hw' Hle Hm. cbn [negb]. apply wp_bind, wp_gets, wp_bind.
    eapply wp_lift; [exact Ho'|]. apply wp_ret. split_and!; [done|done|done|done|]. cbn [snd].
    destruct (Z.eqb_spec (sds_len o') 0); [by exists o'|]. by destruct Hm. }
  apply wp_bind. destruct (Z.ltb_spec 0 (sds_len o)) as [Hpos|Hzero].
  2:{ apply wp_ret. apply (Hend st o); try done. left. lia. }
  apply wp_bind, wp_sys. destruct st as [c w]. cbn [ctx os sys_write net_posix] in *.
  unfold net_write in *. destruct (n_writes w) as [|[k|e] l] eqn:Ew; cbn [fst snd].
  - destruct (Z.eqb_spec (zlen (sds_value o)) (-1)); [lia|].
    destruct (Z.ltb_spec 0 (zlen (sds_value o))); [|lia].
    apply wp_bind. apply (cut_spec (mk_conn c w) rs cmds); try done; [lia| |].
    { cbn. rewrite <- Hs, drop_ge by (unfold zlen; lia). by rewrite app_nil_r. }
    intros c' o' Hp' Ho' Hw' Hl'. apply wp_ret. apply (Hend _ o'); try done; [|left; lia].
    unfold to_write. cbn [ctx os]. rewrite Ho, Ho', Ew. cbn.
    pose proof (sds_value_zlen o' Hw'). unfold zlen in *. lia.
  - apply Forall_cons in Hwr as [Hk Hl]. cbn in Hk. set (n := Z.min k (zlen (sds_value o))).
    destruct (Z.eqb_spec n (-1)); [lia|]. destruct (Z.ltb_spec 0 n); [|lia].
    apply wp_bind. apply (cut_spec (mk_conn c w) rs cmds); try done; [lia| |].
    { cbn. rewrite <- Hs, <- app_assoc. by rewrite take_drop. }
    intros c' o' Hp' Ho' Hw' Hl'. apply wp_ret. apply (Hend _ o'); try done; [|right];
      unfold to_write; cbn [ctx os]; rewrite Ho, Ho', Ew; cbn;
      pose proof (sds_value_zlen o' Hw'); unfold zlen in *; lia.
  - apply Forall_cons in Hwr as [-> Hl]. cbn [Z.eqb Pos.eqb]. apply wp_eintr; [done|].
    apply (Hend _ o); try done.
    + destruct Hp as [? ? ? ? ? ?]. constructor; cbn; try done. exists o. rewrite app_nil_r. done.
    + unfold to_write. cbn [ctx os]. rewrite Ho, Ew. cbn. lia.
    + unfold to_write. cbn [ctx os]. rewrite Ho, Ew. right. cbn. lia.
Qed.

Lemma write_all st rs cmds fuel :
  pipe st rs cmds -> (to_write st < fuel)%nat ->
  wp (write_until_done alloc fuel) (fun r st' => r = REDIS_OK /\ pipe st' rs cmds /\
    n_reads (os st') = n_reads (os st) /\ (to_write st' <= to_write st)%nat /\ flushed st') st.
Proof.
  revert st. induction fuel as [|fuel IH]; intros st Hp Hf; [lia|]. cbn [write_until_done].
  apply wp_bind. eapply wp_mono; [by apply write_step|]. intros [ret d] st' (Hr & Hp' & Hrd & Hle & Hd).
  cbn [fst snd] in *. subst ret. cbn [Z.eqb Pos.eqb REDIS_OK REDIS_ERR]. destruct d.
  - apply wp_ret. done.
  - eapply wp_mono; [apply IH; [done|lia]|]. intros r st2 (? & ? & ? & ? & ?). split_and!; try done; [congruence|lia].
Qed.
(** ** Reading *)

Definition to_read (st : conn net) : nat :=
  length (n_reads (os st)) + length (incoming (n_reads (os st))).

(** Only input changed. *)
Definition same_output (st st' : conn net) : Prop :=
  c_obuf (ctx st') = c_obuf (ctx st) /\ n_sent (os st') = n_sent (os st) /\
  n_writes (os st') = n_writes (os st).

(** What [read] gives: an interruption, or a piece of what comes in. *)
Lemma net_read_spec w (l : list rd) :
  n_reads w = l -> Forall rd_ok l -> incoming l <> [] ->
  exists l', Forall rd_ok l' /\ (length l' + length (incoming l') < length l + length (incoming l))%nat /\
    (net_read (1024 * 16) w = (-1, [], net_errno (net_reads w l') EINTR) /\ incoming l' = incoming l \/
     exists d, 0 < zlen d /\ net_read (1024 * 16) w = (zlen d, d, net_reads w l') /\
       incoming l = d ++ incoming l').
Proof.
  intros El Hl Hin. unfold net_read. rewrite El. destruct l as [|[d|e] l]; [done|..];
    apply Forall_cons in Hl as [Hx Hl]; cbn in Hx.
  - assert (0 < zlen d) as Hd by (destruct d; [done|]; rewrite zlen_cons; pose proof (zlen_nonneg d); lia).
    destruct (Z.leb_spec (zlen d) (1024 * 16)).
    + exists l. rewrite incoming_cons. cbn [packet length]. rewrite length_app.
      split_and!; [done|unfold zlen in *; lia|]. right. by exists d.
    + set (n := Z.to_nat (1024 * 16)). assert (zlen (take n d) = 1024 * 16) as Hn.
      { unfold zlen in *. rewrite length_take. lia. }
      exists (RdData (drop n d) :: l). rewrite !incoming_cons. cbn [packet length].
      rewrite !length_app, length_drop.
      split_and!; [|unfold zlen in *; lia|].
      * constructor; [|done]. cbn. intros E. apply (f_equal length) in E. rewrite length_drop in E.
        unfold zlen in *. cbn in E. lia.
      * right. exists (take n d). rewrite Hn. split_and!; [lia|done|]. by rewrite app_assoc, take_drop.
  - subst e. exists l. rewrite incoming_cons. cbn [packet length app].
    split_and!; [done|lia|]. by left.
Qed.

Lemma read_step st rs cmds :
  pipe st rs cmds -> incoming (n_reads (os st)) <> [] ->
  wp (redisBufferRead alloc) (fun r st' => r = REDIS_OK /\ pipe st' rs cmds /\
    same_output st st' /\ (to_read st' < to_read st)%nat) st.
Proof.
  intros Hp Hin. pose proof Hp as [He Hb (r & Hr & Hd) Ho Hrd Hwr]. destruct st as [c w]. cbn [ctx os] in *.
  unfold redisBufferRead, get_ctx. apply wp_bind, wp_gets. cbn [ctx]. rewrite He. cbn [Z.eqb negb].
  destruct (net_read_spec w _ eq_refl Hrd Hin) as (l' & Hl' & Hm & Hcases).
  apply wp_bind, wp_sys. cbn [sys_read net_posix os ctx].
  destruct Hcases as [[-> Hinc]|(d & Hdpos & -> & Hinc)]; cbn [fst snd].
  - cbn [Z.eqb Pos.eqb]. apply wp_bind, wp_eintr; [done|]. apply wp_ret.
    split_and!; [done| |done|done]. constructor; cbn; try done. rewrite Hinc. by exists r.
  - destruct (Z.eqb_spec (zlen d) (-1)); [lia|]. destruct (Z.eqb_spec (zlen d) 0); [lia|].
    rewrite take_ge by (unfold zlen; lia). rewrite Hinc in Hd.
    destruct (feed_decodes r d _ rs Hd) as (r' & Hf & Hd').
    apply wp_bind. eapply wp_lift; [exact Hr|]. apply wp_bind. eapply wp_lift; [exact Hf|].
    unfold put_reader, upd. apply wp_bind, wp_modify. cbn [fst snd Z.eqb negb REDIS_OK].
    apply wp_ret. split_and!; [done| |done|done]. constructor; cbn; try done. by exists r'.
Qed.

Lemma same_output_trans (x y z : conn net) : same_output x y -> same_output y z -> same_output x z.
Proof. intros (? & ? & ?) (? & ? & ?). unfold same_output. split_and!; congruence. Qed.

Lemma reader_step st rs cmds :
  pipe st rs cmds ->
  wp (redisGetReplyFromReader malloc_ok) (fun r st' => r.1 = REDIS_OK /\ same_output st st' /\
    os st' = os st /\ gives st r.2 /\
    match r.2 with
    | Some y => exists rs', rs = y :: rs' /\ pipe st' rs' cmds
    | None => pipe st' rs cmds /\ (incoming (n_reads (os st)) = [] -> rs = [])
    end) st.
Proof.
  intros Hp. destruct (from_reader_pipe st rs cmds Hp) as (x & c' & E & Ho & Hg & Hx).
  exists (REDIS_OK, x), (mk_conn c' (os st)). split; [done|]. by split_and!.
Qed.

Lemma read_all y rs cmds fuel : forall st,
  pipe st (y :: rs) cmds -> incoming (n_reads (os st)) <> [] -> (to_read st < fuel)%nat ->
  wp (read_until_reply alloc malloc_ok fuel) (fun r st' => r = (REDIS_OK, Some y) /\
    pipe st' rs cmds /\ same_output st st' /\ (to_read st' <= to_read st)%nat) st.
Proof.
  induction fuel as [|fuel IH]; intros st Hp Hin Hf; [lia|]. cbn [read_until_reply].
  apply wp_bind. eapply wp_mono; [by apply read_step|]. intros ret st1 (-> & Hp1 & Hs1 & Hm1).
  cbn [Z.eqb Pos.eqb REDIS_OK REDIS_ERR].
  apply wp_bind. eapply wp_mono; [by apply reader_step|]. intros [ret x] st2 (Hr2 & Hs2 & Hos2 & _ & Hx).
  cbn [fst snd] in *. subst ret. cbn [Z.eqb Pos.eqb REDIS_OK REDIS_ERR].
  assert (to_read st2 = to_read st1) as Hm2 by (unfold to_read; by rewrite Hos2).
  destruct x as [x|].
  - destruct Hx as (rs' & [= <- <-] & Hp2). apply wp_ret.
    split_and!; [done|done|by eapply same_output_trans|lia].
  - destruct Hx as [Hp2 Hnil]. eapply wp_mono; [apply IH; [done| |lia]|].
    + rewrite Hos2. intros Hi. by specialize (Hnil Hi).
    + intros r st3 (-> & Hp3 & Hs3 & Hm3). split_and!; [done|done| |lia].
      eapply same_output_trans; [|done]. by eapply same_output_trans.
Qed.

(** The work [redisGetReply] may still have to do. *)
Definition work (st : conn net) : nat := to_write st + to_read st.

Lemma getReply_next y rs cmds fuel st :
  blocking = true -> pipe st (y :: rs) cmds -> (work st < fuel)%nat ->
  wp (redisGetReply alloc malloc_ok fuel) (fun r st' => r = (REDIS_OK, Some y) /\ pipe st' rs cmds /\
    (work st' <= work st)%nat /\
    (flushed st' \/ (c_obuf (ctx st') = c_obuf (ctx st) /\ gives st (Some y)))) st.
Proof.
  intros Hbl Hp Hf. unfold work in *. unfold redisGetReply.
  apply wp_bind. eapply wp_mono; [by apply reader_step|]. intros [ret x] st1 (Hr1 & Hs1 & Hos1 & Hg & Hx).
  cbn [fst snd] in *. subst ret. cbn [Z.eqb Pos.eqb REDIS_OK REDIS_ERR].
  assert (to_read st1 = to_read st) as Hm1 by (unfold to_read; by rewrite Hos1).
  assert (forall a b, same_output a b -> to_write b = to_write a) as Hw.
  { intros a b (E1 & E2 & E3). unfold to_write. by rewrite E1, E3. }
  apply wp_bind. unfold get_ctx. apply wp_gets. destruct x as [x|].
  - destruct Hx as (rs' & [= <- <-] & Hp1). cbn [andb]. apply wp_ret.
    split_and!; [done|done|rewrite Hm1, (Hw _ _ Hs1); lia|]. right. by destruct Hs1.
  - destruct Hx as [Hp1 Hnil]. pose proof Hp1 as [_ Hb _ _ _ _]. rewrite Hb, Hbl. cbn [andb].
    apply wp_bind. eapply wp_mono; [apply write_all; [done|rewrite (Hw _ _ Hs1); lia]|].
    intros ret st2 (-> & Hp2 & Hrd2 & Hw2 & Hfl). cbn [Z.eqb Pos.eqb REDIS_OK REDIS_ERR].
    assert (to_read st2 = to_read st1) as Hm2 by (unfold to_read; by rewrite Hrd2).
    eapply wp_mono; [apply (read_all y rs cmds); [done| |lia]|].
    + rewrite Hrd2, Hos1. intros Hi. by specialize (Hnil Hi).
    + intros r st3 (-> & Hp3 & Hs3 & Hm3). split_and!; [done|done| |left].
      * rewrite (Hw _ _ Hs3). rewrite (Hw _ _ Hs1) in Hw2. lia.
      * destruct Hfl as (o & Ho & Hl), Hs3 as (E & _). exists o. by rewrite E.
Qed.
(** ** A client *)

Fixpoint appends (cmds : list bytes) : prog (conn net) bool :=
  match cmds with
  | [] => mret true
  | cmd :: cmds' =>
      r ← redisAppendFormattedCommand alloc cmd;
      if r =? REDIS_OK then appends cmds' else mret false
  end.

Fixpoint get_replies (fuel n : nat) : prog (conn net) (list (Z * option redisReply)) :=
  match n with
  | O => mret []
  | S n' => r ← redisGetReply alloc malloc_ok fuel; l ← get_replies fuel n'; mret (r :: l)
  end.

Definition pipeline_client (cmds : list bytes) (fuel n : nat)
  : prog (conn net) (bool * list (Z * option redisReply)) :=
  ok ← appends cmds; l ← get_replies fuel n; mret (ok, l).

Lemma get_replies_spec rs cmds fuel : forall st,
  blocking = true -> pipe st rs cmds -> flushed st -> (work st < fuel)%nat ->
  wp (get_replies fuel (length rs)) (fun l st' =>
    l = map (fun x => (REDIS_OK, Some x)) rs /\ n_sent (os st') = cmds) st.
Proof.
  induction rs as [|y rs IH]; intros st Hbl Hp Hfl Hf; cbn [length get_replies map].
  - apply wp_ret. split; [done|]. destruct Hp as [_ _ _ (o & Ho & Hw & Hs) _ _].
    destruct Hfl as (o' & Ho' & Hl). assert (o' = o) as -> by congruence.
    pose proof (sds_value_zlen o Hw) as Hz. rewrite Hl in Hz.
    assert (sds_value o = []) as E by (destruct (sds_value o); [done|zlen_lia]).
    by rewrite E, app_nil_r in Hs.
  - apply wp_bind. eapply wp_mono; [by eapply getReply_next|]. intros r st' (-> & Hp' & Hw & Hfl').
    assert (flushed st') as Hfl2.
    { destruct Hfl' as [?|[E _]]; [done|]. destruct Hfl as (o & Ho & Hl). exists o. by rewrite E. }
    apply wp_bind. eapply wp_mono; [apply IH; [done|done|done|lia]|]. intros l st2 (-> & Hs).
    by apply wp_ret.
Qed.

(** The same when the reader has nothing yet. *)
Lemma get_replies_first y rs cmds fuel st :
  blocking = true -> pipe st (y :: rs) cmds -> (forall x, gives st x -> x = None) -> (work st < fuel)%nat ->
  wp (get_replies fuel (length (y :: rs))) (fun l st' =>
    l = map (fun x => (REDIS_OK, Some x)) (y :: rs) /\ n_sent (os st') = cmds) st.
Proof.
  intros Hbl Hp Hnone Hf. cbn [length get_replies map].
  apply wp_bind. eapply wp_mono; [by eapply getReply_next|]. intros r st' (-> & Hp' & Hw & Hfl).
  destruct Hfl as [Hfl|[_ Hg]]; [|by apply Hnone in Hg].
  apply wp_bind. eapply wp_mono; [apply (get_replies_spec rs cmds fuel); [done|done|done|lia]|].
  intros l st2 (-> & Hs). by apply wp_ret.
Qed.

Lemma append_pipe st rs cmds cmd :
  pipe st rs cmds ->
  (exists o, c_obuf (ctx st) = Some o /\ zlen (sds_value o) + zlen cmd < 2 ^ 30 - 1) ->
  wp (redisAppendFormattedCommand alloc cmd) (fun r st' => r = REDIS_OK /\ pipe st' rs (cmds ++ cmd) /\
    os st' = os st /\ c_reader (ctx st') = c_reader (ctx st) /\
    exists o o', c_obuf (ctx st) = Some o /\ c_obuf (ctx st') = Some o' /\
      sds_value o' = sds_value o ++ cmd) st.
Proof.
  intros Hp (o & Ho & Hl). pose proof Hp as [He Hb Hr (o2 & Ho2 & Hw & Hs) Hrd Hwr].
  assert (o2 = o) as -> by congruence.
  destruct (yields_catlen alloc Halloc Hmem o cmd Hw Hl) as (o' & Hcat & Hw' & Hv').
  unfold redisAppendFormattedCommand, __redisAppendCommand, get_ctx, put_obuf, upd.
  apply wp_bind, wp_bind, wp_gets, wp_bind. eapply wp_lift; [exact Ho|].
  apply wp_bind. eapply wp_lift; [by rewrite Hcat|]. apply wp_bind, wp_modify, wp_ret, wp_ret.
  split_and!; [done| |done|done|by exists o, o'].
  destruct st as [c w]. cbn [ctx os] in *.
  apply (pipe_obuf (mk_conn c w) rs cmds); try done. cbn. by rewrite Hv', app_assoc, Hs.
Qed.

Lemma appends_spec rs l : forall st cmds,
  pipe st rs cmds ->
  (exists o, c_obuf (ctx st) = Some o /\ zlen (sds_value o) + zlen (concat l) < 2 ^ 30 - 1) ->
  wp (appends l) (fun ok st' => ok = true /\ pipe st' rs (cmds ++ concat l) /\ os st' = os st /\
    c_reader (ctx st') = c_reader (ctx st) /\
    exists o o', c_obuf (ctx st) = Some o /\ c_obuf (ctx st') = Some o' /\
      sds_value o' = sds_value o ++ concat l) st.
Proof.
  induction l as [|cmd l IH]; intros st cmds Hp (o & Ho & Hl); cbn [appends concat].
  - apply wp_ret. rewrite app_nil_r. split_and!; try done. exists o, o. by rewrite app_nil_r.
  - cbn [concat] in Hl. rewrite zlen_app in Hl. pose proof (zlen_nonneg (concat l)).
    apply wp_bind. eapply wp_mono; [apply append_pipe; [done|exists o; split; [done|lia]]|].
    intros r st1 (-> & Hp1 & Hos1 & Hr1 & (o1 & o2 & Ho1 & Ho2 & Hv2)). cbn [Z.eqb REDIS_OK].
    assert (o1 = o) as -> by congruence.
    eapply wp_mono; [apply (IH st1 (cmds ++ cmd)); [done|]|].
    { exists o2. split; [done|]. rewrite Hv2, zlen_app. lia. }
    intros ok st2 (-> & Hp2 & Hos2 & Hr2 & (o3 & o4 & Ho3 & Ho4 & Hv4)).
    assert (o3 = o2) as -> by congruence.
    split_and!; [done|by rewrite app_assoc|congruence|congruence|].
    exists o, o4. split_and!; [done|done|]. by rewrite Hv4, Hv2, app_assoc.
Qed.

(** A connection just made: no error, both buffers empty. *)
Definition fresh (c : redisContext) : Prop :=
  c_err c = 0 /\ has_flag c REDIS_BLOCK = blocking /\
  (exists o, c_obuf c = Some o /\ sds_wf o /\ sds_value o = []) /\
  c_reader c = redisReaderCreate alloc.

(** What the peer sends are replies of the protocol. *)
Definition answers (w : net) (ws : list wire) : Prop :=
  Forall rd_ok (n_reads w) /\ Forall wr_ok (n_writes w) /\
  incoming (n_reads w) = concat (map encode ws) /\
  Forall (fun w => wire_ok w = true /\ depth w <= 8) ws /\
  zlen (concat (map encode ws)) < 2 ^ 30 - 1.

Lemma fresh_pipe (Hmalloc : forall n, malloc_ok n = true) c w ws :
  fresh c -> answers w ws ->
  pipe (mk_conn c w) (map reply_of ws) (n_sent w) /\ (forall x, gives (mk_conn c w) x -> x = None).
Proof.
  intros (He & Hb & (o & Ho & Hw & Hv) & Hr) (Hrd & Hwr & Hin & Hws & Hl).
  destruct (create_open alloc Halloc Hmem) as (r & Hcr & Hor & Hi & Hr0).
  destruct (drain_encode malloc_ok Hmalloc ws (r_state r) Hi Hws) as (st' & Hd).
  split.
  - constructor; cbn [ctx os]; try done.
    + exists r. split; [congruence|]. exists [], st', []. cbn [app]. rewrite Hin.
      split_and!; [done|done| |lia].
      destruct (drains_nil malloc_ok _ Hi) as (sw & Hd0 & _). by exists sw, [], [].
    + exists o. by rewrite Hv, app_nil_r.
  - intros x (r1 & r2 & E & Hg). cbn [ctx] in E. assert (r1 = r) as -> by congruence.
    unfold redisReaderGetReply in Hg. destruct (negb (r_err r =? 0)); [by injection Hg|].
    rewrite Hr0 in Hg. by injection Hg.
Qed.
End pipe.

(** C9: a blocking connection delivers.  A client appends its commands and asks
    for as many replies as the peer will send.  Whatever packets the answers come
    in, however few bytes a [write] takes, and however often [read] and [write] are
    interrupted, the calls return: every command is accepted, each
    [redisGetReply] returns the next reply of the peer, and the peer has got
    exactly the commands, in order.  [fuel] bounds the two loops of
    [redisGetReply]; the scripts and the bytes to move bound it. *)
Theorem redisGetReply_pipeline malloc_ok alloc (c : redisContext) (w : net) (cmds : list bytes)
  (x : wire) (ws : list wire) (fuel : nat) :
  (forall n, malloc_ok n = true) ->
  (forall n b, 0 <= n -> alloc n = Some b -> zlen b = n) -> (forall n, alloc n <> None) ->
  fresh alloc true c -> answers w (x :: ws) -> zlen (concat cmds) < 2 ^ 30 - 1 ->
  (length (n_writes w) + length (concat cmds) + length (n_reads w) +
   length (incoming (n_reads w)) < fuel)%nat ->
  exists st', pipeline_client malloc_ok alloc cmds fuel (length (x :: ws)) (mk_conn c w) =
      Some ((true, map (fun y => (REDIS_OK, Some (reply_of y))) (x :: ws)), st') /\
    n_sent (os st') = n_sent w ++ concat cmds.
Proof.
  intros Hm Ha Hmem Hf Hans Hl Hfuel.
  destruct (fresh_pipe malloc_ok alloc true Ha Hmem Hm c w (x :: ws) Hf Hans) as [Hp Hg].
  pose proof Hf as (_ & _ & (o & Ho & Hw & Hv) & _).
  assert (wp (pipeline_client malloc_ok alloc cmds fuel (length (x :: ws))) (fun r st' =>
    r = (true, map (fun y => (REDIS_OK, Some (reply_of y))) (x :: ws)) /\
    n_sent (os st') = n_sent w ++ concat cmds) (mk_conn c w)) as (r & st' & E & -> & Hs);
    [|by exists st'].
  apply wp_bind. eapply wp_mono; [eapply appends_spec; [done|done|done|]|].
  { exists o. split; [done|]. rewrite Hv. change (zlen (@nil ascii)) with 0. lia. }
  intros ok st1 (-> & Hp1 & Hos1 & Hr1 & (o1 & o2 & Ho1 & Ho2 & Hv2)).
  assert (o1 = o) as -> by (cbn in Ho1; congruence).
  apply wp_bind. eapply wp_mono.
  - replace (length (x :: ws)) with (length (map reply_of (x :: ws))) by apply length_map.
    cbn [map] in Hp1 |- *. apply (get_replies_first malloc_ok alloc true Ha Hmem _ _ (n_sent w ++ concat cmds));
      [done|done| |].
    + intros y (r & r' & E & Hgr). apply Hg. exists r, r'. by rewrite <- Hr1.
    + unfold work, to_write, to_read. rewrite Hos1, Ho2. cbn [os]. cbn.
      rewrite Hv2, Hv. cbn [app]. lia.
  - intros l st2 (-> & Hs). apply wp_ret. split; [|done]. cbn [map]. by rewrite map_map.
Qed.

(** Two commands, written three bytes at a time with an interruption; the two
    answers come in four packets with another one. *)
Definition some_context : option redisContext :=
  match sdsempty plenty with
  | Ok o => Some (mk_context 0 [] 5 (Z.lor REDIS_BLOCK REDIS_CONNECTED) (Some o) (redisReaderCreate plenty)
                    REDIS_CONN_TCP None None None 6379 None)
  | _ => None
  end.
Definition some_answers : list wire := [WStatus (s "PONG"); WBulk (s "v" ++ CRLF)].
Definition some_net : net :=
  mk_net 0 {[0; 5]}
    [RdData (s "+PO"); RdErr EINTR; RdData (s "NG"); RdData (CRLF ++ s "$3" ++ [CR]);
     RdData ([LF] ++ s "v" ++ CRLF ++ CRLF)]
    [WrSome 3; WrErr EINTR; WrSome 3] [] [] [] [].
Definition two_commands : list bytes := [s "PING" ++ CRLF; s "GET k" ++ CRLF].

Lemma redisGetReply_pipeline_witness :
  exists c st', some_context = Some c /\
    pipeline_client (fun _ => true) plenty two_commands 100 2 (mk_conn c some_net) =
      Some ((true, map (fun y => (REDIS_OK, Some (reply_of y))) some_answers), st') /\
    n_sent (os st') = n_sent some_net ++ concat two_commands.
Proof.
  destruct (implements_yields plenty (fun n => ltac:(done)) _ _ (sdsempty_spec plenty plenty_size))
    as (o & Eo & Hw & Hv).
  unfold some_context. rewrite Eo. eexists. 
  destruct (redisGetReply_pipeline (fun _ => true) plenty
    (mk_context 0 [] 5 (Z.lor REDIS_BLOCK REDIS_CONNECTED) (Some o) (redisReaderCreate plenty)
       REDIS_CONN_TCP None None None 6379 None) some_net two_commands
    (WStatus (s "PONG")) [WBulk (s "v" ++ CRLF)] 100) as (st' & H1 & H2); try done.
  - exact plenty_size.
  - split_and!; [done|done|by exists o|done].
  - split_and!; [repeat constructor; done|repeat constructor|by vm_compute| |by vm_compute].
    repeat constructor; by vm_compute.
  - vm_compute. lia.
  - exists st'. done.
Defined.
