(* ===== verification/Async.v ===== *)
(** * async.c: callbacks of a connection

    A [redisAsyncContext] extends the context of hiredis.c with the callbacks of
    pending commands, of subscriptions and of the connection.  Callbacks are code
    of the user: a parameter [user], a program on the same state, so that it can
    call the library; the calls are logged, as are those of the hooks of the event
    library.  The nodes of callback lists are objects of a heap.  After
    [redisAsyncFree] the context is [None]: using it is a fault, as is a failed
    [assert].  [malloc_ok] and [alloc] say which allocations succeed; the names and
    dictionaries of subscriptions, whose allocations are not tested, succeed. *)

From S2P Require Import Prelude Effects Reply Resp Format Sds Dict Reader Vformat Net Context.

Record redisCallback (F P : Type) := mk_callback {
  cb_next : option Z;
  cb_fn : option F;
  cb_privdata : option P
}.
Arguments mk_callback {F P}.
Arguments cb_next {F P}.
Arguments cb_fn {F P}.
Arguments cb_privdata {F P}.

Record redisCallbackList := mk_cblist { cl_head : option Z; cl_tail : option Z }.

(** The hooks of the event library that are set. *)
Inductive hook := AddRead | DelRead | AddWrite | DelWrite | Cleanup.
Record ev_hooks := mk_ev {
  ev_addRead : bool;
  ev_delRead : bool;
  ev_addWrite : bool;
  ev_delWrite : bool;
  ev_cleanup : bool
}.

Record redisAsyncContext (F P : Type) := mk_ac {
  ac_c : redisContext;
  ac_err : Z;
  ac_errstr : option bytes;
  ac_dataHandler : option F;
  ac_ev : ev_hooks;
  ac_onDisconnect : option F;
  ac_onConnect : option F;
  ac_replies : redisCallbackList;
  ac_invalid : redisCallbackList;
  ac_channels : dict bytes (redisCallback F P);
  ac_patterns : dict bytes (redisCallback F P)
}.
Arguments mk_ac {F P}.
Arguments ac_c {F P}.
Arguments ac_err {F P}.
Arguments ac_errstr {F P}.
Arguments ac_dataHandler {F P}.
Arguments ac_ev {F P}.
Arguments ac_onDisconnect {F P}.
Arguments ac_onConnect {F P}.
Arguments ac_replies {F P}.
Arguments ac_invalid {F P}.
Arguments ac_channels {F P}.
Arguments ac_patterns {F P}.

(** What the library calls; [Client] is for entries of the client itself. *)
Inductive event (F P : Type) :=
| Hook (h : hook)
| Callback (fn : F) (reply : option redisReply) (privdata : option P)
| OnConnect (fn : F) (status : Z)
| OnDisconnect (fn : F) (status : Z)
| DataHandler (fn : F)
| Client (cb : redisCallback F P).
Arguments Hook {F P}.
Arguments Callback {F P}.
Arguments OnConnect {F P}.
Arguments OnDisconnect {F P}.
Arguments DataHandler {F P}.
Arguments Client {F P}.

(** The state: the context until it is freed, the nodes of callback lists, the
    system, the log. *)
Record async_state (F P W : Type) := mk_async {
  a_ctx : option (redisAsyncContext F P);
  a_nodes : gmap Z (redisCallback F P);
  a_fresh : Z;
  a_os : W;
  a_log : list (event F P)
}.
Arguments mk_async {F P W}.
Arguments a_ctx {F P W}.
Arguments a_nodes {F P W}.
Arguments a_fresh {F P W}.
Arguments a_os {F P W}.
Arguments a_log {F P W}.

(** ** Dictionaries of subscriptions *)

Definition callbackHash (key : bytes) : Z := dictGenHashFunction key.
Definition callbackKeyCompare (key1 key2 : bytes) : bool :=
  (zlen key1 =? zlen key2) && bool_decide (key1 = key2).
#[local] Instance callbackDict : DictType bytes :=
  {| hashFunction := callbackHash; keyCompare := callbackKeyCompare |}.

(** ** Reading a formatted command *)

(** [strchr(p, c)] from offset [p]; the outer [None] is a read behind the buffer. *)
Fixpoint strchr_from (b : bytes) (p : Z) (c : ascii) : option (option Z) :=
  match b with
  | [] => None
  | x :: b' =>
      if decide (x = c) then Some (Some p)
      else if decide (x = NUL) then Some None
      else strchr_from b' (p + 1) c
  end.
Definition strchr (b : bytes) (p : Z) (c : ascii) : option (option Z) :=
  if 0 <=? p then strchr_from (drop (Z.to_nat p) b) p c else None.

(** [strtol(p, NULL, 10)]: blanks, a sign, digits; [long] saturates. *)
Fixpoint digits_from (b : bytes) (v : Z) : option Z :=
  match b with
  | [] => None
  | x :: b' => if isdigit x then digits_from b' (v * 10 + digit_val x) else Some v
  end.
Definition isspace (x : ascii) : bool := (code x =? 32) || ((9 <=? code x) && (code x <=? 13)).
Fixpoint strtol_from (b : bytes) : option Z :=
  match b with
  | [] => None
  | x :: b' =>
      if isspace x then strtol_from b'
      else if decide (x = "-"%char) then (fun v => Z.max (- 2 ^ 63) (- v)) <$> digits_from b' 0
      else if decide (x = "+"%char) then Z.min (2 ^ 63 - 1) <$> digits_from b' 0
      else Z.min (2 ^ 63 - 1) <$> digits_from b 0
  end.
Definition strtol (b : bytes) (p : Z) : option Z :=
  if 0 <=? p then strtol_from (drop (Z.to_nat p) b) else None.

(** The position behind the argument, its text and its length; NULL is the inner
    [None]. *)
Definition nextArgument (b : bytes) (start : Z) : option (option (Z * Z * Z)) :=
  c ← byte_at b start;
  p ← (if decide (c = "$"%char) then Some (Some start) else strchr b start "$"%char);
  match p with
  | None => Some None
  | Some p =>
      len ← i32 <$> strtol b (p + 1);
      p ← strchr b p CR;
      p ← p;
      Some (Some (p + 2 + len + 2, p + 2, len))
  end.

(** [strncasecmp(p, pat, strlen(pat)) == 0] *)
Fixpoint strncasecmp_from (b pat : bytes) : option bool :=
  match pat, b with
  | [], _ => Some true
  | _, [] => None
  | c :: pat', x :: b' => if decide (tolower x = tolower c) then strncasecmp_from b' pat' else Some false
  end.
Definition strncasecmp_eq (b : bytes) (p : Z) (pat : bytes) : option bool :=
  if 0 <=? p then strncasecmp_from (drop (Z.to_nat p) b) pat else None.

(** [strcasecmp(str, pat) == 0] for the C string [str] of a reply. *)
Definition strcasecmp_eq (str pat : bytes) : option bool :=
  v ← c_string (str ++ [NUL]); Some (bool_decide (map tolower v = map tolower pat)).

Section async.
Context {F P W : Type} `{Posix W} (alloc : Z -> option bytes) (malloc_ok : Z -> bool).
Context (printf : bytes -> vararg -> bytes).
Abbreviation acontext := (redisAsyncContext F P).
Abbreviation callback := (redisCallback F P).
Abbreviation M := (prog (async_state F P W)).
Context (user : event F P -> M ()).
Implicit Types (ac : acontext) (cb : callback).

(** ** Access to the state *)

Definition get_ac : M acontext := ac ← gets a_ctx; lift ac.
Definition put_ac ac : M () :=
  modify (fun st => mk_async (Some ac) (a_nodes st) (a_fresh st) (a_os st) (a_log st)).
Definition upd_ac (f : acontext -> acontext) : M () := ac ← get_ac; put_ac (f ac).

Definition set_c (c : redisContext) ac : acontext :=
  mk_ac c (ac_err ac) (ac_errstr ac) (ac_dataHandler ac) (ac_ev ac) (ac_onDisconnect ac)
    (ac_onConnect ac) (ac_replies ac) (ac_invalid ac) (ac_channels ac) (ac_patterns ac).
Definition set_ac_err (e : Z) (str : option bytes) ac : acontext :=
  mk_ac (ac_c ac) e str (ac_dataHandler ac) (ac_ev ac) (ac_onDisconnect ac)
    (ac_onConnect ac) (ac_replies ac) (ac_invalid ac) (ac_channels ac) (ac_patterns ac).
Definition set_on (disconnect connect : option F) ac : acontext :=
  mk_ac (ac_c ac) (ac_err ac) (ac_errstr ac) (ac_dataHandler ac) (ac_ev ac) disconnect
    connect (ac_replies ac) (ac_invalid ac) (ac_channels ac) (ac_patterns ac).
Definition set_lists (replies invalid : redisCallbackList) ac : acontext :=
  mk_ac (ac_c ac) (ac_err ac) (ac_errstr ac) (ac_dataHandler ac) (ac_ev ac) (ac_onDisconnect ac)
    (ac_onConnect ac) replies invalid (ac_channels ac) (ac_patterns ac).
Definition set_subs (channels patterns : dict bytes callback) ac : acontext :=
  mk_ac (ac_c ac) (ac_err ac) (ac_errstr ac) (ac_dataHandler ac) (ac_ev ac) (ac_onDisconnect ac)
    (ac_onConnect ac) (ac_replies ac) (ac_invalid ac) channels patterns.

(** A function of hiredis.c or net.c on [&(ac->c)]. *)
Definition on_c {A} (m : prog (conn W) A) : M A :=
  ac ← get_ac;
  fun st =>
    match m (mk_conn (ac_c ac) (a_os st)) with
    | Some (a, k) =>
        Some (a, mk_async (Some (set_c (ctx k) ac)) (a_nodes st) (a_fresh st) (os k) (a_log st))
    | None => None
    end.

Definition flag (f : Z) : M bool := ac ← get_ac; mret (has_flag (ac_c ac) f).
Definition set_flag (f : Z) : M () :=
  upd_ac (fun ac => set_c (set_flags (Z.lor (c_flags (ac_c ac)) f) (ac_c ac)) ac).
Definition clear_flag (f : Z) : M () :=
  upd_ac (fun ac => set_c (set_flags (Z.ldiff (c_flags (ac_c ac)) f) (ac_c ac)) ac).

Definition emit (e : event F P) : M () :=
  modify (fun st => mk_async (a_ctx st) (a_nodes st) (a_fresh st) (a_os st) (a_log st ++ [e])).
Definition call_user (e : event F P) : M () := _ ← emit e; user e.

Definition hook_set (h : hook) (ev : ev_hooks) : bool :=
  match h with
  | AddRead => ev_addRead ev
  | DelRead => ev_delRead ev
  | AddWrite => ev_addWrite ev
  | DelWrite => ev_delWrite ev
  | Cleanup => ev_cleanup ev
  end.
(** [_EL_ADD_READ] and the others. *)
Definition _EL (h : hook) : M () :=
  ac ← get_ac; if hook_set h (ac_ev ac) then emit (Hook h) else mret ().

(** ** Creating *)

Definition sizeof_async : Z := 416.

(** [realloc] of the context. *)
Definition redisAsyncInitialize (c : redisContext) : option acontext :=
  if negb (malloc_ok sizeof_async) then None else
  Some (mk_ac (set_flags (Z.ldiff (c_flags c) REDIS_CONNECTED) c) 0 None None
    (mk_ev false false false false false) None None (mk_cblist None None) (mk_cblist None None)
    dictCreate dictCreate).

Definition copy_error ac : acontext := set_ac_err (c_err (ac_c ac)) (Some (c_errstr (ac_c ac))) ac.
Definition __redisAsyncCopyError : M () := upd_ac copy_error.

(** NULL of the connect function, of [redisAsyncInitialize]: then the context is
    freed. *)
Definition async_connect (connect : prog W (option redisContext)) : prog W (option acontext) :=
  c ← connect;
  match c with
  | None => mret None
  | Some c =>
      match redisAsyncInitialize c with
      | None => _ ← redisFree c; mret None
      | Some ac => mret (Some (copy_error ac))
      end
  end.
Definition redisAsyncConnect (ip : bytes) (port : Z) : prog W (option acontext) :=
  async_connect (redisConnectNonBlock alloc malloc_ok ip port).
Definition redisAsyncConnectUnix (path : bytes) : prog W (option acontext) :=
  async_connect (redisConnectUnixNonBlock alloc malloc_ok path).

(** These do not free the context. *)
Definition redisAsyncConnectBind (ip : bytes) (port : Z) (source_addr : option bytes)
  : prog W (option acontext) :=
  c ← redisConnectBindNonBlock alloc malloc_ok ip port source_addr;
  c ← lift c;
  mret (copy_error <$> redisAsyncInitialize c).
Definition redisAsyncConnectBindWithReuse (ip : bytes) (port : Z) (source_addr : option bytes)
  : prog W (option acontext) :=
  c ← redisConnectBindNonBlockWithReuse alloc malloc_ok ip port source_addr;
  c ← lift c;
  mret (copy_error <$> redisAsyncInitialize c).

Definition redisAsyncSetConnectCallback (fn : option F) : M Z :=
  ac ← get_ac;
  match ac_onConnect ac with
  | None =>
      _ ← put_ac (set_on (ac_onDisconnect ac) fn ac);
      _ ← _EL AddWrite;
      mret REDIS_OK
  | Some _ => mret REDIS_ERR
  end.
Definition redisAsyncSetDisconnectCallback (fn : option F) : M Z :=
  ac ← get_ac;
  match ac_onDisconnect ac with
  | None => _ ← put_ac (set_on fn (ac_onConnect ac) ac); mret REDIS_OK
  | Some _ => mret REDIS_ERR
  end.

(** ** Callback lists *)

(** [&ac->replies] or [&ac->sub.invalid] *)
Inductive which := Replies | Invalid.
Definition list_of (x : which) ac : redisCallbackList :=
  match x with Replies => ac_replies ac | Invalid => ac_invalid ac end.
Definition with_list (x : which) (l : redisCallbackList) ac : acontext :=
  match x with
  | Replies => set_lists l (ac_invalid ac) ac
  | Invalid => set_lists (ac_replies ac) l ac
  end.

Definition load_cb (p : Z) : M callback := n ← gets (fun st => a_nodes st !! p); lift n.
Definition store_cb (p : Z) cb : M () :=
  modify (fun st => mk_async (a_ctx st) (<[p := cb]> (a_nodes st)) (a_fresh st) (a_os st) (a_log st)).
(** [malloc] of a node, filled at once. *)
Definition new_cb cb : M Z := fun st =>
  Some (a_fresh st, mk_async (a_ctx st) (<[a_fresh st := cb]> (a_nodes st)) (a_fresh st + 1)
                      (a_os st) (a_log st)).
Definition free_cb (p : Z) : M () :=
  modify (fun st => mk_async (a_ctx st) (delete p (a_nodes st)) (a_fresh st) (a_os st) (a_log st)).

Definition sizeof_callback : Z := 24.

Definition __redisPushCallback (x : which) (source : callback) : M Z :=
  if negb (malloc_ok sizeof_callback) then mret REDIS_ERR_OOM else
  cb ← new_cb (mk_callback None (cb_fn source) (cb_privdata source));
  ac ← get_ac;
  let l := list_of x ac in
  let hd := if cl_head l is Some p then Some p else Some cb in
  _ ← match cl_tail l with
      | Some t => n ← load_cb t; store_cb t (mk_callback (Some cb) (cb_fn n) (cb_privdata n))
      | None => mret ()
      end;
  _ ← put_ac (with_list x (mk_cblist hd (Some cb)) ac);
  mret REDIS_OK.

(** The callback that was first; [None] is REDIS_ERR. *)
Definition __redisShiftCallback (x : which) : M (option callback) :=
  ac ← get_ac;
  let l := list_of x ac in
  match cl_head l with
  | None => mret None
  | Some p =>
      cb ← load_cb p;
      let tl := if bool_decide (cl_tail l = Some p) then None else cl_tail l in
      _ ← put_ac (with_list x (mk_cblist (cb_next cb) tl) ac);
      _ ← free_cb p;
      mret (Some cb)
  end.

Definition __redisRunCallback cb (reply : option redisReply) : M () :=
  match cb_fn cb with
  | None => mret ()
  | Some fn =>
      _ ← set_flag REDIS_IN_CALLBACK;
      _ ← call_user (Callback fn reply (cb_privdata cb));
      clear_flag REDIS_IN_CALLBACK
  end.

(** ** Freeing and disconnecting *)

(** [while (__redisShiftCallback(list,&cb) == REDIS_OK) __redisRunCallback(ac,&cb,NULL);] *)
Fixpoint run_pending (fuel : nat) (x : which) : M () :=
  match fuel with
  | O => fault
  | S fuel' =>
      cb ← __redisShiftCallback x;
      match cb with
      | Some cb => _ ← __redisRunCallback cb None; run_pending fuel' x
      | None => mret ()
      end
  end.

Definition dict_of (patterns : bool) ac : dict bytes callback :=
  if patterns then ac_patterns ac else ac_channels ac.
Definition with_dict (patterns : bool) (d : dict bytes callback) ac : acontext :=
  if patterns then set_subs (ac_channels ac) d ac else set_subs d (ac_patterns ac) ac.

(** [while ((de = dictNext(it)) != NULL)] *)
Fixpoint run_subscriptions (fuel : nat) (patterns : bool) (it : dictIterator bytes callback) : M () :=
  match fuel with
  | O => fault
  | S fuel' =>
      ac ← get_ac;
      r ← lift (dictNext (dict_of patterns ac) it);
      match r.1 with
      | Some de => _ ← __redisRunCallback de.2 None; run_subscriptions fuel' patterns r.2
      | None => mret ()
      end
  end.

(** One round for each node or entry, and one to see the end. *)
Definition nodes_fuel : M nat := gets (fun st => S (base.size (a_nodes st))).
Definition dict_fuel (patterns : bool) : M nat :=
  ac ← get_ac; mret (S (Z.to_nat (used (dict_of patterns ac)))).

(** [redisFree(c)]: the context is the first field of [*ac]. *)
Definition free_context : M () := fun st =>
  match a_ctx st with
  | Some ac =>
      match redisFree (ac_c ac) (a_os st) with
      | Some (_, w) => Some ((), mk_async None (a_nodes st) (a_fresh st) w (a_log st))
      | None => None
      end
  | None => None
  end.

Definition __redisAsyncFree : M () :=
  fuel ← nodes_fuel;
  _ ← run_pending fuel Replies;
  fuel ← nodes_fuel;
  _ ← run_pending fuel Invalid;
  fuel ← dict_fuel false;
  _ ← run_subscriptions fuel false dictGetIterator;
  fuel ← dict_fuel true;
  _ ← run_subscriptions fuel true dictGetIterator;
  _ ← _EL Cleanup;
  ac ← get_ac;
  _ ← match ac_onDisconnect ac with
      | Some fn =>
          if has_flag (ac_c ac) REDIS_CONNECTED then
            if has_flag (ac_c ac) REDIS_FREEING then call_user (OnDisconnect fn REDIS_OK)
            else call_user (OnDisconnect fn (if ac_err ac =? 0 then REDIS_OK else REDIS_ERR))
          else mret ()
      | None => mret ()
      end;
  ac ← get_ac;
  _ ← (if ac_dataHandler ac is Some fn then call_user (DataHandler fn) else mret ());
  free_context.

Definition redisAsyncFree : M () :=
  _ ← set_flag REDIS_FREEING;
  b ← flag REDIS_IN_CALLBACK;
  if negb b then __redisAsyncFree else mret ().

Definition __redisAsyncDisconnect : M () :=
  _ ← __redisAsyncCopyError;
  ac ← get_ac;
  _ ← (if ac_err ac =? 0 then
         cb ← __redisShiftCallback Replies;
         if cb is Some _ then fault else mret ()
       else set_flag REDIS_DISCONNECTING);
  __redisAsyncFree.

Definition redisAsyncDisconnect : M () :=
  _ ← set_flag REDIS_DISCONNECTING;
  b ← flag REDIS_IN_CALLBACK;
  ac ← get_ac;
  if negb b && (if cl_head (ac_replies ac) is None then true else false)
  then __redisAsyncDisconnect else mret ().

(** ** Replies *)

(** [reply->element[i]] of type [type]; a failed [assert] is a fault. *)
Definition element_of (reply : redisReply) (i : nat) (type : Z) : option redisReply :=
  x ← element reply !! i; x ← x; if rtype x =? type then Some x else None.
Definition text_of (r : redisReply) : option bytes := take (Z.to_nat (rlen r)) <$> rstr r.

(** [dstcb] after the call. *)
Definition __redisGetSubscribeCallback (reply : redisReply) (dstcb : callback) : M callback :=
  if rtype reply =? REDIS_REPLY_ARRAY then
    if elements reply <? 2 then fault else
    e0 ← lift (element_of reply 0 REDIS_REPLY_STRING);
    stype ← lift (rstr e0);
    c0 ← lift ((stype ++ [NUL]) !! 0%nat);
    let pvariant := bool_decide (tolower c0 = "p"%char) in
    e1 ← lift (element_of reply 1 REDIS_REPLY_STRING);
    sname ← lift (text_of e1);
    ac ← get_ac;
    de ← lift (dictFind (dict_of pvariant ac) sname);
    match de with
    | None => mret dstcb
    | Some de =>
        unsub ← lift (strcasecmp_eq (if pvariant then drop 1 stype else stype) (s "unsubscribe"));
        _ ← (if unsub : bool then
               d ← lift (dictDelete (dict_of pvariant ac) sname);
               _ ← put_ac (with_dict pvariant d.2 ac);
               e2 ← lift (element_of reply 2 REDIS_REPLY_INTEGER);
               if integer e2 =? 0 then clear_flag REDIS_SUBSCRIBED else mret ()
             else mret ());
        mret de.2
    end
  else
    cb ← __redisShiftCallback Invalid;
    mret (default dstcb cb).

(** The reply of a spontaneous error becomes the error of the context. *)
Definition spontaneous_error (reply : redisReply) : M () :=
  str ← lift (rstr reply);
  str ← lift (c_string (str ++ [NUL]));
  on_c (upd (set_err REDIS_ERR_OTHER (take 127 str))).

(** The body of the loop once there is a reply; the result is [cb], or [None] when
    the function returns. *)
Definition process_reply (reply : redisReply) (cb : callback) : M (option callback) :=
  x ← __redisShiftCallback Replies;
  r ← match x with
      | Some cb => mret (Some cb)
      | None =>
          if rtype reply =? REDIS_REPLY_ERROR then
            _ ← spontaneous_error reply;
            _ ← __redisAsyncDisconnect;
            mret None
          else
            sub ← flag REDIS_SUBSCRIBED;
            mon ← flag REDIS_MONITORING;
            if negb (sub || mon) then fault else
            if sub : bool then cb ← __redisGetSubscribeCallback reply cb; mret (Some cb)
            else mret (Some cb)
      end;
  match r with
  | None => mret None
  | Some cb =>
      match cb_fn cb with
      | Some _ =>
          _ ← __redisRunCallback cb (Some reply);
          f ← flag REDIS_FREEING;
          if f : bool then _ ← __redisAsyncFree; mret None else mret (Some cb)
      | None => mret (Some cb)
      end
  end.

(** The context does not block, so the loops of [redisGetReply] are not entered. *)
Definition next_reply : M (Z * option redisReply) := on_c (redisGetReply alloc malloc_ok 0).

Fixpoint process_loop (fuel : nat) (cb : callback) : M () :=
  match fuel with
  | O => fault
  | S fuel' =>
      g ← next_reply;
      if negb (g.1 =? REDIS_OK) then __redisAsyncDisconnect else
      match g.2 with
      | None =>
          d ← flag REDIS_DISCONNECTING;
          ac ← get_ac;
          obuf ← (if d : bool then b ← lift (c_obuf (ac_c ac)); mret (sds_len b) else mret 0);
          if d && (obuf =? 0) then __redisAsyncDisconnect else
          m ← flag REDIS_MONITORING;
          if m : bool then _ ← __redisPushCallback Replies cb; mret () else mret ()
      | Some reply =>
          r ← process_reply reply cb;
          match r with Some cb => process_loop fuel' cb | None => mret () end
      end
  end.

(** Every reply takes bytes of the reader's buffer. *)
Definition reader_fuel : M nat :=
  ac ← get_ac;
  mret (S (if c_reader (ac_c ac) is Some r then Z.to_nat (r_len r - r_pos r) else 0)).
Definition redisProcessCallbacks : M () :=
  fuel ← reader_fuel;
  process_loop fuel (mk_callback None None None).

(** ** Events of the socket *)

Definition on_connect (status : Z) : M () :=
  ac ← get_ac; if ac_onConnect ac is Some fn then call_user (OnConnect fn status) else mret ().

Definition __redisAsyncHandleConnect : M Z :=
  r ← on_c redisCheckSocketError;
  if r =? REDIS_ERR then
    e ← on_c get_errno;
    if e =? EINPROGRESS then mret REDIS_OK else
    _ ← on_connect REDIS_ERR;
    _ ← __redisAsyncDisconnect;
    mret REDIS_ERR
  else
    _ ← set_flag REDIS_CONNECTED;
    _ ← on_connect REDIS_OK;
    mret REDIS_OK.

(** The beginning of both handlers: whether to go on. *)
Definition connected_now : M bool :=
  c ← flag REDIS_CONNECTED;
  if c : bool then mret true else
  r ← __redisAsyncHandleConnect;
  if negb (r =? REDIS_OK) then mret false else flag REDIS_CONNECTED.

Definition redisAsyncHandleRead : M () :=
  go ← connected_now;
  if negb go then mret () else
  r ← on_c (redisBufferRead alloc);
  if r =? REDIS_ERR then __redisAsyncDisconnect
  else _ ← _EL AddRead; redisProcessCallbacks.

Definition redisAsyncHandleWrite : M () :=
  go ← connected_now;
  if negb go then mret () else
  r ← on_c (redisBufferWrite alloc);
  if r.1 =? REDIS_ERR then __redisAsyncDisconnect
  else
    _ ← _EL (if r.2 : bool then DelWrite else AddWrite);
    _EL AddRead.

(** ** Commands *)

(** The loop over the channels or patterns of (P)SUBSCRIBE. *)
Fixpoint subscribe_args (fuel : nat) (cmd : bytes) (p : Z) (pvariant : bool) (cb : callback) : M () :=
  match fuel with
  | O => fault
  | S fuel' =>
      x ← lift (nextArgument cmd p);
      match x with
      | None => mret ()
      | Some (p, astr, alen) =>
          if (alen <? 0) || (zlen cmd <? astr + alen) then fault else
          let sname := slice cmd astr (astr + alen) in
          ac ← get_ac;
          d ← lift (dictReplace (dict_of pvariant ac) sname cb);
          _ ← put_ac (with_dict pvariant d.2 ac);
          subscribe_args fuel' cmd p pvariant cb
      end
  end.

(** [cmd] is the memory at the pointer, [len] the number of bytes to send.  Neither
    the result of [__redisPushCallback] nor that of [__redisAppendCommand] is
    looked at. *)
Definition __redisAsyncCommand (fn : option F) (privdata : option P) (cmd : bytes) (len : Z) : M Z :=
  dis ← flag REDIS_DISCONNECTING;
  fre ← flag REDIS_FREEING;
  if dis || fre then mret REDIS_ERR else
  let cb := mk_callback None fn privdata in
  x ← lift (nextArgument cmd 0);
  x ← lift x;
  let '(p, cstr, _) := x : Z * Z * Z in
  pc ← lift (byte_at cmd p);
  let hasnext := bool_decide (pc = "$"%char) in
  c0 ← lift (byte_at cmd cstr);
  let pvariant := bool_decide (tolower c0 = "p"%char) in
  let cstr := if pvariant then cstr + 1 else cstr in
  is_sub ← (if hasnext then lift (strncasecmp_eq cmd cstr (s "subscribe" ++ CRLF)) else mret false);
  is_unsub ← (if is_sub : bool then mret false
              else lift (strncasecmp_eq cmd cstr (s "unsubscribe" ++ CRLF)));
  is_mon ← (if is_sub || is_unsub then mret false
            else lift (strncasecmp_eq cmd cstr (s "monitor" ++ CRLF)));
  sub ← flag REDIS_SUBSCRIBED;
  if is_unsub && negb sub then mret REDIS_ERR else
  _ ← (if is_sub : bool then
         _ ← set_flag REDIS_SUBSCRIBED;
         subscribe_args (S (length cmd)) cmd p pvariant cb
       else if is_unsub : bool then mret ()
       else if is_mon : bool then
         _ ← set_flag REDIS_MONITORING;
         _ ← __redisPushCallback Replies cb;
         mret ()
       else
         _ ← __redisPushCallback (if sub : bool then Invalid else Replies) cb;
         mret ());
  if (len <? 0) || (zlen cmd <? len) then fault else
  _ ← on_c (__redisAppendCommand alloc (take (Z.to_nat len) cmd));
  _ ← _EL AddWrite;
  mret REDIS_OK.

Definition redisvAsyncCommand (fn : option F) (privdata : option P) (format : bytes)
  (ap : list vararg) : M Z :=
  match redisvFormatCommand alloc printf format ap with
  | FmtOk cmd len => if len <? 0 then mret REDIS_ERR else __redisAsyncCommand fn privdata cmd len
  | FmtError _ => mret REDIS_ERR
  | FmtOverflow => fault
  end.
Definition redisAsyncCommand := redisvAsyncCommand.
(** The length is not tested: after an error [cmd] is not initialised. *)
Definition redisAsyncCommandArgv (fn : option F) (privdata : option P) (argc : Z) (argv : list bytes)
  (argvlen : option (list Z)) : M Z :=
  match redisFormatSdsCommandArgv malloc_ok argc argv argvlen with
  | FmtOk cmd len => __redisAsyncCommand fn privdata (cmd ++ [NUL]) len
  | FmtError _ => fault
  | FmtOverflow => fault
  end.
Definition redisAsyncFormattedCommand := __redisAsyncCommand.
End async.
