(* ===== verification/AsyncSpec.v ===== *)
(** * Callbacks are called once and in order

    The callback lists are queues; a regular command puts its callback at the end
    of the queue of replies.  Whatever the server, the system and the client do,
    the callbacks of accepted commands are called in the order of the commands,
    each at most once, and exactly once when the context is freed. *)

From S2P Require Import Prelude Effects Reply Resp Format Sds Dict Reader Vformat Net NetSpec NetScript Context Async.

(** ** Callback lists are queues *)

Section queue.
Context {F P W : Type} (malloc_ok : Z -> bool).
Abbreviation entry := (option F * option P)%type.
Implicit Types (ps : list (Z * entry)) (h : gmap Z (redisCallback F P)) (st : async_state F P W).

Definition front ps : option Z := fst <$> ps !! 0%nat.
Definition back ps : option Z := fst <$> last ps.

Fixpoint chain h ps : Prop :=
  match ps with
  | [] => True
  | (p, e) :: ps' => h !! p = Some (mk_callback (front ps') e.1 e.2) /\ chain h ps'
  end.

Record queue h (l : redisCallbackList) ps : Prop := {
  qu_chain : chain h ps;
  qu_nodup : NoDup ps.*1;
  qu_head : cl_head l = front ps;
  qu_tail : cl_tail l = back ps
}.

Definition nodes_ok st : Prop := forall p, is_Some (a_nodes st !! p) -> p < a_fresh st.

Lemma chain_in h ps p : chain h ps -> p ∈ ps.*1 -> is_Some (h !! p).
Proof.
  induction ps as [|[q e] ps IH]; cbn; [by intros _ ?%not_elem_of_nil|].
  intros [Hq Hc] [->|Hp]%elem_of_cons; [by eexists|]. by apply IH.
Qed.

Lemma chain_other h ps q n : q ∉ ps.*1 -> chain h ps -> chain (<[q := n]> h) ps.
Proof.
  induction ps as [|[p e] ps IH]; cbn; [done|]. intros Hq [Hp Hc].
  apply not_elem_of_cons in Hq as [Hne Hq]. rewrite lookup_insert_ne by done. split; [done|]. by apply IH.
Qed.
Lemma chain_delete h ps q : q ∉ ps.*1 -> chain h ps -> chain (delete q h) ps.
Proof.
  induction ps as [|[p e] ps IH]; cbn; [done|]. intros Hq [Hp Hc].
  apply not_elem_of_cons in Hq as [Hne Hq]. rewrite lookup_delete_ne by done. split; [done|]. by apply IH.
Qed.

(** A new last node: the old one is linked to it. *)
Lemma chain_snoc h ps t e p e' :
  chain h (ps ++ [(t, e)]) -> NoDup (ps ++ [(t, e)]).*1 -> p ∉ (ps ++ [(t, e)]).*1 ->
  h !! p = Some (mk_callback None e'.1 e'.2) ->
  chain (<[t := mk_callback (Some p) e.1 e.2]> h) (ps ++ [(t, e); (p, e')]).
Proof.
  induction ps as [|[q x] ps IH]; cbn.
  - intros [Ht _] _ Hp Hh. apply not_elem_of_cons in Hp as [Hne _].
    rewrite lookup_insert_eq, lookup_insert_ne by done. done.
  - intros [Hq Hc] [Hn1 Hn2]%NoDup_cons [Hne Hp]%not_elem_of_cons Hh.
    split; [|by apply IH]. rewrite lookup_insert_ne.
    + rewrite Hq. f_equal. f_equal. by destruct ps as [|[? ?] ?].
    + intros ->. apply Hn1. rewrite fmap_app. apply elem_of_app. right. left.
Qed.

Lemma push_spec (x : which) (cb : redisCallback F P) st ac ps :
  malloc_ok sizeof_callback = true -> a_ctx st = Some ac ->
  queue (a_nodes st) (list_of x ac) ps -> nodes_ok st ->
  exists l h, __redisPushCallback malloc_ok x cb st =
      Some (REDIS_OK, mk_async (Some (with_list x l ac)) h (a_fresh st + 1) (a_os st) (a_log st)) /\
    queue h l (ps ++ [(a_fresh st, (cb_fn cb, cb_privdata cb))]) /\
    (forall p, is_Some (h !! p) -> p < a_fresh st + 1).
Proof.
  intros Hm Hc [Hch Hn Hh Ht] Hok. set (p := a_fresh st). set (e := (cb_fn cb, cb_privdata cb)).
  assert (p ∉ ps.*1) as Hp.
  { intros Hin. apply (chain_in _ _ _ Hch) in Hin. apply Hok in Hin. unfold p in Hin. lia. }
  assert (forall q, is_Some (a_nodes st !! q) -> q < p + 1) as Hok' by
    (intros q Hq; apply Hok in Hq; unfold p; lia).
  unfold __redisPushCallback. rewrite Hm. cbn [negb].
  unfold mbind, prog_bind, new_cb, get_ac, gets, lift, put_ac, modify, mret, prog_ret.
  cbn [a_ctx]. unfold mbind, prog_bind, gets, lift. cbn [a_ctx]. rewrite Hc. cbn [fmap option_fmap option_map].
  rewrite Hh, Ht.
  destruct ps as [|[t x'] ps _] using rev_ind.
  - cbn. eexists _, _. split; [done|]. split.
    + constructor; cbn; [|apply NoDup_singleton|done|done]. by rewrite lookup_insert_eq.
    + intros q. destruct (decide (q = p)) as [->|Hne]; [lia|]. rewrite lookup_insert_ne by done. apply Hok'.
  - unfold back. rewrite last_snoc. cbn [fmap option_fmap option_map fst].
    assert (a_nodes st !! t = Some (mk_callback None x'.1 x'.2)) as Htn.
    { clear -Hch. induction ps as [|[q y] ps IH]; destruct Hch as [Hq Hch]; [done|by apply IH]. }
    assert (p <> t) as Hpt.
    { intros ->. apply Hp. rewrite fmap_app. apply elem_of_app. right. left. }
    unfold load_cb, store_cb, mbind, prog_bind, gets, lift, modify. cbn [a_nodes].
    rewrite lookup_insert_ne by done. rewrite Htn. cbn.
    eexists _, _. split; [done|]. split.
    + constructor; cbn [cl_head cl_tail].
      * rewrite <- app_assoc. cbn [app]. apply chain_snoc; [by apply chain_other|done|done|].
        by rewrite lookup_insert_eq.
      * rewrite fmap_app. apply NoDup_app. split_and!; [done| |apply NoDup_singleton].
        intros q Hq ->%list_elem_of_singleton. done.
      * by destruct ps as [|[? ?] ?].
      * unfold back. by rewrite last_snoc.
    + intros q. destruct (decide (q = t)) as [->|Hne].
      { intros _. apply Hok'. by eexists. }
      rewrite lookup_insert_ne by done. destruct (decide (q = p)) as [->|]; [lia|].
      rewrite lookup_insert_ne by done. apply Hok'.
Qed.

Lemma shift_spec (x : which) st ac ps :
  a_ctx st = Some ac -> queue (a_nodes st) (list_of x ac) ps -> nodes_ok st ->
  match ps with
  | [] => __redisShiftCallback x st = Some (None, st)
  | (p, e) :: ps' => exists cb l h,
      __redisShiftCallback x st =
        Some (Some cb, mk_async (Some (with_list x l ac)) h (a_fresh st) (a_os st) (a_log st)) /\
      cb_fn cb = e.1 /\ cb_privdata cb = e.2 /\ queue h l ps' /\
      (forall q, is_Some (h !! q) -> q < a_fresh st)
  end.
Proof.
  intros Hc [Hch Hn Hh Ht] Hok. destruct ps as [|[p e] ps].
  - unfold __redisShiftCallback, get_ac, mbind, prog_bind, gets, lift. rewrite Hc. cbn.
    by rewrite Hh.
  - destruct Hch as [Hp Hch]. apply NoDup_cons in Hn as [Hpn Hn].
    unfold __redisShiftCallback, get_ac, load_cb, put_ac, free_cb, mbind, prog_bind, gets, lift, modify.
    rewrite Hc. cbn. rewrite Hh. cbn. rewrite Hp. cbn. eexists _, _, _. split; [done|].
    split_and!; [done|done| |].
    + constructor; cbn; [by apply chain_delete|done|done|]. rewrite Ht. unfold back.
      destruct ps as [|[a b] ps _] using rev_ind; [by rewrite bool_decide_eq_true_2|].
      rewrite app_comm_cons, !last_snoc. cbn. rewrite bool_decide_eq_false_2; [done|].
      intros [= ->]. apply Hpn, list_elem_of_fmap. eexists (_, b). split; [done|]. apply elem_of_app. right. left.
    + intros q [n Hq]. apply lookup_delete_Some in Hq as [_ Hq]. apply Hok. by eexists.
Qed.
End queue.

(** ** What nextArgument finds in a request *)

Lemma strchr_from_skip l : forall c rest p,
  Forall (fun x => x <> c /\ x <> NUL) l -> strchr_from (l ++ c :: rest) p c = Some (Some (p + zlen l)).
Proof.
  induction l as [|x l IH]; intros c rest p Hl; cbn.
  - rewrite decide_True by done. f_equal. f_equal. zlen_lia.
  - apply Forall_cons in Hl as [[H1 H2] Hl]. rewrite !decide_False by done. rewrite IH by done.
    f_equal. f_equal. zlen_lia.
Qed.

Lemma strchr_skip pre l c rest :
  Forall (fun x => x <> c /\ x <> NUL) l ->
  strchr (pre ++ l ++ c :: rest) (zlen pre) c = Some (Some (zlen pre + zlen l)).
Proof.
  intros Hl. unfold strchr. destruct (Z.leb_spec 0 (zlen pre)); [|zlen_lia].
  unfold zlen at 1. rewrite Nat2Z.id, drop_app_length. by apply strchr_from_skip.
Qed.

Lemma digits_from_dec l : forall v c rest,
  Forall (fun x => isdigit x = true) l -> isdigit c = false ->
  digits_from (l ++ c :: rest) v = Some (fold_left (fun v x => v * 10 + digit_val x) l v).
Proof.
  induction l as [|x l IH]; intros v c rest Hl Hc; cbn; [by rewrite Hc|].
  apply Forall_cons in Hl as [-> Hl]. by apply IH.
Qed.

Lemma digit_other x c : isdigit x = true -> isdigit c = false -> x <> c.
Proof. by intros H1 H2 ->; congruence. Qed.

Lemma strtol_dec pre n c rest :
  0 <= n < 2 ^ 63 -> isdigit c = false -> strtol (pre ++ dec n ++ c :: rest) (zlen pre) = Some n.
Proof.
  intros Hn Hc. unfold strtol. destruct (Z.leb_spec 0 (zlen pre)); [|zlen_lia].
  unfold zlen at 1. rewrite Nat2Z.id, drop_app_length.
  pose proof (dec_digits n (proj1 Hn)) as Hd. pose proof (dec_value_dec n (proj1 Hn)) as Hv.
  destruct (dec n) as [|x l] eqn:E; [by apply dec_nonempty in E|].
  pose proof Hd as Hd'. apply Forall_cons in Hd as [Hx _]. cbn [app strtol_from].
  assert (isspace x = false) as -> by (apply isdigit_range in Hx; unfold digit_val in Hx; unfold isspace; lia).
  rewrite !decide_False by (by apply digit_other).
  change (x :: l ++ c :: rest) with ((x :: l) ++ c :: rest). rewrite digits_from_dec by done.
  unfold dec_value in Hv. rewrite Hv. cbn. f_equal. lia.
Qed.

(** The argument that starts here. *)
Lemma nextArgument_bulk pre a rest :
  zlen a < 2 ^ 31 ->
  nextArgument (pre ++ bulk a ++ rest) (zlen pre) =
    Some (Some (zlen pre + zlen (bulk a), zlen pre + zlen (bulk_header a), zlen a)).
Proof.
  intros Ha. pose proof (zlen_nonneg a). unfold nextArgument, bulk, bulk_header.
  rewrite <- !app_assoc. cbn [app]. rewrite <- !app_assoc.
  rewrite byte_at_app. cbn [mbind option_bind]. rewrite decide_True by done. cbn [mbind option_bind].
  change ("$"%char :: dec (zlen a) ++ CRLF ++ a ++ CRLF ++ rest)
    with (["$"%char] ++ dec (zlen a) ++ CR :: LF :: a ++ CRLF ++ rest).
  rewrite app_assoc. replace (zlen pre + 1) with (zlen (pre ++ ["$"%char])) by zlen_lia.
  rewrite strtol_dec by (try done; lia). cbn [fmap option_fmap option_map mbind option_bind].
  rewrite i32_small by lia.
  rewrite <- app_assoc, (app_assoc ["$"%char]), strchr_skip.
  2:{ apply Forall_cons. split; [done|]. eapply Forall_impl; [by apply dec_digits|].
      intros x Hx. split; by apply digit_other. }
  cbn [mbind option_bind]. do 2 f_equal. rewrite !pair_equal_spec. split_and!; zlen_lia.
Qed.

(** The first argument of a request. *)
Lemma nextArgument_first n a rest :
  0 <= n -> zlen a < 2 ^ 31 ->
  nextArgument (request_header n ++ bulk a ++ rest) 0 =
    Some (Some (zlen (request_header n) + zlen (bulk a),
                zlen (request_header n) + zlen (bulk_header a), zlen a)).
Proof.
  intros Hn Ha. rewrite <- (nextArgument_bulk (request_header n) a rest Ha).
  assert (exists tl, bulk a ++ rest = "$"%char :: tl) as [tl E] by (by eexists). rewrite E.
  assert (byte_at (request_header n ++ "$"%char :: tl) 0 = Some "*"%char) as Hb.
  { unfold byte_at, request_header. cbn [app]. destruct (Z.leb_spec 0 0); [|lia].
    destruct (Z.ltb_spec 0 (zlen ("*"%char :: (dec n ++ CRLF) ++ "$"%char :: tl))); [done|zlen_lia]. }
  assert (strchr (request_header n ++ "$"%char :: tl) 0 "$"%char = Some (Some (zlen (request_header n)))) as Hs.
  { refine (strchr_skip [] (request_header n) _ tl _).
    unfold request_header. apply Forall_cons. split; [done|]. apply Forall_app. split.
    - eapply Forall_impl; [by apply dec_digits|]. intros x Hx. split; by apply digit_other.
    - repeat constructor; done. }
  unfold nextArgument. rewrite Hb, byte_at_app. cbn [mbind option_bind].
  rewrite decide_False, decide_True by done. by rewrite Hs.
Qed.

(** Behind the last one. *)
Lemma nextArgument_end pre : nextArgument (pre ++ [NUL]) (zlen pre) = Some None.
Proof.
  unfold nextArgument, strchr. rewrite byte_at_app. cbn [mbind option_bind].
  rewrite decide_False by done. destruct (Z.leb_spec 0 (zlen pre)); [|zlen_lia].
  unfold zlen at 1. by rewrite Nat2Z.id, drop_app_length.
Qed.

(** ** Regular commands *)

(** The text that is compared with the names of special commands. *)
Definition command_text (args : list bytes) : bytes :=
  match args with
  | [] => []
  | a :: _ =>
      let text := a ++ CRLF in
      if bool_decide (tolower (hd NUL text) = "p"%char) then drop 1 text else text
  end.

Definition special : list bytes := [s "subscribe"; s "unsubscribe"; s "monitor"].
Definition regular (args : list bytes) : bool :=
  match args with [] => false | _ => true end &&
  forallb (fun w => bool_decide (strncasecmp_from (command_text args) (w ++ CRLF) = Some false)) special.

Lemma strncasecmp_more b rest : forall pat r,
  strncasecmp_from b pat = Some r -> strncasecmp_from (b ++ rest) pat = Some r.
Proof.
  induction b as [|x b IH]; intros [|c pat] r; cbn; try done; [by destruct rest|].
  destruct (decide _); [apply IH|done].
Qed.

(** The memory of a formatted command. *)
Definition memory (args : list bytes) : bytes := request args ++ [NUL].

Section commands.
Context {F P W : Type} `{Posix W} (alloc : Z -> option bytes) (malloc_ok : Z -> bool).
Implicit Types (st : async_state F P W).

Lemma flag_eq st ac f : a_ctx st = Some ac -> flag f st = Some (has_flag (ac_c ac) f, st).
Proof. intros E. unfold flag, get_ac, mbind, prog_bind, gets, lift. by rewrite E. Qed.

Lemma bind_lift {A B} (x : option A) (f : A -> prog (async_state F P W) B) a st :
  x = Some a -> (lift x ≫= f) st = f a st.
Proof. by intros ->. Qed.

(** What a regular command does. *)
Definition queue_and_send (fn : option F) (privdata : option P) (args : list bytes)
  : prog (async_state F P W) Z :=
  _ ← __redisPushCallback malloc_ok Replies (mk_callback None fn privdata);
  _ ← on_c (__redisAppendCommand alloc (request args));
  _ ← _EL AddWrite;
  mret REDIS_OK.

Definition refuses (c : redisContext) : bool := has_flag c REDIS_DISCONNECTING || has_flag c REDIS_FREEING.

(** What [__redisAsyncCommand] reads of a request that more follows: the end of the
    first argument, its beginning, and whether it is one of the special names. *)
Lemma request_layout a args more :
  regular (a :: args) = true -> zlen a < 2 ^ 31 -> bulks args ++ more <> [] ->
  let mem := request (a :: args) ++ more in
  exists p cs c x,
    nextArgument mem 0 = Some (Some (p, cs, zlen a)) /\ byte_at mem p = Some c /\ byte_at mem cs = Some x /\
    forall w, w ∈ special ->
      strncasecmp_eq mem (if bool_decide (tolower x = "p"%char) then cs + 1 else cs) (w ++ CRLF) = Some false.
Proof.
  intros Hr Ha Hne mem. set (h := request_header (zlen (a :: args))).
  assert (mem = h ++ bulk a ++ bulks args ++ more) as Hm.
  { unfold mem, request. fold h. rewrite bulks_cons. by rewrite <- !app_assoc. }
  set (text := a ++ CRLF). set (rest := bulks args ++ more) in *.
  assert (mem = (h ++ bulk_header a) ++ text ++ rest) as Hm2 by (rewrite Hm; unfold bulk, text; by rewrite <- !app_assoc).
  assert (exists x tx, text = x :: tx) as (x & tx & Ex) by (destruct a; by eexists _, _).
  destruct rest as [|c tl] eqn:Er; [done|].
  exists (zlen h + zlen (bulk a)), (zlen h + zlen (bulk_header a)), c, x. split_and!.
  - rewrite Hm. apply nextArgument_first; [zlen_lia|done].
  - rewrite Hm, app_assoc, <- zlen_app. apply byte_at_app.
  - rewrite Hm2, Ex, <- zlen_app. apply byte_at_app.
  - intros w Hw. unfold regular in Hr. apply andb_true_iff in Hr as [_ Hr]. rewrite forallb_forall in Hr.
    apply list_elem_of_In, Hr, bool_decide_eq_true in Hw. unfold command_text in Hw. fold text in Hw.
    rewrite Ex in Hw. cbn [hd] in Hw. unfold strncasecmp_eq. rewrite Hm2, Ex, <- zlen_app.
    pose proof (zlen_nonneg (h ++ bulk_header a)). destruct (bool_decide (tolower x = "p"%char)).
    + destruct (Z.leb_spec 0 (zlen (h ++ bulk_header a) + 1)); [|lia].
      change ((x :: tx) ++ c :: tl) with ([x] ++ (tx ++ c :: tl)). rewrite app_assoc.
      replace (Z.to_nat (zlen (h ++ bulk_header a) + 1)) with (length ((h ++ bulk_header a) ++ [x]))
        by (rewrite length_app; unfold zlen; cbn; lia).
      rewrite drop_app_length. by apply strncasecmp_more.
    + destruct (Z.leb_spec 0 (zlen (h ++ bulk_header a))); [|lia].
      unfold zlen at 1. rewrite Nat2Z.id, drop_app_length. by apply strncasecmp_more.
Qed.

(** A request is followed by its NUL, or has a second argument. *)
Lemma regular_command_in st ac args more fn privdata :
  a_ctx st = Some ac -> regular args = true -> zlen (request args) < 2 ^ 31 ->
  has_flag (ac_c ac) REDIS_SUBSCRIBED = false -> bulks (tail args) ++ more <> [] ->
  __redisAsyncCommand alloc malloc_ok fn privdata (request args ++ more) (zlen (request args)) st =
    if refuses (ac_c ac) then Some (REDIS_ERR, st) else queue_and_send fn privdata args st.
Proof.
  intros Hc Hr Hl Hsub Hne. unfold __redisAsyncCommand, refuses.
  rewrite !(bind_eq _ _ _ _ _ (flag_eq st ac _ Hc)).
  destruct (_ || _); [done|]. destruct args as [|a args]; [done|]. cbn [tail] in Hne.
  assert (zlen a < 2 ^ 31) as Ha.
  { unfold request in Hl. rewrite bulks_cons in Hl. pose proof (zlen_nonneg (bulks args)).
    pose proof (zlen_nonneg (dec (zlen a))). pose proof (zlen_nonneg (dec (zlen (a :: args)))). zlen_lia. }
  destruct (request_layout a args more Hr Ha Hne) as (p & cs & c & x & Hnext & Hp & Hcs & Hcmp).
  set (mem := request (a :: args) ++ more) in *.
  rewrite (bind_lift _ _ _ _ Hnext), (bind_lift _ _ _ _ eq_refl), (bind_lift _ _ _ _ Hp), (bind_lift _ _ _ _ Hcs).
  set (q := if bool_decide _ then cs + 1 else cs) in *.
  assert (forall (b : bool) w, w ∈ special -> (if b then lift (strncasecmp_eq mem q (w ++ CRLF)) else mret false) st =
    Some (false, st)) as E1.
  { intros [] w Hw; [|done]. unfold lift. by rewrite (Hcmp w Hw). }
  rewrite (bind_eq _ _ _ _ _ (E1 _ (s "subscribe") ltac:(left))).
  rewrite (bind_lift _ _ _ _ (Hcmp (s "unsubscribe") ltac:(right; left))). cbn [orb].
  rewrite (bind_lift _ _ _ _ (Hcmp (s "monitor") ltac:(right; right; left))).
  rewrite (bind_eq _ _ _ _ _ (flag_eq st ac _ Hc)), Hsub. cbn [andb negb].
  unfold queue_and_send, mem. rewrite zlen_app.
  pose proof (zlen_nonneg (request (a :: args))). pose proof (zlen_nonneg more).
  destruct (Z.ltb_spec (zlen (request (a :: args))) 0); [lia|].
  destruct (Z.ltb_spec (zlen (request (a :: args)) + zlen more) (zlen (request (a :: args)))); [lia|].
  cbn [orb]. rewrite take_app_length' by (unfold zlen; lia).
  unfold mbind, prog_bind. by destruct (__redisPushCallback _ _ _ _) as [[? ?]|].
Qed.

Lemma regular_command st ac args fn privdata :
  a_ctx st = Some ac -> regular args = true -> zlen (request args) < 2 ^ 31 ->
  has_flag (ac_c ac) REDIS_SUBSCRIBED = false ->
  __redisAsyncCommand alloc malloc_ok fn privdata (memory args) (zlen (request args)) st =
    if refuses (ac_c ac) then Some (REDIS_ERR, st) else queue_and_send fn privdata args st.
Proof. intros. apply regular_command_in with (more := [NUL]); try done. by intros [_ ?]%app_eq_nil. Qed.
End commands.
