(* ===== verification/AsyncOrder.v ===== *)
(** * Callbacks are called once and in order

    Whatever the server sends, the system answers and the client does, the
    callbacks of accepted regular commands are called in the order of the
    commands, each at most once, and exactly once when the context is freed. *)

From S2P Require Import Prelude Effects Reply Resp Format Sds SdsSpec Dict Reader Vformat Net NetSpec NetScript Context Async AsyncSpec.

(** ** The flags of a context stay *)

Section flags.
Context {W : Type} `{Posix W} (alloc : Z -> option bytes) (malloc_ok : Z -> bool).

Definition same_flags : relation (conn W) := fun st st' => c_flags (ctx st') = c_flags (ctx st).
#[export] Instance same_flags_preorder : PreOrder same_flags.
Proof. split; [by intros st|]. intros x y z ? ?. unfold same_flags in *. congruence. Qed.

Lemma flags_upd f : (forall c, c_flags (f c) = c_flags c) -> keeps same_flags (upd (W := W) f).
Proof. intros Hf. apply keeps_modify. intros st. apply Hf. Qed.
Lemma flags_sys {A} (f : W -> A * W) : keeps same_flags (sys f).
Proof. intros st a st'. unfold sys. destruct (f (os st)). intros [= <- <-]. done. Qed.
#[local] Hint Resolve flags_sys : keeps.
#[local] Hint Extern 2 (keeps same_flags (upd _)) => by apply flags_upd : keeps.

Lemma flags_get_ctx : keeps same_flags (get_ctx (W := W)).
Proof. apply keeps_gets. apply _. Qed.
Lemma flags_get_errno : keeps same_flags get_errno.
Proof. apply keeps_gets. apply _. Qed.
Lemma flags_set_error type str : keeps same_flags (__redisSetError (W := W) type str).
Proof. by apply flags_upd. Qed.
Lemma flags_put_reader r : keeps same_flags (put_reader (W := W) r).
Proof. by apply flags_upd. Qed.
Lemma flags_put_obuf b : keeps same_flags (put_obuf (W := W) b).
Proof. by apply flags_upd. Qed.
Lemma flags_lift {A} (x : option A) : keeps same_flags (lift (S := conn W) x).
Proof. apply keeps_lift. apply _. Qed.
#[local] Hint Resolve flags_get_ctx flags_get_errno flags_set_error flags_put_reader flags_put_obuf
  flags_lift : keeps.
Lemma flags_from_errno type prefix : keeps same_flags (__redisSetErrorFromErrno type prefix).
Proof. unfold __redisSetErrorFromErrno. keeps_steps. Qed.
Lemma flags_error_null type : keeps same_flags (__redisSetError_null (W := W) type).
Proof. unfold __redisSetError_null. keeps_steps. Qed.
#[local] Hint Resolve flags_error_null flags_from_errno : keeps.
Lemma flags_io_failed : keeps same_flags (io_failed (W := W)).
Proof. unfold io_failed. keeps_steps. Qed.
#[local] Hint Resolve flags_io_failed : keeps.
Lemma flags_read : keeps same_flags (redisBufferRead alloc).
Proof. unfold redisBufferRead. keeps_steps. Qed.
Lemma flags_write : keeps same_flags (redisBufferWrite alloc).
Proof. unfold redisBufferWrite. keeps_steps. Qed.
Lemma flags_from_reader : keeps same_flags (redisGetReplyFromReader (W := W) malloc_ok).
Proof. unfold redisGetReplyFromReader. keeps_steps. Qed.
#[local] Hint Resolve flags_read flags_write flags_from_reader : keeps.
Lemma flags_get_reply : keeps same_flags (redisGetReply alloc malloc_ok 0).
Proof. unfold redisGetReply. cbn [write_until_done read_until_reply]. keeps_steps. Qed.
Lemma flags_append cmd : keeps same_flags (__redisAppendCommand (W := W) alloc cmd).
Proof. unfold __redisAppendCommand. keeps_steps. Qed.
Lemma flags_check_socket : keeps same_flags redisCheckSocketError.
Proof. unfold redisCheckSocketError. keeps_steps. Qed.
End flags.

(** Setting and clearing flags. *)
Lemma has_flag_lor c f g :
  has_flag (set_flags (Z.lor (c_flags c) f) c) g = has_flag c g || negb (Z.land f g =? 0).
Proof.
  unfold has_flag. cbn. rewrite Z.land_lor_distr_l.
  destruct (Z.eqb_spec (Z.land (c_flags c) g) 0) as [->|E1]; [by rewrite Z.lor_0_l|].
  cbn [negb orb]. destruct (Z.eqb_spec (Z.lor (Z.land (c_flags c) g) (Z.land f g)) 0) as [E|]; [|done].
  apply Z.lor_eq_0_iff in E as [? _]. done.
Qed.
Lemma has_flag_ldiff c f g :
  has_flag c g = false -> has_flag (set_flags (Z.ldiff (c_flags c) f) c) g = false.
Proof.
  unfold has_flag. cbn. rewrite !negb_false_iff, !Z.eqb_eq. intros E.
  apply Z.bits_inj'. intros n Hn. rewrite Z.land_spec, Z.ldiff_spec, Z.bits_0.
  assert (Z.testbit (Z.land (c_flags c) g) n = false) as Hb by (rewrite E; apply Z.bits_0).
  rewrite Z.land_spec in Hb. destruct (Z.testbit (c_flags c) n), (Z.testbit g n); cbn in *; try done.
  by rewrite andb_false_r.
Qed.

(** ** A client *)

Inductive act (F P : Type) :=
| Command (fn : option F) (privdata : option P) (args : list bytes)
| FreeContext
| Disconnect.
Arguments Command {F P}.
Arguments FreeContext {F P}.
Arguments Disconnect {F P}.

Inductive async_step (F P : Type) :=
| Act (a : act F P)
| SetOnConnect (fn : F)
| SetOnDisconnect (fn : F)
| HandleRead
| HandleWrite.
Arguments Act {F P}.
Arguments SetOnConnect {F P}.
Arguments SetOnDisconnect {F P}.
Arguments HandleRead {F P}.
Arguments HandleWrite {F P}.

Section client.
Context {F P W : Type} `{Posix W} (alloc : Z -> option bytes) (malloc_ok : Z -> bool).
Abbreviation M := (prog (async_state F P W)).
Abbreviation entry := (option F * option P)%type.
Abbreviation acontext := (redisAsyncContext F P).
Implicit Types (st : async_state F P W) (ac : redisAsyncContext F P).

(** A command; the client notes that it was accepted. *)
Definition command (fn : option F) (privdata : option P) (args : list bytes) : M () :=
  r ← redisAsyncFormattedCommand alloc malloc_ok fn privdata (memory args) (zlen (request args));
  if r =? REDIS_OK then emit (Client (mk_callback None fn privdata)) else mret ().

(** [redisAsyncFree] and [redisAsyncDisconnect] in a callback, where they only set
    a flag. *)
Definition request_flag (f : Z) : M () :=
  _ ← set_flag f;
  b ← flag REDIS_IN_CALLBACK;
  if b : bool then mret () else fault.

Definition act_in_callback (a : act F P) : M () :=
  match a with
  | Command fn privdata args => command fn privdata args
  | FreeContext => request_flag REDIS_FREEING
  | Disconnect => request_flag REDIS_DISCONNECTING
  end.

(** The callbacks of the client: what they do depends on all that happened.  The
    ones for the end of the connection do nothing with it. *)
Definition code_of (script : list (event F P) -> list (act F P)) (e : event F P) : M () :=
  match e with
  | Callback _ _ _ | OnConnect _ _ =>
      log ← gets a_log; each (script log) act_in_callback
  | _ => mret ()
  end.

Lemma redisAsyncFree_in_callback user st ac :
  a_ctx st = Some ac -> has_flag (ac_c ac) REDIS_IN_CALLBACK = true ->
  redisAsyncFree user st = request_flag REDIS_FREEING st.
Proof.
  intros Hc Hf. unfold redisAsyncFree, request_flag, set_flag, upd_ac, flag, get_ac, put_ac.
  unfold mbind, prog_bind, gets, lift, modify. rewrite Hc. cbn.
  rewrite has_flag_lor, Hf. done.
Qed.
Lemma redisAsyncDisconnect_in_callback user st ac :
  a_ctx st = Some ac -> has_flag (ac_c ac) REDIS_IN_CALLBACK = true ->
  redisAsyncDisconnect user st = request_flag REDIS_DISCONNECTING st.
Proof.
  intros Hc Hf. unfold redisAsyncDisconnect, request_flag, set_flag, upd_ac, flag, get_ac, put_ac.
  unfold mbind, prog_bind, gets, lift, modify. rewrite Hc. cbn.
  rewrite has_flag_lor, Hf. done.
Qed.

Definition run_async_step (user : event F P -> M ()) (x : async_step F P) : M () :=
  match x with
  | Act (Command fn privdata args) => command fn privdata args
  | Act FreeContext => redisAsyncFree user
  | Act Disconnect => redisAsyncDisconnect user
  | SetOnConnect fn => _ ← redisAsyncSetConnectCallback (Some fn); mret ()
  | SetOnDisconnect fn => _ ← redisAsyncSetDisconnectCallback (Some fn); mret ()
  | HandleRead => redisAsyncHandleRead alloc malloc_ok user
  | HandleWrite => redisAsyncHandleWrite alloc user
  end.

(** ** What happened *)

(** The callbacks of accepted commands, and the calls of callbacks. *)
Definition accepted (log : list (event F P)) : list (F * option P) :=
  omap (fun e => if e is Client cb then (., cb_privdata cb) <$> cb_fn cb else None) log.
Definition called (log : list (event F P)) : list (F * option P) :=
  omap (fun e => if e is Callback fn _ d then Some (fn, d) else None) log.
Definition live (es : list entry) : list (F * option P) := omap (fun e => (., e.2) <$> e.1) es.

Arguments accepted : simpl never.
Arguments called : simpl never.
Arguments live : simpl never.

(** [ps] are the pending callbacks, [owed] is taken from the list and about to be
    called, [early] is in the list and not noted yet. *)
Record inv ac (ps : list (Z * entry)) (early owed : list (F * option P)) st : Prop := {
  in_ctx : a_ctx st = Some ac;
  in_queue : queue (a_nodes st) (ac_replies ac) ps;
  in_nodes : nodes_ok st;
  in_invalid : ac_invalid ac = mk_cblist None None;
  in_channels : ac_channels ac = dictCreate;
  in_patterns : ac_patterns ac = dictCreate;
  in_sub : has_flag (ac_c ac) REDIS_SUBSCRIBED = false;
  in_mon : has_flag (ac_c ac) REDIS_MONITORING = false;
  in_log : accepted (a_log st) ++ early = called (a_log st) ++ owed ++ live ps.*2
}.

Definition ready (owed : list (F * option P)) st : Prop := exists ac ps, inv ac ps [] owed st.
Definition drained st : Prop := exists ac, inv ac [] [] [] st.
Definition finished st : Prop := a_ctx st = None /\ accepted (a_log st) = called (a_log st).

(** A state after an assignment to the context that keeps the lists. *)
Lemma inv_put ac ac' ps early owed st :
  inv ac ps early owed st -> ac_replies ac' = ac_replies ac -> ac_invalid ac' = ac_invalid ac ->
  ac_channels ac' = ac_channels ac -> ac_patterns ac' = ac_patterns ac ->
  has_flag (ac_c ac') REDIS_SUBSCRIBED = false -> has_flag (ac_c ac') REDIS_MONITORING = false ->
  forall w, inv ac' ps early owed (mk_async (Some ac') (a_nodes st) (a_fresh st) w (a_log st)).
Proof. intros [] E1 E2 E3 E4 E5 E6 w. constructor; cbn; rewrite ?E1; try done; congruence. Qed.

Lemma inv_emit ac ps early owed st e :
  inv ac ps early owed st -> (forall cb, e <> Client cb) -> (forall f r d, e <> Callback f r d) ->
  inv ac ps early owed (mk_async (a_ctx st) (a_nodes st) (a_fresh st) (a_os st) (a_log st ++ [e])).
Proof.
  intros [] H1 H2. constructor; cbn; try done.
  unfold accepted, called in *. rewrite !omap_app. cbn.
  destruct e; try (by rewrite !app_nil_r); [by edestruct H2|by edestruct H1].
Qed.

(** Functions that keep the invariant whatever is owed and pending. *)
Definition stays early : relation (async_state F P W) := fun st st' =>
  forall ac ps owed, inv ac ps early owed st -> exists ac' es, inv ac' (ps ++ es) early owed st'.
#[export] Instance stays_preorder early : PreOrder (stays early).
Proof.
  split.
  - intros st ac ps owed Hi. exists ac, []. by rewrite app_nil_r.
  - intros x y z H1 H2 ac ps owed Hi. destruct (H1 _ _ _ Hi) as (ac1 & es1 & Hi1).
    destruct (H2 _ _ _ Hi1) as (ac2 & es2 & Hi2). exists ac2, (es1 ++ es2). by rewrite app_assoc.
Qed.

(** The context is used: the rest only when it is there. *)
Lemma stays_with early {A} (m : acontext -> M A) :
  (forall ac ps owed st a st', inv ac ps early owed st -> m ac st = Some (a, st') ->
     exists ac' es, inv ac' (ps ++ es) early owed st') ->
  keeps (stays early) (ac ← get_ac; m ac).
Proof.
  intros Hm st a st' E ac ps owed Hi. apply bind_inv in E as (x & st1 & E1 & E2).
  unfold get_ac, mbind, prog_bind, gets, lift in E1. rewrite (in_ctx _ _ _ _ _ Hi) in E1. cbn in E1.
  simplify_eq. by eapply Hm.
Qed.

Lemma stays_same early {A} (m : M A) :
  (forall ac ps owed st a st', inv ac ps early owed st -> m st = Some (a, st') -> exists ac', inv ac' ps early owed st') ->
  keeps (stays early) m.
Proof.
  intros Hm st a st' E ac ps owed Hi. destruct (Hm _ _ _ _ _ _ Hi E) as [ac' Hi'].
  exists ac', []. by rewrite app_nil_r.
Qed.

Lemma stays_get_ac early : keeps (stays early) get_ac.
Proof.
  apply stays_same. intros ac ps owed st a st' Hi E.
  unfold get_ac, mbind, prog_bind, gets, lift in E. rewrite (in_ctx _ _ _ _ _ Hi) in E. cbn in E.
  simplify_eq. by eexists.
Qed.
Lemma stays_flag early f : keeps (stays early) (flag f).
Proof. unfold flag. apply (keeps_bind (stays early)); [apply stays_get_ac|]. intros ac. apply keeps_ret. apply _. Qed.

Lemma upd_ac_eq f st ac :
  a_ctx st = Some ac ->
  upd_ac f st = Some ((), mk_async (Some (f ac)) (a_nodes st) (a_fresh st) (a_os st) (a_log st)).
Proof. intros E. unfold upd_ac, get_ac, put_ac, mbind, prog_bind, gets, lift, modify. by rewrite E. Qed.

Lemma stays_upd early f :
  (forall ac, ac_replies (f ac) = ac_replies ac /\ ac_invalid (f ac) = ac_invalid ac /\
     ac_channels (f ac) = ac_channels ac /\ ac_patterns (f ac) = ac_patterns ac /\
     (has_flag (ac_c ac) REDIS_SUBSCRIBED = false -> has_flag (ac_c (f ac)) REDIS_SUBSCRIBED = false) /\
     (has_flag (ac_c ac) REDIS_MONITORING = false -> has_flag (ac_c (f ac)) REDIS_MONITORING = false)) ->
  keeps (stays early) (upd_ac f).
Proof.
  intros Hf. apply stays_same. intros ac ps owed st a st' Hi E.
  rewrite (upd_ac_eq f st ac (in_ctx _ _ _ _ _ Hi)) in E. simplify_eq.
  destruct (Hf ac) as (H1 & H2 & H3 & H4 & H5 & H6). pose proof Hi as [].
  exists (f ac). apply (inv_put ac); auto.
Qed.

Lemma stays_set_flag early f :
  Z.land f REDIS_SUBSCRIBED = 0 -> Z.land f REDIS_MONITORING = 0 -> keeps (stays early) (set_flag f).
Proof.
  intros E1 E2. apply stays_upd. intros ac. split_and!; cbn; try done.
  - intros Hs. by rewrite has_flag_lor, Hs, E1.
  - intros Hs. by rewrite has_flag_lor, Hs, E2.
Qed.
Lemma stays_clear_flag early f : keeps (stays early) (clear_flag f).
Proof. apply stays_upd. intros ac. split_and!; cbn; try done; apply has_flag_ldiff. Qed.
Lemma stays_copy_error early : keeps (stays early) __redisAsyncCopyError.
Proof. apply stays_upd. intros ac. by split_and!. Qed.

Lemma stays_on_c early {A} (m : prog (conn W) A) : keeps same_flags m -> keeps (stays early) (on_c m).
Proof.
  intros Hm. unfold on_c. apply stays_with. intros ac ps owed st a st' Hi E.
  destruct (m _) as [[b k]|] eqn:Em; [|done]. simplify_eq.
  apply Hm in Em. unfold same_flags in Em. cbn in Em. pose proof Hi as [].
  exists (set_c (ctx k) ac), []. rewrite app_nil_r.
  apply (inv_put ac); try done; cbn; unfold has_flag in *; by rewrite Em.
Qed.

Lemma stays_emit early e :
  (forall cb, e <> Client cb) -> (forall f r d, e <> Callback f r d) -> keeps (stays early) (emit e).
Proof.
  intros H1 H2. apply stays_same. intros ac ps owed st a st' Hi E. unfold emit, modify in E.
  simplify_eq. exists ac. by apply inv_emit.
Qed.
Lemma stays_EL early h : keeps (stays early) (_EL h).
Proof.
  unfold _EL. apply (keeps_bind (stays early)); [apply stays_get_ac|]. intros ac.
  destruct (hook_set _ _); [by apply stays_emit|]. apply keeps_ret. apply _.
Qed.

(** ** Commands and callbacks *)

Context (Hmem : malloc_ok sizeof_callback = true).

(** The commands the client may use. *)
Definition command_ok (args : list bytes) : Prop := regular args = true /\ zlen (request args) < 2 ^ 31.
Definition act_ok (a : act F P) : Prop := if a is Command _ _ args then command_ok args else True.

Lemma push_inv ac ps early owed st cb :
  inv ac ps early owed st ->
  exists ac' es st', __redisPushCallback malloc_ok Replies cb st = Some (REDIS_OK, st') /\
    inv ac' (ps ++ es) (early ++ live [(cb_fn cb, cb_privdata cb)]) owed st'.
Proof.
  intros [Hc Hq Hn Hin Hch Hpa Hs Hm Hlog].
  destruct (push_spec malloc_ok Replies cb st ac ps Hmem Hc Hq Hn) as (l & h & Hp & Hq' & Hn').
  eexists _, _, _. split; [exact Hp|]. constructor; cbn; try done.
  rewrite (app_assoc (accepted _)), Hlog, fmap_app. unfold live. rewrite omap_app. by rewrite <- !app_assoc.
Qed.

Lemma stays_send early args :
  keeps (stays early) (_ ← on_c (__redisAppendCommand alloc (request args)); _ ← _EL AddWrite; mret REDIS_OK).
Proof.
  apply (keeps_bind (stays early)); [apply stays_on_c, flags_append|]. intros _.
  apply (keeps_bind (stays early)); [apply stays_EL|]. intros _. apply keeps_ret. apply _.
Qed.

Lemma emit_client ac ps owed st fn privdata st' :
  inv ac ps (live [(fn, privdata)]) owed st ->
  emit (Client (mk_callback None fn privdata)) st = Some ((), st') -> inv ac ps [] owed st'.
Proof.
  intros [] E. unfold emit, modify in E. simplify_eq. constructor; cbn; try done.
  unfold accepted, called in *. rewrite !omap_app, app_nil_r. cbn. rewrite app_nil_r.
  rewrite <- in_log0. unfold live. cbn. by destruct fn.
Qed.

Lemma stays_command fn privdata args : command_ok args -> keeps (stays []) (command fn privdata args).
Proof.
  intros [Hr Hl] st [] st' E ac ps owed Hi. unfold command in E.
  apply bind_inv in E as (r & st1 & E1 & E2). unfold redisAsyncFormattedCommand in E1.
  rewrite (regular_command alloc malloc_ok st ac args fn privdata) in E1
    by first [done|apply (in_ctx _ _ _ _ _ Hi)|apply (in_sub _ _ _ _ _ Hi)].
  destruct (refuses (ac_c ac)).
  { simplify_eq. cbn in E2. unfold mret, prog_ret in E2. simplify_eq. exists ac, []. by rewrite app_nil_r. }
  unfold queue_and_send in E1.
  destruct (push_inv ac ps [] owed st (mk_callback None fn privdata) Hi) as (ac1 & es1 & st2 & Hp & Hi1).
  rewrite (bind_eq _ _ _ _ _ Hp) in E1. cbn [cb_fn cb_privdata app] in Hi1.
  pose proof E1 as Er. apply stays_send with (early := live [(fn, privdata)]) in E1.
  destruct (E1 _ _ _ Hi1) as (ac2 & es2 & Hi2).
  assert (r = REDIS_OK) as ->.
  { apply bind_inv in Er as (? & ? & _ & Er). apply bind_inv in Er as (? & ? & _ & Er).
    by apply ret_inv in Er as [-> _]. }
  exists ac2, (es1 ++ es2). rewrite app_assoc. by eapply emit_client.
Qed.

Lemma stays_request f :
  Z.land f REDIS_SUBSCRIBED = 0 -> Z.land f REDIS_MONITORING = 0 -> keeps (stays []) (request_flag f).
Proof.
  intros E1 E2. unfold request_flag. apply (keeps_bind (stays [])); [by apply stays_set_flag|].
  intros _. apply (keeps_bind (stays [])); [apply stays_flag|]. intros []; [apply keeps_ret; apply _|].
  apply keeps_fault.
Qed.

(** The client's code. *)
Context (script : list (event F P) -> list (act F P)) (Hscript : forall log, Forall act_ok (script log)).
Abbreviation user := (code_of script).

Lemma stays_user e : keeps (stays []) (user e).
Proof.
  assert (forall l, Forall act_ok l -> keeps (stays []) (each l act_in_callback)) as Hl.
  { induction 1 as [|a l Ha _ IH]; cbn [each]; [apply keeps_ret; apply _|].
    apply (keeps_bind (stays [])); [|by intros].
    destruct a; [by apply stays_command|by apply stays_request|by apply stays_request]. }
  destruct e; cbn [code_of]; try (apply keeps_ret; apply _);
    (apply (keeps_bind (stays [])); [apply keeps_gets; apply _|]; intros log; by apply Hl).
Qed.

Lemma stays_call e :
  (forall cb, e <> Client cb) -> (forall f r d, e <> Callback f r d) ->
  keeps (stays []) (call_user user e).
Proof.
  intros H1 H2. apply (keeps_bind (stays [])); [by apply stays_emit|]. intros _. apply stays_user.
Qed.

(** A function that keeps the invariant, on a state that is ready. *)
Lemma stays_ready {A} (m : M A) owed st a st' :
  keeps (stays []) m -> ready owed st -> m st = Some (a, st') -> ready owed st'.
Proof.
  intros Hm (ac & ps & Hi) E. destruct (Hm _ _ _ E _ _ _ Hi) as (ac' & es & Hi'). by exists ac', (ps ++ es).
Qed.
Lemma wlp_stays {A B} (m : M A) (f : A -> M B) (Q : B -> async_state F P W -> Prop) owed st :
  keeps (stays []) m -> ready owed st ->
  (forall a st', ready owed st' -> wlp (f a) Q st') -> wlp (x ← m; f x) Q st.
Proof.
  intros Hm Hr Hf. apply wlp_bind. intros a st' E. apply Hf. by eapply stays_ready.
Qed.

Definition owing (cb : redisCallback F P) : list (F * option P) := live [(cb_fn cb, cb_privdata cb)].

Lemma wlp_shift st :
  ready [] st ->
  wlp (__redisShiftCallback Replies)
    (fun r st' => match r with Some cb => ready (owing cb) st' | None => drained st' end) st.
Proof.
  intros (ac & ps & Hi) r st' E. pose proof Hi as [Hc Hq Hn Hin Hch Hpa Hs Hm Hlog].
  pose proof (shift_spec Replies st ac ps Hc Hq Hn) as Hsh. destruct ps as [|[p e] ps].
  - rewrite Hsh in E. simplify_eq. by exists ac.
  - destruct Hsh as (cb & l & h & Hsh & E1 & E2 & Hq' & Hn'). rewrite Hsh in E. simplify_eq.
    eexists _, ps. constructor; cbn; try done. rewrite Hlog. unfold owing. rewrite E1, E2.
    unfold live. cbn. by destruct e as [[f|] d].
Qed.

Lemma emit_callback fn reply privdata owed st st' :
  ready ((fn, privdata) :: owed) st -> emit (Callback fn reply privdata) st = Some ((), st') ->
  ready owed st'.
Proof.
  intros (ac & ps & []) E. unfold emit, modify in E. simplify_eq. exists ac, ps.
  constructor; cbn; try done. rewrite app_nil_r in in_log0 |- *.
  unfold accepted, called in *. rewrite !omap_app. cbn.
  rewrite app_nil_r, in_log0. by rewrite <- !app_assoc.
Qed.

Lemma wlp_run cb reply st :
  ready (owing cb) st -> wlp (__redisRunCallback user cb reply) (fun _ => ready []) st.
Proof.
  intros Hr. unfold __redisRunCallback, owing in *. destruct (cb_fn cb) as [fn|]; [|by apply wlp_ret].
  eapply wlp_stays; [by apply stays_set_flag|exact Hr|]. intros _ st1 Hr1.
  apply wlp_bind. intros [] st2 E. apply bind_inv in E as ([] & st3 & E3 & E2).
  eapply emit_callback in E3; [|exact Hr1]. eapply stays_ready in E2; [|apply stays_user|exact E3].
  intros [] st4 E4. eapply stays_ready; [apply (stays_clear_flag [])|exact E2|exact E4].
Qed.

(** ** Freeing *)

Lemma wlp_run_pending fuel : forall st,
  ready [] st -> wlp (run_pending user fuel Replies) (fun _ => drained) st.
Proof.
  induction fuel as [|fuel IH]; intros st Hr; cbn [run_pending]; [apply wlp_fault|].
  apply wlp_bind. eapply wlp_mono; [by apply wlp_shift|]. intros [cb|] st' Hst; [|by apply wlp_ret].
  apply wlp_bind. eapply wlp_mono; [by apply wlp_run|]. intros [] st2 Hr2. by apply IH.
Qed.

Lemma drained_ready st : drained st -> ready [] st.
Proof. intros [ac Hi]. by exists ac, []. Qed.

Lemma drained_emit e st st' :
  (forall cb, e <> Client cb) -> (forall f r d, e <> Callback f r d) ->
  drained st -> emit e st = Some ((), st') -> drained st'.
Proof.
  intros H1 H2 [ac Hi] E. unfold emit, modify in E. simplify_eq. exists ac. by apply inv_emit.
Qed.

Lemma wlp_drained {B} (f : acontext -> M B) Q st :
  drained st -> (forall ac, inv ac [] [] [] st -> wlp (f ac) Q st) -> wlp (x ← get_ac; f x) Q st.
Proof.
  intros [ac Hi] Hf. apply wlp_bind. intros x st' E.
  unfold get_ac, mbind, prog_bind, gets, lift in E. rewrite (in_ctx _ _ _ _ _ Hi) in E. cbn in E.
  simplify_eq. by apply Hf.
Qed.

(** The other lists and dictionaries are empty. *)
Lemma wlp_no_invalid fuel st : drained st -> wlp (run_pending user fuel Invalid) (fun _ => drained) st.
Proof.
  intros [ac Hi]. destruct fuel; [apply wlp_fault|]. cbn [run_pending]. apply wlp_bind. intros r st' E.
  unfold __redisShiftCallback in E. apply bind_inv in E as (x & st1 & E1 & E2).
  unfold get_ac, mbind, prog_bind, gets, lift in E1. rewrite (in_ctx _ _ _ _ _ Hi) in E1. cbn in E1.
  simplify_eq. cbn [list_of] in E2. rewrite (in_invalid _ _ _ _ _ Hi) in E2. cbn in E2.
  unfold mret, prog_ret in E2. simplify_eq. apply wlp_ret. by exists x.
Qed.
Lemma wlp_no_subscriptions fuel patterns st :
  drained st -> wlp (run_subscriptions user fuel patterns dictGetIterator) (fun _ => drained) st.
Proof.
  intros Hd. destruct fuel; [apply wlp_fault|]. cbn [run_subscriptions].
  apply wlp_drained; [done|]. intros ac Hi. apply wlp_bind, wlp_lift. intros r Hr.
  assert (dict_of patterns ac = dictCreate) as E.
  { destruct Hi, patterns; done. }
  rewrite E in Hr. cbv in Hr. injection Hr as <-. cbn. by apply wlp_ret.
Qed.

Lemma wlp_call_drained e st :
  (forall cb, e <> Client cb) -> (forall f r d, e <> Callback f r d) -> (forall f z, e <> OnConnect f z) ->
  drained st -> wlp (call_user user e) (fun _ => drained) st.
Proof.
  intros H1 H2 H3 Hd. apply wlp_bind. intros [] st' E. eapply drained_emit in E; [|done..].
  destruct e; try (by apply wlp_ret); [by edestruct H2|by edestruct H3].
Qed.

Lemma wlp_free_context st : drained st -> wlp free_context (fun _ => finished) st.
Proof.
  intros [ac []] [] st' E. unfold free_context in E. rewrite in_ctx0 in E.
  destruct (redisFree _ _) as [[u w]|]; [|done]. simplify_eq. split; [done|]. cbn.
  by rewrite !app_nil_r in in_log0.
Qed.

Lemma wlp_async_free st : ready [] st -> wlp (__redisAsyncFree user) (fun _ => finished) st.
Proof.
  intros Hr. unfold __redisAsyncFree.
  apply wlp_bind, wlp_gets, wlp_bind. eapply wlp_mono; [by apply wlp_run_pending|]. intros [] st1 H1.
  apply wlp_bind, wlp_gets, wlp_bind. eapply wlp_mono; [by apply wlp_no_invalid|]. intros [] st2 H2.
  apply wlp_bind. unfold dict_fuel. apply wlp_drained; [done|]. intros ac _. apply wlp_ret.
  apply wlp_bind. eapply wlp_mono; [by apply wlp_no_subscriptions|]. intros [] st3 H3.
  apply wlp_bind. apply wlp_drained; [done|]. intros ac3 _. apply wlp_ret.
  apply wlp_bind. eapply wlp_mono; [by apply wlp_no_subscriptions|]. intros [] st4 H4.
  apply wlp_bind. unfold _EL. apply wlp_drained; [done|]. intros ac4 _.
  assert (forall b : bool, wlp (if b then emit (Hook Cleanup) else mret ()) (fun _ => drained) st4) as He.
  { intros []; [|by apply wlp_ret]. intros [] st5 E5. eapply (drained_emit (Hook Cleanup)); [done|done|exact H4|exact E5]. }
  eapply wlp_mono; [apply He|]. intros [] st5 H5. clear He.
  apply wlp_drained; [done|]. intros ac5 _. apply wlp_bind.
  eapply (wlp_mono _ (fun _ => drained)).
  { destruct (ac_onDisconnect ac5); [|by apply wlp_ret]. destruct (has_flag _ _); [|by apply wlp_ret].
    destruct (has_flag _ _); by apply wlp_call_drained. }
  intros [] st6 H6. apply wlp_drained; [done|]. intros ac6 _. apply wlp_bind.
  eapply (wlp_mono _ (fun _ => drained)).
  { destruct (ac_dataHandler ac6); [by apply wlp_call_drained|by apply wlp_ret]. }
  intros [] st7 H7. by apply wlp_free_context.
Qed.

(** Any run: the context is ready for the next event, or it was freed. *)
Definition settled st : Prop := ready [] st \/ finished st.

Lemma wlp_disconnect st : ready [] st -> wlp (__redisAsyncDisconnect user) (fun _ => finished) st.
Proof.
  intros Hr. unfold __redisAsyncDisconnect.
  eapply wlp_stays; [apply (stays_copy_error [])|exact Hr|]. intros _ st1 H1.
  eapply wlp_stays; [apply (stays_get_ac [])|exact H1|]. intros ac st2 H2. clear st1 H1.
  apply wlp_bind. eapply (wlp_mono _ (fun _ => ready [])).
  - destruct (ac_err ac =? 0).
    + apply wlp_bind. eapply wlp_mono; [by apply wlp_shift|]. intros [cb|] st3 H3; [apply wlp_fault|].
      apply wlp_ret. by apply drained_ready.
    + intros [] st3 E3. eapply (stays_ready (set_flag REDIS_DISCONNECTING)); [|exact H2|exact E3].
      by apply stays_set_flag.
  - intros [] st3 H3. by apply wlp_async_free.
Qed.

Lemma wlp_async_free_api st : ready [] st -> wlp (redisAsyncFree user) (fun _ => settled) st.
Proof.
  intros Hr. unfold redisAsyncFree. eapply wlp_stays; [by apply (stays_set_flag [])|exact Hr|].
  intros _ st1 H1. eapply wlp_stays; [apply (stays_flag [])|exact H1|]. intros b st2 H2.
  destruct (negb b).
  - eapply wlp_mono; [by apply wlp_async_free|]. by right.
  - apply wlp_ret. by left.
Qed.
Lemma wlp_disconnect_api st : ready [] st -> wlp (redisAsyncDisconnect user) (fun _ => settled) st.
Proof.
  intros Hr. unfold redisAsyncDisconnect. eapply wlp_stays; [by apply (stays_set_flag [])|exact Hr|].
  intros _ st1 H1. eapply wlp_stays; [apply (stays_flag [])|exact H1|]. intros b st2 H2.
  eapply wlp_stays; [apply (stays_get_ac [])|exact H2|]. intros ac st3 H3.
  destruct (negb b && _).
  - eapply wlp_mono; [by apply wlp_disconnect|]. by right.
  - apply wlp_ret. by left.
Qed.

(** ** Replies *)

Lemma stays_spontaneous reply : keeps (stays []) (spontaneous_error reply).
Proof.
  unfold spontaneous_error. repeat (apply (keeps_bind (stays [])); [apply keeps_lift; apply _|intros ?]).
  apply stays_on_c, flags_upd. done.
Qed.

(** A regular context has neither subscriptions nor a monitor. *)
Lemma wlp_flag_of {B} st f (K : bool -> M B) Q :
  drained st -> (forall ac, inv ac [] [] [] st -> wlp (K (has_flag (ac_c ac) f)) Q st) ->
  wlp (b ← flag f; K b) Q st.
Proof.
  intros [ac Hi] HK. apply wlp_bind. intros b st' E.
  rewrite (flag_eq st ac f (in_ctx _ _ _ _ _ Hi)) in E. simplify_eq. by apply HK.
Qed.

(** The callback that a reply goes to. *)
Lemma wlp_owing_run cb reply st :
  ready (owing cb) st ->
  wlp (match cb_fn cb with
       | Some _ =>
           _ ← __redisRunCallback user cb (Some reply);
           f ← flag REDIS_FREEING;
           if f : bool then _ ← __redisAsyncFree user; mret None else mret (Some cb)
       | None => mret (Some cb)
       end) (fun r st' => match r with Some _ => ready [] st' | None => finished st' end) st.
Proof.
  intros Hr. destruct (cb_fn cb) as [fn|] eqn:Ef.
  - apply wlp_bind. eapply wlp_mono; [by apply wlp_run|]. intros [] st1 H1.
    eapply wlp_stays; [apply (stays_flag [])|exact H1|]. intros [] st2 H2; [|by apply wlp_ret].
    apply wlp_bind. eapply wlp_mono; [by apply wlp_async_free|]. intros [] st3 H3. by apply wlp_ret.
  - apply wlp_ret. unfold owing, live in Hr. by rewrite Ef in Hr.
Qed.

Lemma wlp_process_reply reply cb st :
  ready [] st ->
  wlp (process_reply user reply cb)
    (fun r st' => match r with Some _ => ready [] st' | None => finished st' end) st.
Proof.
  intros Hr. unfold process_reply. apply wlp_bind. eapply wlp_mono; [by apply wlp_shift|].
  intros [cb'|] st1 H1; apply wlp_bind; [apply wlp_ret; by apply wlp_owing_run|].
  destruct (rtype reply =? REDIS_REPLY_ERROR).
  - eapply wlp_stays; [apply stays_spontaneous|by apply drained_ready|]. intros _ st2 H2.
    apply wlp_bind. eapply wlp_mono; [by apply wlp_disconnect|]. intros [] st3 H3. by do 2 apply wlp_ret.
  - apply wlp_flag_of; [done|]. intros ac Hi. apply wlp_flag_of; [done|]. intros ac' Hi'.
    rewrite (in_sub _ _ _ _ _ Hi), (in_mon _ _ _ _ _ Hi'). apply wlp_fault.
Qed.

Lemma stays_next_reply : keeps (stays []) (next_reply alloc malloc_ok).
Proof. apply stays_on_c, flags_get_reply. Qed.

Lemma wlp_process_loop fuel : forall cb st,
  ready [] st -> wlp (process_loop alloc malloc_ok user fuel cb) (fun _ => settled) st.
Proof.
  induction fuel as [|fuel IH]; intros cb st Hr; cbn [process_loop]; [apply wlp_fault|].
  eapply wlp_stays; [apply stays_next_reply|exact Hr|]. intros g st1 H1.
  destruct (negb _). { eapply wlp_mono; [by apply wlp_disconnect|]. by right. }
  destruct g.2 as [reply|].
  - apply wlp_bind. eapply wlp_mono; [by apply wlp_process_reply|]. intros [cb'|] st2 H2; [by apply IH|].
    apply wlp_ret. by right.
  - eapply wlp_stays; [apply (stays_flag [])|exact H1|]. intros d st2 H2.
    eapply wlp_stays; [apply (stays_get_ac [])|exact H2|]. intros ac st3 H3.
    eapply wlp_stays; [|exact H3|].
    { destruct d; [|apply keeps_ret; apply _]. apply (keeps_bind (stays [])); [apply keeps_lift; apply _|].
      intros b. apply keeps_ret. apply _. }
    intros n st4 H4. destruct (_ && _). { eapply wlp_mono; [by apply wlp_disconnect|]. by right. }
    destruct H4 as (ac4 & ps & Hi). apply wlp_bind. intros m st5 E.
    rewrite (flag_eq st4 ac4 _ (in_ctx _ _ _ _ _ Hi)), (in_mon _ _ _ _ _ Hi) in E. simplify_eq.
    apply wlp_ret. left. by exists ac4, ps.
Qed.

Lemma wlp_process st : ready [] st -> wlp (redisProcessCallbacks alloc malloc_ok user) (fun _ => settled) st.
Proof.
  intros Hr. unfold redisProcessCallbacks, reader_fuel. eapply wlp_stays; [|exact Hr|].
  - apply (keeps_bind (stays [])); [apply stays_get_ac|]. intros ac. apply keeps_ret. apply _.
  - intros fuel st1 H1. by apply wlp_process_loop.
Qed.

(** ** Events *)

Lemma stays_on_connect status : keeps (stays []) (on_connect user status).
Proof.
  unfold on_connect. apply (keeps_bind (stays [])); [apply stays_get_ac|]. intros ac.
  destruct (ac_onConnect ac); [by apply stays_call|apply keeps_ret; apply _].
Qed.

Lemma wlp_connected_now st :
  ready [] st ->
  wlp (connected_now user) (fun go st' => if go : bool then ready [] st' else settled st') st.
Proof.
  intros Hr. unfold connected_now, __redisAsyncHandleConnect.
  eapply wlp_stays; [apply (stays_flag [])|exact Hr|]. intros [] st1 H1; [by apply wlp_ret|].
  apply wlp_bind. eapply wlp_stays; [apply (stays_on_c []), flags_check_socket|exact H1|]. intros r st2 H2.
  assert (forall st3, ready [] st3 -> wlp (flag REDIS_CONNECTED)
    (fun go st' => if go : bool then ready [] st' else settled st') st3) as Hflag.
  { intros st3 H3 b st4 E. apply (stays_ready _ _ _ _ _ (stays_flag [] _) H3) in E.
    destruct b; [done|by left]. }
  destruct (r =? REDIS_ERR).
  - eapply wlp_stays; [apply (stays_on_c []), flags_get_errno|exact H2|]. intros e st3 H3.
    destruct (e =? EINPROGRESS); [apply wlp_ret; by apply Hflag|].
    eapply wlp_stays; [apply stays_on_connect|exact H3|]. intros _ st4 H4.
    apply wlp_bind. eapply wlp_mono; [by apply wlp_disconnect|]. intros [] st5 H5.
    do 2 apply wlp_ret. by right.
  - eapply wlp_stays; [by apply (stays_set_flag [])|exact H2|]. intros _ st3 H3.
    eapply wlp_stays; [apply stays_on_connect|exact H3|]. intros _ st4 H4. apply wlp_ret. by apply Hflag.
Qed.

Lemma wlp_handle_read st :
  ready [] st -> wlp (redisAsyncHandleRead alloc malloc_ok user) (fun _ => settled) st.
Proof.
  intros Hr. unfold redisAsyncHandleRead. apply wlp_bind. eapply wlp_mono; [by apply wlp_connected_now|].
  intros [] st1 H1; cbn [negb]; [|by apply wlp_ret].
  eapply wlp_stays; [apply (stays_on_c []), flags_read|exact H1|]. intros r st2 H2.
  destruct (r =? REDIS_ERR). { eapply wlp_mono; [by apply wlp_disconnect|]. by right. }
  eapply wlp_stays; [apply (stays_EL [])|exact H2|]. intros _ st3 H3. by apply wlp_process.
Qed.
Lemma wlp_handle_write st :
  ready [] st -> wlp (redisAsyncHandleWrite alloc user) (fun _ => settled) st.
Proof.
  intros Hr. unfold redisAsyncHandleWrite. apply wlp_bind. eapply wlp_mono; [by apply wlp_connected_now|].
  intros [] st1 H1; cbn [negb]; [|by apply wlp_ret].
  eapply wlp_stays; [apply (stays_on_c []), flags_write|exact H1|]. intros r st2 H2.
  destruct (r.1 =? REDIS_ERR). { eapply wlp_mono; [by apply wlp_disconnect|]. by right. }
  eapply wlp_stays; [apply (stays_EL [])|exact H2|]. intros _ st3 H3.
  intros [] st4 E4. left. eapply (stays_ready (_EL AddRead)); [apply stays_EL|exact H3|exact E4].
Qed.

Definition step_ok (x : async_step F P) : Prop := if x is Act a then act_ok a else True.

(** Setting one of the callbacks of the connection. *)
Lemma stays_set (test : acontext -> bool) (f : acontext -> option F * option F) (g : M Z) :
  keeps (stays []) g ->
  keeps (stays []) (ac ← get_ac;
    if test ac then _ ← put_ac (set_on (f ac).1 (f ac).2 ac); g else mret REDIS_ERR).
Proof.
  intros Hg. apply stays_with. intros ac ps owed st a st' Hi E.
  destruct (test ac).
  2:{ apply ret_inv in E as [-> ->]. exists ac, []. by rewrite app_nil_r. }
  apply bind_inv in E as ([] & st1 & E1 & E2). unfold put_ac, modify in E1. simplify_eq.
  eapply Hg; [exact E2|]. pose proof Hi as []. by apply (inv_put ac).
Qed.
Lemma stays_set_connect fn : keeps (stays []) (redisAsyncSetConnectCallback (Some fn)).
Proof.
  intros st a st' E.
  apply (stays_set (fun ac => bool_decide (ac_onConnect ac = None)) (fun ac => (ac_onDisconnect ac, Some fn))
    (_ ← _EL AddWrite; mret REDIS_OK)) with (a := a).
  - apply (keeps_bind (stays [])); [apply stays_EL|]. intros _. apply keeps_ret. apply _.
  - rewrite <- E. unfold redisAsyncSetConnectCallback, mbind, prog_bind.
    destruct (get_ac st) as [[ac st1]|]; [|done]. by destruct (ac_onConnect ac).
Qed.
Lemma stays_set_disconnect fn : keeps (stays []) (redisAsyncSetDisconnectCallback (Some fn)).
Proof.
  intros st a st' E.
  apply (stays_set (fun ac => bool_decide (ac_onDisconnect ac = None)) (fun ac => (Some fn, ac_onConnect ac))
    (mret REDIS_OK)) with (a := a); [apply keeps_ret; apply _|].
  rewrite <- E. unfold redisAsyncSetDisconnectCallback, mbind, prog_bind.
  destruct (get_ac st) as [[ac st1]|]; [|done]. by destruct (ac_onDisconnect ac).
Qed.

Lemma wlp_stays_settled {A} (m : M A) st :
  keeps (stays []) m -> ready [] st -> wlp m (fun _ => settled) st.
Proof. intros Hm Hr a st' E. left. by eapply stays_ready. Qed.

Lemma wlp_step x st :
  step_ok x -> ready [] st -> wlp (run_async_step user x) (fun _ => settled) st.
Proof.
  intros Hx Hr. destruct x as [[fn d args| |]|fn|fn| |]; cbn [run_async_step].
  - apply wlp_stays_settled; [by apply stays_command|done].
  - by apply wlp_async_free_api.
  - by apply wlp_disconnect_api.
  - apply wlp_stays_settled; [|done].
    apply (keeps_bind (stays [])); [apply stays_set_connect|]. intros _. apply keeps_ret. apply _.
  - apply wlp_stays_settled; [|done].
    apply (keeps_bind (stays [])); [apply stays_set_disconnect|]. intros _. apply keeps_ret. apply _.
  - by apply wlp_handle_read.
  - by apply wlp_handle_write.
Qed.

(** A context that was freed cannot be used. *)
Lemma no_step_after_free x st : a_ctx st = None -> run_async_step user x st = None.
Proof.
  intros Hc. assert (forall {A B} (m : M A) (f : A -> M B), m st = None -> (m ≫= f) st = None) as Hb.
  { intros A B m f E. unfold mbind, prog_bind. by rewrite E. }
  assert (get_ac st = None) as Hg.
  { unfold get_ac, mbind, prog_bind, gets, lift. by rewrite Hc. }
  destruct x as [[fn d args| |]|fn|fn| |]; cbn [run_async_step].
  - by do 3 apply Hb.
  - by do 2 apply Hb.
  - by do 2 apply Hb.
  - by do 2 apply Hb.
  - by do 2 apply Hb.
  - by do 3 apply Hb.
  - by do 3 apply Hb.
Qed.

Lemma wlp_steps xs : forall st,
  Forall step_ok xs -> settled st -> wlp (each xs (run_async_step user)) (fun _ => settled) st.
Proof.
  induction xs as [|x xs IH]; intros st Hxs Hs; cbn [each]; [by apply wlp_ret|].
  apply Forall_cons in Hxs as [Hx Hxs]. apply wlp_bind. destruct Hs as [Hr|[Hc _]].
  - eapply wlp_mono; [by apply wlp_step|]. intros [] st1 H1. by apply IH.
  - intros a st' E. by rewrite no_step_after_free in E.
Qed.
End client.

(** C10: callbacks are called once and in order.  On any system, whatever the
    server sends, a client makes any calls: regular commands, from its program or
    from callbacks, disconnecting, freeing, reading and writing in any order.
    Then the callbacks that were called are the first of those of the accepted
    commands, in the order of the commands; the others are pending, and when the
    context was freed there are none: every callback was called exactly once.
    (Commands are regular if they are not those of subscriptions or of MONITOR,
    which have callbacks of their own; the nodes of the list can be allocated.) *)
Theorem callbacks_once_in_order {F P W} `{Posix W} alloc malloc_ok
  (script : list (event F P) -> list (act F P)) (c : redisContext) (ac : redisAsyncContext F P)
  (xs : list (async_step F P)) (w : W) st :
  malloc_ok sizeof_callback = true -> (forall log, Forall act_ok (script log)) -> Forall step_ok xs ->
  redisAsyncInitialize malloc_ok c = Some ac ->
  has_flag c REDIS_SUBSCRIBED = false -> has_flag c REDIS_MONITORING = false ->
  each xs (run_async_step alloc malloc_ok (code_of alloc malloc_ok script)) (mk_async (Some ac) ∅ 0 w []) =
    Some ((), st) ->
  exists pending, accepted (a_log st) = called (a_log st) ++ pending /\ (a_ctx st = None -> pending = []).
Proof.
  intros Hm Hs Hxs Hac H1 H2 E.
  assert (settled st) as [(ac' & ps & [])|[Hc Hl]].
  - refine (wlp_steps alloc malloc_ok Hm script Hs xs _ Hxs _ _ _ E). left. exists ac, [].
    unfold redisAsyncInitialize in Hac. destruct (negb _); [done|]. injection Hac as <-.
    constructor; try done; cbn.
    + by constructor; [|constructor| |].
    + by intros p [? ?].
    + by apply has_flag_ldiff.
    + by apply has_flag_ldiff.
  - exists (live ps.*2). rewrite app_nil_r in in_log0. split; [done|]. intros E0. by rewrite in_ctx0 in E0.
  - exists []. by rewrite app_nil_r.
Qed.

(** A run on a scripted system: the first callback sends another command, the last
    one is called without a reply when the context is freed and its command is
    refused. *)
Definition demo_net : net :=
  mk_net 0 {[0; 1; 2]} [RdErr EINTR; RdData (s "+OK" ++ CRLF ++ s "$1" ++ CRLF); RdData (s "x" ++ CRLF)]
    [WrSome 5] [] [] [] [].
Definition demo_script (log : list (event Z Z)) : list (act Z Z) :=
  match last log with
  | Some (Callback 1 (Some _) _) => [Command (Some 3) None [s "GET"; s "y"]]
  | Some (Callback 3 None _) => [Command (Some 9) None [s "PING"]; Disconnect]
  | _ => []
  end.
Definition demo_steps : list (async_step Z Z) :=
  [SetOnConnect 0; SetOnDisconnect 5; Act (Command (Some 1) (Some 10) [s "SET"; s "k"; s "v"]);
   Act (Command (Some 2) None [s "GET"; s "k"]); Act (Command None None [s "PING"]);
   HandleWrite; HandleRead; HandleRead; HandleWrite; HandleRead; Act Disconnect; Act FreeContext].

(** A client on a system, from a new connection on. *)
Definition start (w : net) : option (redisContext * net) :=
  match redisConnectNonBlock plenty (fun _ => true) (s "redis") 6379 w with
  | Some (Some c, w') => Some (c, w')
  | _ => None
  end.
Definition run_demo (script : list (event Z Z) -> list (act Z Z)) (xs : list (async_step Z Z)) (w : net)
  : option (async_state Z Z net) :=
  r ← start w;
  ac ← redisAsyncInitialize (fun _ => true) r.1;
  snd <$> each xs (run_async_step plenty (fun _ => true) (code_of plenty (fun _ => true) script))
    (mk_async (Some ac) ∅ 0 r.2 []).

Example demo_run :
  (fun st => (accepted (a_log st), called (a_log st), bool_decide (a_ctx st = None))) <$>
    run_demo demo_script demo_steps demo_net =
  Some ([(1, Some 10); (2, None); (3, None)], [(1, Some 10); (2, None); (3, None)], true).
Proof. vm_compute. reflexivity. Qed.

#[local] Instance command_ok_dec args : Decision (command_ok args).
Proof. unfold command_ok. apply _. Defined.
#[local] Instance act_ok_dec a : Decision (@act_ok Z Z a).
Proof. destruct a; cbn [act_ok]; apply _. Defined.
#[local] Instance step_ok_dec x : Decision (@step_ok Z Z x).
Proof. destruct x; cbn [step_ok]; apply _. Defined.

Lemma callbacks_once_in_order_witness :
  exists c w ac st, start demo_net = Some (c, w) /\ redisAsyncInitialize (fun _ => true) c = Some ac /\
    each demo_steps (run_async_step plenty (fun _ => true) (code_of plenty (fun _ => true) demo_script))
      (mk_async (Some ac) ∅ 0 w []) = Some ((), st) /\
    exists pending, accepted (a_log st) = called (a_log st) ++ pending /\ (a_ctx st = None -> pending = []).
Proof.
  destruct (proj1 (fmap_Some _ _ _) demo_run) as (st & Hrun & _).
  unfold run_demo in Hrun.
  assert ((fun r => (has_flag r.1 REDIS_SUBSCRIBED, has_flag r.1 REDIS_MONITORING)) <$> start demo_net =
    Some (false, false)) as Hflags by (vm_compute; reflexivity).
  destruct (start demo_net) as [[c w]|] eqn:Ec; [|discriminate Hrun].
  cbn [mbind option_bind fst snd] in Hrun.
  destruct (redisAsyncInitialize (fun _ => true) c) as [ac|] eqn:Ea; [|discriminate Hrun].
  cbn [mbind option_bind] in Hrun. injection Hflags as Hsub Hmon. cbn [fst] in Hsub, Hmon.
  destruct (each demo_steps _ _) as [[[] st']|] eqn:Es; [|discriminate Hrun].
  exists c, w, ac, st'. split_and!; [done|done|done|].
  apply (callbacks_once_in_order plenty (fun _ => true) demo_script c ac demo_steps w st');
    [done| | |exact Ea|exact Hsub|exact Hmon|exact Es].
  - intros log. unfold demo_script. repeat case_match; repeat constructor; by vm_compute.
  - apply (bool_decide_unpack _). by vm_compute.
Defined.
