(* ===== verification/AsyncDeliver.v ===== *)
(** * Replies reach their callbacks

    A client of async.c sends commands on a connection that does not block and
    handles the events of its socket: however the traffic is cut into packets, the
    requests are sent in order and each callback is called with the reply to its
    command.  The traffic is that of [ContextPipeline]. *)

From S2P Require Import Prelude Effects Hiutil Reply Resp Format Sds SdsSpec Dict Reader ReaderSpec ReaderStream ReaderApi Vformat Net NetSpec NetScript Context ContextPipeline Async AsyncSpec AsyncOrder.

(** ** What the reader holds *)

Section available.
Context (malloc_ok : Z -> bool).

(** The replies that the reader can give without more input. *)
Definition available (r : redisReader) (rs : list redisReply) : Prop :=
  exists u sw uw, open_reader r u /\ drains malloc_ok (r_state r) u rs sw uw.

Lemma decodes_available r more rs : decodes malloc_ok r more rs -> exists rs1, available r rs1.
Proof.
  intros (u & st2 & u2 & Ho & _ & (sw & uw & rs1 & Hd) & _). by exists rs1, u, sw, uw.
Qed.

Lemma available_count r rs : available r rs -> zlen rs <= r_len r - r_pos r.
Proof.
  intros (u & sw & uw & Ho & Hd). rewrite <- (open_size r u Ho).
  pose proof (drains_count malloc_ok _ _ _ _ _ Hd). pose proof (zlen_nonneg uw). unfold zlen in *. lia.
Qed.

Lemma getReply_available r rs x r' :
  available r rs -> redisReaderGetReply malloc_ok r = Some (REDIS_OK, x, r') ->
  match rs with [] => x = None | y :: rs' => x = Some y /\ available r' rs' end.
Proof.
  intros (u & sw & uw & Ho & Hd) Hg.
  destruct (getReply_spec malloc_ok r u rs sw uw Ho Hd) as (x2 & r2 & Hg2 & _ & Hx).
  rewrite Hg in Hg2. simplify_eq. destruct rs as [|y rs]; [by destruct Hx|].
  destruct Hx as (-> & u' & Ho' & Hd'). split; [done|]. by exists u', sw, uw.
Qed.
End available.

(** ** Flags *)

Lemma ldiff_lor f g : Z.land f g = 0 -> Z.ldiff (Z.lor f g) g = f.
Proof.
  intros E. apply Z.bits_inj'. intros n Hn. rewrite Z.ldiff_spec, Z.lor_spec.
  assert (Z.testbit (Z.land f g) n = false) as Hb by (rewrite E; apply Z.bits_0).
  rewrite Z.land_spec in Hb. by destruct (Z.testbit f n), (Z.testbit g n).
Qed.

(** A connection in use: nothing special was asked for. *)
Definition plain (c : redisContext) : Prop :=
  has_flag c REDIS_SUBSCRIBED = false /\ has_flag c REDIS_MONITORING = false /\
  has_flag c REDIS_DISCONNECTING = false /\ has_flag c REDIS_FREEING = false /\
  has_flag c REDIS_IN_CALLBACK = false.

Lemma plain_same c c' : c_flags c' = c_flags c -> plain c -> plain c'.
Proof. unfold plain, has_flag. by intros ->. Qed.

Lemma wp_keeps {S A} (R : relation S) (m : prog S A) Q st :
  wp m Q st -> keeps R m -> wp m (fun a st' => Q a st' /\ R st st') st.
Proof. intros (a & st' & E & HQ) Hk. exists a, st'. split_and!; [done|done|by eapply Hk]. Qed.

(** ** The state of a client *)

Section deliver.
Context {F P : Type} (alloc : Z -> option bytes) (malloc_ok : Z -> bool).
Hypothesis Halloc : forall n b, 0 <= n -> alloc n = Some b -> zlen b = n.
Hypothesis Hmem : forall n, alloc n <> None.
Hypothesis Hmalloc : forall n, malloc_ok n = true.
Abbreviation entry := (option F * option P)%type.
Abbreviation M := (prog (async_state F P net)).
Implicit Types (st : async_state F P net) (ac : redisAsyncContext F P) (rs : list redisReply) (es todo : list entry).

(** The calls with a reply. *)
Definition delivered (log : list (event F P)) : list (F * option P * redisReply) :=
  omap (fun e => if e is Callback fn (Some r) d then Some (fn, d, r) else None) log.
(** The calls to come: each pending callback gets the reply at its place. *)
Definition deliveries es rs : list (F * option P * redisReply) :=
  omap (fun x => (fun fn => (fn, x.1.2, x.2)) <$> x.1.1) (zip es rs).
Arguments delivered : simpl never.
Arguments deliveries : simpl never.

(** [rs] are the replies to come, [cmds] all bytes for the peer, [todo] the commands
    the client has not issued yet, [total] all calls with a reply, past and to
    come. *)
Record good st rs (cmds : bytes) todo (total : list (F * option P * redisReply)) ac ps : Prop := {
  go_ctx : a_ctx st = Some ac;
  go_queue : queue (a_nodes st) (ac_replies ac) ps;
  go_nodes : nodes_ok st;
  go_pipe : pipe malloc_ok false (mk_conn (ac_c ac) (a_os st)) rs cmds;
  go_plain : plain (ac_c ac);
  go_connect : ac_onConnect ac = None;
  go_len : (length rs <= length (ps.*2 ++ todo))%nat;
  go_total : delivered (a_log st) ++ deliveries (ps.*2 ++ todo) rs = total
}.

Lemma wp_on_c {A} (m : prog (conn net) A) Q st ac :
  a_ctx st = Some ac ->
  wp m (fun a k => Q a (mk_async (Some (set_c (ctx k) ac)) (a_nodes st) (a_fresh st) (os k) (a_log st)))
    (mk_conn (ac_c ac) (a_os st)) ->
  wp (on_c m) Q st.
Proof.
  intros Hc (a & k & E & HQ). eexists _, _. split; [|exact HQ].
  unfold on_c, get_ac, mbind, prog_bind, gets, lift. rewrite Hc. cbn. by rewrite E.
Qed.

Lemma wp_get_ac {A} (f : redisAsyncContext F P -> M A) Q st ac :
  a_ctx st = Some ac -> wp (f ac) Q st -> wp (x ← get_ac; f x) Q st.
Proof. intros Hc Hf. apply wp_bind. exists ac, st. unfold get_ac, mbind, prog_bind, gets, lift. by rewrite Hc. Qed.
Lemma wp_flag {A} (f : Z) (K : bool -> M A) Q st ac :
  a_ctx st = Some ac -> wp (K (has_flag (ac_c ac) f)) Q st -> wp (b ← flag f; K b) Q st.
Proof. intros Hc HK. apply wp_bind. eexists _, st. by rewrite (flag_eq st ac f Hc). Qed.
Lemma wp_upd_ac (f : redisAsyncContext F P -> redisAsyncContext F P) (Q : () -> async_state F P net -> Prop) st ac :
  a_ctx st = Some ac -> Q () (mk_async (Some (f ac)) (a_nodes st) (a_fresh st) (a_os st) (a_log st)) ->
  wp (upd_ac f) Q st.
Proof. intros Hc HQ. eexists _, _. by rewrite (upd_ac_eq f st ac Hc). Qed.

(** Only the fields that count. *)
Lemma pipe_same c c' w rs cmds :
  pipe malloc_ok false (mk_conn c w) rs cmds -> c_err c' = c_err c ->
  has_flag c' REDIS_BLOCK = has_flag c REDIS_BLOCK -> c_reader c' = c_reader c -> c_obuf c' = c_obuf c ->
  pipe malloc_ok false (mk_conn c' w) rs cmds.
Proof.
  intros [] E1 E2 E3 E4. constructor; cbn in *; rewrite ?E1, ?E2, ?E3, ?E4; done.
Qed.

(** After a function of the connection. *)
Lemma good_conn st rs cmds todo total ac ps rs' cmds' k :
  good st rs cmds todo total ac ps -> pipe malloc_ok false k rs' cmds' ->
  same_flags (mk_conn (ac_c ac) (a_os st)) k -> rs' = rs ->
  good (mk_async (Some (set_c (ctx k) ac)) (a_nodes st) (a_fresh st) (os k) (a_log st))
    rs cmds' todo total (set_c (ctx k) ac) ps.
Proof.
  intros [] Hp Hf ->. constructor; cbn; try done; [by destruct k|]. by apply (plain_same (ac_c ac)).
Qed.

Lemma good_emit st rs cmds todo total ac ps e :
  good st rs cmds todo total ac ps -> (forall fn r d, e <> Callback fn (Some r) d) ->
  good (mk_async (a_ctx st) (a_nodes st) (a_fresh st) (a_os st) (a_log st ++ [e])) rs cmds todo total ac ps.
Proof.
  intros [] He. constructor; cbn; try done. rewrite <- go_total0. unfold delivered.
  rewrite omap_app. cbn. destruct e as [| fn [r|] d | | | | ]; try (by rewrite app_nil_r). by edestruct He.
Qed.

Lemma wp_EL h (Q : () -> async_state F P net -> Prop) st rs cmds todo total ac ps :
  good st rs cmds todo total ac ps ->
  (forall st', good st' rs cmds todo total ac ps -> a_os st' = a_os st -> Q () st') -> wp (_EL h) Q st.
Proof.
  intros Hg HQ. unfold _EL. eapply wp_get_ac; [apply Hg|]. destruct (hook_set _ _).
  - unfold emit. apply wp_modify. apply HQ; [|done]. by apply good_emit.
  - apply wp_ret. by apply HQ.
Qed.

(** ** Sending *)

Lemma wp_append_command cmd (Q : Z -> conn net -> Prop) k :
  wp (redisAppendFormattedCommand alloc cmd) (fun r k' => r = REDIS_OK /\ Q r k') k ->
  wp (__redisAppendCommand alloc cmd) (fun _ k' => Q REDIS_OK k') k.
Proof.
  intros (r & k' & E & -> & HQ). unfold redisAppendFormattedCommand in E.
  apply bind_inv in E as (r1 & k1 & E1 & E2). apply ret_inv in E2 as [_ ->]. by exists r1, k1.
Qed.

Lemma plain_refuses c : plain c -> refuses c = false.
Proof. intros (_ & _ & H1 & H2 & _). unfold refuses. by rewrite H1, H2. Qed.

Lemma command_step st rs cmds fn d todo total ac ps args :
  good st rs cmds ((fn, d) :: todo) total ac ps -> regular args = true -> zlen (request args) < 2 ^ 31 ->
  zlen cmds + zlen (request args) < 2 ^ 30 - 1 + zlen (n_sent (a_os st)) ->
  wp (redisAsyncFormattedCommand alloc malloc_ok fn d (memory args) (zlen (request args)))
    (fun r st' => r = REDIS_OK /\ a_os st' = a_os st /\
       exists ac' ps', good st' rs (cmds ++ request args) todo total ac' ps') st.
Proof.
  intros Hg Hr Hl Hb. pose proof Hg as [Hc Hq Hn Hp Hpl Hoc Hlen Htot].
  assert (forall (m : M Z) Q, m st = queue_and_send alloc malloc_ok fn d args st ->
    wp (queue_and_send alloc malloc_ok fn d args) Q st -> wp m Q st) as Hm.
  { intros m Q E (r & st' & E' & HQ). exists r, st'. by rewrite E. }
  apply Hm.
  { unfold redisAsyncFormattedCommand. rewrite (regular_command alloc malloc_ok st ac); [|done..|apply Hpl].
    by rewrite plain_refuses. }
  destruct (push_spec malloc_ok Replies (mk_callback None fn d) st ac ps (Hmalloc _) Hc Hq Hn)
    as (l & h & Hpush & Hq' & Hn').
  unfold queue_and_send. apply wp_bind. eexists _, _. split; [exact Hpush|]. cbn [cb_fn cb_privdata] in Hq'.
  set (ac1 := with_list Replies l ac). set (st1 := mk_async _ _ _ _ _).
  assert (good st1 rs cmds todo total ac1 (ps ++ [(a_fresh st, (fn, d))])) as Hg1.
  { assert (ps.*2 ++ (fn, d) :: todo = (ps ++ [(a_fresh st, (fn, d))]).*2 ++ todo) as E
      by by rewrite fmap_app, <- app_assoc.
    rewrite E in Hlen, Htot. by constructor. }
  apply wp_bind. eapply wp_on_c; [done|].
  pose proof (go_pipe _ _ _ _ _ _ _ Hg1) as Hp1.
  assert (exists o, c_obuf (ac_c ac1) = Some o /\ zlen (sds_value o) + zlen (request args) < 2 ^ 30 - 1) as Ho.
  { destruct Hp1 as [_ _ _ (o & Ho & _ & Hs) _ _]. exists o. split; [done|]. cbn [os a_os st1] in Hs.
    rewrite <- Hs, zlen_app in Hb. lia. }
  eapply wp_mono.
  - apply (wp_keeps same_flags); [|apply flags_append].
    apply (wp_append_command _ (fun _ k => pipe malloc_ok false k rs (cmds ++ request args) /\ os k = a_os st)).
    eapply wp_mono; [by eapply (append_pipe malloc_ok alloc false Halloc Hmem)|].
    intros r k (-> & Hpk & Hos & _). split; [done|]. exact (conj Hpk Hos).
  - intros r k [[Hpk Hos] Hfl]. pose proof (good_conn _ _ _ _ _ _ _ _ _ _ Hg1 Hpk Hfl eq_refl) as Hg2.
    cbn beta. apply wp_bind. eapply wp_EL; [exact Hg2|]. intros st3 Hg3 Hos3. apply wp_ret.
    split_and!; [done| |by eexists _, _]. by rewrite Hos3.
Qed.

(** ** Handling events *)

(** The callbacks of the client do not use the connection. *)
Definition silent (e : event F P) : M () := mret ().

Definition conn_of st ac : conn net := mk_conn (ac_c ac) (a_os st).

Lemma good_flags st rs cmds todo total ac ps f :
  good st rs cmds todo total ac ps -> f = REDIS_CONNECTED ->
  let ac' := set_c (set_flags (Z.lor (c_flags (ac_c ac)) f) (ac_c ac)) ac in
  good (mk_async (Some ac') (a_nodes st) (a_fresh st) (a_os st) (a_log st)) rs cmds todo total ac' ps.
Proof.
  intros [] -> ac'. destruct go_plain0 as (P1 & P2 & P3 & P4 & P5).
  constructor; cbn; try done.
  - eapply pipe_same; [exact go_pipe0|done| |done|done]. cbn. by rewrite has_flag_lor, orb_false_r.
  - unfold plain. cbn. by rewrite !has_flag_lor, P1, P2, P3, P4, P5.
Qed.

Lemma check_socket_ok (k : conn net) : redisCheckSocketError k = Some (REDIS_OK, k).
Proof. by destruct k. Qed.

Lemma set_c_same ac : set_c (ac_c ac) ac = ac.
Proof. by destruct ac. Qed.

Lemma connected_now_spec st rs cmds todo total ac ps :
  good st rs cmds todo total ac ps ->
  wp (connected_now silent) (fun go st' => go = true /\ a_os st' = a_os st /\
    exists ac', good st' rs cmds todo total ac' ps /\ same_output (conn_of st ac) (conn_of st' ac')) st.
Proof.
  intros Hg. pose proof Hg as [Hc _ _ _ _ Hoc _ _]. unfold connected_now.
  eapply wp_flag; [done|]. destruct (has_flag _ _) eqn:E.
  { apply wp_ret. split_and!; [done|done|]. by exists ac. }
  unfold __redisAsyncHandleConnect. apply wp_bind, wp_bind. eapply wp_on_c; [done|].
  exists REDIS_OK, (mk_conn (ac_c ac) (a_os st)). split; [apply check_socket_ok|].
  cbn [ctx os Z.eqb REDIS_OK REDIS_ERR]. rewrite set_c_same.
  apply wp_bind. eapply wp_upd_ac; [done|]. cbn [a_nodes a_fresh a_os a_log].
  set (ac' := set_c _ ac). set (st' := mk_async _ _ _ _ _).
  assert (good st' rs cmds todo total ac' ps) as Hg' by by apply good_flags.
  unfold on_connect. apply wp_bind. eapply wp_get_ac; [apply Hg'|]. rewrite (go_connect _ _ _ _ _ _ _ Hg').
  apply wp_ret, wp_ret. cbn [Z.eqb negb]. unfold flag. eapply wp_get_ac; [apply Hg'|]. apply wp_ret.
  split_and!; [|done|by exists ac']. unfold ac'. cbn. rewrite has_flag_lor. by rewrite orb_true_r.
Qed.

Lemma handle_write_spec st rs cmds todo total ac ps :
  good st rs cmds todo total ac ps ->
  wp (redisAsyncHandleWrite alloc silent) (fun _ st' => exists ac', good st' rs cmds todo total ac' ps /\
    n_reads (a_os st') = n_reads (a_os st) /\
    (flushed (conn_of st' ac') \/ (to_write (conn_of st' ac') < to_write (conn_of st ac))%nat)) st.
Proof.
  intros Hg. unfold redisAsyncHandleWrite. apply wp_bind. eapply wp_mono; [by apply connected_now_spec|].
  intros go st1 (-> & Hos1 & ac1 & Hg1 & Hso). cbn [negb].
  apply wp_bind. eapply wp_on_c; [apply Hg1|].
  eapply wp_mono.
  { apply (wp_keeps same_flags); [|apply flags_write].
    apply (write_step malloc_ok alloc false Halloc Hmem _ rs cmds), Hg1. }
  intros [r done'] k [(Hr & Hpk & Hrd & _ & Hw) Hfl]. cbn [fst snd] in *. subst r. cbn [Z.eqb REDIS_OK REDIS_ERR].
  pose proof (good_conn _ _ _ _ _ _ _ _ _ _ Hg1 Hpk Hfl eq_refl) as Hg2.
  apply wp_bind. eapply wp_EL; [exact Hg2|]. intros st3 Hg3 Hos3.
  eapply wp_EL; [exact Hg3|]. intros st4 Hg4 Hos4. cbn [a_os] in Hos3.
  assert (conn_of st4 (set_c (ctx k) ac1) = k) as Ek by (unfold conn_of; rewrite Hos4, Hos3; by destruct k).
  eexists. split; [exact Hg4|]. rewrite Ek. split; [by rewrite Hos4, Hos3, Hrd, Hos1|].
  destruct done'; [by left|right]. destruct Hso as (E1 & E2 & E3). unfold to_write, conn_of in *. cbn [ctx os] in *. rewrite E1, E3 in Hw. exact Hw.
Qed.

(** The flags after a callback are those of before. *)
Lemma flags_restored ac :
  has_flag (ac_c ac) REDIS_IN_CALLBACK = false ->
  let ac2 := set_c (set_flags (Z.lor (c_flags (ac_c ac)) REDIS_IN_CALLBACK) (ac_c ac)) ac in
  set_c (set_flags (Z.ldiff (c_flags (ac_c ac2)) REDIS_IN_CALLBACK) (ac_c ac2)) ac2 = ac.
Proof.
  intros Hf. cbn. rewrite ldiff_lor.
  - destruct ac as [c]. cbn. by destruct c.
  - unfold has_flag in Hf. apply negb_false_iff, Z.eqb_eq in Hf. done.
Qed.

Lemma run_callback_spec st rs cmds todo total ac ps cb fn y :
  good st rs cmds todo total ac ps -> cb_fn cb = Some fn ->
  wp (__redisRunCallback silent cb (Some y)) (fun _ st' =>
    st' = mk_async (a_ctx st) (a_nodes st) (a_fresh st) (a_os st) (a_log st ++ [Callback fn (Some y) (cb_privdata cb)])) st.
Proof.
  intros Hg Hf. pose proof Hg as [Hc _ _ _ (_ & _ & _ & _ & Hin) _ _ _].
  unfold __redisRunCallback. rewrite Hf.
  apply wp_bind. eapply wp_upd_ac; [done|]. unfold call_user, emit, silent. apply wp_bind, wp_bind, wp_modify, wp_ret.
  cbn [a_ctx a_nodes a_fresh a_os a_log]. eapply wp_upd_ac; [done|]. cbn [a_nodes a_fresh a_os a_log].
  pose proof (flags_restored ac Hin) as Hr. cbn zeta in Hr. by rewrite Hr, Hc.
Qed.

(** ** Replies *)

Lemma deliveries_cons e es y rs :
  deliveries (e :: es) (y :: rs) =
  match e.1 with Some fn => (fn, e.2, y) :: deliveries es rs | None => deliveries es rs end.
Proof. unfold deliveries. cbn. by destruct e as [[fn|] d]. Qed.

Lemma process_reply_spec st rs cmds T total ac ps p e y cb :
  good st rs cmds [] T ac ((p, e) :: ps) -> (length rs <= length ps)%nat ->
  delivered (a_log st) ++ deliveries (e :: ps.*2) (y :: rs) = total ->
  wp (process_reply silent y cb) (fun r st' => is_Some r /\ a_os st' = a_os st /\
    exists ac', good st' rs cmds [] total ac' ps /\ ac_c ac' = ac_c ac) st.
Proof.
  intros Hg Hlen Htot. pose proof Hg as [Hc Hq Hn Hp Hpl Hoc _ _].
  pose proof (shift_spec Replies st ac ((p, e) :: ps) Hc Hq Hn) as (cb' & l & h & Hsh & E1 & E2 & Hq' & Hn').
  unfold process_reply. apply wp_bind. eexists _, _. split; [exact Hsh|]. apply wp_bind, wp_ret.
  set (ac1 := with_list Replies l ac). set (st1 := mk_async _ _ _ _ _).
  assert (good st1 rs cmds [] (delivered (a_log st) ++ deliveries ps.*2 rs) ac1 ps) as Hg1.
  { constructor; cbn; rewrite ?app_nil_r; try done. by rewrite length_fmap. }
  rewrite deliveries_cons in Htot. destruct (cb_fn cb') as [fn|] eqn:Ef.
  - apply wp_bind. eapply wp_mono; [by eapply run_callback_spec|]. intros [] st2 ->. cbn [a_ctx a_nodes a_fresh a_os a_log st1].
    set (st2 := mk_async _ _ _ _ _).
    assert (good st2 rs cmds [] total ac1 ps) as Hg2.
    { destruct Hg1. constructor; cbn in *; try done. rewrite <- Htot, <- E1, E2, app_nil_r.
      unfold delivered. rewrite omap_app. cbn. by rewrite <- app_assoc. }
    eapply wp_flag; [apply Hg2|]. destruct (go_plain _ _ _ _ _ _ _ Hg2) as (_ & _ & _ & -> & _).
    apply wp_ret. split_and!; [done|done|]. by exists ac1.
  - rewrite <- E1 in Htot. apply wp_ret. split_and!; [done|done|]. exists ac1. split; [|done]. by rewrite <- Htot.
Qed.

(** The reader gives its next reply. *)
Lemma getReply_nonblock (k : conn net) r x r' :
  c_reader (ctx k) = Some r -> redisReaderGetReply malloc_ok r = Some (REDIS_OK, x, r') ->
  has_flag (ctx k) REDIS_BLOCK = false ->
  redisGetReply alloc malloc_ok 0 k =
    Some ((REDIS_OK, x), mk_conn (set_bufs (c_obuf (ctx k)) (Some r') (ctx k)) (os k)).
Proof.
  intros Hr Hg Hb. unfold redisGetReply, redisGetReplyFromReader, get_ctx, put_reader, upd.
  unfold mbind, prog_bind, gets, lift, modify. rewrite Hr. cbn. rewrite Hg. cbn.
  unfold has_flag in *. cbn. rewrite Hb, andb_false_r. done.
Qed.

Lemma next_reply_spec st rs cmds T ac ps rs1 r :
  good st rs cmds [] T ac ps -> c_reader (ac_c ac) = Some r -> available malloc_ok r rs1 ->
  wp (next_reply alloc malloc_ok) (fun g st' => g.1 = REDIS_OK /\ a_os st' = a_os st /\ a_log st' = a_log st /\
    exists ac' r', c_reader (ac_c ac') = Some r' /\ c_obuf (ac_c ac') = c_obuf (ac_c ac) /\
      match g.2 with
      | Some y => exists rs' rs1', rs = y :: rs' /\ rs1 = y :: rs1' /\ available malloc_ok r' rs1' /\
          good st' rs' cmds [] (delivered (a_log st) ++ deliveries ps.*2 rs') ac' ps
      | None => good st' rs cmds [] T ac' ps /\ (incoming (n_reads (a_os st)) = [] -> rs = [])
      end) st.
Proof.
  intros Hg Hr Ha. pose proof Hg as [Hc Hq Hn Hp Hpl Hoc Hlen Htot].
  pose proof Hp as [He Hb (r0 & Hr0 & Hd) Ho Hrd Hwr]. cbn [ctx os] in *.
  assert (r0 = r) as -> by congruence.
  destruct (getReply_decodes malloc_ok r _ rs Hd) as (x & r' & Hget & Hx).
  pose proof (getReply_available malloc_ok r rs1 x r' Ha Hget) as Hav.
  eapply wp_on_c; [exact Hc|].
  eexists _, _. split; [by apply (getReply_nonblock (mk_conn (ac_c ac) (a_os st)) r x r')|].
  cbn [ctx os fst snd a_os a_log]. split_and!; [done|done|done|].
  set (c' := set_bufs _ _ _). eexists (set_c c' ac), r'. split_and!; [done|done|].
  assert (forall rs', decodes malloc_ok r' (incoming (n_reads (a_os st))) rs' ->
    pipe malloc_ok false (mk_conn c' (a_os st)) rs' cmds) as Hpipe.
  { intros rs' Hd'. constructor; cbn; try done. by exists r'. }
  destruct x as [y|].
  - destruct Hx as (rs' & -> & Hd'). destruct rs1 as [|y1 rs1]; [done|]. destruct Hav as [[= <-] Hav].
    exists rs', rs1. split_and!; [done|done|done|].
    constructor; cbn; try done; [by apply Hpipe| |by rewrite app_nil_r]. cbn in Hlen. lia.
  - destruct Hx as [Hd' Hnil]. split; [|done]. constructor; cbn; try done. by apply Hpipe.
Qed.

Lemma callbacks_loop_spec rs1 : forall st rs cmds total ac ps r cb fuel,
  good st rs cmds [] total ac ps -> c_reader (ac_c ac) = Some r -> available malloc_ok r rs1 ->
  (length rs1 < fuel)%nat ->
  wp (process_loop alloc malloc_ok silent fuel cb) (fun _ st' => a_os st' = a_os st /\
    exists rs' ac' ps', good st' rs' cmds [] total ac' ps' /\ c_obuf (ac_c ac') = c_obuf (ac_c ac) /\
      (incoming (n_reads (a_os st)) = [] -> rs' = [])) st.
Proof.
  induction rs1 as [|y rs1 IH]; intros st rs cmds total ac ps r cb fuel Hg Hr Ha Hf;
    (destruct fuel as [|fuel]; [cbn in Hf; lia|]); cbn [process_loop];
    (apply wp_bind; eapply wp_mono; [by eapply next_reply_spec|]);
    intros [ret x] st1 (Hret & Hos1 & Hlog1 & ac1 & r1 & Hr1 & Hob1 & Hx); cbn [fst snd] in *; subst ret;
    cbn [Z.eqb negb REDIS_OK].
  - destruct x as [y|]; [by destruct Hx as (rs' & rs1' & _ & Hnil & _)|].
    destruct Hx as [Hg1 Hnil]. pose proof (go_plain _ _ _ _ _ _ _ Hg1) as (_ & Hm & Hdis & _).
    eapply wp_flag; [apply Hg1|]. rewrite Hdis. eapply wp_get_ac; [apply Hg1|]. apply wp_bind, wp_ret.
    cbn [andb]. eapply wp_flag; [apply Hg1|]. rewrite Hm. apply wp_ret. split; [done|].
    by exists rs, ac1, ps.
  - destruct x as [y'|].
    + destruct Hx as (rs' & rs1' & -> & [= <- <-] & Ha1 & Hg1).
      pose proof Hg as [_ _ _ _ _ _ Hlen Htot]. rewrite app_nil_r in Hlen, Htot.
      destruct ps as [|[p e] ps]; [cbn in Hlen; lia|]. cbn in Hlen. rewrite length_fmap in Hlen.
      apply wp_bind. eapply wp_mono.
      { eapply (process_reply_spec st1 rs' cmds _ total ac1 ps p e y); [exact Hg1|lia|]. by rewrite Hlog1. }
      intros cbr st2 ([cb' ->] & Hos2 & ac2 & Hg2 & Hc2).
      eapply wp_mono; [eapply (IH st2); [exact Hg2|by rewrite Hc2|exact Ha1|cbn in Hf; lia]|].
      intros [] st3 (Hos3 & rs3 & ac3 & ps3 & Hg3 & Hob3 & Hnil). split; [congruence|].
      exists rs3, ac3, ps3. split_and!; [done|congruence|]. rewrite <- Hos1, <- Hos2. done.
    + destruct Hx as [Hg1 Hnil]. pose proof (go_plain _ _ _ _ _ _ _ Hg1) as (_ & Hm & Hdis & _).
      eapply wp_flag; [apply Hg1|]. rewrite Hdis. eapply wp_get_ac; [apply Hg1|]. apply wp_bind, wp_ret.
      cbn [andb]. eapply wp_flag; [apply Hg1|]. rewrite Hm. apply wp_ret. split; [done|].
      by exists rs, ac1, ps.
Qed.

Lemma process_spec st rs cmds total ac ps :
  good st rs cmds [] total ac ps ->
  wp (redisProcessCallbacks alloc malloc_ok silent) (fun _ st' => a_os st' = a_os st /\
    exists rs' ac' ps', good st' rs' cmds [] total ac' ps' /\ c_obuf (ac_c ac') = c_obuf (ac_c ac) /\
      (incoming (n_reads (a_os st)) = [] -> rs' = [])) st.
Proof.
  intros Hg. pose proof (go_pipe _ _ _ _ _ _ _ Hg) as [_ _ (r & Hr & Hd) _ _ _]. cbn [ctx] in Hr.
  destruct (decodes_available malloc_ok r _ rs Hd) as [rs1 Ha].
  unfold redisProcessCallbacks, reader_fuel. apply wp_bind. eapply wp_get_ac; [apply Hg|].
  apply wp_ret. rewrite Hr. eapply callbacks_loop_spec; [exact Hg|exact Hr|exact Ha|].
  pose proof (available_count malloc_ok r rs1 Ha). unfold zlen in *. lia.
Qed.

Lemma handle_read_spec st rs cmds total ac ps :
  good st rs cmds [] total ac ps -> incoming (n_reads (a_os st)) <> [] ->
  wp (redisAsyncHandleRead alloc malloc_ok silent) (fun _ st' =>
    exists rs' ac' ps', good st' rs' cmds [] total ac' ps' /\ c_obuf (ac_c ac') = c_obuf (ac_c ac) /\
      n_sent (a_os st') = n_sent (a_os st) /\ (to_read (conn_of st' ac') < to_read (conn_of st ac))%nat /\
      (incoming (n_reads (a_os st')) = [] -> rs' = [])) st.
Proof.
  intros Hg Hin. unfold redisAsyncHandleRead. apply wp_bind. eapply wp_mono; [by apply connected_now_spec|].
  intros go st1 (-> & Hos1 & ac1 & Hg1 & Hso). cbn [negb].
  apply wp_bind. eapply wp_on_c; [apply Hg1|]. eapply wp_mono.
  { apply (wp_keeps same_flags); [|apply flags_read].
    apply (read_step malloc_ok alloc false Halloc Hmem _ rs cmds); [apply Hg1|]. cbn [os]. by rewrite Hos1. }
  intros r k [(-> & Hpk & (S1 & S2 & S3) & Hrd) Hfl]. cbn [Z.eqb REDIS_OK REDIS_ERR ctx os] in *.
  pose proof (good_conn _ _ _ _ _ _ _ _ _ _ Hg1 Hpk Hfl eq_refl) as Hg2.
  apply wp_bind. eapply wp_EL; [exact Hg2|]. intros st3 Hg3 Hos3. cbn [a_os] in Hos3.
  eapply wp_mono; [by eapply process_spec|]. intros [] st4 (Hos4 & rs4 & ac4 & ps4 & Hg4 & Hob4 & Hnil).
  exists rs4, ac4, ps4. destruct Hso as (E1 & E2 & E3). cbn in E1, Hob4.
  split_and!; [done|congruence|rewrite Hos4, Hos3; congruence| |].
  - unfold to_read, conn_of in *. cbn [os] in *. rewrite Hos4, Hos3. rewrite Hos1 in Hrd. exact Hrd.
  - by rewrite Hos4.
Qed.

(** ** The client *)

(** The event loop: write events until the output buffer is empty, read events as
    long as something comes in. *)
Fixpoint write_events (fuel : nat) : M () :=
  match fuel with
  | O => fault
  | S fuel' =>
      ac ← get_ac;
      o ← lift (c_obuf (ac_c ac));
      if sds_len o =? 0 then mret () else
      _ ← redisAsyncHandleWrite alloc silent;
      write_events fuel'
  end.
Fixpoint read_events (fuel : nat) : M () :=
  match fuel with
  | O => fault
  | S fuel' =>
      w ← gets a_os;
      if bool_decide (incoming (n_reads w) = []) then mret () else
      _ ← redisAsyncHandleRead alloc malloc_ok silent;
      read_events fuel'
  end.

Fixpoint send_all (cmds : list (option F * option P * list bytes)) : M bool :=
  match cmds with
  | [] => mret true
  | (fn, d, args) :: cmds' =>
      r ← redisAsyncFormattedCommand alloc malloc_ok fn d (memory args) (zlen (request args));
      if r =? REDIS_OK then send_all cmds' else mret false
  end.

Definition async_client (cmds : list (option F * option P * list bytes)) (fuel : nat) : M bool :=
  ok ← send_all cmds;
  _ ← write_events fuel;
  _ ← read_events fuel;
  mret ok.

Definition requests (cmds : list (option F * option P * list bytes)) : bytes :=
  concat (map (fun x => request x.2) cmds).

Lemma send_all_spec cmds : forall st rs sent total ac ps,
  good st rs sent (map fst cmds) total ac ps -> Forall (fun x => regular x.2 = true) cmds ->
  zlen sent + zlen (requests cmds) < 2 ^ 30 - 1 + zlen (n_sent (a_os st)) ->
  zlen (requests cmds) < 2 ^ 31 ->
  wp (send_all cmds) (fun ok st' => ok = true /\ a_os st' = a_os st /\
    exists ac' ps', good st' rs (sent ++ requests cmds) [] total ac' ps') st.
Proof.
  induction cmds as [|[[fn d] args] cmds IH]; intros st rs sent total ac ps Hg Hr Hb Hl; cbn [send_all].
  - apply wp_ret. unfold requests. cbn. rewrite app_nil_r. split_and!; [done|done|]. by exists ac, ps.
  - apply Forall_cons in Hr as [Hr Hrs]. cbn [snd map fst] in *.
    unfold requests in Hb, Hl |- *. cbn [map concat snd] in *. fold (requests cmds) in *.
    rewrite zlen_app in Hb, Hl. pose proof (zlen_nonneg (requests cmds)). pose proof (zlen_nonneg (request args)).
    apply wp_bind. eapply wp_mono; [eapply command_step; [exact Hg|done|lia|lia]|].
    intros r st1 (-> & Hos1 & ac1 & ps1 & Hg1). cbn [Z.eqb REDIS_OK].
    eapply wp_mono; [eapply (IH st1); [exact Hg1|done| |lia]|].
    + rewrite Hos1, zlen_app. lia.
    + intros ok st2 (-> & Hos2 & ac2 & ps2 & Hg2). split_and!; [done|congruence|].
      exists ac2, ps2. by rewrite app_assoc.
Qed.

Lemma write_events_spec fuel : forall st rs sent total ac ps,
  good st rs sent [] total ac ps -> (to_write (conn_of st ac) < fuel)%nat ->
  wp (write_events fuel) (fun _ st' => n_reads (a_os st') = n_reads (a_os st) /\
    exists ac', good st' rs sent [] total ac' ps /\ flushed (conn_of st' ac')) st.
Proof.
  induction fuel as [|fuel IH]; intros st rs sent total ac ps Hg Hf; [lia|]. cbn [write_events].
  eapply wp_get_ac; [apply Hg|]. pose proof (go_pipe _ _ _ _ _ _ _ Hg) as [_ _ _ (o & Ho & _) _ _].
  cbn [ctx] in Ho. apply wp_bind. eapply wp_lift; [exact Ho|].
  destruct (Z.eqb_spec (sds_len o) 0) as [E|E].
  { apply wp_ret. split; [done|]. exists ac. split; [done|]. by exists o. }
  apply wp_bind. eapply wp_mono; [by eapply handle_write_spec|].
  intros [] st1 (ac1 & Hg1 & Hr1 & Hw). destruct Hw as [(o1 & Ho1 & Hl1)|Hw].
  - destruct fuel as [|fuel].
    + exfalso. unfold to_write, conn_of in Hf. cbn [ctx os] in Hf. rewrite Ho in Hf. cbn in Hf.
      pose proof (go_pipe _ _ _ _ _ _ _ Hg) as [_ _ _ (o2 & Ho2 & Hwf & _) _ _]. cbn [ctx] in Ho2.
      assert (o2 = o) as -> by congruence. pose proof (sds_value_zlen o Hwf). unfold zlen in *.
      destruct (sds_value o); [cbn in *; lia|cbn in *; lia].
    + cbn [write_events]. eapply wp_get_ac; [apply Hg1|]. cbn [conn_of ctx] in Ho1.
      apply wp_bind. eapply wp_lift; [exact Ho1|]. rewrite Hl1. cbn [Z.eqb]. apply wp_ret.
      split; [done|]. exists ac1. split; [done|]. by exists o1.
  - eapply wp_mono; [eapply (IH st1); [exact Hg1|lia]|]. intros [] st2 (Hr2 & ac2 & Hg2 & Hfl).
    split; [congruence|]. by exists ac2.
Qed.

Lemma read_events_spec fuel : forall st rs sent total ac ps,
  good st rs sent [] total ac ps -> (to_read (conn_of st ac) < fuel)%nat ->
  (incoming (n_reads (a_os st)) = [] -> rs = []) ->
  wp (read_events fuel) (fun _ st' => n_sent (a_os st') = n_sent (a_os st) /\
    delivered (a_log st') = total) st.
Proof.
  induction fuel as [|fuel IH]; intros st rs sent total ac ps Hg Hf Hnil; [lia|]. cbn [read_events].
  apply wp_bind, wp_gets. destruct (bool_decide _) eqn:E.
  - apply bool_decide_eq_true in E. specialize (Hnil E) as ->. apply wp_ret. split; [done|].
    pose proof (go_total _ _ _ _ _ _ _ Hg) as Ht. rewrite <- Ht. unfold deliveries.
    by rewrite zip_nil_r, app_nil_r.
  - apply bool_decide_eq_false in E. apply wp_bind. eapply wp_mono; [by eapply handle_read_spec|].
    intros [] st1 (rs1 & ac1 & ps1 & Hg1 & _ & Hs1 & Hm1 & Hnil1).
    eapply wp_mono; [eapply (IH st1); [exact Hg1|lia|done]|]. intros [] st2 [Hs2 Hd2].
    split; [congruence|done].
Qed.
End deliver.

(** C11: replies reach their callbacks.  A client on a connection that does not block
    issues commands and handles the events of its socket.  Whatever packets the
    answers come in, however few bytes a [write] takes and however often a call is
    interrupted, the event loop ends; every command was accepted, the peer got
    exactly the requests in order, and the calls with a reply are those of the
    callbacks of the commands, each with the reply at its place, in order. *)
Theorem async_replies_delivered {F P} alloc malloc_ok (c : redisContext) (ac : redisAsyncContext F P)
  (w : net) (cmds : list (option F * option P * list bytes)) (ws : list wire) (fuel : nat) :
  (forall n b, 0 <= n -> alloc n = Some b -> zlen b = n) -> (forall n, alloc n <> None) ->
  (forall n, malloc_ok n = true) ->
  fresh alloc false c -> plain c -> redisAsyncInitialize malloc_ok c = Some ac ->
  answers w ws -> length ws = length cmds -> Forall (fun x => regular x.2 = true) cmds ->
  zlen (requests cmds) < 2 ^ 30 - 1 ->
  (length (n_writes w) + length (requests cmds) + length (n_reads w) + length (incoming (n_reads w)) < fuel)%nat ->
  exists st', async_client alloc malloc_ok cmds fuel (mk_async (Some ac) ∅ 0 w []) = Some (true, st') /\
    n_sent (a_os st') = n_sent w ++ requests cmds /\
    delivered (a_log st') = deliveries (map fst cmds) (map reply_of ws).
Proof.
  intros Ha Hmem Hm Hfr Hpl Hac Hans Hlen Hreg Hb Hfuel.
  destruct (fresh_pipe malloc_ok alloc false Ha Hmem Hm c w ws Hfr Hans) as [Hp _].
  pose proof Hfr as (_ & Hblock & _).
  unfold redisAsyncInitialize in Hac. rewrite Hm in Hac. cbn [negb] in Hac. injection Hac as <-.
  set (ac := mk_ac _ _ _ _ _ _ _ _ _ _ _). set (st := mk_async _ _ _ _ _).
  assert (good malloc_ok st (map reply_of ws) (n_sent w) (map fst cmds)
    (deliveries (map fst cmds) (map reply_of ws)) ac []) as Hg.
  { constructor; try done; cbn.
    - by constructor; [|constructor| |].
    - by intros p [? ?].
    - eapply pipe_same; [exact Hp|done| |done|done]. cbn. rewrite Hblock. by apply has_flag_ldiff.
    - destruct Hpl as (? & ? & ? & ? & ?). split_and!; cbn; by apply has_flag_ldiff.
    - rewrite !length_map. lia. }
  assert (wp (async_client alloc malloc_ok cmds fuel) (fun ok st' => ok = true /\
    n_sent (a_os st') = n_sent w ++ requests cmds /\
    delivered (a_log st') = deliveries (map fst cmds) (map reply_of ws)) st) as (ok & st' & E & -> & H1 & H2);
    [|by exists st'].
  unfold async_client. apply wp_bind.
  eapply wp_mono; [eapply send_all_spec; [done|done|done|exact Hg|done|cbn; lia|lia]|].
  intros ok st1 (-> & Hos1 & ac1 & ps1 & Hg1).
  pose proof (go_pipe _ _ _ _ _ _ _ _ Hg1) as [_ _ _ (o & Ho & Hwf & Hs) _ _]. cbn [ctx os] in Ho, Hs.
  rewrite Hos1 in Hs. cbn [a_os st] in Hs. apply app_inv_head in Hs.
  apply wp_bind. eapply wp_mono; [eapply write_events_spec; [done|done|exact Hg1|]|].
  { unfold to_write, conn_of. cbn [ctx os]. rewrite Ho, Hos1. cbn. rewrite Hs. lia. }
  intros [] st2 (Hr2 & ac2 & Hg2 & (o2 & Ho2 & Hl2)).
  apply wp_bind. eapply wp_mono; [eapply read_events_spec; [done|done|exact Hg2| |]|].
  - unfold to_read, conn_of. cbn [os]. rewrite Hr2, Hos1. cbn. lia.
  - rewrite Hr2, Hos1. cbn. intros E. destruct Hans as (_ & _ & Hin & _ & _).
    destruct ws as [|x ws]; [done|]. exfalso. rewrite E in Hin. cbn in Hin.
    by destruct x.
  - intros [] st3 [Hs3 Hd3]. apply wp_ret. split_and!; [done| |done].
    pose proof (go_pipe _ _ _ _ _ _ _ _ Hg2) as [_ _ _ (o3 & Ho3 & Hwf3 & Hs3') _ _].
    cbn [ctx os conn_of] in *. assert (o3 = o2) as -> by congruence.
    pose proof (sds_value_zlen o2 Hwf3) as Hz. rewrite Hl2 in Hz.
    assert (sds_value o2 = []) as E by (destruct (sds_value o2); [done|zlen_lia]).
    rewrite Hs3. rewrite E, app_nil_r in Hs3'. exact Hs3'.
Qed.

(** Two commands, one without a callback; short writes and interruptions. *)
Definition deliver_net : net :=
  mk_net 0 {[0; 5]} [RdData (s "+O"); RdErr EINTR; RdData (s "K" ++ CRLF ++ s "$1"); RdData (CRLF ++ s "v" ++ CRLF ++ s ":1" ++ CRLF)]
    [WrSome 7; WrErr EINTR; WrSome 30] [] [] [] [].
Definition deliver_commands : list (option Z * option Z * list bytes) :=
  [(Some 1, Some 10, [s "SET"; s "k"; s "v"]); (None, None, [s "GET"; s "k"]); (Some 2, None, [s "DEL"; s "k"])].
Definition deliver_answers : list wire := [WStatus (s "OK"); WBulk (s "v"); WInt 1].

Lemma async_replies_delivered_witness :
  exists c ac st', redisAsyncInitialize (F := Z) (P := Z) (fun _ => true) c = Some ac /\
    async_client plenty (fun _ => true) deliver_commands 200 (mk_async (Some ac) ∅ 0 deliver_net []) = Some (true, st') /\
    n_sent (a_os st') = n_sent deliver_net ++ requests deliver_commands /\
    delivered (a_log st') = deliveries (map fst deliver_commands) (map reply_of deliver_answers).
Proof.
  destruct (implements_yields plenty (fun n => ltac:(done)) _ _ (sdsempty_spec plenty plenty_size))
    as (o & Eo & Hw & Hv).
  set (c := mk_context 0 [] 5 REDIS_CONNECTED (Some o) (redisReaderCreate plenty)
              REDIS_CONN_TCP None None None 6379 None).
  exists c, (mk_ac (set_flags (Z.ldiff (c_flags c) REDIS_CONNECTED) c) 0 None None
    (mk_ev false false false false false) None None (mk_cblist None None) (mk_cblist None None)
    dictCreate dictCreate).
  destruct (async_replies_delivered plenty (fun _ => true) c
    (mk_ac (set_flags (Z.ldiff (c_flags c) REDIS_CONNECTED) c) 0 None None
    (mk_ev false false false false false) None None (mk_cblist None None) (mk_cblist None None)
    dictCreate dictCreate) deliver_net deliver_commands deliver_answers 200) as (st' & H1 & H2 & H3);
    [exact plenty_size|done|done| | |done| |done| |by vm_compute| |].
  - split_and!; [done|done|by exists o|done].
  - by split_and!.
  - split_and!; [repeat constructor; done|repeat constructor|by vm_compute| |by vm_compute].
    repeat constructor; by vm_compute.
  - repeat constructor; by vm_compute.
  - vm_compute. lia.
  - exists st'. done.
Defined.
