(* ===== verification/AsyncFaults.v ===== *)
(** * Asynchronous connections that go wrong

    Runs of async.c on a scripted system: failed assertions, uses of freed or
    uninitialised memory, callbacks that are called for replies of others. *)

From S2P Require Import Prelude Effects Reply Resp Format Sds SdsSpec Dict Reader Vformat Net NetSpec NetScript Context Async AsyncSpec AsyncOrder.

(** A client without code of its own; what it saw. *)
Definition idle_script (log : list (event Z Z)) : list (act Z Z) := [].
Definition system (reads : list rd) : net := mk_net 0 {[0; 1; 2]} reads [] [] [] [] [].
Definition seen (xs : list (async_step Z Z)) (reads : list rd) : option (list (Z * option Z) * bool) :=
  (fun st => (called (a_log st), bool_decide (a_ctx st = None))) <$> run_demo idle_script xs (system reads).

Definition get (fn : Z) : async_step Z Z := Act (Command (Some fn) None [s "GET"; s "k"]).

(** Disconnecting with two replies pending.  When both come at once the context is
    closed after them; when only the first has come, the connection is taken for
    finished and the assertion that nothing is pending fails. *)
Example disconnect_at_once :
  seen [get 1; get 2; HandleWrite; Act Disconnect; HandleRead] [RdData (s "+A" ++ CRLF ++ s "+B" ++ CRLF)] =
  Some ([(1, None); (2, None)], true).
Proof. vm_compute. reflexivity. Qed.
Example disconnect_between_replies_aborts :
  seen [get 1; get 2; HandleWrite; Act Disconnect; HandleRead]
    [RdData (s "+A" ++ CRLF); RdData (s "+B" ++ CRLF)] = None.
Proof. vm_compute. reflexivity. Qed.

(** MONITOR: the callback is pushed again when the replies are used up.  An event
    without a reply pushes a callback that is NULL, which then takes a line. *)
Definition monitor : async_step Z Z := Act (Command (Some 1) None [s "MONITOR"]).
Definition line (x : string) : rd := RdData (s "+" ++ s x ++ CRLF).
Example monitor_sees_all :
  seen [monitor; HandleWrite; HandleRead; HandleRead; HandleRead] [line "OK"; line "a"; line "b"] =
  Some ([(1, None); (1, None); (1, None)], false).
Proof. vm_compute. reflexivity. Qed.
Example monitor_loses_lines :
  seen [monitor; HandleWrite; HandleRead; HandleRead; HandleRead; HandleRead]
    [RdErr EINTR; line "OK"; line "a"; line "b"] =
  Some ([(1, None); (1, None)], false).
Proof. vm_compute. reflexivity. Qed.

(** A message for a channel without callback is given to the callback of the reply
    before it. *)
Definition subscribe (fn : Z) : async_step Z Z := Act (Command (Some fn) None [s "SUBSCRIBE"; s "a"]).
Definition unsubscribe : async_step Z Z := Act (Command None None [s "UNSUBSCRIBE"; s "b"]).
Definition bye : bytes := bulks [s "unsubscribe"; s "b"].
Example stale_callback :
  seen [get 1; subscribe 2; unsubscribe; HandleWrite; HandleRead]
    [RdData (s "+A" ++ CRLF ++ s "*3" ++ CRLF ++ bye ++ s ":1" ++ CRLF)] =
  Some ([(1, None); (1, None)], false).
Proof. vm_compute. reflexivity. Qed.
Example own_channel :
  seen [get 1; subscribe 2; HandleWrite; HandleRead]
    [RdData (s "+A" ++ CRLF ++ s "*3" ++ CRLF ++ bulks [s "message"; s "a"] ++ s "$1" ++ CRLF ++ s "x" ++ CRLF)] =
  Some ([(1, None); (2, None)], false).
Proof. vm_compute. reflexivity. Qed.

(** A callback that frees the context when the connection is made: the handler uses
    it afterwards. *)
Definition free_on_connect (e : event Z Z) : prog (async_state Z Z net) () :=
  if e is OnConnect _ _ then redisAsyncFree (fun _ => mret ()) else mret ().
Definition with_user (malloc_ok : Z -> bool) (user : event Z Z -> prog (async_state Z Z net) ())
  (xs : list (async_step Z Z)) (reads : list rd) : option (list (Z * option Z) * bool) :=
  r ← start (system reads);
  ac ← redisAsyncInitialize (fun _ => true) r.1;
  (fun x => (called (a_log x.2), bool_decide (a_ctx x.2 = None))) <$>
    each xs (run_async_step plenty malloc_ok user) (mk_async (Some ac) ∅ 0 r.2 []).
Example free_on_connect_is_used :
  with_user (fun _ => true) free_on_connect [SetOnConnect 0; HandleWrite] [] = None.
Proof. vm_compute. reflexivity. Qed.

(** Without memory for the node, the command is sent but its callback is not
    registered: the reply finds none and the assertion fails. *)
Example callback_not_registered :
  with_user (fun n => negb (n =? sizeof_callback)) (fun _ => mret ()) [get 1; HandleWrite] [] =
  Some ([], false).
Proof. vm_compute. reflexivity. Qed.
Example reply_without_callback_aborts :
  with_user (fun n => negb (n =? sizeof_callback)) (fun _ => mret ()) [get 1; HandleWrite; HandleRead]
    [line "OK"] = None.
Proof. vm_compute. reflexivity. Qed.

(** A command that cannot be formatted: the length -1 and an uninitialised pointer
    are used. *)
Example argv_without_memory :
  (r ← start (system []);
   ac ← redisAsyncInitialize (F := Z) (P := Z) (fun _ => true) r.1;
   fst <$> redisAsyncCommandArgv plenty (fun _ => false) (Some 1) None 1 [s "PING"] None
     (mk_async (Some ac) ∅ 0 r.2 [])) = None.
Proof. vm_compute. reflexivity. Qed.

(** The constructors that bind do not free the context when it cannot be extended:
    its descriptor stays open. *)
Example bind_leaks_context :
  (fun r => (bool_decide (is_Some r.1), n_fds r.2)) <$>
    redisAsyncConnectBind (F := Z) (P := Z) plenty (fun n => negb (n =? sizeof_async)) (s "redis") 6379 None
      (system []) = Some (false, {[0; 1; 2; 3]}).
Proof. vm_compute. reflexivity. Qed.
