(* ===== verification/AsyncWatch.v ===== *)
(** * Output is watched for

    The event loop learns from the hooks which events it has to wait for.  Whenever
    bytes wait in the output buffer of a context, the last hook for writing that
    was called is [addWrite]: no command stays unsent because nobody waits for the
    socket. *)

From S2P Require Import Prelude Effects Reply Resp Format Sds SdsSpec Dict Reader Vformat Net NetSpec NetScript Context Async AsyncSpec AsyncOrder.

(** ** What the hooks ask for *)

Record interest := mk_interest { for_reading : bool; for_writing : bool }.
#[global] Instance interest_eq_dec : EqDecision interest.
Proof. solve_decision. Defined.
#[global] Instance hook_eq_dec : EqDecision hook.
Proof. solve_decision. Defined.

Definition ask (i : interest) (h : hook) : interest :=
  match h with
  | AddRead => mk_interest true (for_writing i)
  | DelRead => mk_interest false (for_writing i)
  | AddWrite => mk_interest (for_reading i) true
  | DelWrite => mk_interest (for_reading i) false
  | Cleanup => mk_interest false false
  end.
Definition asked (hs : list hook) : interest := fold_left ask hs (mk_interest false false).

Definition hooks_of {F P} (log : list (event F P)) : list hook :=
  omap (fun e => if e is Hook h then Some h else None) log.

Lemma asked_snoc hs h : asked (hs ++ [h]) = ask (asked hs) h.
Proof. unfold asked. by rewrite fold_left_app. Qed.
Lemma cleanup_snoc hs h :
  bool_decide (Cleanup ∈ hs ++ [h]) = bool_decide (Cleanup ∈ hs) || bool_decide (h = Cleanup).
Proof. rewrite <- bool_decide_or. apply bool_decide_ext. rewrite elem_of_app, list_elem_of_singleton. naive_solver. Qed.
Lemma hooks_of_snoc {F P} (log : list (event F P)) e :
  hooks_of (log ++ [e]) = hooks_of log ++ (if e is Hook h then [h] else []).
Proof. unfold hooks_of. rewrite omap_app. by destruct e. Qed.

(** A context with all hooks of an event loop. *)
Definition all_hooks : ev_hooks := mk_ev true true true true true.
Definition has_output (c : redisContext) : bool := if c_obuf c is Some b then negb (sds_len b =? 0) else false.

(** ** The output buffer of a context of hiredis.c *)

Section output.
Context {W : Type} `{Posix W} (alloc : Z -> option bytes) (malloc_ok : Z -> bool).

Definition same_output : relation (conn W) := fun st st' => c_obuf (ctx st') = c_obuf (ctx st).
#[local] Instance same_output_preorder : PreOrder same_output.
Proof. split; [by intros st|]. intros x y z ? ?. unfold same_output in *. congruence. Qed.

Lemma output_upd f : (forall c, c_obuf (f c) = c_obuf c) -> keeps same_output (upd (W := W) f).
Proof. intros Hf. apply keeps_modify. intros st. apply Hf. Qed.
Lemma output_sys {A} (f : W -> A * W) : keeps same_output (sys f).
Proof. intros st a st'. unfold sys. destruct (f (os st)). intros [= <- <-]. done. Qed.
#[local] Hint Resolve output_sys : keeps.
#[local] Hint Extern 2 (keeps same_output (upd _)) => by apply output_upd : keeps.
Lemma output_get_ctx : keeps same_output (get_ctx (W := W)).
Proof. apply keeps_gets. apply _. Qed.
Lemma output_get_errno : keeps same_output get_errno.
Proof. apply keeps_gets. apply _. Qed.
Lemma output_set_error type str : keeps same_output (__redisSetError (W := W) type str).
Proof. by apply output_upd. Qed.
Lemma output_put_reader r : keeps same_output (put_reader (W := W) r).
Proof. by apply output_upd. Qed.
#[local] Hint Resolve output_get_ctx output_get_errno output_set_error output_put_reader : keeps.
Lemma output_from_errno type prefix : keeps same_output (__redisSetErrorFromErrno type prefix).
Proof. unfold __redisSetErrorFromErrno. keeps_steps. Qed.
Lemma output_error_null type : keeps same_output (__redisSetError_null (W := W) type).
Proof. unfold __redisSetError_null. keeps_steps. Qed.
#[local] Hint Resolve output_error_null output_from_errno : keeps.
Lemma output_io_failed : keeps same_output (io_failed (W := W)).
Proof. unfold io_failed. keeps_steps. Qed.
#[local] Hint Resolve output_io_failed : keeps.
Lemma output_read : keeps same_output (redisBufferRead alloc).
Proof. unfold redisBufferRead. keeps_steps. Qed.
Lemma output_from_reader : keeps same_output (redisGetReplyFromReader (W := W) malloc_ok).
Proof. unfold redisGetReplyFromReader. keeps_steps. Qed.
#[local] Hint Resolve output_from_reader : keeps.
Lemma output_get_reply : keeps same_output (redisGetReply alloc malloc_ok 0).
Proof. unfold redisGetReply. cbn [write_until_done read_until_reply]. keeps_steps. Qed.
Lemma output_check_socket : keeps same_output redisCheckSocketError.
Proof. unfold redisCheckSocketError. keeps_steps. Qed.

(** Writing says whether the buffer is empty now. *)
Lemma write_result k r k' : redisBufferWrite alloc k = Some (r, k') ->
  r.1 = REDIS_ERR \/ has_output (ctx k') = negb r.2.
Proof.
  intros E. unfold redisBufferWrite in E. apply bind_inv in E as (c & k1 & E1 & E).
  destruct (negb (c_err c =? 0)); [apply ret_inv in E as [-> ->]; by left|].
  apply bind_inv in E as (o & k2 & E2 & E). apply bind_inv in E as (ok & k3 & E3 & E).
  destruct ok; cbn [negb] in E; [|apply ret_inv in E as [-> ->]; by left].
  unfold get_ctx in E. rewrite (bind_eq _ _ _ (ctx k3) k3) in E by done.
  unfold lift in E. unfold has_output. destruct (c_obuf (ctx k3)) as [b|] eqn:Eb; [|done].
  rewrite (bind_eq _ _ _ b k3) in E by done. apply ret_inv in E as [-> ->]. right. by rewrite Eb.
Qed.
End output.

(** ** A context of async.c *)

Section watch.
Context {F P W : Type} `{Posix W} (alloc : Z -> option bytes) (malloc_ok : Z -> bool).
Context (printf : bytes -> vararg -> bytes).
Abbreviation async := (async_state F P W).
Abbreviation M := (prog async).
Implicit Types (st : async) (ac : redisAsyncContext F P) (e : event F P).

(** What the invariant sees of a state. *)
Definition seen st : option (ev_hooks * bool) * (bool * bool) :=
  ((fun ac => (ac_ev ac, has_output (ac_c ac))) <$> a_ctx st,
   (for_writing (asked (hooks_of (a_log st))), bool_decide (Cleanup ∈ hooks_of (a_log st)))).

(** The hooks are set and were not taken down, and output is watched for; a
    context that was freed has none. *)
Definition watched st : Prop :=
  match seen st with
  | (Some (ev, out), (writing, cleaned)) => ev = all_hooks /\ (out = true -> writing = true) /\ cleaned = false
  | (None, _) => True
  end.

Definition same_seen : relation async := fun st st' => seen st' = seen st.
Definition stays_watched : relation async := fun st st' => watched st -> watched st'.
#[local] Instance same_seen_preorder : PreOrder same_seen.
Proof. split; [by intros st|]. intros x y z ? ?. unfold same_seen in *. congruence. Qed.
#[local] Instance stays_watched_preorder : PreOrder stays_watched.
Proof. split; [by intros st Hw|]. intros x y z H1 H2 Hx. exact (H2 (H1 Hx)). Qed.

Lemma keeps_seen {A} (m : M A) : keeps same_seen m -> keeps stays_watched m.
Proof. intros Hm st a st' E Hw. unfold watched. by rewrite (Hm _ _ _ E). Qed.

(** *** Steps that the invariant does not see *)

Lemma get_ac_inv st st' ac : get_ac st = Some (ac, st') -> a_ctx st = Some ac /\ st' = st.
Proof. unfold get_ac, mbind, prog_bind, gets, lift. destruct (a_ctx st); cbn; intros; by simplify_eq. Qed.
Lemma lift_inv {S A} (x : option A) (st st' : S) a : lift x st = Some (a, st') -> x = Some a /\ st' = st.
Proof. unfold lift. destruct x; cbn; intros; by simplify_eq. Qed.

Lemma put_seen st ac ac' a st' :
  a_ctx st = Some ac -> ac_ev ac' = ac_ev ac -> has_output (ac_c ac') = has_output (ac_c ac) ->
  put_ac ac' st = Some (a, st') -> seen st' = seen st /\ a_ctx st' = Some ac'.
Proof. intros Hc H1 H2 E. unfold put_ac, modify in E. simplify_eq. unfold seen. cbn. by rewrite Hc; cbn; rewrite H1, H2. Qed.

Lemma seen_modify (f : async -> async) : (forall st, seen (f st) = seen st) -> keeps same_seen (modify f).
Proof. intros Hf. apply keeps_modify. exact Hf. Qed.
Lemma seen_get_ac : keeps same_seen (get_ac (F := F) (P := P) (W := W)).
Proof. intros st ac st' [_ ->]%get_ac_inv. done. Qed.
Lemma seen_store_cb p cb : keeps same_seen (store_cb (W := W) p cb).
Proof. by apply seen_modify. Qed.
Lemma seen_free_cb p : keeps same_seen (free_cb (F := F) (P := P) (W := W) p).
Proof. by apply seen_modify. Qed.
Lemma seen_load_cb p : keeps same_seen (load_cb (F := F) (P := P) (W := W) p).
Proof. unfold load_cb. keeps_steps. Qed.
Lemma seen_new_cb cb : keeps same_seen (new_cb (W := W) cb).
Proof. intros st a st' E. unfold new_cb in E. by simplify_eq. Qed.
#[local] Hint Resolve seen_get_ac seen_store_cb seen_free_cb seen_load_cb seen_new_cb : keeps.

Lemma seen_upd f :
  (forall ac, ac_ev (f ac) = ac_ev ac /\ has_output (ac_c (f ac)) = has_output (ac_c ac)) ->
  keeps same_seen (upd_ac (F := F) (P := P) (W := W) f).
Proof.
  intros Hf st a st' E. unfold upd_ac in E. apply bind_inv in E as (ac & st1 & [Hc ->]%get_ac_inv & E).
  destruct (Hf ac). by eapply put_seen.
Qed.
Lemma seen_flag f : keeps same_seen (flag (F := F) (P := P) (W := W) f).
Proof. unfold flag. keeps_steps. Qed.
Lemma seen_set_flag f : keeps same_seen (set_flag (F := F) (P := P) (W := W) f).
Proof. by apply seen_upd. Qed.
Lemma seen_clear_flag f : keeps same_seen (clear_flag (F := F) (P := P) (W := W) f).
Proof. by apply seen_upd. Qed.
Lemma seen_copy_error : keeps same_seen (__redisAsyncCopyError (F := F) (P := P) (W := W)).
Proof. by apply seen_upd. Qed.
#[local] Hint Resolve seen_flag seen_set_flag seen_clear_flag seen_copy_error : keeps.

Lemma seen_on_c {A} (m : prog (conn W) A) : keeps same_output m -> keeps same_seen (on_c (F := F) (P := P) m).
Proof.
  intros Hm st a st' E. unfold on_c in E. apply bind_inv in E as (ac & st1 & [Hc ->]%get_ac_inv & E).
  destruct (m _) as [[b k]|] eqn:Em; [|done]. simplify_eq. apply Hm in Em. unfold same_output in Em. cbn in Em.
  unfold same_seen, seen, has_output. cbn. by rewrite Hc; cbn; rewrite Em.
Qed.

Lemma seen_push x cb : keeps same_seen (__redisPushCallback (W := W) malloc_ok x cb).
Proof.
  unfold __redisPushCallback. destruct (negb _); [keeps_steps|]. apply (keeps_bind same_seen); [keeps_steps|]. intros p st a st' E.
  apply bind_inv in E as (ac & st1 & [Hc ->]%get_ac_inv & E).
  apply bind_inv in E as (u & st2 & E2 & E). apply bind_inv in E as (v & st3 & E3 & [-> ->]%ret_inv).
  assert (seen st2 = seen st /\ a_ctx st2 = a_ctx st) as [Hs Hc2].
  { destruct (cl_tail _) as [q|]; [|apply ret_inv in E2 as [-> ->]; done].
    unfold load_cb in E2. apply bind_inv in E2 as (n & st4 & E4 & E2). apply bind_inv in E4 as (n' & st5 & E5 & [_ ->]%lift_inv).
    unfold gets in E5. unfold store_cb, modify in E2. by simplify_eq. }
  unfold same_seen. rewrite <- Hs. eapply (put_seen st2 ac); [congruence| | |exact E3]; by destruct x.
Qed.

Lemma seen_shift x : keeps same_seen (__redisShiftCallback (F := F) (P := P) (W := W) x).
Proof.
  intros st a st' E. unfold __redisShiftCallback in E. apply bind_inv in E as (ac & st1 & [Hc ->]%get_ac_inv & E).
  destruct (cl_head _) as [q|]; [|by apply ret_inv in E as [-> ->]].
  apply bind_inv in E as (cb & st1 & E1 & E). unfold load_cb in E1. apply bind_inv in E1 as (n & st2 & E2 & [_ ->]%lift_inv).
  unfold gets in E2. simplify_eq. apply bind_inv in E as (u & st3 & E3 & E).
  apply bind_inv in E as (v & st4 & E4 & [-> ->]%ret_inv). unfold free_cb, modify in E4. simplify_eq.
  assert (seen st3 = seen st2) as Hs by (eapply (put_seen st2 ac); [done| | |exact E3]; by destruct x). exact Hs.
Qed.
#[local] Hint Resolve seen_push seen_shift : keeps.

Lemma seen_emit e :
  match e with Hook (AddWrite | DelWrite | Cleanup) => False | _ => True end -> keeps same_seen (emit (W := W) e).
Proof.
  intros He. apply seen_modify. intros st. unfold seen. cbn [a_ctx a_log]. rewrite hooks_of_snoc.
  destruct e as [h| | | | |]; try by rewrite app_nil_r. rewrite asked_snoc, cleanup_snoc.
  destruct h; try done; by rewrite orb_false_r.
Qed.
Lemma seen_EL_read : keeps same_seen (_EL (F := F) (P := P) (W := W) AddRead).
Proof. unfold _EL. apply (keeps_bind same_seen); [keeps_steps|]. intros ac. destruct (hook_set _ _); [by apply seen_emit|keeps_steps]. Qed.
#[local] Hint Resolve seen_EL_read : keeps.

Lemma seen_subscribe_callback reply cb :
  keeps same_seen (__redisGetSubscribeCallback (F := F) (P := P) (W := W) reply cb).
Proof.
  unfold __redisGetSubscribeCallback. destruct (_ =? _); [|keeps_steps]. destruct (_ <? _); [keeps_steps|].
  do 5 (apply (keeps_bind same_seen); [keeps_steps|intros ?]). intros st r st' E.
  apply bind_inv in E as (ac & st1 & [Hc ->]%get_ac_inv & E).
  apply bind_inv in E as (de & st1 & [_ ->]%lift_inv & E). destruct de as [de|]; [|by apply ret_inv in E as [-> ->]].
  apply bind_inv in E as (unsub & st1 & [_ ->]%lift_inv & E).
  apply bind_inv in E as (u & st2 & E2 & [-> ->]%ret_inv). destruct unsub; [|by apply ret_inv in E2 as [-> ->]].
  apply bind_inv in E2 as (d & st1 & [_ ->]%lift_inv & E2). apply bind_inv in E2 as (v & st3 & E3 & E2).
  apply bind_inv in E2 as (e2 & st1 & [_ ->]%lift_inv & E2). unfold same_seen. transitivity (seen st3).
  - destruct (integer e2 =? 0); [by eapply seen_clear_flag|by apply ret_inv in E2 as [-> ->]].
  - eapply (put_seen st ac); [done| | |exact E3]; by case_bool_decide.
Qed.

(** *** Steps that the invariant is about *)

Context (user : event F P -> M ()) (Huser : forall e, keeps stays_watched (user e)).
#[local] Hint Extern 3 (keeps stays_watched _) => apply keeps_seen; solve [eauto with keeps] : keeps.

Lemma watched_call e :
  match e with Hook (AddWrite | DelWrite | Cleanup) => False | _ => True end -> keeps stays_watched (call_user user e).
Proof. intros He. unfold call_user. apply (keeps_bind stays_watched); [|auto]. by apply keeps_seen, seen_emit. Qed.

Lemma watched_run cb r : keeps stays_watched (__redisRunCallback user cb r).
Proof.
  unfold __redisRunCallback. destruct (cb_fn cb); [|keeps_steps].
  do 2 (apply (keeps_bind stays_watched); [first [by apply watched_call | keeps_steps]|intros ?]). keeps_steps.
Qed.
#[local] Hint Resolve watched_run : keeps.

(** After [free_context] there is no context. *)
Lemma wlp_last {A B} (m : M A) (f : A -> M B) Q : (forall a st, wlp (f a) Q st) -> forall st, wlp (m ≫= f) Q st.
Proof. intros Hf st b st' E. apply bind_inv in E as (a & st1 & _ & E). by eapply Hf. Qed.
Lemma freed_none st : wlp (__redisAsyncFree user) (fun _ st' => a_ctx st' = None) st.
Proof.
  unfold __redisAsyncFree. revert st. repeat (apply wlp_last; intros ?). intros st b st' E. unfold free_context in E.
  destruct (a_ctx st) as [ac|]; [|done]. destruct (redisFree _ _) as [[? w]|]; [|done]. by simplify_eq.
Qed.
Lemma watched_async_free : keeps stays_watched (__redisAsyncFree user).
Proof. intros st a st' E _. unfold watched, seen. by rewrite (freed_none st a st' E). Qed.
#[local] Hint Resolve watched_async_free : keeps.
Lemma watched_free : keeps stays_watched (redisAsyncFree user).
Proof. unfold redisAsyncFree. keeps_steps. Qed.
Lemma disconnected_none st : wlp (__redisAsyncDisconnect user) (fun _ st' => a_ctx st' = None) st.
Proof. unfold __redisAsyncDisconnect. revert st. do 3 (apply wlp_last; intros ?). apply freed_none. Qed.
Lemma watched_async_disconnect : keeps stays_watched (__redisAsyncDisconnect user).
Proof. intros st a st' E _. unfold watched, seen. by rewrite (disconnected_none st a st' E). Qed.
#[local] Hint Resolve watched_async_disconnect : keeps.
Lemma watched_disconnect : keeps stays_watched (redisAsyncDisconnect user).
Proof. unfold redisAsyncDisconnect. keeps_steps. Qed.

Lemma seen_spontaneous reply : keeps same_seen (spontaneous_error (F := F) (P := P) (W := W) reply).
Proof.
  unfold spontaneous_error. do 2 (apply (keeps_bind same_seen); [keeps_steps|intros ?]).
  apply seen_on_c. by apply output_upd.
Qed.
#[local] Hint Resolve seen_spontaneous seen_subscribe_callback : keeps.
Lemma watched_process_reply reply cb : keeps stays_watched (process_reply user reply cb).
Proof. unfold process_reply. keeps_steps. Qed.
#[local] Hint Resolve watched_process_reply : keeps.
Lemma seen_next_reply : keeps same_seen (next_reply (F := F) (P := P) (W := W) alloc malloc_ok).
Proof. apply seen_on_c, output_get_reply. Qed.
#[local] Hint Resolve seen_next_reply : keeps.
Lemma watched_process_loop fuel : forall cb, keeps stays_watched (process_loop alloc malloc_ok user fuel cb).
Proof. induction fuel as [|fuel IH]; intros cb; cbn [process_loop]; keeps_steps. Qed.
#[local] Hint Resolve watched_process_loop : keeps.
Lemma watched_process : keeps stays_watched (redisProcessCallbacks alloc malloc_ok user).
Proof. unfold redisProcessCallbacks, reader_fuel. keeps_steps. Qed.
#[local] Hint Resolve watched_process : keeps.

Lemma watched_on_connect status : keeps stays_watched (on_connect user status).
Proof. unfold on_connect. apply (keeps_bind stays_watched); [keeps_steps|]. intros ac. destruct (ac_onConnect ac); [by apply watched_call|keeps_steps]. Qed.
Lemma seen_check_socket : keeps same_seen (on_c (F := F) (P := P) (W := W) redisCheckSocketError).
Proof. apply seen_on_c, output_check_socket. Qed.
Lemma seen_errno : keeps same_seen (on_c (F := F) (P := P) (W := W) get_errno).
Proof. apply seen_on_c, output_get_errno. Qed.
Lemma seen_read : keeps same_seen (on_c (F := F) (P := P) (W := W) (redisBufferRead alloc)).
Proof. apply seen_on_c, output_read. Qed.
#[local] Hint Resolve watched_on_connect seen_check_socket seen_errno seen_read : keeps.
Lemma watched_connected_now : keeps stays_watched (connected_now user).
Proof. unfold connected_now, __redisAsyncHandleConnect. keeps_steps. Qed.
#[local] Hint Resolve watched_connected_now : keeps.
Lemma watched_handle_read : keeps stays_watched (redisAsyncHandleRead alloc malloc_ok user).
Proof. unfold redisAsyncHandleRead. keeps_steps. Qed.

(** The hooks for writing. *)
Definition hooked st : Prop := match a_ctx st with Some ac => ac_ev ac = all_hooks /\ (Cleanup ∉ hooks_of (a_log st)) | None => True end.
Lemma watched_hooked st : watched st -> hooked st.
Proof.
  unfold watched, seen, hooked. destruct (a_ctx st); [|done]. by intros (He & _ & Hn%bool_decide_eq_false).
Qed.
Lemma hook_watched h st a st' :
  hooked st -> (h = AddWrite \/ h = DelWrite /\ forall ac, a_ctx st = Some ac -> has_output (ac_c ac) = false) ->
  _EL h st = Some (a, st') -> watched st'.
Proof.
  intros Hh Hw E. unfold _EL in E. apply bind_inv in E as (ac & st1 & [Hc ->]%get_ac_inv & E).
  unfold hooked in Hh. rewrite Hc in Hh. destruct Hh as [Hh Hn]. rewrite Hh in E. assert (hook_set h all_hooks = true) as Hs by by destruct h.
  rewrite Hs in E. unfold emit, modify in E. simplify_eq. unfold watched, seen. cbn [a_ctx a_log fmap option_fmap option_map].
  rewrite Hc. cbn [fmap option_fmap option_map]. rewrite hooks_of_snoc, asked_snoc, cleanup_snoc.
  rewrite (bool_decide_eq_false_2 (Cleanup ∈ _)) by done.
  destruct Hw as [->|[-> Ho]]; (split; [done|split; [|done]]); [done|]. by rewrite (Ho ac Hc).
Qed.
Lemma on_c_hooked {A} (m : prog (conn W) A) st a st' :
  hooked st -> on_c (F := F) (P := P) m st = Some (a, st') ->
  hooked st' /\ exists ac k, m (mk_conn (ac_c ac) (a_os st)) = Some (a, k) /\ a_ctx st' = Some (set_c (ctx k) ac).
Proof.
  intros Hh E. unfold on_c in E. apply bind_inv in E as (ac & st1 & [Hc ->]%get_ac_inv & E).
  destruct (m _) as [[b k]|] eqn:Em; [|done]. simplify_eq. unfold hooked in *. rewrite Hc in Hh. cbn.
  split; [done|]. by exists ac, k.
Qed.

Lemma watched_send data :
  keeps stays_watched (_ ← on_c (F := F) (P := P) (__redisAppendCommand (W := W) alloc data); _ ← _EL AddWrite; mret REDIS_OK).
Proof.
  intros st a st' E Hw%watched_hooked. apply bind_inv in E as (r & st1 & E1 & E).
  apply bind_inv in E as (u & st2 & E2 & [-> ->]%ret_inv). destruct (on_c_hooked _ _ _ _ Hw E1) as [Hh _].
  eapply hook_watched; [exact Hh|by left|exact E2].
Qed.
Lemma watched_set_connect fn : keeps stays_watched (redisAsyncSetConnectCallback (F := F) (P := P) (W := W) fn).
Proof.
  intros st a st' E Hwatched. pose proof (watched_hooked st Hwatched) as Hw. unfold redisAsyncSetConnectCallback in E.
  apply bind_inv in E as (ac & st1 & [Hc ->]%get_ac_inv & E).
  destruct (ac_onConnect ac); [by apply ret_inv in E as [-> ->]|].
  apply bind_inv in E as (u & st1 & E1 & E). apply bind_inv in E as (v & st2 & E2 & [-> ->]%ret_inv).
  eapply hook_watched; [|by left|exact E2]. unfold put_ac, modify in E1. simplify_eq. unfold hooked in *. by rewrite Hc in Hw.
Qed.
Lemma watched_set_disconnect fn : keeps stays_watched (redisAsyncSetDisconnectCallback (F := F) (P := P) (W := W) fn).
Proof.
  apply keeps_seen. intros st a st' E. unfold redisAsyncSetDisconnectCallback in E.
  apply bind_inv in E as (ac & st1 & [Hc ->]%get_ac_inv & E).
  destruct (ac_onDisconnect ac); [by apply ret_inv in E as [-> ->]|].
  apply bind_inv in E as (u & st2 & E2 & [-> ->]%ret_inv).
  eapply (put_seen st ac); [done| | |exact E2]; done.
Qed.

Lemma watched_handle_write : keeps stays_watched (redisAsyncHandleWrite alloc user).
Proof.
  unfold redisAsyncHandleWrite. apply (keeps_bind stays_watched); [keeps_steps|]. intros go. destruct go; cbn [negb]; [|keeps_steps].
  intros st a st' E Hw%watched_hooked. apply bind_inv in E as (r & st1 & E1 & E).
  destruct (on_c_hooked _ _ _ _ Hw E1) as (Hh & ac & k & Em & Hc). apply write_result in Em.
  destruct (Z.eqb_spec r.1 REDIS_ERR) as [|Hr]; [unfold watched, seen; by rewrite (disconnected_none _ _ _ E)|].
  destruct Em as [|Ho]; [done|]. apply bind_inv in E as (u & st2 & E2 & E).
  assert (watched st2) as Hw2.
  { eapply hook_watched; [exact Hh| |exact E2]. destruct r.2; [right|by left]. split; [done|].
    intros ac' Hc'. rewrite Hc in Hc'. by simplify_eq. }
  by eapply (keeps_seen _ seen_EL_read).
Qed.

(** ** Commands *)

Lemma seen_subscribe_args fuel cmd pv cb : forall p,
  keeps same_seen (subscribe_args (F := F) (P := P) (W := W) fuel cmd p pv cb).
Proof.
  induction fuel as [|fuel IH]; intros p; cbn [subscribe_args]; [keeps_steps|].
  apply (keeps_bind same_seen); [keeps_steps|]. intros [[[q astr] alen]|]; [|keeps_steps].
  destruct (_ || _); [keeps_steps|]. intros st a st' E.
  apply bind_inv in E as (ac & st1 & [Hc ->]%get_ac_inv & E).
  apply bind_inv in E as (d & st1 & [_ ->]%lift_inv & E). apply bind_inv in E as (v & st3 & E3 & E).
  apply IH in E. unfold same_seen in *. rewrite E. eapply (put_seen st ac); [done| | |exact E3]; by destruct pv.
Qed.
#[local] Hint Resolve seen_subscribe_args watched_send : keeps.
Lemma watched_command fn privdata cmd len :
  keeps stays_watched (__redisAsyncCommand (W := W) alloc malloc_ok (F := F) (P := P) fn privdata cmd len).
Proof.
  unfold __redisAsyncCommand.
  repeat lazymatch goal with
  | |- keeps _ (mbind _ (on_c _)) => apply watched_send
  | |- keeps _ (mbind _ _) => apply (keeps_bind stays_watched); [keeps_steps|intros ?]
  | |- keeps _ (if ?b then _ else _) => destruct b
  | |- keeps _ (match ?x with _ => _ end) => destruct x
  | |- keeps _ _ => keeps_steps
  end.
Qed.
#[local] Hint Resolve watched_command : keeps.
Lemma watched_vcommand fn privdata format ap :
  keeps stays_watched (redisvAsyncCommand (W := W) alloc malloc_ok printf (F := F) (P := P) fn privdata format ap).
Proof. unfold redisvAsyncCommand. keeps_steps. Qed.

(** ** Runs of a client *)

Lemma watched_client_command fn privdata args : keeps stays_watched (AsyncOrder.command (F := F) (P := P) (W := W) alloc malloc_ok fn privdata args).
Proof.
  unfold AsyncOrder.command, redisAsyncFormattedCommand. apply (keeps_bind stays_watched); [keeps_steps|]. intros r.
  destruct (_ =? _); [|keeps_steps]. by apply keeps_seen, seen_emit.
Qed.
Lemma watched_request f : keeps stays_watched (request_flag (F := F) (P := P) (W := W) f).
Proof. unfold request_flag. keeps_steps. Qed.
End watch.

Section run.
Context {F P W : Type} `{Posix W} (alloc : Z -> option bytes) (malloc_ok : Z -> bool).
Context (script : list (event F P) -> list (act F P)).
Abbreviation user := (code_of alloc malloc_ok script).
Abbreviation R := (stays_watched (F := F) (P := P) (W := W)).
#[local] Instance run_preorder : PreOrder R.
Proof. split; [by intros st Hw|]. intros x y z H1 H2 Hx. exact (H2 (H1 Hx)). Qed.

Lemma watched_act a : keeps R (act_in_callback alloc malloc_ok a).
Proof.
  destruct a as [fn d args| |]; cbn [act_in_callback];
    [apply watched_client_command|apply watched_request|apply watched_request].
Qed.
Lemma watched_code e : keeps R (user e).
Proof.
  unfold code_of. destruct e; try (apply keeps_ret, _);
    (apply (keeps_bind R); [apply keeps_gets, _|]; intros log; apply (keeps_each R), watched_act).
Qed.
Lemma watched_step x : keeps R (run_async_step alloc malloc_ok user x).
Proof.
  destruct x as [[fn d args| |]|fn|fn| |]; cbn [run_async_step].
  - apply watched_client_command.
  - apply watched_free.
  - apply watched_disconnect.
  - apply (keeps_bind R); [apply watched_set_connect|]. intros ?. apply keeps_ret, _.
  - apply (keeps_bind R); [apply watched_set_disconnect|]. intros ?. apply keeps_ret, _.
  - apply watched_handle_read, watched_code.
  - apply watched_handle_write, watched_code.
Qed.
Lemma watched_run_steps xs : keeps R (each xs (run_async_step alloc malloc_ok user)).
Proof. apply (keeps_each R), watched_step. Qed.
End run.
