(* ===== verification/AsyncFrame.v ===== *)
(** * What async.c does to the system behind it

    A function of async.c changes its system only by system calls and by what the
    callbacks do: a preorder [R] on systems that both keep is kept by every
    function.  A client of several connections has all of its state in that
    system. *)

From S2P Require Import Prelude Effects Reply Sds Dict Reader Vformat Net Context Async.

(** The system calls on a connection that was made. *)
Class CallsKeep (W : Type) `{Posix W} (R : relation W) := {
  keep_set_errno : forall e w, R w (set_errno e w);
  keep_close : forall fd w, R w (sys_close fd w);
  keep_getsockopt : forall fd w, R w (sys_getsockopt_error fd w).2;
  keep_read : forall fd n w, R w (sys_read fd n w).2;
  keep_write : forall fd d w, R w (sys_write fd d w).2
}.

Section frame.
Context {F P W : Type} `{Posix W} (R : relation W) `{!PreOrder R} `{!CallsKeep W R}.
Context (alloc : Z -> option bytes) (malloc_ok : Z -> bool) (printf : bytes -> vararg -> bytes).

(** ** A context of hiredis.c *)

Definition on_conn : relation (conn W) := fun k k' => R (os k) (os k').
#[local] Instance on_conn_preorder : PreOrder on_conn.
Proof. split; [by intros k; unfold on_conn|]. intros x y z ? ?. unfold on_conn in *. by etrans. Qed.

Lemma conn_upd f : keeps on_conn (upd (W := W) f).
Proof. apply keeps_modify. intros k. unfold on_conn. done. Qed.
Lemma conn_sys {A} (f : W -> A * W) : (forall w, R w (f w).2) -> keeps on_conn (sys f).
Proof.
  intros Hf k a k' E. unfold sys in E. specialize (Hf (os k)). destruct (f (os k)) as [b w]. by simplify_eq.
Qed.
Lemma conn_get_ctx : keeps on_conn (get_ctx (W := W)).
Proof. apply keeps_gets, _. Qed.
Lemma conn_get_errno : keeps on_conn (get_errno (W := W)).
Proof. apply keeps_gets, _. Qed.
#[local] Hint Resolve conn_upd conn_get_ctx conn_get_errno : keeps.
#[local] Hint Extern 1 (keeps on_conn (sys _)) =>
  apply conn_sys; intros; first [apply keep_set_errno | apply keep_close | apply keep_getsockopt
  | apply keep_read | apply keep_write] : keeps.

Lemma conn_set_error type str : keeps on_conn (__redisSetError (W := W) type str).
Proof. apply conn_upd. Qed.
Lemma conn_put_reader r : keeps on_conn (put_reader (W := W) r).
Proof. apply conn_upd. Qed.
Lemma conn_put_obuf b : keeps on_conn (put_obuf (W := W) b).
Proof. apply conn_upd. Qed.
#[local] Hint Resolve conn_set_error conn_put_reader conn_put_obuf : keeps.
Lemma conn_from_errno type prefix : keeps on_conn (__redisSetErrorFromErrno (W := W) type prefix).
Proof. unfold __redisSetErrorFromErrno. keeps_steps. Qed.
Lemma conn_error_null type : keeps on_conn (__redisSetError_null (W := W) type).
Proof. unfold __redisSetError_null. keeps_steps. Qed.
#[local] Hint Resolve conn_error_null conn_from_errno : keeps.
Lemma conn_io_failed : keeps on_conn (io_failed (W := W)).
Proof. unfold io_failed. keeps_steps. Qed.
#[local] Hint Resolve conn_io_failed : keeps.
Lemma conn_read : keeps on_conn (redisBufferRead (W := W) alloc).
Proof. unfold redisBufferRead. keeps_steps. Qed.
Lemma conn_write : keeps on_conn (redisBufferWrite (W := W) alloc).
Proof. unfold redisBufferWrite. keeps_steps. Qed.
Lemma conn_from_reader : keeps on_conn (redisGetReplyFromReader (W := W) malloc_ok).
Proof. unfold redisGetReplyFromReader. keeps_steps. Qed.
#[local] Hint Resolve conn_from_reader : keeps.
Lemma conn_get_reply : keeps on_conn (redisGetReply (W := W) alloc malloc_ok 0).
Proof. unfold redisGetReply. cbn [write_until_done read_until_reply]. keeps_steps. Qed.
Lemma conn_append cmd : keeps on_conn (__redisAppendCommand (W := W) alloc cmd).
Proof. unfold __redisAppendCommand. keeps_steps. Qed.
Lemma conn_check_socket : keeps on_conn (redisCheckSocketError (W := W)).
Proof. unfold redisCheckSocketError. keeps_steps. Qed.

(** ** A context of async.c *)

Abbreviation async := (async_state F P W).
Definition on_system : relation async := fun st st' => R (a_os st) (a_os st').
#[local] Instance on_system_preorder : PreOrder on_system.
Proof. split; [by intros st; unfold on_system|]. intros x y z ? ?. unfold on_system in *. by etrans. Qed.

Context (user : event F P -> prog async ()).
Context (Huser : forall e, keeps on_system (user e)).

Lemma system_modify (f : async -> async) : (forall st, a_os (f st) = a_os st) -> keeps on_system (modify f).
Proof. intros Hf. apply keeps_modify. intros st. unfold on_system. by rewrite Hf. Qed.
#[local] Hint Extern 1 (keeps on_system (modify _)) => by apply system_modify : keeps.

Lemma system_get_ac : keeps on_system (get_ac (F := F) (P := P) (W := W)).
Proof. unfold get_ac. keeps_steps. Qed.
Lemma system_put_ac ac : keeps on_system (put_ac (W := W) ac).
Proof. by apply system_modify. Qed.
Lemma system_emit e : keeps on_system (emit (W := W) e).
Proof. by apply system_modify. Qed.
Lemma system_store_cb p cb : keeps on_system (store_cb (W := W) p cb).
Proof. by apply system_modify. Qed.
Lemma system_free_cb p : keeps on_system (free_cb (F := F) (P := P) (W := W) p).
Proof. by apply system_modify. Qed.
Lemma system_load_cb p : keeps on_system (load_cb (F := F) (P := P) (W := W) p).
Proof. unfold load_cb. keeps_steps. Qed.
Lemma system_new_cb cb : keeps on_system (new_cb (W := W) cb).
Proof. intros st a st' E. unfold new_cb in E. simplify_eq. by unfold on_system. Qed.
#[local] Hint Resolve system_get_ac system_put_ac system_emit system_store_cb system_free_cb
  system_load_cb system_new_cb : keeps.

Lemma system_on_c {A} (m : prog (conn W) A) : keeps on_conn m -> keeps on_system (on_c (F := F) (P := P) m).
Proof.
  intros Hm. unfold on_c. apply (keeps_bind on_system); [apply system_get_ac|]. intros ac st a st' E.
  destruct (m _) as [[b k]|] eqn:Em; [|done]. simplify_eq. exact (Hm _ _ _ Em).
Qed.
#[local] Hint Extern 1 (keeps on_system (on_c _)) => apply system_on_c;
  first [apply conn_read | apply conn_write | apply conn_get_reply | apply conn_append
  | apply conn_check_socket | apply conn_get_errno | apply conn_upd] : keeps.

Lemma system_upd_ac f : keeps on_system (upd_ac (F := F) (P := P) (W := W) f).
Proof. unfold upd_ac. keeps_steps. Qed.
#[local] Hint Resolve system_upd_ac : keeps.
Lemma system_flag f : keeps on_system (flag (F := F) (P := P) (W := W) f).
Proof. unfold flag. keeps_steps. Qed.
Lemma system_set_flag f : keeps on_system (set_flag (F := F) (P := P) (W := W) f).
Proof. apply system_upd_ac. Qed.
Lemma system_clear_flag f : keeps on_system (clear_flag (F := F) (P := P) (W := W) f).
Proof. apply system_upd_ac. Qed.
Lemma system_EL h : keeps on_system (_EL (F := F) (P := P) (W := W) h).
Proof. unfold _EL. keeps_steps. Qed.
Lemma system_call_user e : keeps on_system (call_user user e).
Proof. unfold call_user. keeps_steps. Qed.
Lemma system_copy_error : keeps on_system (__redisAsyncCopyError (F := F) (P := P) (W := W)).
Proof. apply system_upd_ac. Qed.
#[local] Hint Resolve system_flag system_set_flag system_clear_flag system_EL system_call_user
  system_copy_error : keeps.

Lemma system_push x cb : keeps on_system (__redisPushCallback (W := W) malloc_ok x cb).
Proof. unfold __redisPushCallback. keeps_steps. Qed.
Lemma system_shift x : keeps on_system (__redisShiftCallback (F := F) (P := P) (W := W) x).
Proof. unfold __redisShiftCallback. keeps_steps. Qed.
Lemma system_run cb r : keeps on_system (__redisRunCallback user cb r).
Proof. unfold __redisRunCallback. keeps_steps. Qed.
#[local] Hint Resolve system_push system_shift system_run : keeps.
Lemma system_run_pending fuel x : keeps on_system (run_pending user fuel x).
Proof. induction fuel as [|fuel IH]; cbn [run_pending]; keeps_steps. Qed.
Lemma system_run_subscriptions fuel b : forall it, keeps on_system (run_subscriptions user fuel b it).
Proof. induction fuel as [|fuel IH]; intros it; cbn [run_subscriptions]; keeps_steps. Qed.
#[local] Hint Resolve system_run_pending system_run_subscriptions : keeps.

Lemma system_free_context : keeps on_system (free_context (F := F) (P := P) (W := W)).
Proof.
  intros st a st' E. unfold free_context in E. destruct (a_ctx st) as [ac|]; [|done].
  unfold redisFree in E. destruct (0 <? c_fd (ac_c ac)); cbn in E; simplify_eq; unfold on_system; cbn;
    [apply keep_close|done].
Qed.
#[local] Hint Resolve system_free_context : keeps.
Lemma system_async_free : keeps on_system (__redisAsyncFree user).
Proof. unfold __redisAsyncFree, nodes_fuel, dict_fuel. keeps_steps. Qed.
#[local] Hint Resolve system_async_free : keeps.
Lemma system_redisAsyncFree : keeps on_system (redisAsyncFree user).
Proof. unfold redisAsyncFree. keeps_steps. Qed.
Lemma system_disconnect : keeps on_system (__redisAsyncDisconnect user).
Proof. unfold __redisAsyncDisconnect. keeps_steps. Qed.
#[local] Hint Resolve system_disconnect : keeps.
Lemma system_redisAsyncDisconnect : keeps on_system (redisAsyncDisconnect user).
Proof. unfold redisAsyncDisconnect. keeps_steps. Qed.

Lemma system_subscribe_callback reply cb :
  keeps on_system (__redisGetSubscribeCallback (F := F) (P := P) (W := W) reply cb).
Proof. unfold __redisGetSubscribeCallback. keeps_steps. Qed.
Lemma system_spontaneous reply : keeps on_system (spontaneous_error (F := F) (P := P) (W := W) reply).
Proof. unfold spontaneous_error. keeps_steps. Qed.
#[local] Hint Resolve system_subscribe_callback system_spontaneous : keeps.
Lemma system_process_reply reply cb : keeps on_system (process_reply user reply cb).
Proof. unfold process_reply. keeps_steps. Qed.
#[local] Hint Resolve system_process_reply : keeps.
Lemma system_process_loop fuel : forall cb, keeps on_system (process_loop alloc malloc_ok user fuel cb).
Proof. induction fuel as [|fuel IH]; intros cb; cbn [process_loop]; unfold next_reply; keeps_steps. Qed.
#[local] Hint Resolve system_process_loop : keeps.
Lemma system_process : keeps on_system (redisProcessCallbacks alloc malloc_ok user).
Proof. unfold redisProcessCallbacks, reader_fuel. keeps_steps. Qed.
#[local] Hint Resolve system_process : keeps.

Lemma system_connected_now : keeps on_system (connected_now user).
Proof. unfold connected_now, __redisAsyncHandleConnect, on_connect. keeps_steps. Qed.
#[local] Hint Resolve system_connected_now : keeps.
Lemma system_handle_read : keeps on_system (redisAsyncHandleRead alloc malloc_ok user).
Proof. unfold redisAsyncHandleRead. keeps_steps. Qed.
Lemma system_handle_write : keeps on_system (redisAsyncHandleWrite alloc user).
Proof. unfold redisAsyncHandleWrite. keeps_steps. Qed.

Lemma system_on_connect fn : keeps on_system (redisAsyncSetConnectCallback (F := F) (P := P) (W := W) fn).
Proof. unfold redisAsyncSetConnectCallback. keeps_steps. Qed.
Lemma system_on_disconnect fn : keeps on_system (redisAsyncSetDisconnectCallback (F := F) (P := P) (W := W) fn).
Proof. unfold redisAsyncSetDisconnectCallback. keeps_steps. Qed.

Lemma system_subscribe_args fuel cmd pv cb : forall p,
  keeps on_system (subscribe_args (F := F) (P := P) (W := W) fuel cmd p pv cb).
Proof. induction fuel as [|fuel IH]; intros p; cbn [subscribe_args]; keeps_steps. Qed.
#[local] Hint Resolve system_subscribe_args : keeps.
Lemma system_command fn privdata cmd len :
  keeps on_system (__redisAsyncCommand (W := W) alloc malloc_ok (F := F) (P := P) fn privdata cmd len).
Proof. unfold __redisAsyncCommand. keeps_steps. Qed.
#[local] Hint Resolve system_command : keeps.
Lemma system_formatted fn privdata format ap :
  keeps on_system (redisvAsyncCommand (W := W) alloc malloc_ok printf (F := F) (P := P) fn privdata format ap).
Proof. unfold redisvAsyncCommand. keeps_steps. Qed.
End frame.
