(* ===== verification/ClusterNode.v ===== *)
(** * hircluster.c: the cluster context, its nodes and connections

    A [cluster_node] is an object of a heap, named by its pointer: [cc->table],
    [cc->nodes], [cc->slots] and the lists of slaves all refer to the same
    objects.  Freeing a node removes it from the heap, so a use after free and a
    second free fault.  The contexts of hiredis.c are reached through the
    interface [Transport], the world [W] behind it being the sockets and the
    servers.  Strings are the values of the sds strings. *)

From S2P Require Import Prelude Effects Hiutil Hiarray Reply Sds Dict Command ClusterSlot.

(** ** Connections

    The functions of hiredis.c and net.c on a [redisContext], and its fields
    [err], [errstr] and [flags]. *)
Class Transport (W Ctx : Type) := {
  redisConnect : bytes -> Z -> W -> option Ctx * W;
  redisConnectWithTimeout : bytes -> Z -> timeval -> W -> option Ctx * W;
  redisReconnect : Ctx -> W -> Z * W;
  redisSetTimeout : Ctx -> timeval -> W -> Z * W;
  redisFree : Ctx -> W -> W;
  ctx_err : W -> Ctx -> Z;
  ctx_errstr : W -> Ctx -> bytes;
  ctx_flags : W -> Ctx -> Z;
  redisAppend : Ctx -> bytes -> W -> Z * W;
  redisGetReply : Ctx -> W -> Z * option redisReply * W;
  redisCommand : Ctx -> bytes -> W -> option redisReply * W;
  redisBufferWrite : Ctx -> W -> Z * bool * W
}.

(** ** Nodes *)

Definition REDIS_ROLE_NULL : Z := 0.
Definition REDIS_ROLE_MASTER : Z := 1.
Definition REDIS_ROLE_SLAVE : Z := 2.

Definition HIRCLUSTER_FLAG_ADD_SLAVE : Z := 0x1000.
Definition HIRCLUSTER_FLAG_ADD_OPENSLOT : Z := 0x2000.
Definition HIRCLUSTER_FLAG_ROUTE_USE_SLOTS : Z := 0x4000.

Abbreviation ptr := Z.

Record copen_slot := mk_oslot {
  os_slot_num : Z;
  migrate : Z;
  remote_name : bytes;
  os_node : ptr
}.

(** [None] is NULL; the field [data], the user's, is left out.  [acon] is the
    pointer to a context of async.c.  A list of slots or slaves that was created is
    a list, maybe empty. *)
Record cluster_node (Ctx : Type) := mk_node {
  name : option bytes;
  addr : option bytes;
  host : option bytes;
  port : Z;
  role : Z;
  myself : Z;
  con : option Ctx;
  acon : option ptr;
  slots : option (list (cluster_slot ptr));
  slaves : option (list ptr);
  failure_count : Z;
  migrating : option (hiarray copen_slot);
  importing : option (hiarray copen_slot)
}.
Arguments mk_node {Ctx}.
Arguments name {Ctx}.
Arguments addr {Ctx}.
Arguments host {Ctx}.
Arguments port {Ctx}.
Arguments role {Ctx}.
Arguments myself {Ctx}.
Arguments con {Ctx}.
Arguments acon {Ctx}.
Arguments slots {Ctx}.
Arguments slaves {Ctx}.
Arguments failure_count {Ctx}.
Arguments migrating {Ctx}.
Arguments importing {Ctx}.

(** [cluster_node_init]. *)
Definition cluster_node_init {Ctx} : cluster_node Ctx :=
  mk_node None None None 0 REDIS_ROLE_NULL 0 None None None None 0 None None.

(** A request of the pipeline: the command, its sub-commands when it was split,
    and [frag_seq]. *)
Record queued := mk_queued {
  rq_command : cmd;
  sub_commands : option (list cmd);
  frag_seq : option (list Z)
}.

(** [table] maps a slot to its entry; a missing slot is NULL. *)
Record redisClusterContext := mk_cc {
  err : Z;
  errstr : bytes;
  ip : option bytes;
  cc_port : Z;
  flags : Z;
  connect_timeout : option timeval;
  timeout : option timeval;
  cc_slots : option (hiarray (cluster_slot ptr));
  nodes : option (dict bytes ptr);
  table : gmap Z ptr;
  route_version : Z;
  max_redirect_count : Z;
  retry_count : Z;
  requests : option (list queued);
  need_update_route : Z;
  update_route_time : Z
}.
Implicit Types (cc : redisClusterContext).

Definition CLUSTER_DEFAULT_MAX_REDIRECT_COUNT : Z := 5.

(** [redisClusterContextInit]. *)
Definition redisClusterContextInit : redisClusterContext :=
  mk_cc 0 [] None 0 REDIS_BLOCK None None None None
    ∅ 0 CLUSTER_DEFAULT_MAX_REDIRECT_COUNT 0 None 0 0.

Definition with_err cc (e : Z) (str : bytes) : redisClusterContext :=
  mk_cc e str (ip cc) (cc_port cc) (flags cc) (connect_timeout cc) (timeout cc) (cc_slots cc)
    (nodes cc) (table cc) (route_version cc) (max_redirect_count cc) (retry_count cc)
    (requests cc) (need_update_route cc) (update_route_time cc).
Definition with_flags cc (f : Z) : redisClusterContext :=
  mk_cc (err cc) (errstr cc) (ip cc) (cc_port cc) f (connect_timeout cc) (timeout cc)
    (cc_slots cc) (nodes cc) (table cc) (route_version cc) (max_redirect_count cc)
    (retry_count cc) (requests cc) (need_update_route cc) (update_route_time cc).
Definition with_timeouts cc (ct tm : option timeval) : redisClusterContext :=
  mk_cc (err cc) (errstr cc) (ip cc) (cc_port cc) (flags cc) ct tm
    (cc_slots cc) (nodes cc) (table cc) (route_version cc) (max_redirect_count cc)
    (retry_count cc) (requests cc) (need_update_route cc) (update_route_time cc).
Definition with_nodes cc (d : option (dict bytes ptr)) : redisClusterContext :=
  mk_cc (err cc) (errstr cc) (ip cc) (cc_port cc) (flags cc) (connect_timeout cc) (timeout cc)
    (cc_slots cc) d (table cc) (route_version cc) (max_redirect_count cc) (retry_count cc)
    (requests cc) (need_update_route cc) (update_route_time cc).
Definition with_route cc (d : dict bytes ptr) (sl : hiarray (cluster_slot ptr))
  (t : gmap Z ptr) : redisClusterContext :=
  mk_cc (err cc) (errstr cc) (ip cc) (cc_port cc) (flags cc) (connect_timeout cc) (timeout cc)
    (Some sl) (Some d) t (u64 (route_version cc + 1)) (max_redirect_count cc) (retry_count cc)
    (requests cc) (need_update_route cc) (update_route_time cc).
Definition with_max_redirect cc (n : Z) : redisClusterContext :=
  mk_cc (err cc) (errstr cc) (ip cc) (cc_port cc) (flags cc) (connect_timeout cc) (timeout cc)
    (cc_slots cc) (nodes cc) (table cc) (route_version cc) n (retry_count cc)
    (requests cc) (need_update_route cc) (update_route_time cc).
Definition with_retry cc (n : Z) : redisClusterContext :=
  mk_cc (err cc) (errstr cc) (ip cc) (cc_port cc) (flags cc) (connect_timeout cc) (timeout cc)
    (cc_slots cc) (nodes cc) (table cc) (route_version cc) (max_redirect_count cc) n
    (requests cc) (need_update_route cc) (update_route_time cc).
Definition with_requests cc (l : option (list queued)) : redisClusterContext :=
  mk_cc (err cc) (errstr cc) (ip cc) (cc_port cc) (flags cc) (connect_timeout cc) (timeout cc)
    (cc_slots cc) (nodes cc) (table cc) (route_version cc) (max_redirect_count cc)
    (retry_count cc) l (need_update_route cc) (update_route_time cc).
Definition with_update cc (n : Z) : redisClusterContext :=
  mk_cc (err cc) (errstr cc) (ip cc) (cc_port cc) (flags cc) (connect_timeout cc) (timeout cc)
    (cc_slots cc) (nodes cc) (table cc) (route_version cc) (max_redirect_count cc)
    (retry_count cc) (requests cc) n (update_route_time cc).
Definition with_route_time cc (t : Z) : redisClusterContext :=
  mk_cc (err cc) (errstr cc) (ip cc) (cc_port cc) (flags cc) (connect_timeout cc) (timeout cc)
    (cc_slots cc) (nodes cc) (table cc) (route_version cc) (max_redirect_count cc)
    (retry_count cc) (requests cc) (need_update_route cc) t.

(** ** The state of the client *)

Record sys (W Ctx : Type) := mk_sys {
  s_cc : redisClusterContext;
  heap : gmap ptr (cluster_node Ctx);
  next_ptr : ptr;
  world : W
}.
Arguments mk_sys {W Ctx}.
Arguments s_cc {W Ctx}.
Arguments heap {W Ctx}.
Arguments next_ptr {W Ctx}.
Arguments world {W Ctx}.

(** ** Asynchronous connections

    What the functions of this file do to a context of async.c: free it, and set
    its field [data].  Freeing calls callbacks, so both are programs on the state
    of the client.  A client of the synchronous interface has no such contexts,
    and [acon] is NULL in all its nodes: [no_async]. *)
Class AsyncConns (W Ctx : Type) := {
  redisAsyncFree : ptr -> prog (sys W Ctx) ();
  set_actx_data : ptr -> ptr -> prog (sys W Ctx) ()
}.
Definition no_async {W Ctx} : AsyncConns W Ctx :=
  {| redisAsyncFree _ := mret (); set_actx_data _ _ := mret () |}.

Section node.
Context {W Ctx : Type} `{Transport W Ctx} `{AsyncConns W Ctx} (malloc_ok : Z -> bool).
Abbreviation M := (prog (sys W Ctx)).
Implicit Types (p : ptr) (n : cluster_node Ctx) (st : sys W Ctx).

Definition with_cc st cc : sys W Ctx := mk_sys cc (heap st) (next_ptr st) (world st).
Definition with_heap st (h : gmap ptr (cluster_node Ctx)) : sys W Ctx :=
  mk_sys (s_cc st) h (next_ptr st) (world st).
Definition with_world st (w : W) : sys W Ctx := mk_sys (s_cc st) (heap st) (next_ptr st) w.

Definition get_cc : M redisClusterContext := gets s_cc.
Definition upd_cc (f : redisClusterContext -> redisClusterContext) : M () :=
  modify (fun st => with_cc st (f (s_cc st))).
(** A call of the transport. *)
Definition call {A} (f : W -> A * W) : M A :=
  fun st => let '(a, w) := f (world st) in Some (a, with_world st w).

(** [__redisClusterSetError] with a string, which ends at its first NUL. *)
Definition until_nul (str : bytes) : bytes := default str (c_string str).
Definition __redisClusterSetError (type : Z) (str : bytes) : M () :=
  upd_cc (fun cc => with_err cc type (take 127 (until_nul str))).
(** [if (cc->err) { cc->err = 0; memset(cc->errstr, ...); }] *)
Definition clear_err : M () :=
  upd_cc (fun cc => if negb (err cc =? 0) then with_err cc 0 [] else cc).

(** ** The heap of nodes *)

Definition load p : M (cluster_node Ctx) := fun st => (., st) <$> heap st !! p.
Definition store p n : M () :=
  fun st => if heap st !! p is Some _ then Some ((), with_heap st (<[p := n]> (heap st))) else None.

(** [hi_alloc(sizeof(cluster_node))] and [cluster_node_init]. *)
Definition NODE_SIZE : Z := 96.
Definition LIST_SIZE : Z := 48.
Definition SLOT_SIZE : Z := 16.
Definition OPEN_SLOT_SIZE : Z := 24.
Definition alloc_node : M (option ptr) :=
  fun st => if malloc_ok NODE_SIZE
            then Some (Some (next_ptr st),
                       mk_sys (s_cc st) (<[next_ptr st := cluster_node_init]> (heap st))
                         (next_ptr st + 1) (world st))
            else Some (None, st).
(** [hi_free(node)]. *)
Definition free_node p : M () :=
  fun st => if heap st !! p is Some _ then Some ((), with_heap st (delete p (heap st))) else None.

Definition with_con n (c : option Ctx) : cluster_node Ctx :=
  mk_node (name n) (addr n) (host n) (port n) (role n) (myself n) c (acon n) (slots n) (slaves n)
    (failure_count n) (migrating n) (importing n).
Definition with_acon n (a : option ptr) : cluster_node Ctx :=
  mk_node (name n) (addr n) (host n) (port n) (role n) (myself n) (con n) a (slots n) (slaves n)
    (failure_count n) (migrating n) (importing n).
Definition with_failures n (k : Z) : cluster_node Ctx :=
  mk_node (name n) (addr n) (host n) (port n) (role n) (myself n) (con n) (acon n) (slots n)
    (slaves n) k (migrating n) (importing n).
Definition with_slots n (l : option (list (cluster_slot ptr))) : cluster_node Ctx :=
  mk_node (name n) (addr n) (host n) (port n) (role n) (myself n) (con n) (acon n) l (slaves n)
    (failure_count n) (migrating n) (importing n).
Definition with_slaves n (l : option (list ptr)) : cluster_node Ctx :=
  mk_node (name n) (addr n) (host n) (port n) (role n) (myself n) (con n) (acon n) (slots n) l
    (failure_count n) (migrating n) (importing n).
Definition with_myself n (b : Z) : cluster_node Ctx :=
  mk_node (name n) (addr n) (host n) (port n) (role n) b (con n) (acon n) (slots n) (slaves n)
    (failure_count n) (migrating n) (importing n).
Definition with_open n (m i : option (hiarray copen_slot)) : cluster_node Ctx :=
  mk_node (name n) (addr n) (host n) (port n) (role n) (myself n) (con n) (acon n) (slots n) (slaves n)
    (failure_count n) m i.

(** [cluster_node_deinit]: the strings, the connections, the slots and the open
    slots are freed, and the slaves with [listClusterNodeDestructor], each of
    them with its own slaves.  The fuel is the number of live nodes. *)
Fixpoint node_deinit (fuel : nat) p : M () :=
  match fuel with
  | O => fault
  | S fuel' =>
      n ← load p;
      _ ← (match con n with
           | Some c => call (fun w => ((), redisFree c w))
           | None => mret ()
           end);
      _ ← (match acon n with Some a => redisAsyncFree a | None => mret () end);
      n ← load p;
      _ ← each (default [] (slaves n)) (fun q => _ ← node_deinit fuel' q; free_node q);
      store p cluster_node_init
  end.
Definition cluster_node_deinit p : M () :=
  st ← gets Datatypes.id; node_deinit (base.size (heap st)) p.

(** [dictClusterNodeDestructor] and [listClusterNodeDestructor]. *)
Definition node_destroy p : M () := _ ← cluster_node_deinit p; free_node p.

(** [dictRelease] of a dictionary of nodes: [_dictClear] destroys the values,
    bucket after bucket. *)
Definition release_nodes (d : dict bytes ptr) : M () :=
  each (concat (Dict.table d)) (fun e => node_destroy e.2).

(** [listCreate()]. *)
Definition list_create_ok : bool := malloc_ok LIST_SIZE.
End node.
