(* ===== verification/ClusterTopology.v ===== *)
(** * hircluster.c: reading the topology of the cluster

    [parse_cluster_nodes] on the text of CLUSTER NODES and
    [parse_cluster_slots] on the reply of CLUSTER SLOTS build a dictionary from
    addresses to new node objects.  [alloc] supplies the blocks of the sds
    strings, [malloc_ok] says which other allocations succeed; the sds strings
    that are stored in a node or used as a key are always allocated. *)

From S2P Require Import Prelude Effects Hiutil Hiarray Reply Sds Dict Command ClusterSlot ClusterNode.

Section topology.
Context {W Ctx : Type} `{Transport W Ctx} `{AsyncConns W Ctx}.
Context (malloc_ok : Z -> bool) (alloc : Z -> option bytes).
Abbreviation M := (prog (sys W Ctx)).
Implicit Types (p : ptr) (str part : bytes).

(** [sdssplitlen] at one byte; [None] is NULL. *)
Definition split str (c : ascii) : M (option (list sds)) :=
  match sdssplitlen alloc str (zlen str) [c] 1 with
  | Ok tokens => mret (Some tokens)
  | Err _ => mret None
  | Bad => fault
  end.
Definition sds_range (t : sds) (start last : Z) : M bytes :=
  match sdsrange t start last with
  | Ok t' => mret (sds_value t')
  | _ => fault
  end.

Definition prefix (pat str : bytes) : bool := bool_decide (take (length pat) str = pat).

(** ** Slots *)

(** [cluster_slot_create(node)]; the caller sets [start] and [end] at once. *)
Definition cluster_slot_create p (start last : Z) : M bool :=
  if negb (malloc_ok SLOT_SIZE) then mret false else
  n ← load p;
  match slots n with
  | None =>
      if negb (list_create_ok malloc_ok) then mret false
      else _ ← store p (with_slots n (Some [mk_slot start last p])); mret true
  | Some l => _ ← store p (with_slots n (Some (l ++ [mk_slot start last p]))); mret true
  end.

(** [cluster_slot_ref_node] of the slot from [start] to [last]. *)
Definition cluster_slot_ref_node (start last : Z) p : M Z :=
  n ← load p;
  if negb (role n =? REDIS_ROLE_MASTER) then mret REDIS_ERR else
  match slots n with
  | None =>
      if negb (list_create_ok malloc_ok) then mret REDIS_ERR
      else _ ← store p (with_slots n (Some [mk_slot start last p])); mret REDIS_OK
  | Some l => _ ← store p (with_slots n (Some (l ++ [mk_slot start last p]))); mret REDIS_OK
  end.

Definition cluster_open_slot_create (slot_num mig : Z) (remote : bytes) p : option copen_slot :=
  if malloc_ok OPEN_SLOT_SIZE then Some (mk_oslot (u32 slot_num) mig remote p) else None.

(** Push an open slot on an array of the node that may not be there yet. *)
Definition push_open (arr : option (hiarray copen_slot)) (o : copen_slot)
  : option (push_result copen_slot) :=
  match arr with
  | Some a => Some (hiarray_push malloc_ok a o)
  | None => (fun a => hiarray_push malloc_ok a o) <$> hiarray_create malloc_ok 1 8
  end.

(** The part of a master's line for an open slot, [[slot->-node]] or
    [[slot-<-node]]; the result is false for [goto error]. *)
Definition add_open_slot p (t0 t1 t2 : sds) : M bool :=
  r0 ← sds_range t0 1 (-1);
  r2 ← sds_range t2 0 (-2);
  let dir := head (sds_value t1) in
  if bool_decide (dir = Some ">"%char) then
    match cluster_open_slot_create (hi_atoi r0 (zlen r0)) 1 r2 p with
    | None => _ ← __redisClusterSetError REDIS_ERR_OTHER (s "create open slot error"); mret false
    | Some o =>
        n ← load p;
        match push_open (migrating n) o with
        | None =>
            _ ← __redisClusterSetError REDIS_ERR_OTHER (s "create migrating array error");
            mret false
        | Some (Pushed a) => _ ← store p (with_open n (Some a) (importing n)); mret true
        | Some PushNull =>
            _ ← __redisClusterSetError REDIS_ERR_OTHER
                  (s "Push migrating array error: out of memory");
            mret false
        | Some PushOutOfBounds => fault
        end
    end
  else if bool_decide (dir = Some "<"%char) then
    match cluster_open_slot_create (hi_atoi r0 (zlen r0)) 0 r2 p with
    | None => _ ← __redisClusterSetError REDIS_ERR_OTHER (s "create open slot error"); mret false
    | Some o =>
        n ← load p;
        match push_open (importing n) o with
        | None =>
            _ ← __redisClusterSetError REDIS_ERR_OTHER (s "create migrating array error");
            mret false
        | Some (Pushed a) => _ ← store p (with_open n (migrating n) (Some a)); mret true
        | Some PushNull =>
            _ ← __redisClusterSetError REDIS_ERR_OTHER
                  (s "push migrating array error: out of memory");
            mret false
        | Some PushOutOfBounds => fault
        end
    end
  else mret true.

(** The test of the code that three parts are an open slot. *)
Definition is_open_slot (flags : Z) (t0 t1 t2 : sds) : bool :=
  negb (Z.land flags HIRCLUSTER_FLAG_ADD_OPENSLOT =? 0) &&
  (1 <? sds_len t0) && (sds_len t1 =? 1) && (1 <? sds_len t2) &&
  bool_decide (head (sds_value t0) = Some "["%char) &&
  bool_decide (last (sds_value t2) = Some "]"%char).

(** [slot_start] and [slot_end] of a part of a master's line. *)
Definition slot_range (tokens : list sds) : Z * Z :=
  match tokens with
  | [t] => let a := hi_atoi (sds_value t) (sds_len t) in (a, a)
  | [t0; t1] => (hi_atoi (sds_value t0) (sds_len t0), hi_atoi (sds_value t1) (sds_len t1))
  | _ => (-1, -1)
  end.

(** The body of [for(k = 8; k < count_part; k ++)]. *)
Definition add_slots (flags : Z) p part : M bool :=
  slot_start_end ← split part "-"%char;
  match slot_start_end with
  | None =>
      _ ← __redisClusterSetError REDIS_ERR_OTHER (s "split slot start end error(NULL)");
      mret false
  | Some tokens =>
      ok ← (match tokens with
            | [t0; t1; t2] =>
                if is_open_slot flags t0 t1 t2 then add_open_slot p t0 t1 t2 else mret true
            | _ => mret true
            end);
      if negb ok then mret false else
      let '(slot_start, slot_end) := slot_range tokens in
      if (slot_start <? 0) || (slot_end <? 0) || (slot_end <? slot_start) ||
         (REDIS_CLUSTER_SLOTS <=? slot_end) then mret true
      else
        created ← cluster_slot_create p slot_start slot_end;
        if created : bool then mret true
        else _ ← __redisClusterSetError REDIS_ERR_OOM (s "Out of memory"); mret false
  end.

(** ** CLUSTER NODES *)

(** [node_get_with_nodes]. *)
Definition node_get_with_nodes (node_infos : list bytes) (role : Z) : M (option ptr) :=
  if zlen node_infos <? 8 then mret None else
  node ← alloc_node malloc_ok;
  match node with
  | None => _ ← __redisClusterSetError REDIS_ERR_OOM (s "Out of memory"); mret None
  | Some p =>
      if (role =? REDIS_ROLE_MASTER) && negb (list_create_ok malloc_ok) then
        _ ← free_node p;
        _ ← __redisClusterSetError REDIS_ERR_OTHER (s "slots for node listCreate error");
        _ ← free_node p;  (* the error label frees the node again *)
        mret None
      else
        address ← lift (node_infos !! 1%nat);
        nm ← lift (node_infos !! 0%nat);
        ip_port ← split address ":"%char;
        match ip_port with
        | Some [t0; t1] =>
            _ ← store p (mk_node (Some nm) (Some address) (Some (sds_value t0))
                  (hi_atoi (sds_value t1) (sds_len t1)) role 0 None None
                  (if role =? REDIS_ROLE_MASTER then Some [] else None) None 0 None None);
            mret (Some p)
        | _ =>
            _ ← __redisClusterSetError REDIS_ERR_OTHER (s "split ip port error");
            _ ← free_node p;
            mret None
        end
  end.

(** [dictSetHashVal] on the entry of a key that is in the dictionary. *)
Definition dictSetHashVal (ht : dict bytes ptr) (key : bytes) (val : ptr)
  : option (dict bytes ptr) :=
  let h := bucket_of (sizemask ht) key in
  he ← bucket (Dict.table ht) h;
  Some (mk_dict (<[Z.to_nat h := set_chain key val he]> (Dict.table ht))
          (Dict.size ht) (sizemask ht) (used ht)).

(** [cluster_master_slave_mapping_with_name]: the return code and [*nodes]. *)
Definition cluster_master_slave_mapping_with_name (names : option (dict bytes ptr)) p
  (master_name : bytes) : M (Z * dict bytes ptr) :=
  let names := default dictCreate names in
  di ← lift (dictFind names master_name);
  match di with
  | None =>
      r ← lift (dictAdd names master_name p);
      let '(ret, names) := r : Z * dict bytes ptr in
      if negb (ret =? DICT_OK) then
        _ ← __redisClusterSetError REDIS_ERR_OTHER (s "the address already exists in the nodes");
        mret (REDIS_ERR, names)
      else mret (REDIS_OK, names)
  | Some e =>
      let node_old := e.2 in
      n ← load p;
      o ← load node_old;
      if (role n =? REDIS_ROLE_MASTER) && (role o =? REDIS_ROLE_MASTER) then
        _ ← __redisClusterSetError REDIS_ERR_OTHER (s "two masters have the same name");
        mret (REDIS_ERR, names)
      else if (role n =? REDIS_ROLE_MASTER) && (role o =? REDIS_ROLE_SLAVE) then
        match (match slaves n with
               | Some l => Some l
               | None => if list_create_ok malloc_ok then Some [] else None
               end) with
        | None => _ ← __redisClusterSetError REDIS_ERR_OOM (s "Out of memory"); mret (REDIS_ERR, names)
        | Some l =>
            (* the slaves of the old node move over, each to the head *)
            let l := rev (default [] (slaves o)) ++ l in
            _ ← store node_old (with_slaves o None);
            _ ← store p (with_slaves n (Some (node_old :: l)));
            names ← lift (dictSetHashVal names master_name p);
            mret (REDIS_OK, names)
        end
      else if role n =? REDIS_ROLE_SLAVE then
        match (match slaves o with
               | Some l => Some l
               | None => if list_create_ok malloc_ok then Some [] else None
               end) with
        | None => _ ← __redisClusterSetError REDIS_ERR_OOM (s "Out of memory"); mret (REDIS_ERR, names)
        | Some l =>
            _ ← store node_old (with_slaves o (Some (l ++ [p])));
            mret (REDIS_OK, names)
        end
      else mret (REDIS_OK, names)
  end.

(** The locals [nodes] and [nodes_name] of [parse_cluster_nodes]. *)
Record parse_locals := mk_locals { l_nodes : dict bytes ptr; l_names : option (dict bytes ptr) }.
Implicit Types (l : parse_locals).

(** The slots of a master, from the ninth part of its line on. *)
Fixpoint add_all_slots (flags : Z) p (parts : list bytes) : M bool :=
  match parts with
  | [] => mret true
  | part :: parts' =>
      ok ← add_slots flags p part;
      if ok : bool then add_all_slots flags p parts' else mret false
  end.

Definition add_master (flags : Z) l (part : list bytes) (myself : bool) : M (flow parse_locals) :=
  master ← node_get_with_nodes part REDIS_ROLE_MASTER;
  match master with
  | None => mret (Stop l)
  | Some p =>
      n ← load p;
      address ← lift (addr n);
      r ← lift (dictAdd (l_nodes l) address p);
      let l := mk_locals r.2 (l_names l) in
      if negb (r.1 =? DICT_OK) then
        _ ← __redisClusterSetError REDIS_ERR_OTHER (s "The address already exists in the nodes");
        _ ← node_destroy p;
        mret (Stop l)
      else
      nm ← lift (name n);
      m ← (if negb (Z.land flags HIRCLUSTER_FLAG_ADD_SLAVE =? 0)
           then (r ← cluster_master_slave_mapping_with_name (l_names l) p nm;
                 mret (r.1, Some r.2))
           else mret (REDIS_OK, l_names l));
      let l := mk_locals (l_nodes l) m.2 in
      if negb (m.1 =? REDIS_OK) then _ ← node_destroy p; mret (Stop l)
      else
      _ ← (if myself then n ← load p; store p (with_myself n 1) else mret ());
      ok ← add_all_slots flags p (drop 8 part);
      mret (if ok : bool then Go l else Stop l)
  end.

Definition add_slave (l : parse_locals) (part : list bytes) (myself : bool) : M (flow parse_locals) :=
  slave ← node_get_with_nodes part REDIS_ROLE_SLAVE;
  match slave with
  | None => mret (Stop l)
  | Some p =>
      master_name ← lift (part !! 3%nat);
      r ← cluster_master_slave_mapping_with_name (l_names l) p master_name;
      let l := mk_locals (l_nodes l) (Some r.2) in
      if negb (r.1 =? REDIS_OK) then _ ← node_destroy p; mret (Stop l)
      else
      _ ← (if myself then n ← load p; store p (with_myself n 1) else mret ());
      mret (Go l)
  end.

(** One line, without its newline. *)
Definition nodes_line (flags : Z) l (line : bytes) : M (flow parse_locals) :=
  tokens ← split line " "%char;
  match tokens with
  | None => _ ← __redisClusterSetError REDIS_ERR_OTHER (s "split cluster nodes error"); mret (Stop l)
  | Some tokens =>
      let part := map sds_value tokens in
      if zlen part <? 8 then
        _ ← __redisClusterSetError REDIS_ERR_OTHER (s "split cluster nodes error"); mret (Stop l)
      else
      address ← lift (part !! 1%nat);
      flags_part ← lift (part !! 2%nat);
      if bool_decide (address = s ":0") then mret (Go l) else
      let myself := prefix (s "myself,") flags_part in
      let role := if myself then drop 7 flags_part else flags_part in
      if prefix (s "master") role then add_master flags l part myself
      else if negb (Z.land flags HIRCLUSTER_FLAG_ADD_SLAVE =? 0) && prefix (s "slave") role
      then add_slave l part myself
      else mret (Go l)
  end.

(** [for(pos = start; pos < end; pos ++)]: after a line [pos] is set to its
    successor and then incremented once more. *)
Fixpoint nodes_loop (fuel : nat) (flags : Z) str (last line_start pos : Z) l : M (flow parse_locals) :=
  if negb (pos <? last) then mret (Go l) else
  match fuel with
  | O => fault
  | S fuel' =>
      c ← lift (byte_at str pos);
      if negb (bool_decide (c = LF)) then nodes_loop fuel' flags str last line_start (pos + 1) l
      else
        r ← nodes_line flags l (slice str line_start pos);
        match r with
        | Stop l => mret (Stop l)
        | Go l => nodes_loop fuel' flags str last (pos + 1) (pos + 2) l
        end
  end.

(** [nodes_name] refers to nodes and does not own them: releasing it frees no
    node. *)
Definition parse_cluster_nodes str (str_len flags : Z) : M (option (dict bytes ptr)) :=
  r ← nodes_loop (Z.to_nat str_len) flags str str_len 0 0 (mk_locals dictCreate None);
  match r with
  | Go l => mret (Some (l_nodes l))
  | Stop l => _ ← release_nodes (l_nodes l); mret None
  end.

(** ** CLUSTER SLOTS *)

(** [sdsnewlen(r->str, r->len)]; the replies of the reader hold [len] bytes. *)
Definition reply_bytes (r : redisReply) : option bytes :=
  str ← rstr r;
  if (0 <=? rlen r) && (rlen r <=? zlen str) then Some (take (Z.to_nat (rlen r)) str) else None.

(** [sdscatfmt(address, ":%i", port)]: an [int] is printed. *)
Definition address_of (host : bytes) (port : Z) : bytes := host ++ s ":" ++ dec_signed (i32 port).

Definition slots_error (str : bytes) : M () :=
  __redisClusterSetError REDIS_ERR_OTHER (s "Command(cluster slots) reply error: " ++ str).

Definition node_get_with_slots (host_elem port_elem : redisReply) (role : Z) : M (option ptr) :=
  if negb (rtype host_elem =? REDIS_REPLY_STRING) || (rlen host_elem <=? 0) then
    _ ← slots_error (s "node ip is not string."); mret None
  else if negb (rtype port_elem =? REDIS_REPLY_INTEGER) || (integer port_elem <=? 0) then
    _ ← slots_error (s "node port is not integer."); mret None
  else if negb (hi_valid_port (i32 (integer port_elem))) then
    _ ← slots_error (s "node port is not valid."); mret None
  else
  node ← alloc_node malloc_ok;
  match node with
  | None => _ ← __redisClusterSetError REDIS_ERR_OOM (s "Out of memory"); mret None
  | Some p =>
      if (role =? REDIS_ROLE_MASTER) && negb (list_create_ok malloc_ok) then
        _ ← free_node p;
        _ ← __redisClusterSetError REDIS_ERR_OTHER (s "slots for node listCreate error");
        _ ← free_node p;  (* the error label frees the node again *)
        mret None
      else
        host ← lift (reply_bytes host_elem);
        _ ← store p (mk_node None (Some (address_of host (integer port_elem))) (Some host)
              (i32 (integer port_elem)) role 0 None None
              (if role =? REDIS_ROLE_MASTER then Some [] else None) None 0 None None);
        mret (Some p)
  end.

(** [elem->element[i]], which the code uses without a test for NULL. *)
Definition sub_reply (r : redisReply) (i : nat) : M redisReply := lift (element r !! i ≫= Datatypes.id).

(** The address and port of a node of a region; [None] after an error. *)
Definition region_node (elem_nodes : redisReply) : M (option (redisReply * redisReply)) :=
  if negb (rtype elem_nodes =? REDIS_REPLY_ARRAY) || negb (elements elem_nodes =? 3) then
    _ ← slots_error (s "nodes sub_reply is not an correct array."); mret None
  else
  elem_ip ← lift (element elem_nodes !! 0%nat);
  elem_port ← lift (element elem_nodes !! 1%nat);
  match elem_ip, elem_port with
  | Some ip, Some port =>
      if negb (rtype ip =? REDIS_REPLY_STRING) || negb (rtype port =? REDIS_REPLY_INTEGER) then
        _ ← slots_error (s "master ip or port is not correct."); mret None
      else mret (Some (ip, port))
  | _, _ => _ ← slots_error (s "master ip or port is not correct."); mret None
  end.

(** [idx == 2]: the master of the region, and whether it was known, in which
    case the rest of the region is skipped; [None] after an error. *)
Definition region_master (nodes : dict bytes ptr) (elem_nodes : redisReply) (start last : Z)
  : M (dict bytes ptr * option (ptr * bool)) :=
  r ← region_node elem_nodes;
  match r with
  | None => mret (nodes, None)
  | Some (elem_ip, elem_port) =>
      host ← lift (reply_bytes elem_ip);
      den ← lift (dictFind nodes (address_of host (integer elem_port)));
      match den with
      | Some e =>
          ret ← cluster_slot_ref_node start last e.2;
          if negb (ret =? REDIS_OK) then
            _ ← __redisClusterSetError REDIS_ERR_OOM (s "Slot ref node failed: out of memory.");
            mret (nodes, None)
          else mret (nodes, Some (e.2, true))
      | None =>
          master ← node_get_with_slots elem_ip elem_port REDIS_ROLE_MASTER;
          match master with
          | None => mret (nodes, None)
          | Some p =>
              n ← load p;
              address ← lift (addr n);
              r ← lift (dictAdd nodes address p);
              if negb (r.1 =? DICT_OK) then
                _ ← __redisClusterSetError REDIS_ERR_OTHER
                      (s "The address already exists in the nodes");
                _ ← node_destroy p;
                mret (r.2, None)
              else
              ret ← cluster_slot_ref_node start last p;
              if negb (ret =? REDIS_OK) then
                _ ← __redisClusterSetError REDIS_ERR_OOM (s "Slot ref node failed: out of memory.");
                mret (r.2, None)
              else mret (r.2, Some (p, false))
          end
      end
  end.

(** [idx > 2]: a slave of the region; the result is false after an error. *)
Definition region_slave (flags : Z) (master : ptr) (elem_nodes : option redisReply) : M bool :=
  elem_nodes ← lift elem_nodes;
  r ← region_node elem_nodes;
  match r with
  | None => mret false
  | Some (elem_ip, elem_port) =>
      if Z.land flags HIRCLUSTER_FLAG_ADD_SLAVE =? 0 then mret true else
      slave ← node_get_with_slots elem_ip elem_port REDIS_ROLE_SLAVE;
      match slave with
      | None => mret false
      | Some q =>
          n ← load master;
          match (match slaves n with
                 | Some l => Some l
                 | None => if list_create_ok malloc_ok then Some [] else None
                 end) with
          | None =>
              _ ← __redisClusterSetError REDIS_ERR_OOM (s "Out of memory");
              _ ← cluster_node_deinit q;
              mret false
          | Some l => _ ← store master (with_slaves n (Some (l ++ [q]))); mret true
          end
      end
  end.
Fixpoint region_slaves (flags : Z) (master : ptr) (l : list (option redisReply)) (count : Z) : M bool :=
  if count <=? 0 then mret true else
  match l with
  | [] => fault
  | e :: l' =>
      ok ← region_slave flags master e;
      if ok : bool then region_slaves flags master l' (count - 1) else mret false
  end.

(** One region: start, end, master, slaves. *)
Definition slots_region (flags : Z) (nodes : dict bytes ptr) (elem_slots : redisReply)
  : M (flow (dict bytes ptr)) :=
  if negb (rtype elem_slots =? REDIS_REPLY_ARRAY) || (elements elem_slots <? 3) then
    _ ← slots_error (s "first sub_reply is not an array."); mret (Stop nodes)
  else if negb (malloc_ok SLOT_SIZE) then
    _ ← __redisClusterSetError REDIS_ERR_OOM (s "Slot create failed: out of memory."); mret (Stop nodes)
  else
  elem_slots_begin ← sub_reply elem_slots 0;
  if negb (rtype elem_slots_begin =? REDIS_REPLY_INTEGER) then
    _ ← slots_error (s "slot begin is not an integer."); mret (Stop nodes)
  else
  let start := u32 (i32 (integer elem_slots_begin)) in
  elem_slots_end ← sub_reply elem_slots 1;
  if negb (rtype elem_slots_end =? REDIS_REPLY_INTEGER) then
    _ ← slots_error (s "slot end is not an integer."); mret (Stop nodes)
  else
  let last := u32 (i32 (integer elem_slots_end)) in
  if last <? start then
    _ ← slots_error (s "slot begin is bigger than slot end."); mret (Stop nodes)
  else
  elem_nodes ← sub_reply elem_slots 2;
  r ← region_master nodes elem_nodes start last;
  match r with
  | (nodes, None) => mret (Stop nodes)
  | (nodes, Some (_, true)) => mret (Go nodes)
  | (nodes, Some (p, false)) =>
      ok ← region_slaves flags p (drop 3 (element elem_slots)) (elements elem_slots - 3);
      mret (if ok : bool then Go nodes else Stop nodes)
  end.

(** [for(i = 0; i < reply->elements; i ++)]. *)
Fixpoint slots_loop (flags : Z) (l : list (option redisReply)) (count : Z) (nodes : dict bytes ptr)
  : M (flow (dict bytes ptr)) :=
  if count <=? 0 then mret (Go nodes) else
  match l with
  | [] => fault
  | e :: l' =>
      elem_slots ← lift e;
      r ← slots_region flags nodes elem_slots;
      match r with
      | Stop nodes => mret (Stop nodes)
      | Go nodes => slots_loop flags l' (count - 1) nodes
      end
  end.

Definition parse_cluster_slots (reply : option redisReply) (flags : Z) : M (option (dict bytes ptr)) :=
  match reply with
  | None => mret None
  | Some reply =>
      if negb (rtype reply =? REDIS_REPLY_ARRAY) || (elements reply <=? 0) then
        _ ← slots_error (s "reply is not an array."); mret None
      else
      r ← slots_loop flags (element reply) (elements reply) dictCreate;
      match r with
      | Go nodes => mret (Some nodes)
      | Stop nodes => _ ← release_nodes nodes; mret None
      end
  end.
End topology.
