(* ===== verification/ClusterUpdate.v ===== *)
(** * hircluster.c: updating the route, connecting, options

    [cluster_update_route_by_addr] asks one server for the topology, parses it,
    fills a new slot table, moves the open connections over and replaces the
    nodes and the table of the context; [cluster_update_route] tries the known
    servers in turn.  [redisClusterConnect] and the [redisClusterSetOption]
    functions prepare a context. *)

From stdpp Require Import sorting.
From S2P Require Import Prelude Effects Hiutil Hiarray Reply Sds Dict Command ClusterSlot ClusterNode ClusterTopology.

Section update.
Context {W Ctx : Type} `{Transport W Ctx} `{AsyncConns W Ctx}.
Context (malloc_ok : Z -> bool) (alloc : Z -> option bytes).
Abbreviation M := (prog (sys W Ctx)).
Implicit Types (p : ptr) (d : dict bytes ptr).

(** [while((de = dictNext(di)) != NULL)], with a jump out of the loop. *)
Fixpoint dict_loop {L} (fuel : nat) d (it : dictIterator bytes ptr)
  (f : L -> bytes * ptr -> M (flow L)) (x : L) : M (flow L) :=
  match fuel with
  | O => fault
  | S fuel' =>
      r ← lift (dictNext d it);
      match r.1 with
      | None => mret (Go x)
      | Some de =>
          y ← f x de;
          match y with
          | Go x => dict_loop fuel' d r.2 f x
          | Stop x => mret (Stop x)
          end
      end
  end.
Definition dict_each {L} d (f : L -> bytes * ptr -> M (flow L)) (x : L) : M (flow L) :=
  dict_loop (S (Z.to_nat (used d))) d dictGetIterator f x.

(** [cluster_nodes_swap_ctx]: a node of [nodes_t] takes the connections of the
    node of [nodes_f] with its address. *)
Definition swap_con (node_t node_f : ptr) : M () :=
  f ← load node_f;
  match con f with
  | None => mret ()
  | Some c =>
      t ← load node_t;
      _ ← store node_f (with_con f (con t));
      t ← load node_t;
      store node_t (with_con t (Some c))
  end.
Definition swap_acon (node_t node_f : ptr) : M () :=
  f ← load node_f;
  match acon f with
  | None => mret ()
  | Some ac =>
      t ← load node_t;
      _ ← store node_f (with_acon f (acon t));
      t ← load node_t;
      _ ← store node_t (with_acon t (Some ac));
      _ ← set_actx_data ac node_t;
      f ← load node_f;
      match acon f with Some ac => set_actx_data ac node_f | None => mret () end
  end.
Definition swap_node (nodes_f : dict bytes ptr) (de_t : bytes * ptr) : M () :=
  node_t ← load de_t.2;
  address ← lift (addr node_t);
  de_f ← lift (dictFind nodes_f address);
  match de_f with
  | None => mret ()
  | Some e => _ ← swap_con de_t.2 e.2; swap_acon de_t.2 e.2
  end.
Definition cluster_nodes_swap_ctx (nodes_f : option (dict bytes ptr)) (nodes_t : dict bytes ptr) : M () :=
  match nodes_f with
  | None => mret ()
  | Some nodes_f =>
      _ ← dict_each nodes_t (fun _ de => _ ← swap_node nodes_f de; mret (Go ())) ();
      mret ()
  end.

(** What [cluster_update_route_by_addr] holds when it jumps to its error label;
    an iterator that was released is still released there. *)
Inductive iterator := NotYet | Live | Released.
Record update_locals := mk_update { u_slots : hiarray (cluster_slot ptr); u_dit : iterator; u_lit : iterator }.
Implicit Types (l : update_locals).

(** [ReleaseIterator]: [free] of a pointer that may have been freed before. *)
Definition release (it : iterator) : M iterator :=
  match it with
  | NotYet => mret NotYet
  | Live => mret Released
  | Released => fault
  end.

Definition LIST_ITER_SIZE : Z := 16.

(** The loop over the slots of one master. *)
Fixpoint push_slots l (sl : list (cluster_slot ptr)) : M (flow update_locals) :=
  match sl with
  | [] => mret (Go l)
  | slot :: sl' =>
      if (sl_end slot <? sl_start slot) || (REDIS_CLUSTER_SLOTS <=? sl_end slot) then
        _ ← __redisClusterSetError REDIS_ERR_OTHER (s "Slot region for node is error");
        mret (Stop l)
      else
        match hiarray_push malloc_ok (u_slots l) slot with
        | Pushed a => push_slots (mk_update a (u_dit l) (u_lit l)) sl'
        | _ => fault  (* the slot is stored through NULL or outside the block *)
        end
  end.

(** The body of [while((den = dictNext(dit)))]. *)
Definition gather_master l (den : bytes * ptr) : M (flow update_locals) :=
  master ← load den.2;
  if negb (role master =? REDIS_ROLE_MASTER) then
    _ ← __redisClusterSetError REDIS_ERR_OOM (s "Node role must be master"); mret (Stop l)
  else
  match slots master with
  | None => mret (Go l)
  | Some sl =>
      if negb (malloc_ok LIST_ITER_SIZE) then
        _ ← __redisClusterSetError REDIS_ERR_OOM (s "List get iterator failed: out of memory");
        mret (Stop (mk_update (u_slots l) (u_dit l) NotYet))
      else
      r ← push_slots (mk_update (u_slots l) (u_dit l) Live) sl;
      match r with
      | Stop l => mret (Stop l)
      | Go l => lit ← release (u_lit l); mret (Go (mk_update (u_slots l) (u_dit l) lit))
      end
  end.

(** [hiarray_sort(slots, cluster_slot_start_cmp)]: [qsort] by the start. *)
Definition start_le (a b : cluster_slot ptr) : Prop := sl_start a <= sl_start b.
#[export] Instance start_le_dec a b : Decision (start_le a b).
Proof. unfold start_le. apply _. Defined.
Definition hiarray_sort (a : hiarray (cluster_slot ptr)) : hiarray (cluster_slot ptr) :=
  mk_hiarray (merge_sort start_le (elem a)) (nelem a) (esize a) (nalloc a).

(** [for(k = start; k <= end; k ++)]: [None] when a slot has a node. *)
Fixpoint fill (fuel : nat) (k last : Z) p (t : gmap Z ptr) : option (gmap Z ptr) :=
  if last <? k then Some t else
  match fuel with
  | O => None
  | S fuel' =>
      match t !! k with
      | Some _ => None
      | None => fill fuel' (k + 1) last p (<[k := p]> t)
      end
  end.
Fixpoint fill_table (sl : list (cluster_slot ptr)) (t : gmap Z ptr) : option (gmap Z ptr) :=
  match sl with
  | [] => Some t
  | slot :: sl' =>
      t ← fill (Z.to_nat (sl_end slot - sl_start slot + 1)) (sl_start slot) (sl_end slot) (sl_node slot) t;
      fill_table sl' t
  end.

Definition connect (ip : bytes) (port : Z) : M (option Ctx) :=
  cc ← get_cc;
  match connect_timeout cc with
  | Some tv => call (redisConnectWithTimeout ip port tv)
  | None => call (redisConnect ip port)
  end.

(** The topology as [c] reports it: [None] after an error. *)
Definition fetch_slots (c : Ctx) : M (option redisReply * option (dict bytes ptr)) :=
  reply ← call (redisCommand c (s "CLUSTER SLOTS"));
  match reply with
  | None =>
      st ← gets Datatypes.id;
      _ ← (if ctx_err (world st) c =? REDIS_ERR_TIMEOUT
           then __redisClusterSetError REDIS_ERR_TIMEOUT
                  (s "Command(cluster slots) reply error(socket timeout)")
           else __redisClusterSetError REDIS_ERR_OTHER
                  (s "Command(cluster slots) reply error(NULL)."));
      mret (None, None)
  | Some r =>
      if negb (rtype r =? REDIS_REPLY_ARRAY) then
        _ ← (if rtype r =? REDIS_REPLY_ERROR
             then (str ← lift (rstr r); __redisClusterSetError REDIS_ERR_OTHER str)
             else __redisClusterSetError REDIS_ERR_OTHER
                    (s "Command(cluster slots) reply error: type is not array."));
        mret (reply, None)
      else
        cc ← get_cc;
        nodes ← parse_cluster_slots malloc_ok reply (flags cc);
        mret (reply, nodes)
  end.
Definition fetch_nodes (c : Ctx) : M (option redisReply * option (dict bytes ptr)) :=
  reply ← call (redisCommand c (s "CLUSTER NODES"));
  match reply with
  | None =>
      st ← gets Datatypes.id;
      _ ← (if ctx_err (world st) c =? REDIS_ERR_TIMEOUT
           then __redisClusterSetError REDIS_ERR_TIMEOUT
                  (s "Command(cluster nodes) reply error(socket timeout)")
           else __redisClusterSetError REDIS_ERR_OTHER
                  (s "Command(cluster nodes) reply error(NULL)."));
      mret (None, None)
  | Some r =>
      if negb (rtype r =? REDIS_REPLY_STRING) then
        _ ← (if rtype r =? REDIS_REPLY_ERROR
             then (str ← lift (rstr r); __redisClusterSetError REDIS_ERR_OTHER str)
             else __redisClusterSetError REDIS_ERR_OTHER
                    (s "Command(cluster nodes) reply error: type is not string."));
        mret (reply, None)
      else
        cc ← get_cc;
        str ← lift (rstr r);
        nodes ← parse_cluster_nodes malloc_ok alloc str (rlen r) (flags cc);
        mret (reply, nodes)
  end.

(** The error label, once there are nodes: the iterators, the nodes and the
    connection are released. *)
Definition update_failed (c : Ctx) (nodes : option (dict bytes ptr)) (dit lit : iterator) : M Z :=
  _ ← release dit;
  _ ← release lit;
  _ ← (match nodes with Some d => release_nodes d | None => mret () end);
  _ ← call (fun w => ((), redisFree c w));
  mret REDIS_ERR.

(** From the new nodes to the new route. *)
Definition install_route (c : Ctx) (d : dict bytes ptr) : M Z :=
  match hiarray_create malloc_ok (used d) 8 with
  | None =>
      _ ← __redisClusterSetError REDIS_ERR_OTHER (s "Slots array create failed: out of memory");
      update_failed c (Some d) NotYet NotYet
  | Some a =>
      r ← dict_each d gather_master (mk_update a Live NotYet);
      match r with
      | Stop l => update_failed c (Some d) (u_dit l) (u_lit l)
      | Go l =>
          dit ← release (u_dit l);
          let slots := hiarray_sort (u_slots l) in
          match fill_table (elem slots) ∅ with
          | None =>
              _ ← __redisClusterSetError REDIS_ERR_OTHER (s "Diffent node hold a same slot");
              update_failed c (Some d) dit (u_lit l)
          | Some t =>
              cc ← get_cc;
              _ ← cluster_nodes_swap_ctx (nodes cc) d;
              _ ← (match nodes cc with Some old => release_nodes old | None => mret () end);
              _ ← upd_cc (fun cc => with_route cc d slots t);
              _ ← call (fun w => ((), redisFree c w));
              mret REDIS_OK
          end
      end
  end.

Definition cluster_update_route_by_addr (ip : bytes) (port : Z) : M Z :=
  if port <=? 0 then
    _ ← __redisClusterSetError REDIS_ERR_OTHER (s "Ip or port error!"); mret REDIS_ERR
  else
  c ← connect ip port;
  match c with
  | None =>
      _ ← __redisClusterSetError REDIS_ERR_OTHER (s "Init redis context error(return NULL)");
      mret REDIS_ERR
  | Some c =>
      st ← gets Datatypes.id;
      if negb (ctx_err (world st) c =? 0) then
        _ ← __redisClusterSetError (ctx_err (world st) c) (ctx_errstr (world st) c);
        update_failed c None NotYet NotYet
      else
      _ ← (match timeout (s_cc st) with
           | Some tv => _ ← call (redisSetTimeout c tv); mret ()
           | None => mret ()
           end);
      r ← (if negb (Z.land (flags (s_cc st)) HIRCLUSTER_FLAG_ROUTE_USE_SLOTS =? 0)
           then fetch_slots c else fetch_nodes c);
      match r.2 with
      | None => update_failed c None NotYet NotYet
      | Some d => install_route c d
      end
  end.

(** The body of the loop of [cluster_update_route]: the local is
    [flag_err_not_set]; a jump out is success. *)
Definition try_node (flag_err_not_set : bool) (de : bytes * ptr) : M (flow bool) :=
  node ← load de.2;
  match host node with
  | None => mret (Go flag_err_not_set)
  | Some h =>
      if port node <? 0 then mret (Go flag_err_not_set) else
      ret ← cluster_update_route_by_addr h (port node);
      if ret =? REDIS_OK then _ ← clear_err; mret (Stop flag_err_not_set)
      else mret (Go false)
  end.

Definition cluster_update_route : M Z :=
  cc ← get_cc;
  ret ← (match ip cc with
         | Some a =>
             if 0 <? cc_port cc then
               (r ← cluster_update_route_by_addr a (cc_port cc); mret (Some r))
             else mret None
         | None => mret None
         end);
  if bool_decide (ret = Some REDIS_OK) then mret REDIS_OK else
  let flag_err_not_set := bool_decide (ret = None) in
  cc ← get_cc;
  match nodes cc with
  | None =>
      _ ← (if flag_err_not_set
           then __redisClusterSetError REDIS_ERR_OTHER (s "no server address") else mret ());
      mret REDIS_ERR
  | Some d =>
      r ← dict_each d try_node flag_err_not_set;
      match r with
      | Stop _ => mret REDIS_OK
      | Go flag_err_not_set =>
          _ ← (if flag_err_not_set : bool
               then __redisClusterSetError REDIS_ERR_OTHER (s "no valid server address")
               else mret ());
          mret REDIS_ERR
      end
  end.

(** ** Options and connecting

    The context is not NULL; the options that take a time are given their
    memory. *)

Definition redisClusterSetOptionAddNode (address : bytes) : M Z :=
  cc ← get_cc;
  let d := default dictCreate (nodes cc) in
  _ ← upd_cc (fun cc => with_nodes cc (Some d));
  node_entry ← lift (dictFind d address);
  match node_entry with
  | Some _ => mret REDIS_OK
  | None =>
      ip_port ← split alloc address ":"%char;
      match ip_port with
      | Some [t0; t1] =>
          if (sds_len t0 <=? 0) || (sds_len t1 <=? 0) then
            _ ← __redisClusterSetError REDIS_ERR_OTHER
                  (s "server address is error(correct is like: 127.0.0.1:1234)");
            mret REDIS_ERR
          else
          let port := hi_atoi (sds_value t1) (sds_len t1) in
          if port <=? 0 then
            _ ← __redisClusterSetError REDIS_ERR_OTHER (s "server port is error"); mret REDIS_ERR
          else
          node ← alloc_node malloc_ok;
          match node with
          | None =>
              _ ← __redisClusterSetError REDIS_ERR_OTHER (s "alloc cluster node error");
              mret REDIS_ERR
          | Some p =>
              _ ← store p (mk_node None (Some address) (Some (sds_value t0)) port
                    REDIS_ROLE_NULL 0 None None None None 0 None None);
              r ← lift (dictAdd d address p);
              _ ← upd_cc (fun cc => with_nodes cc (Some r.2));
              mret REDIS_OK
          end
      | _ =>
          _ ← __redisClusterSetError REDIS_ERR_OTHER
                (s "server address is error(correct is like: 127.0.0.1:1234)");
          mret REDIS_ERR
      end
  end.

Fixpoint add_nodes (address : list bytes) : M Z :=
  match address with
  | [] => mret REDIS_OK
  | a :: address' =>
      ret ← redisClusterSetOptionAddNode a;
      if negb (ret =? REDIS_OK) then mret REDIS_ERR else add_nodes address'
  end.
Definition redisClusterSetOptionAddNodes (addrs : bytes) : M Z :=
  address ← split alloc addrs ","%char;
  match address with
  | None | Some [] =>
      _ ← __redisClusterSetError REDIS_ERR_OTHER
            (s "servers address is error(correct is like: 127.0.0.1:1234,127.0.0.2:5678)");
      mret REDIS_ERR
  | Some tokens => add_nodes (map sds_value tokens)
  end.

Definition set_flag (flag : Z) : M Z :=
  _ ← upd_cc (fun cc => with_flags cc (Z.lor (flags cc) flag)); mret REDIS_OK.
Definition redisClusterSetOptionConnectBlock : M Z := set_flag REDIS_BLOCK.
Definition redisClusterSetOptionConnectNonBlock : M Z :=
  _ ← upd_cc (fun cc => with_flags cc (Z.ldiff (flags cc) REDIS_BLOCK)); mret REDIS_OK.
Definition redisClusterSetOptionParseSlaves : M Z := set_flag HIRCLUSTER_FLAG_ADD_SLAVE.
Definition redisClusterSetOptionParseOpenSlots : M Z := set_flag HIRCLUSTER_FLAG_ADD_OPENSLOT.
Definition redisClusterSetOptionRouteUseSlots : M Z := set_flag HIRCLUSTER_FLAG_ROUTE_USE_SLOTS.

Definition redisClusterSetOptionConnectTimeout (tv : timeval) : M Z :=
  _ ← upd_cc (fun cc => with_timeouts cc (Some tv) (timeout cc)); mret REDIS_OK.

(** The timeout of an open connection, [None] being no connection. *)
Definition set_con_timeout (tv : timeval) (c : option Ctx) : M () :=
  match c with
  | None => mret ()
  | Some c =>
      st ← gets Datatypes.id;
      if negb (Z.land (ctx_flags (world st) c) REDIS_CONNECTED =? 0) && (ctx_err (world st) c =? 0)
      then _ ← call (redisSetTimeout c tv); mret () else mret ()
  end.
Definition redisClusterSetOptionTimeout (tv : timeval) : M Z :=
  cc ← get_cc;
  match timeout cc with
  | None => _ ← upd_cc (fun cc => with_timeouts cc (connect_timeout cc) (Some tv)); mret REDIS_OK
  | Some old =>
      if (tv_sec old =? tv_sec tv) && (tv_usec old =? tv_usec tv) then mret REDIS_OK else
      _ ← upd_cc (fun cc => with_timeouts cc (connect_timeout cc) (Some tv));
      match nodes cc with
      | None => mret REDIS_OK
      | Some d =>
          _ ← dict_each d (fun _ de =>
                node ← load de.2;
                _ ← set_con_timeout tv (con node);
                _ ← each (default [] (slaves node)) (fun q =>
                      slave ← load q; set_con_timeout tv (con slave));
                mret (Go ())) ();
          mret REDIS_OK
      end
  end.

Definition redisClusterSetOptionMaxRedirect (n : Z) : M Z :=
  if n <=? 0 then mret REDIS_ERR
  else _ ← upd_cc (fun cc => with_max_redirect cc n); mret REDIS_OK.
Definition redisClusterSetMaxRedirect (n : Z) : M () :=
  if n <=? 0 then mret () else upd_cc (fun cc => with_max_redirect cc n).

(** [_redisClusterConnect2] and [redisClusterConnect2]. *)
Definition redisClusterConnect2 : M Z :=
  cc ← get_cc;
  match nodes cc with
  | Some d =>
      if used d =? 0 then
        _ ← __redisClusterSetError REDIS_ERR_OTHER (s "servers address does not set up"); mret REDIS_ERR
      else cluster_update_route
  | None =>
      _ ← __redisClusterSetError REDIS_ERR_OTHER (s "servers address does not set up"); mret REDIS_ERR
  end.

Definition _redisClusterConnect (addrs : bytes) : M () :=
  ret ← redisClusterSetOptionAddNodes addrs;
  if negb (ret =? REDIS_OK) then mret () else _ ← cluster_update_route; mret ().

(** A new context, from here on the state's. *)
Definition redisClusterConnect (addrs : bytes) (fl : Z) : M () :=
  _ ← upd_cc (fun _ => with_flags redisClusterContextInit (Z.lor REDIS_BLOCK fl));
  _redisClusterConnect addrs.
Definition redisClusterConnectWithTimeout (addrs : bytes) (tv : timeval) (fl : Z) : M () :=
  _ ← upd_cc (fun _ => with_timeouts (with_flags redisClusterContextInit (Z.lor REDIS_BLOCK fl))
                         (Some tv) None);
  _redisClusterConnect addrs.
Definition redisClusterConnectNonBlock (addrs : bytes) (fl : Z) : M () :=
  _ ← upd_cc (fun _ => with_flags redisClusterContextInit
                         (Z.lor (Z.ldiff REDIS_BLOCK REDIS_BLOCK) fl));
  _redisClusterConnect addrs.

(** [redisClusterFree]: after [free(cc)] there is no context; what a new one
    refers to, nothing, stands for that. *)
Definition redisClusterFree : M () :=
  cc ← get_cc;
  _ ← (match nodes cc with Some d => release_nodes d | None => mret () end);
  upd_cc (fun _ => redisClusterContextInit).
End update.
