(* ===== verification/Script.v ===== *)
(** * Scripted servers

    An instance of [Transport] for concrete runs: connecting always succeeds, a
    connection is the address it goes to, and the replies come from a list, the
    same for all connections, in order; [None] is a broken connection.  What
    the client does is recorded in a log. *)

From S2P Require Import Prelude Reply ClusterNode.

Inductive event :=
| Connected (host : bytes) (port : Z)
| Sent (host : bytes) (port : Z) (data : bytes)
| Closed (host : bytes) (port : Z).

Record script := mk_script { replies : list (option redisReply); log : list event }.

Definition logged (w : script) (e : event) : script := mk_script (replies w) (log w ++ [e]).
Definition next_reply (w : script) : option redisReply * script :=
  match replies w with
  | [] => (None, w)
  | r :: l => (r, mk_script l (log w))
  end.

#[global] Instance script_transport : Transport script (bytes * Z) := {
  redisConnect h p w := (Some (h, p), logged w (Connected h p));
  redisConnectWithTimeout h p _ w := (Some (h, p), logged w (Connected h p));
  redisReconnect _ w := (REDIS_OK, w);
  redisSetTimeout _ _ w := (REDIS_OK, w);
  redisFree c w := logged w (Closed c.1 c.2);
  ctx_err _ _ := 0;
  ctx_errstr _ _ := [];
  ctx_flags _ _ := Z.lor REDIS_BLOCK REDIS_CONNECTED;
  redisAppend c d w := (REDIS_OK, logged w (Sent c.1 c.2 d));
  redisGetReply c w :=
    let '(r, w) := next_reply w in
    ((if r is Some _ then REDIS_OK else REDIS_ERR, r), w);
  redisCommand c d w := next_reply (logged w (Sent c.1 c.2 d));
  redisBufferWrite _ w := ((REDIS_OK, true), w)
}.

Definition start_sys (cc : redisClusterContext) (l : list (option redisReply))
  : sys script (bytes * Z) := mk_sys cc ∅ 1 (mk_script l []).
