(* ===== verification/ClusterExec.v ===== *)
(** * hircluster.c: executing commands

    [redis_cluster_command_execute] sends a command to the node of its slot,
    follows the redirections of the servers and gives up after
    [max_redirect_count] of them; [redisClusterFormattedCommand] executes a
    command, split or not.  [cmd_id] is the counter of [command_get], [num_str]
    an uninitialised buffer on the stack; both are arbitrary. *)

From S2P Require Import Prelude Effects Hiutil Hiarray Format Vformat Reply Sds Dict Command CommandParser ClusterSlot ClusterFragment ClusterMerge ClusterNode ClusterTopology ClusterUpdate.

Section exec.
Context {W Ctx : Type} `{Transport W Ctx} `{AsyncConns W Ctx}.
Context (malloc_ok : Z -> bool) (alloc : Z -> option bytes).
Abbreviation M := (prog (sys W Ctx)).
Implicit Types (p : ptr) (c : Ctx) (command : cmd).

(** [c->err] and [c->errstr]. *)
Definition get_err c : M Z := gets (fun st => ctx_err (world st) c).
Definition copy_err c : M () :=
  st ← gets Datatypes.id;
  __redisClusterSetError (ctx_err (world st) c) (ctx_errstr (world st) c).

Definition set_timeout_if_ok c : M () :=
  cc ← get_cc;
  e ← get_err c;
  match timeout cc with
  | Some tv => if e =? 0 then _ ← call (redisSetTimeout c tv); mret () else mret ()
  | None => mret ()
  end.

Definition ctx_get_by_node p : M (option Ctx) :=
  node ← load p;
  match con node with
  | Some c =>
      e ← get_err c;
      if negb (e =? 0) then
        _ ← call (redisReconnect c);
        _ ← set_timeout_if_ok c;
        mret (Some c)
      else mret (Some c)
  | None =>
      match host node with
      | None => mret None
      | Some h =>
          if port node <=? 0 then mret None else
          c ← connect h (port node);
          _ ← (match c with Some c => set_timeout_if_ok c | None => mret () end);
          _ ← store p (with_con node c);
          mret c
      end
  end.

(** A node that answers PING. *)
Definition ping_node (found : option ptr) (de : bytes * ptr) : M (flow (option ptr)) :=
  c ← ctx_get_by_node de.2;
  match c with
  | None => mret (Go found)
  | Some c =>
      e ← get_err c;
      if negb (e =? 0) then mret (Go found) else
      reply ← call (redisCommand c (s "PING"));
      match reply with
      | Some r =>
          if (rtype r =? REDIS_REPLY_STATUS) &&
             bool_decide (until_nul <$> rstr r = Some (s "PONG"))
          then mret (Stop (Some de.2)) else mret (Go found)
      | None => mret (Go found)
      end
  end.
Definition node_get_witch_connected : M (option ptr) :=
  cc ← get_cc;
  match nodes cc with
  | None => mret None
  | Some d => r ← dict_each d ping_node None; mret (locals r)
  end.

(** The value and its length; a failing test stops with an error message. *)
Definition cluster_config_get (config_name : bytes) : M (option (bytes * Z)) :=
  let failed (str : bytes) : M (option (bytes * Z)) :=
    _ ← __redisClusterSetError REDIS_ERR_OTHER str; mret None in
  node ← node_get_witch_connected;
  match node with
  | None => failed (s "no reachable node in cluster")
  | Some p =>
      c ← ctx_get_by_node p;
      c ← lift c;
      reply ← call (redisCommand c (s "config get " ++ config_name));
      match reply with
      | None => failed (s "reply for config get is null")
      | Some r =>
          if negb (rtype r =? REDIS_REPLY_ARRAY) then
            failed (s "reply for config get type is not array")
          else if negb (elements r =? 2) then
            failed (s "reply for config get elements number is not 2")
          else
          e0 ← lift (element r !! 0%nat);
          match e0 with
          | Some k =>
              if negb (rtype k =? REDIS_REPLY_STRING) then
                failed (s "reply for config get config name is not string")
              else
              str ← lift (rstr k);
              if negb (bool_decide (until_nul str = config_name)) then
                failed (s "reply for config get config name is not we want")
              else
              e1 ← lift (element r !! 1%nat);
              match e1 with
              | Some v =>
                  if negb (rtype v =? REDIS_REPLY_STRING) then
                    failed (s "reply for config get config value type is not string")
                  else str ← lift (rstr v); mret (Some (str, Reply.rlen v))
              | None => failed (s "reply for config get config value type is not string")
              end
          | None => failed (s "reply for config get config name is not string")
          end
      end
  end.

Definition get_node (slot_num : Z) : M (option ptr) :=
  cc ← get_cc; mret (node_get_by_table (table cc) (u32 slot_num)).

Definition node_get_by_ask_error_reply (reply : redisReply) : M (option ptr) :=
  if negb (cluster_reply_error_type (Some reply) =? CLUSTER_ERR_ASK) then
    _ ← __redisClusterSetError REDIS_ERR_OTHER (s "reply is not ask error!"); mret None
  else
  str ← lift (reply_bytes reply);
  part ← split alloc str " "%char;
  match part with
  | Some [_; t1; t2] =>
      ip_port ← split alloc (sds_value t2) ":"%char;
      match ip_port with
      | Some [h; pt] =>
          cc ← get_cc;
          d ← lift (nodes cc);
          de ← lift (dictFind d (sds_value t2));
          match de with
          | Some e => mret (Some e.2)
          | None =>
              node ← alloc_node malloc_ok;
              match node with
              | None => _ ← __redisClusterSetError REDIS_ERR_OOM (s "Out of memory"); mret None
              | Some p =>
                  (* the address and the key are the slot, not the address *)
                  _ ← store p (mk_node None (Some (sds_value t1)) (Some (sds_value h))
                        (hi_atoi (sds_value pt) (sds_len pt)) REDIS_ROLE_MASTER 0 None None None
                        None 0 None None);
                  r ← lift (dictAdd d (sds_value t1) p);
                  _ ← upd_cc (fun cc => with_nodes cc (Some r.2));
                  mret (Some p)
              end
          end
      | _ =>
          _ ← __redisClusterSetError REDIS_ERR_OTHER (s "ask error reply address part parse error!");
          mret None
      end
  | _ =>
      _ ← __redisClusterSetError REDIS_ERR_OTHER (s "ask error reply parse error!");
      mret None
  end.

(** ** redis_cluster_command_execute *)

Definition __redisBlockForReply c : M (option redisReply) :=
  st ← gets Datatypes.id;
  if negb (Z.land (ctx_flags (world st) c) REDIS_BLOCK =? 0) then
    r ← call (redisGetReply c);
    mret (if r.1 =? REDIS_OK then r.2 else None)
  else mret None.

(** [cc->retry_count ++], then whether it is above the maximum. *)
Definition count_retry : M bool :=
  _ ← upd_cc (fun cc => with_retry cc (i32 (retry_count cc + 1)));
  cc ← get_cc;
  mret (max_redirect_count cc <? retry_count cc).
Definition too_many : M () :=
  __redisClusterSetError REDIS_ERR_CLUSTER_TOO_MANY_REDIRECT (s "too many cluster redirect").

(** Where the code jumps to, or what it returns. *)
Inductive label := Retry | AskRetry (c : Ctx).
Inductive exec_result := Return (reply : option redisReply) | Jump (l : label).

(** From [retry] to [ask_retry]: a connection to the node of the slot, or to a
    reachable node when that one is broken; [None] returns NULL. *)
Definition find_connection command : M (option Ctx) :=
  node ← get_node (slot_num command);
  match node with
  | None => _ ← __redisClusterSetError REDIS_ERR_OTHER (s "node get by table error"); mret None
  | Some p =>
      c ← ctx_get_by_node p;
      match c with
      | None => _ ← __redisClusterSetError REDIS_ERR_OTHER (s "ctx get by node is null"); mret None
      | Some c =>
          e ← get_err c;
          if e =? 0 then mret (Some c) else
          node ← node_get_witch_connected;
          match node with
          | None =>
              _ ← __redisClusterSetError REDIS_ERR_OTHER (s "no reachable node in cluster"); mret None
          | Some p =>
              over ← count_retry;
              if over : bool then _ ← too_many; mret None else
              c ← ctx_get_by_node p;
              match c with
              | None =>
                  _ ← __redisClusterSetError REDIS_ERR_OTHER (s "ctx get by node error"); mret None
              | Some c =>
                  e ← get_err c;
                  if negb (e =? 0) then _ ← copy_err c; mret None else mret (Some c)
              end
          end
      end
  end.

(** [case CLUSTER_ERR_ASK]. *)
Definition follow_ask (reply : redisReply) : M exec_result :=
  node ← node_get_by_ask_error_reply reply;
  match node with
  | None => mret (Return None)
  | Some p =>
      c ← ctx_get_by_node p;
      match c with
      | None =>
          _ ← __redisClusterSetError REDIS_ERR_OTHER (s "ctx get by node error"); mret (Return None)
      | Some c =>
          e ← get_err c;
          if negb (e =? 0) then _ ← copy_err c; mret (Return None) else
          reply ← call (redisCommand c (s "ASKING"));
          match reply with
          | None => _ ← copy_err c; mret (Return None)
          | Some _ => mret (Jump (AskRetry c))
          end
      end
  end.

(** The [switch] on the error type of a reply. *)
Definition on_reply (reply : redisReply) : M exec_result :=
  let error_type := cluster_reply_error_type (Some reply) in
  if is_redirection error_type then
    over ← count_retry;
    if over : bool then _ ← too_many; mret (Return None)
    else if error_type =? CLUSTER_ERR_MOVED then
      ret ← cluster_update_route malloc_ok alloc;
      if negb (ret =? REDIS_OK) then
        _ ← __redisClusterSetError REDIS_ERR_OTHER
              (s "route update error, please recreate redisClusterContext!");
        mret (Return None)
      else mret (Jump Retry)
    else if error_type =? CLUSTER_ERR_ASK then follow_ask reply
    else mret (Jump Retry)
  else mret (Return (Some reply)).

(** From [ask_retry] on. *)
Definition ask_retry command c : M exec_result :=
  r ← call (redisAppend c (cmd_buf command));
  if negb (r =? REDIS_OK) then _ ← copy_err c; mret (Return None) else
  reply ← __redisBlockForReply c;
  match reply with
  | None => _ ← copy_err c; mret (Return None)
  | Some reply => on_reply reply
  end.

Definition execute_step command (l : label) : M exec_result :=
  match l with
  | AskRetry c => ask_retry command c
  | Retry =>
      c ← find_connection command;
      match c with
      | None => mret (Return None)
      | Some c => ask_retry command c
      end
  end.

(** [None] is no result within the fuel. *)
Fixpoint execute (fuel : nat) command (l : label) : M (option (option redisReply)) :=
  match fuel with
  | O => mret None
  | S fuel' =>
      r ← execute_step command l;
      match r with
      | Return reply => mret (Some reply)
      | Jump l => execute fuel' command l
      end
  end.

(** Every jump counts as a retry: [max_redirect_count - retry_count] jumps are
    possible, and as many more steps as it takes to find that out. *)
Definition execute_fuel (cc : redisClusterContext) : nat :=
  S (S (Z.to_nat (max_redirect_count cc - retry_count cc))).
Definition redis_cluster_command_execute command : M (option (option redisReply)) :=
  cc ← get_cc;
  execute (execute_fuel cc) command Retry.

(** ** redisClusterFormattedCommand *)

(** [command->cmd = cmd; command->clen = len;] *)
Definition with_request command (data : bytes) : cmd :=
  mk_cmd (id command) (result command) (Command.errstr command) (type command) data (zlen data)
    (keys command) (narg_start command) (narg_end command) (narg command) (quit command)
    (noforward command) (slot_num command).

(** [command_format_by_slot] and its effect on the error of the context. *)
Definition format_by_slot command (cmd_id : Z) (num_str : bytes) : M formatted :=
  fm ← lift (command_format_by_slot malloc_ok command cmd_id num_str);
  _ ← (match fm_err fm with
       | Some (e, str) => __redisClusterSetError e str
       | None => mret ()
       end);
  mret fm.

(** The allocations of [command_post_fragment]. *)
Definition post_alloc (t : cmd_type) (key_count : Z) : bool :=
  malloc_ok 48 &&
  match t with
  | CMD_REQ_REDIS_MGET => malloc_ok (u64 (key_count * 48))
  | CMD_REQ_REDIS_MSET => malloc_ok 24
  | _ => true
  end.
Definition merge (r : queued) (replies : list (Z * option redisReply)) : M (option redisReply) :=
  let t := type (rq_command r) in
  match command_post_fragment (post_alloc t (hiarray_n (keys (rq_command r)))) t (frag_seq r) replies with
  | PostReply x => mret (Some x)
  | PostNull None => mret None
  | PostNull (Some (e, str)) => _ ← __redisClusterSetError e str; mret None
  | PostAbort => fault
  end.

(** The loop over the sub-commands: the replies, or what is returned at once;
    the outer [None] is no result within the fuel. *)
Fixpoint execute_all (l : list cmd) (done : list (Z * option redisReply))
  : M (option (option redisReply + list (Z * option redisReply))) :=
  match l with
  | [] => mret (Some (inr done))
  | sub :: l' =>
      r ← redis_cluster_command_execute sub;
      match r with
      | None => mret None
      | Some None => mret (Some (inl None))
      | Some (Some reply) =>
          if rtype reply =? REDIS_REPLY_ERROR then mret (Some (inl (Some reply)))
          else execute_all l' (done ++ [(slot_num sub, Some reply)])
      end
  end.

Definition run_formatted (fm : formatted) : M (option (option redisReply)) :=
  if fm_slot fm <? 0 then mret (Some None)
  else if REDIS_CLUSTER_SLOTS <=? fm_slot fm then
    _ ← __redisClusterSetError REDIS_ERR_OTHER (s "slot_num is out of range"); mret (Some None)
  else
  match fm_commands fm with
  | [] => redis_cluster_command_execute (fm_command fm)
  | l =>
      r ← execute_all l [];
      match r with
      | None => mret None
      | Some (inl reply) => mret (Some reply)
      | Some (inr replies) =>
          reply ← merge (mk_queued (fm_command fm) (Some l) (fm_seq fm)) replies;
          mret (Some reply)
      end
  end.

Definition redisClusterFormattedCommand (data : bytes) (cmd_id : Z) (num_str : bytes)
  : M (option (option redisReply)) :=
  _ ← clear_err;
  match command_get malloc_ok cmd_id with
  | None => _ ← __redisClusterSetError REDIS_ERR_OOM (s "Out of memory"); mret (Some None)
  | Some command =>
      r ← (if negb (list_create_ok malloc_ok) then
             _ ← __redisClusterSetError REDIS_ERR_OOM (s "Out of memory"); mret (Some None)
           else
             fm ← format_by_slot (with_request command data) cmd_id num_str;
             run_formatted fm);
      _ ← upd_cc (fun cc => with_retry cc 0);
      mret r
  end.

(** [redisClusterCommandArgv]; a request that overflowed its block faults. *)
Definition redisClusterCommandArgv (argc : Z) (argv : list bytes) (argvlen : option (list Z))
  (cmd_id : Z) (num_str : bytes) : M (option (option redisReply)) :=
  match redisFormatCommandArgv alloc argc argv argvlen with
  | FmtError len =>
      if len =? -1 then
        _ ← __redisClusterSetError REDIS_ERR_OOM (s "Out of memory"); mret (Some None)
      else fault
  | FmtOverflow => fault
  | FmtOk target len => redisClusterFormattedCommand (take (Z.to_nat len) target) cmd_id num_str
  end.

(** [redisClustervCommand] and [redisClusterCommand], with the printf-like
    formatter of hiredis.c. *)
Definition redisClustervCommand (printf : bytes -> vararg -> bytes) (format : bytes) (ap : list vararg)
  (cmd_id : Z) (num_str : bytes) : M (option (option redisReply)) :=
  match redisvFormatCommand alloc printf format ap with
  | FmtError len =>
      if len =? -1 then
        _ ← __redisClusterSetError REDIS_ERR_OOM (s "Out of memory"); mret (Some None)
      else if len =? -2 then
        _ ← __redisClusterSetError REDIS_ERR_OTHER (s "Invalid format string"); mret (Some None)
      else fault
  | FmtOverflow => fault
  | FmtOk target len => redisClusterFormattedCommand (take (Z.to_nat len) target) cmd_id num_str
  end.
Definition redisClusterCommand := redisClustervCommand.
End exec.
Arguments label : clear implicits.
Arguments exec_result : clear implicits.
Arguments Retry {Ctx}.
Arguments AskRetry {Ctx}.
Arguments Return {Ctx}.
Arguments Jump {Ctx}.
