(* ===== verification/ClusterPipeline.v ===== *)
(** * hircluster.c: the pipeline

    [redisClusterAppendFormattedCommand] sends a command, split or not, without
    waiting; [redisClusterGetReply] takes the replies in the order of the
    requests, merging those of a split command; [redisClusterReset] drains or
    drops the connections. *)

From S2P Require Import Prelude Effects Hiutil Hiarray Format Vformat Reply Dict Command CommandParser ClusterSlot ClusterFragment ClusterMerge ClusterNode ClusterTopology ClusterUpdate ClusterExec.

Section pipeline.
Context {W Ctx : Type} `{Transport W Ctx} `{AsyncConns W Ctx}.
Context (malloc_ok : Z -> bool) (alloc : Z -> option bytes).
Abbreviation M := (prog (sys W Ctx)).
Implicit Types (command : cmd) (c : Ctx).

Definition __redisClusterAppendCommand command : M Z :=
  node ← get_node (slot_num command);
  match node with
  | None => _ ← __redisClusterSetError REDIS_ERR_OTHER (s "node get by slot error"); mret REDIS_ERR
  | Some p =>
      c ← ctx_get_by_node p;
      match c with
      | None =>
          _ ← __redisClusterSetError REDIS_ERR_OTHER (s "ctx get by node is null"); mret REDIS_ERR
      | Some c =>
          e ← get_err c;
          if negb (e =? 0) then _ ← copy_err c; mret REDIS_ERR else
          r ← call (redisAppend c (cmd_buf command));
          if negb (r =? REDIS_OK) then _ ← copy_err c; mret REDIS_ERR else mret REDIS_OK
      end
  end.

(** [__redisClusterGetReply]: the return code and [*reply]. *)
Definition __redisClusterGetReply (slot_num : Z) : M (Z * option redisReply) :=
  if slot_num <? 0 then mret (REDIS_ERR, None) else
  node ← get_node slot_num;
  match node with
  | None =>
      _ ← __redisClusterSetError REDIS_ERR_OTHER (s "node get by table is null"); mret (REDIS_ERR, None)
  | Some p =>
      c ← ctx_get_by_node p;
      match c with
      | None => _ ← __redisClusterSetError REDIS_ERR_OOM (s "Out of memory"); mret (REDIS_ERR, None)
      | Some c =>
          e ← get_err c;
          if negb (e =? 0) then
            _ ← upd_cc (fun cc =>
                  if need_update_route cc =? 0 then
                    let cc := with_retry cc (i32 (retry_count cc + 1)) in
                    if max_redirect_count cc <? retry_count cc
                    then with_retry (with_update cc 1) 0 else cc
                  else cc);
            _ ← copy_err c;
            mret (REDIS_ERR, None)
          else
          r ← call (redisGetReply c);
          if negb (r.1 =? REDIS_OK) then _ ← copy_err c; mret (REDIS_ERR, r.2) else
          _ ← (if cluster_reply_error_type r.2 =? CLUSTER_ERR_MOVED
               then upd_cc (fun cc => with_update cc 1) else mret ());
          mret (REDIS_OK, r.2)
      end
  end.

(** The sub-commands are appended until one fails. *)
Fixpoint append_all (l : list cmd) : M Z :=
  match l with
  | [] => mret REDIS_OK
  | sub :: l' =>
      r ← __redisClusterAppendCommand sub;
      if r =? REDIS_OK then append_all l' else mret REDIS_ERR
  end.

(** [listAddNodeTail(cc->requests, command)]. *)
Definition add_request (r : queued) : M () :=
  upd_cc (fun cc => with_requests cc (Some (default [] (requests cc) ++ [r]))).

Definition redisClusterAppendFormattedCommand (data : bytes) (cmd_id : Z) (num_str : bytes) : M Z :=
  cc ← get_cc;
  created ← (match requests cc with
             | Some _ => mret true
             | None =>
                 if list_create_ok malloc_ok then
                   _ ← upd_cc (fun cc => with_requests cc (Some [])); mret true
                 else mret false
             end);
  if negb created then _ ← __redisClusterSetError REDIS_ERR_OOM (s "Out of memory"); mret REDIS_ERR else
  match command_get malloc_ok cmd_id with
  | None => _ ← __redisClusterSetError REDIS_ERR_OOM (s "Out of memory"); mret REDIS_ERR
  | Some command =>
      if negb (list_create_ok malloc_ok) then
        _ ← __redisClusterSetError REDIS_ERR_OOM (s "Out of memory"); mret REDIS_ERR
      else
      fm ← format_by_slot malloc_ok (with_request command data) cmd_id num_str;
      if fm_slot fm <? 0 then mret REDIS_ERR
      else if REDIS_CLUSTER_SLOTS <=? fm_slot fm then
        _ ← __redisClusterSetError REDIS_ERR_OTHER (s "slot_num is out of range"); mret REDIS_ERR
      else
      match fm_commands fm with
      | [] =>
          r ← __redisClusterAppendCommand (fm_command fm);
          if r =? REDIS_OK then
            _ ← add_request (mk_queued (fm_command fm) None (fm_seq fm)); mret REDIS_OK
          else mret REDIS_ERR
      | l =>
          r ← append_all l;
          if r =? REDIS_OK then
            _ ← add_request (mk_queued (fm_command fm) (Some l) (fm_seq fm)); mret REDIS_OK
          else mret REDIS_ERR
      end
  end.

(** [redisClusterAppendCommandArgv]. *)
Definition redisClusterAppendCommandArgv (argc : Z) (argv : list bytes) (argvlen : option (list Z))
  (cmd_id : Z) (num_str : bytes) : M Z :=
  match redisFormatCommandArgv alloc argc argv argvlen with
  | FmtError len =>
      if len =? -1 then
        _ ← __redisClusterSetError REDIS_ERR_OOM (s "Out of memory"); mret REDIS_ERR
      else fault
  | FmtOverflow => fault
  | FmtOk target len => redisClusterAppendFormattedCommand (take (Z.to_nat len) target) cmd_id num_str
  end.

(** [redisClustervAppendCommand] and [redisClusterAppendCommand]. *)
Definition redisClustervAppendCommand (printf : bytes -> vararg -> bytes) (format : bytes) (ap : list vararg)
  (cmd_id : Z) (num_str : bytes) : M Z :=
  match redisvFormatCommand alloc printf format ap with
  | FmtError len =>
      if len =? -1 then
        _ ← __redisClusterSetError REDIS_ERR_OOM (s "Out of memory"); mret REDIS_ERR
      else if len =? -2 then
        _ ← __redisClusterSetError REDIS_ERR_OTHER (s "Invalid format string"); mret REDIS_ERR
      else fault
  | FmtOverflow => fault
  | FmtOk target len => redisClusterAppendFormattedCommand (take (Z.to_nat len) target) cmd_id num_str
  end.
Definition redisClusterAppendCommand := redisClustervAppendCommand.

(** What [redisClusterGetReply] stores in [*reply]: a reply the caller owns, or
    one that was freed with its sub-command before the function returns. *)
Inductive handed :=
| Null
| Owned (r : redisReply)
| Freed (r : redisReply).

Definition hand (r : option redisReply) : handed :=
  match r with Some r => Owned r | None => Null end.

(** The error reply that [command_post_fragment] passes on belongs to its
    sub-command. *)
Definition hand_merged (r : queued) (replies : list (Z * option redisReply))
  (merged : option redisReply) : handed :=
  match merged with
  | None => Null
  | Some x =>
      match check_replies (type (rq_command r)) (map snd replies) 0 with
      | inl _ => Freed x
      | inr _ => Owned x
      end
  end.

Fixpoint collect (l : list cmd) (done : list (Z * option redisReply))
  : M (option (list (Z * option redisReply))) :=
  match l with
  | [] => mret (Some done)
  | sub :: l' =>
      if slot_num sub <? 0 then
        _ ← __redisClusterSetError REDIS_ERR_OTHER (s "sub_command slot_num is less then zero");
        mret None
      else
      r ← __redisClusterGetReply (slot_num sub);
      if negb (r.1 =? REDIS_OK) then mret None else collect l' (done ++ [(slot_num sub, r.2)])
  end.

Definition redisClusterGetReply : M (Z * handed) :=
  _ ← upd_cc (fun cc => with_err cc 0 []);
  cc ← get_cc;
  match requests cc with
  | None => mret (REDIS_ERR, Null)
  | Some [] => mret (REDIS_OK, Null)
  | Some (r :: rest) =>
      let slot := slot_num (rq_command r) in
      let del := upd_cc (fun cc => with_requests cc (Some rest)) in
      if 0 <=? slot then
        _ ← del;
        x ← __redisClusterGetReply slot;
        mret (x.1, hand x.2)
      else
      match sub_commands r with
      | None =>
          _ ← __redisClusterSetError REDIS_ERR_OTHER (s "sub_commands in command is null");
          _ ← del;
          mret (REDIS_ERR, Null)
      | Some l =>
          x ← collect l [];
          match x with
          | None => _ ← del; mret (REDIS_ERR, Null)
          | Some replies =>
              merged ← merge malloc_ok r replies;
              _ ← del;
              match merged with
              | None => mret (REDIS_ERR, Null)
              | Some _ => mret (REDIS_OK, hand_merged r replies merged)
              end
          end
      end
  end.

(** [do ... while (!wdone)]: [fuel] bounds the partial writes. *)
Fixpoint write_all (fuel : nat) c : M Z :=
  match fuel with
  | O => fault
  | S fuel' =>
      r ← call (redisBufferWrite c);
      if r.1 =? REDIS_ERR then mret REDIS_ERR
      else if r.2 : bool then mret REDIS_OK else write_all fuel' c
  end.

Definition redisCLusterSendAll (fuel : nat) : M Z :=
  cc ← get_cc;
  match nodes cc with
  | None => mret REDIS_ERR
  | Some d =>
      r ← dict_each d (fun _ de =>
            c ← ctx_get_by_node de.2;
            match c with
            | None => mret (Go ())
            | Some c =>
                st ← gets Datatypes.id;
                if negb (Z.land (ctx_flags (world st) c) REDIS_BLOCK =? 0) then
                  r ← write_all fuel c;
                  mret (if r =? REDIS_ERR then Stop () else Go ())
                else mret (Go ())
            end) ();
      mret (match r with Go _ => REDIS_OK | Stop _ => REDIS_ERR end)
  end.

Definition redisCLusterClearAll : M Z :=
  _ ← clear_err;
  cc ← get_cc;
  match nodes cc with
  | None => mret REDIS_ERR
  | Some d =>
      _ ← dict_each d (fun _ de =>
            node ← load de.2;
            match con node with
            | None => mret (Go ())
            | Some c =>
                _ ← call (fun w => ((), redisFree c w));
                _ ← store de.2 (with_con node None);
                mret (Go ())
            end) ();
      mret REDIS_OK
  end.

(** [do { ... } while(reply != NULL)]: one reply for each request, and NULL. *)
Fixpoint drain (fuel : nat) : M () :=
  match fuel with
  | O => fault
  | S fuel' =>
      r ← redisClusterGetReply;
      if r.1 =? REDIS_OK then
        match r.2 with
        | Null => mret ()
        | Owned _ => drain fuel'
        | Freed _ => fault  (* [freeReplyObject] of a freed reply *)
        end
      else _ ← redisCLusterClearAll; mret ()
  end.

Definition redisClusterReset (fuel : nat) : M () :=
  cc ← get_cc;
  match nodes cc with
  | None => mret ()
  | Some _ =>
      _ ← (if negb (err cc =? 0) then redisCLusterClearAll
           else
             _ ← redisCLusterSendAll fuel;
             cc ← get_cc;
             _ ← drain (S (length (default [] (requests cc))));
             mret REDIS_OK);
      _ ← upd_cc (fun cc => with_requests cc None);
      cc ← get_cc;
      if negb (need_update_route cc =? 0) then
        status ← cluster_update_route malloc_ok alloc;
        if negb (status =? REDIS_OK) then
          __redisClusterSetError REDIS_ERR_OTHER
            (s "route update error, please recreate redisClusterContext!")
        else upd_cc (fun cc => with_update cc 0)
      else mret ()
  end.
End pipeline.
