(* ===== verification/ClusterFrame.v ===== *)
(** * Frame properties of the cluster client

    What every function of hircluster.c keeps that its parts keep.  [R] is a
    preorder on states that the primitive steps respect; the sections add the
    functions that a proof has to look at itself.  Section [route] is for an [R]
    that all assignments to the heap respect; section [transport] leaves
    [ctx_get_by_node], [cluster_update_route_by_addr] and
    [node_get_by_ask_error_reply] to the proof. *)

From S2P Require Import Prelude Effects Hiutil Hiarray Reply Sds Dict Command CommandParser ClusterSlot ClusterFragment ClusterMerge ClusterNode ClusterTopology ClusterUpdate ClusterExec ClusterPipeline.

Section loops.
Context {W Ctx : Type} `{Transport W Ctx} `{AsyncConns W Ctx} (R : relation (sys W Ctx)) `{!PreOrder R}.

Lemma keeps_dict_each {L} d (f : L -> bytes * ptr -> prog (sys W Ctx) (flow L)) x :
  (forall x de, keeps R (f x de)) -> keeps R (dict_each d f x).
Proof.
  intros Hf. unfold dict_each. generalize (Z.to_nat (used d)). intros n.
  generalize (dictGetIterator : dictIterator bytes ptr). revert x. induction (S n) as [|m IH];
    intros x it; cbn [dict_loop]; keeps_steps.
Qed.

Lemma keeps_load p : keeps R (load p).
Proof. intros st a st' E. unfold load in E. destruct (heap st !! p); by simplify_eq/=. Qed.

Lemma keeps_get_cc : keeps R get_cc.
Proof. apply keeps_gets, _. Qed.

Lemma keeps_split alloc str c : keeps R (split alloc str c).
Proof. unfold split. keeps_steps. Qed.

Lemma keeps_release it : keeps R (release it).
Proof. unfold release. keeps_steps. Qed.

Lemma keeps_get_err c : keeps R (get_err c).
Proof. unfold get_err. keeps_steps. Qed.

Lemma keeps_get_node sl : keeps R (get_node sl).
Proof. unfold get_node, get_cc. keeps_steps. Qed.
End loops.
#[export] Hint Resolve keeps_load keeps_get_cc keeps_split keeps_release keeps_get_err keeps_get_node : keeps.
#[export] Hint Extern 2 (keeps ?R (dict_each _ _ _)) => apply (keeps_dict_each R); intros; keeps_steps : keeps.

(** ** Parsing, the route, connections

    [R] does not look at most fields of the context. *)

(** An assignment that leaves the counters of the context alone. *)
Definition routing (f : redisClusterContext -> redisClusterContext) : Prop := forall cc,
  retry_count (f cc) = retry_count cc /\ max_redirect_count (f cc) = max_redirect_count cc.

(** The calls of the transport that these functions make. *)
Inductive transported {W Ctx : Type} `{Transport W Ctx} : forall A : Type, (W -> A * W) -> Prop :=
| TrConnect h p : transported _ (redisConnect h p)
| TrConnectWithTimeout h p tv : transported _ (redisConnectWithTimeout h p tv)
| TrReconnect c : transported _ (redisReconnect c)
| TrSetTimeout c tv : transported _ (redisSetTimeout c tv)
| TrFree c : transported _ (fun w => ((), redisFree c w))
| TrCommand c d : transported _ (redisCommand c d).
Arguments transported {W Ctx _ A}.

Lemma keeps_no_async_free {W Ctx} (R : relation (sys W Ctx)) `{!PreOrder R} a :
  keeps R (redisAsyncFree (AsyncConns := no_async) a).
Proof. apply keeps_ret, _. Qed.
Lemma keeps_no_async_data {W Ctx} (R : relation (sys W Ctx)) `{!PreOrder R} a p :
  keeps R (set_actx_data (AsyncConns := no_async) a p).
Proof. apply keeps_ret, _. Qed.
#[export] Hint Resolve keeps_no_async_free keeps_no_async_data : keeps.

Section route.
Context {W Ctx : Type} `{Transport W Ctx} `{AsyncConns W Ctx} (R : relation (sys W Ctx)) `{!PreOrder R}.
Context (malloc_ok : Z -> bool) (alloc : Z -> option bytes).
Context (Hupd : forall f, routing f -> keeps R (upd_cc f)).
Context (Hcall : forall A (f : W -> A * W), transported f -> keeps R (call f)).
Context (Hstore : forall p n, keeps R (store p n)).
Context (Hfree : forall p, keeps R (free_node p)).
Context (Halloc : keeps R (alloc_node malloc_ok)).
Context (Hafree : forall a, keeps R (redisAsyncFree a)).
Context (Hdata : forall a p, keeps R (set_actx_data a p)).
#[local] Hint Resolve Hstore Hfree Halloc Hafree Hdata : keeps.
#[local] Hint Extern 1 (Effects.keeps _ (call _)) => apply Hcall; constructor : keeps.
#[local] Hint Extern 1 (Effects.keeps _ (upd_cc _)) => apply Hupd; intros ?; done : keeps.

Lemma keeps_err e str : keeps R (__redisClusterSetError e str).
Proof. by apply Hupd. Qed.
Lemma keeps_clear : keeps R clear_err.
Proof. apply Hupd. intros cc. by destruct (negb _). Qed.
#[local] Hint Resolve keeps_err keeps_clear : keeps.

Lemma keeps_connect_to h p : keeps R (connect h p).
Proof. unfold connect. keeps_steps. Qed.
Lemma keeps_timeout c : keeps R (set_timeout_if_ok c).
Proof. unfold set_timeout_if_ok. keeps_steps. Qed.
Lemma keeps_slot_region (e : redisReply) : keeps R (region_node e).
Proof. unfold region_node, slots_error. keeps_steps. Qed.
#[local] Hint Resolve keeps_connect_to keeps_timeout keeps_slot_region : keeps.

Lemma keeps_node_deinit fuel : forall p, keeps R (node_deinit fuel p).
Proof. induction fuel as [|fuel IH]; intros p; cbn [node_deinit]; keeps_steps. Qed.
#[local] Hint Resolve keeps_node_deinit : keeps.

Lemma keeps_node_destroy p : keeps R (node_destroy p).
Proof. unfold node_destroy, cluster_node_deinit. keeps_steps. Qed.
#[local] Hint Resolve keeps_node_destroy : keeps.

Lemma keeps_release_nodes d : keeps R (release_nodes d).
Proof. unfold release_nodes. keeps_steps. Qed.
#[local] Hint Resolve keeps_release_nodes : keeps.

(** *** Parsing *)

Lemma keeps_slot_create p a b : keeps R (cluster_slot_create malloc_ok p a b).
Proof. unfold cluster_slot_create. keeps_steps. Qed.
Lemma keeps_slot_ref a b p : keeps R (cluster_slot_ref_node malloc_ok a b p).
Proof. unfold cluster_slot_ref_node. keeps_steps. Qed.
#[local] Hint Resolve keeps_slot_create keeps_slot_ref : keeps.

Lemma keeps_add_open_slot p t0 t1 t2 : keeps R (add_open_slot malloc_ok p t0 t1 t2).
Proof. unfold add_open_slot, sds_range. keeps_steps. Qed.
#[local] Hint Resolve keeps_add_open_slot : keeps.

Lemma keeps_add_slots fl p part : keeps R (add_slots malloc_ok alloc fl p part).
Proof. unfold add_slots. keeps_steps. Qed.
#[local] Hint Resolve keeps_add_slots : keeps.

Lemma keeps_add_all_slots fl p parts : keeps R (add_all_slots malloc_ok alloc fl p parts).
Proof. induction parts as [|part parts IH]; cbn [add_all_slots]; keeps_steps. Qed.
#[local] Hint Resolve keeps_add_all_slots : keeps.

Lemma keeps_node_get_with_nodes infos r : keeps R (node_get_with_nodes malloc_ok alloc infos r).
Proof. unfold node_get_with_nodes. keeps_steps. Qed.
Lemma keeps_mapping names p nm : keeps R (cluster_master_slave_mapping_with_name malloc_ok names p nm).
Proof. unfold cluster_master_slave_mapping_with_name. keeps_steps. Qed.
#[local] Hint Resolve keeps_node_get_with_nodes keeps_mapping : keeps.

Lemma keeps_nodes_line fl l line : keeps R (nodes_line malloc_ok alloc fl l line).
Proof. unfold nodes_line, add_master, add_slave. keeps_steps. Qed.
#[local] Hint Resolve keeps_nodes_line : keeps.

Lemma keeps_nodes_loop fuel fl str last : forall start pos l,
  keeps R (nodes_loop malloc_ok alloc fuel fl str last start pos l).
Proof. induction fuel as [|fuel IH]; intros; cbn [nodes_loop]; keeps_steps. Qed.
#[local] Hint Resolve keeps_nodes_loop : keeps.

Lemma keeps_parse_cluster_nodes str n fl : keeps R (parse_cluster_nodes malloc_ok alloc str n fl).
Proof. unfold parse_cluster_nodes. keeps_steps. Qed.

Lemma keeps_node_get_with_slots h p r : keeps R (node_get_with_slots malloc_ok h p r).
Proof. unfold node_get_with_slots, slots_error. keeps_steps. Qed.
#[local] Hint Resolve keeps_parse_cluster_nodes keeps_node_get_with_slots : keeps.

Lemma keeps_region_slaves fl p l : forall n, keeps R (region_slaves malloc_ok fl p l n).
Proof.
  induction l as [|e l IH]; intros n; cbn [region_slaves];
    unfold region_slave, cluster_node_deinit; keeps_steps.
Qed.
#[local] Hint Resolve keeps_region_slaves : keeps.

Lemma keeps_slots_region fl d e : keeps R (slots_region malloc_ok fl d e).
Proof. unfold slots_region, region_master, slots_error, sub_reply. keeps_steps. Qed.
#[local] Hint Resolve keeps_slots_region : keeps.

Lemma keeps_slots_loop fl l : forall n d, keeps R (slots_loop malloc_ok fl l n d).
Proof. induction l as [|e l IH]; intros n d; cbn [slots_loop]; keeps_steps. Qed.
#[local] Hint Resolve keeps_slots_loop : keeps.

Lemma keeps_parse_cluster_slots r fl : keeps R (parse_cluster_slots malloc_ok r fl).
Proof. unfold parse_cluster_slots, slots_error. keeps_steps. Qed.
#[local] Hint Resolve keeps_parse_cluster_slots : keeps.

(** *** The route *)

Lemma keeps_swap_ctx a b : keeps R (cluster_nodes_swap_ctx a b).
Proof. unfold cluster_nodes_swap_ctx, swap_node, swap_con, swap_acon. keeps_steps. Qed.
#[local] Hint Resolve keeps_swap_ctx : keeps.

Lemma keeps_push_slots sl : forall l, keeps R (push_slots malloc_ok l sl).
Proof. induction sl as [|x sl IH]; intros l; cbn [push_slots]; keeps_steps. Qed.
#[local] Hint Resolve keeps_push_slots : keeps.

Lemma keeps_fetch_slots c : keeps R (fetch_slots malloc_ok c).
Proof. unfold fetch_slots. keeps_steps. Qed.
Lemma keeps_fetch_nodes c : keeps R (fetch_nodes malloc_ok alloc c).
Proof. unfold fetch_nodes. keeps_steps. Qed.
Lemma keeps_update_failed c d a b : keeps R (update_failed c d a b).
Proof. unfold update_failed. keeps_steps. Qed.
#[local] Hint Resolve keeps_fetch_slots keeps_fetch_nodes keeps_update_failed : keeps.

Lemma keeps_install_route c d : keeps R (install_route malloc_ok c d).
Proof. unfold install_route, gather_master. keeps_steps. Qed.
#[local] Hint Resolve keeps_install_route : keeps.

Lemma keeps_route_by_addr h p : keeps R (cluster_update_route_by_addr malloc_ok alloc h p).
Proof. unfold cluster_update_route_by_addr. keeps_steps. Qed.
#[local] Hint Resolve keeps_route_by_addr : keeps.

(** *** Connections and redirections *)

Lemma keeps_ctx_get p : keeps R (ctx_get_by_node p).
Proof. unfold ctx_get_by_node. keeps_steps. Qed.
#[local] Hint Resolve keeps_ctx_get : keeps.

Lemma keeps_ask r : keeps R (node_get_by_ask_error_reply malloc_ok alloc r).
Proof. unfold node_get_by_ask_error_reply. keeps_steps. Qed.
#[local] Hint Resolve keeps_ask : keeps.

(** *** From these: the whole route, and the configuration *)

Lemma keeps_whole_route : keeps R (cluster_update_route malloc_ok alloc).
Proof. unfold cluster_update_route, try_node. keeps_steps. Qed.
Lemma keeps_pinged : keeps R node_get_witch_connected.
Proof. unfold node_get_witch_connected, ping_node. keeps_steps. Qed.
#[local] Hint Resolve keeps_pinged : keeps.
Lemma keeps_config_get name : keeps R (cluster_config_get name).
Proof. unfold cluster_config_get. keeps_steps. Qed.
End route.

(** ** Errors and the transport *)

Section transport.
Context {W Ctx : Type} `{Transport W Ctx} `{AsyncConns W Ctx} (R : relation (sys W Ctx)) `{!PreOrder R}.
Context (Herr : forall e str, keeps R (__redisClusterSetError e str)).
Context (Hclear : keeps R clear_err).
Context (Hcall : forall A (f : W -> A * W), keeps R (call f)).
#[local] Hint Resolve Herr Hclear Hcall : keeps.

Lemma keeps_connect h p : keeps R (connect h p).
Proof. unfold connect. keeps_steps. Qed.
Lemma keeps_copy_err c : keeps R (copy_err c).
Proof. unfold copy_err. keeps_steps. Qed.
Lemma keeps_set_timeout_if_ok c : keeps R (set_timeout_if_ok c).
Proof. unfold set_timeout_if_ok. keeps_steps. Qed.
Lemma keeps_block c : keeps R (__redisBlockForReply c).
Proof. unfold __redisBlockForReply. keeps_steps. Qed.
Lemma keeps_format_by_slot malloc_ok command cmd_id num_str :
  keeps R (format_by_slot malloc_ok command cmd_id num_str).
Proof. unfold format_by_slot. keeps_steps. Qed.
Lemma keeps_merge malloc_ok r l : keeps R (merge malloc_ok r l).
Proof. unfold merge. keeps_steps. Qed.
#[local] Hint Resolve keeps_connect keeps_copy_err keeps_set_timeout_if_ok keeps_block
  keeps_format_by_slot keeps_merge : keeps.

Lemma keeps_region_node (e : redisReply) : keeps R (region_node e).
Proof. unfold region_node, slots_error. keeps_steps. Qed.

Lemma keeps_write_all fuel : forall c, keeps R (write_all fuel c).
Proof. induction fuel as [|fuel IH]; intros c; cbn [write_all]; keeps_steps. Qed.
#[local] Hint Resolve keeps_write_all : keeps.

(** ** The executor, from its parts *)

Context (malloc_ok : Z -> bool) (alloc : Z -> option bytes).
Context (Hupdate : forall h p, keeps R (cluster_update_route_by_addr malloc_ok alloc h p)).
Context (Hctx : forall p, keeps R (ctx_get_by_node p)).
Context (Hask : forall r, keeps R (node_get_by_ask_error_reply malloc_ok alloc r)).
#[local] Hint Resolve Hupdate Hctx Hask : keeps.

Lemma keeps_update_route : keeps R (cluster_update_route malloc_ok alloc).
Proof. unfold cluster_update_route, try_node. keeps_steps. Qed.

Lemma keeps_witch_connected : keeps R node_get_witch_connected.
Proof. unfold node_get_witch_connected, ping_node. keeps_steps. Qed.
#[local] Hint Resolve keeps_update_route keeps_witch_connected : keeps.

Lemma keeps_follow_ask r : keeps R (follow_ask malloc_ok alloc r).
Proof. unfold follow_ask. keeps_steps. Qed.
#[local] Hint Resolve keeps_follow_ask : keeps.
End transport.
#[export] Hint Resolve keeps_connect keeps_copy_err keeps_set_timeout_if_ok keeps_block
  keeps_format_by_slot keeps_merge keeps_region_node keeps_write_all keeps_update_route
  keeps_witch_connected keeps_follow_ask : keeps.
