(* ===== verification/ClusterExecSpec.v ===== *)
(** * Executing commands: termination and results

    The retry counter is only changed by the executor: every jump back
    increments it, so the loop ends.  Whatever is returned is not a
    redirection. *)

From S2P Require Import Prelude Effects Hiutil Hiarray Reply Sds Dict Command CommandParser Resp ClusterSlot ClusterFragment ClusterMerge ClusterNode ClusterTopology ClusterUpdate ClusterExec ClusterFrame Script.

#[local] Existing Instance no_async.

Section frame.
Context {W Ctx : Type} `{Transport W Ctx}.
Context (malloc_ok : Z -> bool) (alloc : Z -> option bytes).
Implicit Types (st : sys W Ctx).

(** The counters of the context are as before. *)
Definition same_counters : relation (sys W Ctx) := fun st st' =>
  retry_count (s_cc st') = retry_count (s_cc st) /\
  max_redirect_count (s_cc st') = max_redirect_count (s_cc st).

#[local] Instance same_counters_preorder : PreOrder same_counters.
Proof. split; [done|]. intros x y z [? ?] [? ?]. split; congruence. Qed.

Abbreviation keeps := (keeps same_counters).

Lemma keeps_upd_cc f :
  (forall cc, retry_count (f cc) = retry_count cc /\ max_redirect_count (f cc) = max_redirect_count cc) ->
  keeps (upd_cc f).
Proof. intros Hf. apply keeps_modify. intros st. apply Hf. Qed.

Lemma keeps_set_error e str : keeps (__redisClusterSetError e str).
Proof. by apply keeps_upd_cc. Qed.

Lemma keeps_clear_err : keeps clear_err.
Proof. apply keeps_upd_cc. intros cc. by destruct (negb _). Qed.

Lemma keeps_call {A} (f : W -> A * W) : keeps (call f).
Proof. intros st a st' E. unfold call in E. destruct (f (world st)). by simplify_eq. Qed.

Lemma keeps_store p n : keeps (store p n).
Proof. intros st a st' E. unfold store in E. destruct (heap st !! p); by simplify_eq/=. Qed.

Lemma keeps_free_node p : keeps (free_node p).
Proof. intros st a st' E. unfold free_node in E. destruct (heap st !! p); by simplify_eq/=. Qed.

Lemma keeps_alloc_node : keeps (alloc_node malloc_ok).
Proof. intros st a st' E. unfold alloc_node in E. destruct (malloc_ok _); by simplify_eq/=. Qed.

#[local] Hint Resolve keeps_set_error keeps_clear_err keeps_call keeps_store keeps_free_node
  keeps_alloc_node same_counters_preorder : keeps.

Lemma keeps_upd_route_cc f : routing f -> keeps (upd_cc f).
Proof. intros Hf. apply keeps_upd_cc, Hf. Qed.
#[local] Hint Resolve keeps_upd_route_cc : keeps.

Lemma keeps_update_by_addr h p : keeps (cluster_update_route_by_addr malloc_ok alloc h p).
Proof. apply keeps_route_by_addr; auto with keeps. Qed.
Lemma keeps_ctx_get_by_node p : keeps (ctx_get_by_node p).
Proof. apply keeps_ctx_get; auto with keeps. Qed.
Lemma keeps_ask_node r : keeps (node_get_by_ask_error_reply malloc_ok alloc r).
Proof. apply keeps_ask; auto with keeps. Qed.
#[local] Hint Resolve keeps_update_by_addr keeps_ctx_get_by_node keeps_ask_node : keeps.

(** ** The executor *)

(** The counters are [mx] and [k]. *)
Definition counters (mx k : Z) st : Prop :=
  max_redirect_count (s_cc st) = mx /\ retry_count (s_cc st) = k.

Lemma keeps_counters {A} (m : prog (sys W Ctx) A) mx k st :
  keeps m -> counters mx k st -> wlp m (fun _ => counters mx k) st.
Proof. intros Hm [<- <-] a st' Ha. destruct (Hm _ _ _ Ha). by split. Qed.

(** Step over a program that keeps the counters. *)
Ltac skip :=
  apply wlp_bind; eapply wlp_mono;
    [apply keeps_counters; [solve [eauto with keeps typeclass_instances]|eassumption]|];
  let Hc := fresh "Hc" in intros ? ? Hc; cbn beta in Hc |- *.

Lemma count_retry_spec mx k st :
  counters mx k st -> k < 2 ^ 31 - 1 -> - 2 ^ 31 <= k ->
  wlp count_retry (fun over st' => over = (mx <? k + 1) /\ counters mx (k + 1) st') st.
Proof.
  intros [Hm Hk] Hb Hb'. unfold count_retry, upd_cc, get_cc. wlp_steps.
  cbn [max_redirect_count retry_count with_retry with_cc s_cc]. rewrite Hm, Hk.
  rewrite i32_small by lia. split; [done|]. by split; cbn; rewrite ?Hk, ?i32_small by lia.
Qed.

(** A step that jumps has counted a retry and is still within the maximum. *)
Definition jump_ok (mx k : Z) (r : exec_result Ctx) st : Prop :=
  match r with
  | Jump _ => exists k', k < k' <= mx /\ counters mx k' st
  | Return (Some reply) => is_redirection (cluster_reply_error_type (Some reply)) = false /\
                           exists k', (k' = k \/ k < k' <= mx) /\ counters mx k' st
  | Return None => True
  end.

Lemma find_connection_spec command mx k st :
  counters mx k st -> 0 <= k < 2 ^ 31 - 1 ->
  wlp (find_connection command) (fun r st' =>
    r = None \/ counters mx k st' \/ (k + 1 <= mx /\ counters mx (k + 1) st')) st.
Proof.
  intros Hc Hk. unfold find_connection. skip.
  case_match; [|skip; apply wlp_ret; tauto].
  skip. case_match; [|skip; apply wlp_ret; tauto].
  skip. case_match; [apply wlp_ret; tauto|].
  skip. case_match; [|skip; apply wlp_ret; tauto].
  apply wlp_bind. eapply wlp_mono; [eapply count_retry_spec; [eassumption|lia|lia]|].
  intros over st9 [-> Hc9]. cbn beta.
  destruct (Z.ltb_spec mx (k + 1)); [skip; apply wlp_ret; tauto|].
  skip. case_match; [|skip; apply wlp_ret; tauto].
  skip. case_match; [skip|]; apply wlp_ret; tauto.
Qed.

(** Following an ASK keeps the counters and returns no reply. *)
Lemma follow_ask_return reply st :
  wlp (follow_ask malloc_ok alloc reply) (fun r _ => forall x, r <> Return (Some x)) st.
Proof.
  unfold follow_ask. apply wlp_bind. intros [p|] st1 _; [|by apply wlp_ret].
  apply wlp_bind. intros [c|] st2 _.
  - apply wlp_bind. intros e st3 _. destruct (negb _).
    + apply wlp_bind. intros [] st4 _. by apply wlp_ret.
    + apply wlp_bind. intros [r|] st4 _; [by apply wlp_ret|].
      apply wlp_bind. intros [] st5 _. by apply wlp_ret.
  - apply wlp_bind. intros [] st3 _. by apply wlp_ret.
Qed.

Lemma on_reply_spec reply mx k st :
  counters mx k st -> 0 <= k < 2 ^ 31 - 1 ->
  wlp (on_reply malloc_ok alloc reply) (jump_ok mx k) st.
Proof.
  intros Hc Hk. unfold on_reply. destruct (is_redirection _) eqn:E.
  2:{ apply wlp_ret. split; [done|]. exists k. tauto. }
  apply wlp_bind. eapply wlp_mono; [eapply count_retry_spec; [eassumption|lia|lia]|].
  intros over st9 [-> Hc9]. cbn beta.
  destruct (Z.ltb_spec mx (k + 1)); [skip; by apply wlp_ret|].
  assert (forall l st1, counters mx (k + 1) st1 -> jump_ok mx k (Jump l) st1) as Hj.
  { intros l st1 Hl. exists (k + 1). split; [lia|done]. }
  case_match.
  - skip. case_match; [skip; by apply wlp_ret|].
    apply wlp_ret. auto.
  - case_match; [|apply wlp_ret; auto]. intros r st1 Hr.
    assert (keeps (follow_ask malloc_ok alloc reply)) as Hfollow by (eauto with keeps typeclass_instances).
    pose proof (Hfollow st9 r st1 Hr) as Hst.
    pose proof (follow_ask_return reply st9 r st1 Hr) as Hn.
    destruct r as [[x|]|l]; [by destruct (Hn x)|done|]. apply Hj.
    destruct Hst, Hc9. split; congruence.
Qed.

Lemma ask_retry_spec command c mx k st :
  counters mx k st -> 0 <= k < 2 ^ 31 - 1 ->
  wlp (ask_retry malloc_ok alloc command c) (jump_ok mx k) st.
Proof.
  intros Hc Hk. unfold ask_retry. skip. case_match; [skip; by apply wlp_ret|].
  skip. case_match; [|skip; by apply wlp_ret]. by apply on_reply_spec.
Qed.

Lemma execute_step_spec command l mx k st :
  counters mx k st -> mx < 2 ^ 31 - 1 -> 0 <= k < 2 ^ 31 - 1 ->
  wlp (execute_step malloc_ok alloc command l) (jump_ok mx k) st.
Proof.
  intros Hc Hmx Hk. destruct l as [|c]; cbn [execute_step]; [|by apply ask_retry_spec].
  apply wlp_bind. eapply wlp_mono; [by apply (find_connection_spec _ mx k)|].
  intros [c|] st1 Hc1; [|by apply wlp_ret].
  destruct Hc1 as [|[Hc1|[Hle Hc1]]]; [done|by apply ask_retry_spec|].
  eapply wlp_mono; [apply ask_retry_spec; [exact Hc1|lia]|].
  intros [[x|]|l] st' Hj; [|done|].
  - destruct Hj as (Hr & k' & Hk' & Hj). split; [done|]. exists k'. split; [lia|done].
  - destruct Hj as (k' & Hk' & Hj). exists k'. split; [lia|done].
Qed.

(** What [execute] gives: a reply that is not a redirection, with the counter
    still within the maximum, or NULL. *)
Definition executed (mx k : Z) (r : option (option redisReply)) st : Prop :=
  exists reply, r = Some reply /\
    forall x, reply = Some x -> is_redirection (cluster_reply_error_type (Some x)) = false /\
      exists k', (k' = k \/ k < k' <= mx) /\ counters mx k' st.

Lemma execute_spec command fuel : forall l mx k st,
  counters mx k st -> mx < 2 ^ 31 - 1 -> 0 <= k < 2 ^ 31 - 1 -> Z.max 0 (mx - k) < Z.of_nat fuel ->
  wlp (execute malloc_ok alloc fuel command l) (executed mx k) st.
Proof.
  induction fuel as [|fuel IH]; intros l mx k st Hc Hmx Hk Hf; [lia|]. cbn [execute].
  apply wlp_bind. eapply wlp_mono; [by apply (execute_step_spec _ _ mx k)|].
  intros [reply|l'] st' Hr.
  - apply wlp_ret. exists reply. split; [done|]. by intros x ->.
  - destruct Hr as (k' & Hk' & Hc').
    eapply wlp_mono; [eapply (IH l' mx k'); [done|done|lia|lia]|].
    intros r st2 (reply & -> & Hx). exists reply. split; [done|]. intros x Hrx.
    destruct (Hx x Hrx) as (Hn & k2 & Hk2 & Hc2). split; [done|]. exists k2. split; [lia|done].
Qed.

Lemma execute_command_spec command mx k st :
  counters mx k st -> mx < 2 ^ 31 - 1 -> 0 <= k < 2 ^ 31 - 1 ->
  wlp (redis_cluster_command_execute malloc_ok alloc command) (executed mx k) st.
Proof.
  intros Hc Hmx Hk. unfold redis_cluster_command_execute, get_cc. apply wlp_bind, wlp_gets.
  destruct Hc as [Hm Hr]. apply execute_spec; [done|done|done|].
  unfold execute_fuel. rewrite Hm, Hr. lia.
Qed.

Definition not_error (r : Z * option redisReply) : Prop :=
  exists x, r.2 = Some x /\ rtype x <> REDIS_REPLY_ERROR.

Lemma execute_all_spec l mx : forall k done st,
  counters mx k st -> mx < 2 ^ 31 - 1 -> 0 <= k < 2 ^ 31 - 1 -> Forall not_error done ->
  wlp (execute_all malloc_ok alloc l done) (fun r _ =>
    match r with
    | None => False
    | Some (inl reply) => forall x, reply = Some x ->
        is_redirection (cluster_reply_error_type (Some x)) = false
    | Some (inr replies) => Forall not_error replies
    end) st.
Proof.
  induction l as [|sub l IH]; intros k acc st Hc Hmx Hk Hd; cbn [execute_all]; [by apply wlp_ret|].
  apply wlp_bind. eapply wlp_mono; [by apply (execute_command_spec sub mx k)|].
  intros r st' (reply & -> & Hr). destruct reply as [x|]; [|by apply wlp_ret].
  destruct (Hr x eq_refl) as (Hn & k' & Hk' & Hc').
  destruct (Z.eqb_spec (rtype x) REDIS_REPLY_ERROR) as [|Hne].
  { apply wlp_ret. by intros y [= <-]. }
  apply (IH k'); [done|done|lia|]. apply Forall_app. split; [done|]. repeat constructor.
  by exists x.
Qed.

(** Merging replies none of which is an error gives no error. *)
Lemma check_replies_no_error t l : Forall not_error l -> forall count x,
  check_replies t (map snd l) count <> inl (PostReply x).
Proof.
  induction 1 as [|[sl o] l (y & Hy & Hn) _ IH]; intros count x; [done|]. cbn in Hy. subst o.
  cbn [check_replies map snd]. destruct (Z.eqb_spec (rtype y) REDIS_REPLY_ERROR); [done|].
  destruct t; try apply IH; destruct (negb _ || _ || _) || destruct (negb _); try done; apply IH.
Qed.

Lemma take_elements_no_reply seq : forall held x, take_elements seq held <> inr (PostReply x).
Proof.
  induction seq as [|sl seq IH]; intros held x; cbn [take_elements]; [done|].
  repeat (case_match; try done); by intros [= ->]; eapply IH.
Qed.

Lemma post_fragment_no_error ok t seq l x :
  Forall not_error l -> command_post_fragment ok t seq l = PostReply x -> rtype x <> REDIS_REPLY_ERROR.
Proof.
  intros Hl. unfold command_post_fragment.
  destruct (check_replies t (map snd l) 0) as [r|count] eqn:E.
  { intros ->. by destruct (check_replies_no_error t l Hl 0 x). }
  destruct ok; cbn [negb]; [|done].
  destruct t; try (by intros [= <-]).
  destruct seq as [seq|]; [|done]. destruct (take_elements _ _) as [k|r] eqn:Et; [by intros [= <-]|].
  intros ->. by destruct (take_elements_no_reply _ _ _ Et).
Qed.

Lemma not_error_no_redirection x :
  rtype x <> REDIS_REPLY_ERROR -> is_redirection (cluster_reply_error_type (Some x)) = false.
Proof. intros Hx. cbn. by destruct (Z.eqb_spec (rtype x) REDIS_REPLY_ERROR). Qed.

Lemma merge_spec r l st :
  Forall not_error l ->
  wlp (merge malloc_ok r l) (fun o _ => forall x, o = Some x ->
    is_redirection (cluster_reply_error_type (Some x)) = false) st.
Proof.
  intros Hl. unfold merge. destruct (command_post_fragment _ _ _ _) as [x|[[e str]|]|] eqn:E.
  - apply wlp_ret. intros y [= <-]. by apply not_error_no_redirection, (post_fragment_no_error _ _ _ _ _ Hl E).
  - apply wlp_bind. intros a st' _. by apply wlp_ret.
  - by apply wlp_ret.
  - apply wlp_fault.
Qed.

Lemma keeps_format command cmd_id num_str : keeps (format_by_slot malloc_ok command cmd_id num_str).
Proof. eauto with keeps typeclass_instances. Qed.

Lemma run_formatted_spec fm mx k st :
  counters mx k st -> mx < 2 ^ 31 - 1 -> 0 <= k < 2 ^ 31 - 1 ->
  wlp (run_formatted malloc_ok alloc fm) (fun r _ => exists reply, r = Some reply /\
    forall x, reply = Some x -> is_redirection (cluster_reply_error_type (Some x)) = false) st.
Proof.
  intros Hc Hmx Hk. unfold run_formatted. destruct (_ <? 0); [apply wlp_ret; by exists None|].
  destruct (_ <=? _); [apply wlp_bind; intros ? ? _; apply wlp_ret; by exists None|].
  destruct (fm_commands fm) as [|sub l] eqn:E.
  - eapply wlp_mono; [by apply (execute_command_spec _ mx k)|].
    intros r st' (reply & -> & Hr). exists reply. split; [done|]. intros x Hx. apply (Hr x Hx).
  - apply wlp_bind. eapply wlp_mono; [by apply (execute_all_spec _ mx k)|].
    intros [[reply|replies]|] st' Hr; [apply wlp_ret; by exists reply| |done].
    apply wlp_bind. eapply wlp_mono; [by apply merge_spec|]. intros o st2 Ho. apply wlp_ret. by exists o.
Qed.
End frame.

(** C3: executing a command ends, whatever the servers answer: within the
    bound of [execute_fuel] jumps there is a result.  A reply that is returned is
    never a MOVED, ASK, TRYAGAIN, CROSSSLOT or CLUSTERDOWN error, for a split
    command neither; and the counter is reset. *)
Theorem redisClusterFormattedCommand_terminates {W Ctx} `{Transport W Ctx} malloc_ok alloc data cmd_id
  num_str (st st' : sys W Ctx) o :
  max_redirect_count (s_cc st) < 2 ^ 31 - 1 -> 0 <= retry_count (s_cc st) < 2 ^ 31 - 1 ->
  redisClusterFormattedCommand malloc_ok alloc data cmd_id num_str st = Some (o, st') ->
  exists reply, o = Some reply /\
    (forall x, reply = Some x -> is_redirection (cluster_reply_error_type (Some x)) = false) /\
    (command_get malloc_ok cmd_id <> None -> retry_count (s_cc st') = 0).
Proof.
  intros Hmx Hk. revert o st'.
  change (wlp (redisClusterFormattedCommand malloc_ok alloc data cmd_id num_str) (fun o st' =>
    exists reply, o = Some reply /\
      (forall x, reply = Some x -> is_redirection (cluster_reply_error_type (Some x)) = false) /\
      (command_get malloc_ok cmd_id <> None -> retry_count (s_cc st') = 0)) st).
  assert (counters (max_redirect_count (s_cc st)) (retry_count (s_cc st)) st) as Hc by by split.
  unfold redisClusterFormattedCommand. apply wlp_bind.
  eapply wlp_mono; [apply keeps_counters; [apply keeps_clear_err|exact Hc]|]. intros [] st1 Hc1.
  destruct (command_get malloc_ok cmd_id) as [command|]; [|apply wlp_bind; intros ? ? _; apply wlp_ret; by exists None].
  apply wlp_bind. eapply wlp_mono with (Q := fun o _ => exists reply, o = Some reply /\
    forall x, reply = Some x -> is_redirection (cluster_reply_error_type (Some x)) = false).
  - destruct (negb _); [apply wlp_bind; intros ? ? _; apply wlp_ret; by exists None|]. apply wlp_bind.
    eapply wlp_mono; [apply keeps_counters; [apply keeps_format|exact Hc1]|].
    intros fm st2 Hc2. eapply run_formatted_spec; [exact Hc2|exact Hmx|exact Hk].
  - intros o st2 (reply & -> & Hr). apply wlp_bind. unfold upd_cc. apply wlp_modify. apply wlp_ret.
    by exists reply.
Qed.

(** A server that answers TRYAGAIN every time. *)
Definition busy_sys : sys script (bytes * Z) :=
  mk_sys (mk_cc 0 [] None 0 REDIS_BLOCK None None None None {[12182 := 1]} 0 5 0 None 0 0)
    {[1 := mk_node None (Some (s "a:1")) (Some (s "a")) 1 REDIS_ROLE_MASTER 0 (Some (s "a", 1)) None
             None None 0 None None]} 2
    (mk_script (repeat (Some (createStringObject REDIS_REPLY_ERROR (s "TRYAGAIN later"))) 9) []).

Lemma redisClusterFormattedCommand_terminates_witness :
  exists o st', redisClusterFormattedCommand (fun _ => true) (fun _ => None) (request [s "GET"; s "foo"]) 0
      (repeat NUL 12) busy_sys = Some (o, st') /\
    exists reply, o = Some reply /\
    (forall x, reply = Some x -> is_redirection (cluster_reply_error_type (Some x)) = false) /\
    (command_get (fun _ => true) 0 <> None -> retry_count (s_cc st') = 0).
Proof.
  destruct (redisClusterFormattedCommand (fun _ => true) (fun _ => None) (request [s "GET"; s "foo"]) 0
    (repeat NUL 12) busy_sys) as [[o st']|] eqn:E; [|vm_compute in E; discriminate].
  exists o, st'. split; [reflexivity|].
  apply (redisClusterFormattedCommand_terminates (fun _ => true) (fun _ => None)
    (request [s "GET"; s "foo"]) 0 (repeat NUL 12) busy_sys st' o); [zcompute|zcompute|exact E].
Defined.

(** It gives up: the sixth answer is one too many. *)
Example busy_gives_up :
  (fun r => (r.1, err (s_cc r.2), length (replies (world r.2)))) <$>
    redisClusterFormattedCommand (fun _ => true) (fun _ => None) (request [s "GET"; s "foo"]) 0
      (repeat NUL 12) busy_sys
  = Some (Some None, REDIS_ERR_CLUSTER_TOO_MANY_REDIRECT, 3%nat).
Proof. vm_compute. reflexivity. Qed.
