(* ===== verification/ClusterTopologySpec.v ===== *)
(** * Reading CLUSTER NODES

    [parse_cluster_nodes] on the text that a server prints for a topology: the
    dictionary has the addresses of the masters, each with a new node object that
    holds its name, address, host, port and slots; lines of other nodes are
    skipped.  Allocations succeed here; slaves and open slots are not asked for. *)

From S2P Require Import Prelude Effects Hiutil Hiarray Reply Sds SdsSpec Dict DictSpec Command ClusterSlot ClusterNode ClusterTopology ClusterUpdate.

#[local] Existing Instance no_async.

(** ** What a server prints *)

Inductive slot_spec :=
| OneSlot (n : Z)
| SlotRange (a b : Z)
| OpenSlot (n : Z) (migrating : bool) (id : bytes).

Definition SP : ascii := " ".

Definition slot_text (sp : slot_spec) : bytes :=
  match sp with
  | OneSlot n => dec n
  | SlotRange a b => dec a ++ s "-" ++ dec b
  | OpenSlot n m id => s "[" ++ dec n ++ s "-" ++ [if m then ">"%char else "<"%char] ++ s "-" ++ id ++ s "]"
  end.
Definition ranges (sp : slot_spec) : list (Z * Z) :=
  match sp with
  | OneSlot n => [(n, n)]
  | SlotRange a b => [(a, b)]
  | OpenSlot _ _ _ => []
  end.

(** A field of a line: no separator in it. *)
Definition field (f : bytes) : Prop := (SP ∉ f) /\ (LF ∉ f).
Definition slot_ok (sp : slot_spec) : Prop :=
  match sp with
  | OneSlot n => 0 <= n < REDIS_CLUSTER_SLOTS
  | SlotRange a b => 0 <= a <= b /\ b < REDIS_CLUSTER_SLOTS
  | OpenSlot n _ id => 0 <= n < REDIS_CLUSTER_SLOTS /\ field id /\ "-"%char ∉ id
  end.

(** A master: [m_flags] is what follows ["master"] in its flags, [m_fields] are the
    five fields up to the link state. *)
Record master := mk_master {
  m_id : bytes;
  m_host : bytes;
  m_port : Z;
  m_self : bool;
  m_flags : bytes;
  m_fields : list bytes;
  m_slots : list slot_spec
}.
Definition m_addr (m : master) : bytes := m_host m ++ s ":" ++ dec (m_port m).
Definition m_ranges (m : master) : list (Z * Z) := concat (map ranges (m_slots m)).

Record master_ok (m : master) : Prop := {
  ok_id : field (m_id m);
  ok_host : field (m_host m);
  ok_colon : ":"%char ∉ m_host m;
  ok_nonempty : m_host m <> [];
  ok_port : 0 <= m_port m < 2 ^ 31;
  ok_flags : field (m_flags m);
  ok_fields : Forall field (m_fields m);
  ok_length : length (m_fields m) = 5%nat;
  ok_slots : Forall slot_ok (m_slots m)
}.

Definition head_parts (m : master) : list bytes :=
  [m_id m; m_addr m; (if m_self m then s "myself," else []) ++ s "master" ++ m_flags m] ++ m_fields m.
Definition master_parts (m : master) : list bytes := head_parts m ++ map slot_text (m_slots m).

(** A line of the reply: a master, or a node that is skipped. *)
Inductive entry := Master (m : master) | Other (parts : list bytes).
Definition parts_of (e : entry) : list bytes :=
  match e with Master m => master_parts m | Other parts => parts end.

(** The role in a flags field, as the parser reads it. *)
Definition role_of (flags : bytes) : bytes :=
  if prefix (s "myself,") flags then drop 7 flags else flags.

Definition entry_ok (e : entry) : Prop :=
  match e with
  | Master m => master_ok m
  | Other parts => Forall field parts /\ (8 <= length parts)%nat /\ head parts <> Some [] /\
      (parts !! 1%nat = Some (s ":0") \/
       exists f, parts !! 2%nat = Some f /\ prefix (s "master") (role_of f) = false)
  end.

Definition line (e : entry) : bytes := join_bytes [SP] (parts_of e) ++ [LF].
Definition text (l : list entry) : bytes := concat (map line l).

Fixpoint masters (l : list entry) : list master :=
  match l with
  | [] => []
  | Master m :: l' => m :: masters l'
  | Other _ :: l' => masters l'
  end.

(** ** Lists *)

Lemma split_on_app c l rest : forall cur, c ∉ l -> split_on c (l ++ rest) cur = split_on c rest (cur ++ l).
Proof.
  induction l as [|x l IH]; intros cur Hc; [by rewrite app_nil_r|]. cbn [app split_on].
  apply not_elem_of_cons in Hc as [Hx Hc]. rewrite bool_decide_eq_false_2 by congruence.
  rewrite IH by done. by rewrite <- app_assoc.
Qed.

Lemma split_on_join c parts :
  parts <> [] -> Forall (fun p => c ∉ p) parts -> split_on c (join_bytes [c] parts) [] = parts.
Proof.
  intros Hne Hp. induction Hp as [|p parts Hc Hp IH]; [done|]. clear Hne.
  destruct parts as [|q parts].
  - cbn [join_bytes]. rewrite <- (app_nil_r p) at 1. by rewrite split_on_app.
  - change (join_bytes [c] (p :: q :: parts)) with (p ++ c :: join_bytes [c] (q :: parts)).
    rewrite split_on_app by done. cbn [split_on app]. rewrite bool_decide_eq_true_2 by done.
    by rewrite IH.
Qed.

Lemma split_on_one c l : c ∉ l -> split_on c l [] = [l].
Proof. intros Hc. by apply (split_on_join c [l]); [|repeat constructor]. Qed.

Lemma split_on_two c l k : c ∉ l -> c ∉ k -> split_on c (l ++ [c] ++ k) [] = [l; k].
Proof. intros Hl Hk. by apply (split_on_join c [l; k]); [|repeat constructor]. Qed.

Lemma digits_free c l :
  isdigit c = false -> Forall (fun c => isdigit c = true) l -> c ∉ l.
Proof. intros Hc Hl Hin. rewrite Forall_forall in Hl. specialize (Hl c Hin). congruence. Qed.

Lemma dec_free c n : isdigit c = false -> 0 <= n -> c ∉ dec n.
Proof. intros Hc Hn. by apply digits_free, dec_digits. Qed.

Lemma prefix_app pat rest : prefix pat (pat ++ rest) = true.
Proof. unfold prefix. rewrite take_app_length. by apply bool_decide_eq_true. Qed.

Lemma slot_text_field sp : slot_ok sp -> field (slot_text sp) /\ slot_text sp <> [].
Proof.
  assert (forall n, 0 <= n -> field (dec n)) as Hd.
  { intros n Hn. split; by apply dec_free. }
  destruct sp as [n|a b|n m id]; cbn [slot_ok slot_text].
  - intros Hn. split; [apply Hd; lia|apply dec_nonempty].
  - intros Hab. destruct (Hd a ltac:(lia)), (Hd b ltac:(lia)). split; [split; set_solver|].
    by destruct (dec a) eqn:E; [apply dec_nonempty in E|].
  - intros (Hn & [Hi1 Hi2] & _). destruct (Hd n ltac:(lia)). split; [split|done]; destruct m; set_solver.
Qed.

Lemma head_parts_field m : master_ok m -> Forall field (head_parts m).
Proof.
  intros Hm. destruct (ok_id m Hm), (ok_host m Hm), (ok_flags m Hm).
  pose proof (dec_free SP (m_port m) eq_refl ltac:(apply Hm)).
  pose proof (dec_free LF (m_port m) eq_refl ltac:(apply Hm)).
  unfold head_parts, m_addr. repeat apply Forall_cons_2; [| | |apply Hm]; split; destruct (m_self m); set_solver.
Qed.

Lemma parts_field e : entry_ok e -> Forall field (parts_of e).
Proof.
  destruct e as [m|parts]; cbn [entry_ok parts_of]; [|tauto]. intros Hm. unfold master_parts.
  apply Forall_app. split; [by apply head_parts_field|].
  apply Forall_map. eapply Forall_impl; [apply (ok_slots m Hm)|]. intros sp Hsp. by apply slot_text_field.
Qed.

(** ** The parser *)

Section spec.
Context {W Ctx : Type} `{Transport W Ctx}.
Context (malloc_ok : Z -> bool) (Hmalloc : forall n, malloc_ok n = true).
Context (alloc : Z -> option bytes).
Context (Halloc : forall n b, 0 <= n -> alloc n = Some b -> zlen b = n) (Hmem : forall n, alloc n <> None).
Implicit Types (st : sys W Ctx) (p : ptr) (n : cluster_node Ctx) (d : dict bytes ptr).

Lemma split_spec str c st :
  0 < zlen str < 2 ^ 30 ->
  exists tokens, split alloc str c st = Some (Some tokens, st) /\ Forall sds_wf tokens /\
    map sds_value tokens = split_on c str [].
Proof.
  intros Hl. pose proof (sdssplitlen_spec alloc Halloc str c Hl) as Hs. unfold split.
  destruct (sdssplitlen _ _ _ _ _) as [tokens|e|]; [|by destruct Hs as [k ?%Hmem]|done].
  by exists tokens.
Qed.

Lemma numeral_token t k : sds_wf t -> sds_value t = dec k -> 0 <= k < 2 ^ 31 ->
  hi_atoi (sds_value t) (sds_len t) = k.
Proof.
  intros Hw Hv Hk. rewrite <- sds_value_zlen, Hv by done. by apply hi_atoi_numeral.
Qed.

Definition put_node st p n : sys W Ctx := with_heap st (<[p := n]> (heap st)).

Lemma load_eq st p n : heap st !! p = Some n -> load p st = Some (n, st).
Proof. intros Hp. unfold load. by rewrite Hp. Qed.

Lemma store_eq st p n n' : heap st !! p = Some n -> store p n' st = Some ((), put_node st p n').
Proof. intros Hp. unfold store. by rewrite Hp. Qed.

Lemma put_node_same st p n : heap st !! p = Some n -> put_node st p n = st.
Proof. intros Hp. unfold put_node. rewrite insert_id by done. by destruct st. Qed.

Lemma put_node_twice st p n n' : put_node (put_node st p n) p n' = put_node st p n'.
Proof. unfold put_node, with_heap. cbn. by rewrite insert_insert_eq. Qed.

Lemma put_node_lookup st p n : heap (put_node st p n) !! p = Some n.
Proof. apply lookup_insert_eq. Qed.

(** The slots of a node after some of its slot fields. *)
Definition grown n p (l : list (Z * Z)) : cluster_node Ctx :=
  with_slots n (Some (default [] (slots n) ++ map (fun r => mk_slot r.1 r.2 p) l)).

Lemma grown_nil n p sl : slots n = Some sl -> grown n p [] = n.
Proof. intros Hs. unfold grown. rewrite Hs. cbn. rewrite app_nil_r, <- Hs. by destruct n. Qed.

Lemma grown_app n p l k : grown (grown n p l) p k = grown n p (l ++ k).
Proof. unfold grown, with_slots. cbn. by rewrite map_app, app_assoc. Qed.

Lemma slot_create_eq st p n sl a b :
  heap st !! p = Some n -> slots n = Some sl ->
  cluster_slot_create malloc_ok p a b st = Some (true, put_node st p (grown n p [(a, b)])).
Proof.
  intros Hp Hs. unfold cluster_slot_create. rewrite Hmalloc. cbn [negb].
  rewrite (bind_eq _ _ _ _ _ (load_eq _ _ _ Hp)). rewrite Hs.
  rewrite (bind_eq _ _ _ _ _ (store_eq _ _ _ _ Hp)). unfold grown. by rewrite Hs.
Qed.

(** The parts of a slot field between its dashes. *)
Lemma slot_parts sp : slot_ok sp ->
  split_on "-"%char (slot_text sp) [] =
  match sp with
  | OneSlot n => [dec n]
  | SlotRange a b => [dec a; dec b]
  | OpenSlot n m id => [s "[" ++ dec n; [if m then ">"%char else "<"%char]; id ++ s "]"]
  end.
Proof.
  destruct sp as [n|a b|n m id]; cbn [slot_ok slot_text]; intros Hok.
  - apply split_on_one, dec_free; [done|lia].
  - apply split_on_two; apply dec_free; done || lia.
  - destruct Hok as (Hn & _ & Hid).
    pose proof (dec_free "-"%char n eq_refl ltac:(lia)).
    rewrite <- (split_on_join "-"%char [s "[" ++ dec n; [if m then ">"%char else "<"%char]; id ++ s "]"]).
    + cbn [join_bytes]. by rewrite <- !app_assoc.
    + done.
    + repeat constructor; destruct m; set_solver.
Qed.

Lemma add_slots_spec fl p n sl sp st :
  Z.land fl HIRCLUSTER_FLAG_ADD_OPENSLOT = 0 -> slot_ok sp -> zlen (slot_text sp) < 2 ^ 30 ->
  heap st !! p = Some n -> slots n = Some sl ->
  add_slots malloc_ok alloc fl p (slot_text sp) st = Some (true, put_node st p (grown n p (ranges sp))).
Proof.
  intros Hfl Hok Hlen Hp Hs. unfold add_slots.
  destruct (slot_text_field sp Hok) as [_ Hne].
  destruct (split_spec (slot_text sp) "-"%char st) as (toks & Hsp & Hw & Hv).
  { split; [|done]. destruct (slot_text sp); [done|zlen_lia]. }
  rewrite (bind_eq _ _ _ _ _ Hsp). rewrite slot_parts in Hv by done.
  assert (match toks with
          | [t0; t1; t2] => if is_open_slot fl t0 t1 t2 then add_open_slot malloc_ok p t0 t1 t2 else mret true
          | _ => mret true
          end = (mret true : prog (sys W Ctx) bool)) as ->.
  { destruct toks as [|t0 [|t1 [|t2 [|t3 toks]]]]; try done. unfold is_open_slot. by rewrite Hfl. }
  assert (slot_range toks = match sp with OneSlot k => (k, k) | SlotRange a b => (a, b) | _ => (-1, -1) end) as Hr.
  { destruct sp as [k|a b|k m id]; cbn [slot_ok] in Hok; unfold REDIS_CLUSTER_SLOTS in Hok;
      destruct toks as [|t0 [|t1 [|t2 [|t3 toks]]]]; try done; cbn [map] in Hv; simplify_eq;
      cbn [slot_range]; repeat (apply Forall_cons in Hw as [? Hw]); 
      repeat match goal with
      | Ht : sds_value ?t = dec ?k |- context [sds_value ?t] => rewrite (numeral_token t k) by (done || lia)
      end; done. }
  change ((mret true ≫= (fun ok : bool => if negb ok then mret false else
    let '(slot_start, slot_end) := slot_range toks in
    if (slot_start <? 0) || (slot_end <? 0) || (slot_end <? slot_start) || (REDIS_CLUSTER_SLOTS <=? slot_end)
    then mret true else cluster_slot_create malloc_ok p slot_start slot_end ≫= (fun created : bool =>
      if created then mret true else __redisClusterSetError REDIS_ERR_OOM (s "Out of memory") ≫= (fun _ => mret false)))) st
    = Some (true, put_node st p (grown n p (ranges sp)))).
  rewrite (bind_eq _ _ _ true st) by done. cbn [negb]. rewrite Hr.
  destruct sp as [k|a b|k m id]; cbn [slot_ok] in Hok; unfold REDIS_CLUSTER_SLOTS in *; cbn [ranges].
  - replace (_ || _ || _ || _) with false by lia. by rewrite (bind_eq _ _ _ _ _ (slot_create_eq _ _ _ _ _ _ Hp Hs)).
  - replace (_ || _ || _ || _) with false by lia. by rewrite (bind_eq _ _ _ _ _ (slot_create_eq _ _ _ _ _ _ Hp Hs)).
  - cbn. by rewrite (grown_nil _ _ _ Hs), put_node_same.
Qed.

Lemma add_all_slots_spec fl p sps : forall n sl st,
  Z.land fl HIRCLUSTER_FLAG_ADD_OPENSLOT = 0 -> Forall slot_ok sps ->
  Forall (fun sp => zlen (slot_text sp) < 2 ^ 30) sps ->
  heap st !! p = Some n -> slots n = Some sl ->
  add_all_slots malloc_ok alloc fl p (map slot_text sps) st =
  Some (true, put_node st p (grown n p (concat (map ranges sps)))).
Proof.
  induction sps as [|sp sps IH]; intros n sl st Hfl Hok Hlen Hp Hs; cbn [map add_all_slots concat].
  { by rewrite (grown_nil _ _ _ Hs), put_node_same. }
  apply Forall_cons in Hok as [Ho Hok]. apply Forall_cons in Hlen as [Hl Hlen].
  rewrite (bind_eq _ _ _ _ _ (add_slots_spec fl p n sl sp st Hfl Ho Hl Hp Hs)).
  rewrite (IH (grown n p (ranges sp)) (default [] (slots n) ++ map (fun r => mk_slot r.1 r.2 p) (ranges sp)));
    [|done..|apply put_node_lookup|done].
  by rewrite put_node_twice, grown_app.
Qed.

(** *** A master *)

(** The node of a master, when all its slots are read. *)
Definition node_of (m : master) p : cluster_node Ctx :=
  mk_node (Some (m_id m)) (Some (m_addr m)) (Some (m_host m)) (m_port m) REDIS_ROLE_MASTER
    (if m_self m then 1 else 0) None None (Some (map (fun r => mk_slot r.1 r.2 p) (m_ranges m)))
    None 0 None None.

(** The node after [node_get_with_nodes]. *)
Definition fresh_node (m : master) : cluster_node Ctx :=
  mk_node (Some (m_id m)) (Some (m_addr m)) (Some (m_host m)) (m_port m) REDIS_ROLE_MASTER
    0 None None (Some []) None 0 None None.

(** The state with a node at the next pointer. *)
Definition add_node st n : sys W Ctx :=
  mk_sys (s_cc st) (<[next_ptr st := n]> (heap st)) (next_ptr st + 1) (world st).

Lemma put_add_node st n n' : put_node (add_node st n) (next_ptr st) n' = add_node st n'.
Proof. unfold put_node, add_node, with_heap. cbn. by rewrite insert_insert_eq. Qed.

Lemma add_node_lookup st n : heap (add_node st n) !! next_ptr st = Some n.
Proof. apply lookup_insert_eq. Qed.

Lemma alloc_node_eq st : alloc_node malloc_ok st = Some (Some (next_ptr st), add_node st cluster_node_init).
Proof. unfold alloc_node. by rewrite Hmalloc. Qed.

Lemma master_parts_lookup m rest :
  (head_parts m ++ rest) !! 0%nat = Some (m_id m) /\ (head_parts m ++ rest) !! 1%nat = Some (m_addr m).
Proof. done. Qed.

Lemma zlen_addr m : master_ok m -> 0 < zlen (m_addr m).
Proof. intros Hm. unfold m_addr. change (s ":") with [":"%char]. zlen_lia. Qed.

Lemma node_get_spec m st :
  master_ok m -> zlen (m_addr m) < 2 ^ 30 ->
  node_get_with_nodes malloc_ok alloc (master_parts m) REDIS_ROLE_MASTER st =
  Some (Some (next_ptr st), add_node st (fresh_node m)).
Proof.
  intros Hm Hl. unfold node_get_with_nodes.
  assert (8 <= zlen (master_parts m)) as H8.
  { unfold master_parts, head_parts, zlen. rewrite !length_app, (ok_length m Hm). cbn [length]. lia. }
  destruct (Z.ltb_spec (zlen (master_parts m)) 8); [lia|].
  rewrite (bind_eq _ _ _ _ _ (alloc_node_eq st)). rewrite Z.eqb_refl.
  unfold list_create_ok. rewrite Hmalloc. cbn [andb negb].
  destruct (master_parts_lookup m (map slot_text (m_slots m))) as [E0 E1].
  unfold master_parts. rewrite E0, E1. rewrite (bind_eq _ _ _ (m_addr m) (add_node st cluster_node_init)) by done.
  rewrite (bind_eq _ _ _ (m_id m) (add_node st cluster_node_init)) by done.
  destruct (split_spec (m_addr m) ":"%char (add_node st cluster_node_init)) as (toks & Hs & Hw & Hv).
  { split; [by apply zlen_addr|done]. }
  rewrite (bind_eq _ _ _ _ _ Hs).
  pose proof (dec_free ":"%char (m_port m) eq_refl ltac:(apply Hm)) as Hd.
  unfold m_addr in Hv. change (s ":") with [":"%char] in Hv. rewrite (split_on_two ":"%char (m_host m) (dec (m_port m)) (ok_colon m Hm) Hd) in Hv.
  destruct toks as [|t0 [|t1 [|t2 toks]]]; try done. cbn [map] in Hv.
  injection Hv as Hv0 Hv1. repeat (apply Forall_cons in Hw as [? Hw]).
  rewrite (bind_eq _ _ _ _ _ (store_eq _ _ _ _ (add_node_lookup st cluster_node_init))).
  rewrite put_add_node, Hv0, (numeral_token t1 (m_port m)) by (done || apply Hm). done.
Qed.

(** The locals after a master was added. *)
Definition added d (m : master) p d' : Prop :=
  dict_wf d' /\ dense d' /\ dict_map d' = <[m_addr m := p]> (dict_map d) /\ used d' = used d + 1.

Lemma dict_add_new d a p :
  dict_wf d -> dense d -> used d < 2 ^ 30 -> dict_map d !! a = None ->
  exists d', dictAdd d a p = Some (DICT_OK, d') /\ dict_wf d' /\ dense d' /\
    dict_map d' = <[a := p]> (dict_map d) /\ used d' = used d + 1.
Proof.
  intros Hwf Hd Hu Hn. destruct (dictAdd_spec d a p Hwf ltac:(lia)) as (d' & Hwf' & Ha).
  rewrite Hn in Ha. destruct Ha as [Ha Hm]. exists d'. split; [done|].
  destruct (dictAdd_dense d a p _ _ Hwf Hd Hu Ha) as (Hs & _ & Hu'). specialize (Hu' eq_refl).
  split_and!; try done. unfold dense. lia.
Qed.

Lemma add_master_spec fl m d st :
  Z.land fl HIRCLUSTER_FLAG_ADD_OPENSLOT = 0 -> Z.land fl HIRCLUSTER_FLAG_ADD_SLAVE = 0 ->
  master_ok m -> zlen (m_addr m) < 2 ^ 30 -> Forall (fun sp => zlen (slot_text sp) < 2 ^ 30) (m_slots m) ->
  dict_wf d -> dense d -> used d < 2 ^ 30 -> dict_map d !! m_addr m = None ->
  exists d', add_master malloc_ok alloc fl (mk_locals d None) (master_parts m) (m_self m) st =
      Some (Go (mk_locals d' None), add_node st (node_of m (next_ptr st))) /\ added d m (next_ptr st) d'.
Proof.
  intros Hfo Hfs Hm Hla Hls Hwf Hd Hu Hnew. unfold add_master.
  rewrite (bind_eq _ _ _ _ _ (node_get_spec m st Hm Hla)).
  set (p := next_ptr st). rewrite (bind_eq _ _ _ _ _ (load_eq _ _ _ (add_node_lookup st (fresh_node m)))).
  cbn [addr name fresh_node]. rewrite (bind_eq _ _ _ (m_addr m) (add_node st (fresh_node m))) by done.
  destruct (dict_add_new d (m_addr m) p Hwf Hd Hu Hnew) as (d' & Ha & Hwf' & Hd' & Hm' & Hu').
  cbn [l_nodes l_names].
  rewrite (bind_eq _ _ _ (DICT_OK, d') (add_node st (fresh_node m))) by (unfold lift; by rewrite Ha).
  cbn [fst snd]. rewrite Z.eqb_refl. cbn [negb]. rewrite Hfs. cbn [Z.eqb negb l_nodes l_names].
  rewrite (bind_eq _ _ _ (m_id m) (add_node st (fresh_node m))) by done.
  rewrite (bind_eq _ _ _ (REDIS_OK, None) (add_node st (fresh_node m))) by done.
  cbn [fst snd]. rewrite Z.eqb_refl. cbn [negb].
  set (n1 := if m_self m then with_myself (fresh_node m) 1 else fresh_node m).
  rewrite (bind_eq _ _ _ () (add_node st n1)).
  2:{ unfold n1. destruct (m_self m); [|done].
      rewrite (bind_eq _ _ _ _ _ (load_eq _ _ _ (add_node_lookup st (fresh_node m)))).
      rewrite (store_eq _ _ _ _ (add_node_lookup st (fresh_node m))). by rewrite put_add_node. }
  assert (drop 8 (master_parts m) = map slot_text (m_slots m)) as ->.
  { unfold master_parts. apply drop_app_length'. unfold head_parts. cbn [length app].
    by rewrite (ok_length m Hm). }
  assert (slots n1 = Some []) as Hsl by (unfold n1; by destruct (m_self m)).
  rewrite (bind_eq _ _ _ _ _ (add_all_slots_spec fl p (m_slots m) n1 [] (add_node st n1) Hfo
    (ok_slots m Hm) Hls (add_node_lookup st n1) Hsl)).
  unfold p. rewrite put_add_node. exists d'. split; [|done].
  assert (grown n1 (next_ptr st) (concat (map ranges (m_slots m))) = node_of m (next_ptr st)) as ->; [|done].
  unfold grown, node_of, m_ranges, n1. by destruct (m_self m).
Qed.

(** *** Lines *)

Lemma line_split e st :
  entry_ok e -> zlen (join_bytes [SP] (parts_of e)) < 2 ^ 30 ->
  exists tokens, split alloc (join_bytes [SP] (parts_of e)) SP st = Some (Some tokens, st) /\
    map sds_value tokens = parts_of e /\ 8 <= zlen (parts_of e).
Proof.
  intros He Hl. pose proof (parts_field e He) as Hf.
  assert (8 <= zlen (parts_of e)) as H8.
  { destruct e as [m|parts]; cbn [parts_of] in *.
    - unfold master_parts, head_parts, zlen. rewrite !length_app, (ok_length m He). cbn [length]. lia.
    - destruct He as (_ & He & _). unfold zlen. lia. }
  assert (0 < zlen (join_bytes [SP] (parts_of e))) as Hpos.
  { destruct (parts_of e) as [|x [|y l]]; cbn [join_bytes]; [zlen_lia|zlen_lia|].
    change [SP] with (SP :: []). zlen_lia. }
  destruct (split_spec (join_bytes [SP] (parts_of e)) SP st ltac:(lia)) as (toks & Hs & _ & Hv).
  exists toks. split; [done|]. rewrite split_on_join in Hv; [done| |].
  - intros E. by rewrite E in H8.
  - eapply Forall_impl; [exact Hf|]. by intros x [? _].
Qed.

Lemma master_role m : role_of ((if m_self m then s "myself," else []) ++ s "master" ++ m_flags m) =
  s "master" ++ m_flags m /\
  prefix (s "myself,") ((if m_self m then s "myself," else []) ++ s "master" ++ m_flags m) = m_self m.
Proof. unfold role_of. by destruct (m_self m). Qed.

(** The masters of a list of lines are added one after the other. *)
Fixpoint add_nodes (l : list master) st : sys W Ctx :=
  match l with
  | [] => st
  | m :: l' => add_nodes l' (add_node st (node_of m (next_ptr st)))
  end.
Fixpoint addr_map (l : list master) p (g : gmap bytes ptr) : gmap bytes ptr :=
  match l with
  | [] => g
  | m :: l' => addr_map l' (p + 1) (<[m_addr m := p]> g)
  end.
Definition all_added d (l : list master) p d' : Prop :=
  dict_wf d' /\ dense d' /\ dict_map d' = addr_map l p (dict_map d) /\ used d' = used d + zlen l.

Definition entry_masters (e : entry) : list master :=
  match e with Master m => [m] | Other _ => [] end.

(** What the flags must not ask for. *)
Definition plain (fl : Z) : Prop :=
  Z.land fl HIRCLUSTER_FLAG_ADD_OPENSLOT = 0 /\ Z.land fl HIRCLUSTER_FLAG_ADD_SLAVE = 0.

Lemma zlen_join_part l : forall x, x ∈ l -> zlen x <= zlen (join_bytes [SP] l).
Proof.
  induction l as [|y l IH]; intros x Hx; [by apply elem_of_nil in Hx|].
  destruct l as [|z l]; [apply list_elem_of_singleton in Hx as ->; cbn [join_bytes]; lia|].
  change (join_bytes [SP] (y :: z :: l)) with (y ++ SP :: join_bytes [SP] (z :: l)).
  pose proof (zlen_nonneg y). pose proof (zlen_nonneg (join_bytes [SP] (z :: l))).
  rewrite zlen_app, zlen_cons. apply elem_of_cons in Hx as [->|Hx]; [lia|]. specialize (IH x Hx). lia.
Qed.

Lemma nodes_line_spec fl e d st :
  plain fl -> entry_ok e -> zlen (join_bytes [SP] (parts_of e)) < 2 ^ 30 ->
  dict_wf d -> dense d -> used d < 2 ^ 30 ->
  (forall m, m ∈ entry_masters e -> dict_map d !! m_addr m = None) ->
  exists d', nodes_line malloc_ok alloc fl (mk_locals d None) (join_bytes [SP] (parts_of e)) st =
      Some (Go (mk_locals d' None), add_nodes (entry_masters e) st) /\
    all_added d (entry_masters e) (next_ptr st) d'.
Proof.
  intros [Hfo Hfs] He Hl Hwf Hd Hu Hnew. unfold nodes_line.
  destruct (line_split e st He Hl) as (toks & Hs & Hv & H8).
  change " "%char with SP. rewrite (bind_eq _ _ _ _ _ Hs). rewrite Hv.
  destruct (Z.ltb_spec (zlen (parts_of e)) 8); [lia|]. rewrite Hfs. cbn [Z.eqb negb andb].
  destruct e as [m|parts]; cbn [parts_of entry_masters entry_ok] in *.
  - destruct (master_parts_lookup m (map slot_text (m_slots m))) as [_ E1].
    change (head_parts m ++ map slot_text (m_slots m)) with (master_parts m) in E1. rewrite E1.
    rewrite (bind_eq _ _ _ (m_addr m) st) by done.
    assert (master_parts m !! 2%nat = Some ((if m_self m then s "myself," else []) ++ s "master" ++ m_flags m)) as -> by done.
    rewrite (bind_eq _ _ _ ((if m_self m then s "myself," else []) ++ s "master" ++ m_flags m) st) by done.
    rewrite bool_decide_eq_false_2.
    2:{ intros E. unfold m_addr in E. pose proof (dec_nonempty (m_port m)).
        destruct (m_host m) as [|c h] eqn:Eh; [by apply (ok_nonempty m He)|].
        injection E as -> E. apply (ok_colon m He). rewrite Eh. left. }
    destruct (master_role m) as [Hr Hp]. unfold role_of in Hr. rewrite Hp in Hr |- *. rewrite Hr, prefix_app.
    pose proof (zlen_join_part (master_parts m)) as Hj.
    destruct (add_master_spec fl m d st Hfo Hfs He) as (d' & Ha & Hwf' & Hd' & Hm' & Hu'); try done.
    + specialize (Hj (m_addr m) ltac:(unfold master_parts, head_parts; set_solver)). lia.
    + apply Forall_forall. intros sp Hsp. specialize (Hj (slot_text sp)).
      assert (slot_text sp ∈ master_parts m) as Hin.
      { unfold master_parts. apply elem_of_app. right. by apply list_elem_of_fmap_2. }
      specialize (Hj Hin). lia.
    + apply Hnew. by left.
    + rewrite Ha. exists d'. split; [done|]. unfold all_added. cbn [addr_map].
      change (zlen [m]) with 1. done.
  - destruct He as (Hf & Hn & _ & Hskip). exists d. split; [|unfold all_added; cbn [addr_map]; change (zlen (@nil master)) with 0; split_and!; try done; lia].
    destruct (lookup_lt_is_Some_2 parts 1 ltac:(lia)) as [a Ha].
    destruct (lookup_lt_is_Some_2 parts 2 ltac:(lia)) as [f Hf'].
    rewrite Ha, Hf'. rewrite (bind_eq _ _ _ a st), (bind_eq _ _ _ f st) by done.
    destruct (decide (a = s ":0")) as [->|Hne]; [by rewrite bool_decide_eq_true_2|].
    rewrite bool_decide_eq_false_2 by done.
    destruct Hskip as [E|(f' & E & Hp)]; [congruence|]. assert (f' = f) as -> by congruence.
    unfold role_of in Hp. rewrite Hp. done.
Qed.

(** *** The text *)

Lemma loop_scan fl str last start l st k : forall pos fuel,
  (forall i, pos <= i < pos + Z.of_nat k -> byte_at str i <> Some LF) ->
  0 <= pos -> pos + Z.of_nat k <= last -> last <= zlen str -> last - pos <= Z.of_nat fuel ->
  exists fuel', nodes_loop malloc_ok alloc fuel fl str last start pos l st =
      nodes_loop malloc_ok alloc fuel' fl str last start (pos + Z.of_nat k) l st /\
    last - (pos + Z.of_nat k) <= Z.of_nat fuel'.
Proof.
  induction k as [|k IH]; intros pos fuel Hlf Hp Hk Hlast Hf.
  { exists fuel. by rewrite Z.add_0_r. }
  destruct fuel as [|fuel]; [lia|].
  destruct (byte_at_is_Some str pos ltac:(lia)) as [c Hc].
  destruct (IH (pos + 1) fuel) as (fuel' & IHe & Hf').
  { intros i Hi. apply Hlf. lia. } { lia. } { lia. } { lia. } { lia. }
  exists fuel'. replace (pos + Z.of_nat (S k)) with (pos + 1 + Z.of_nat k) by lia. split; [|lia].
  rewrite <- IHe. cbn [nodes_loop]. destruct (Z.ltb_spec pos last); [|lia]. cbn [negb].
  rewrite (bind_eq _ _ _ c st) by (unfold lift; by rewrite Hc).
  rewrite bool_decide_eq_false_2; [done|]. intros ->. by apply (Hlf pos ltac:(lia)).
Qed.

Lemma body_byte pre body rest i :
  LF ∉ body -> zlen pre <= i < zlen pre + zlen body -> byte_at (pre ++ body ++ LF :: rest) i <> Some LF.
Proof.
  intros Hb Hi. unfold byte_at. destruct (_ && _); [|done].
  rewrite lookup_app_r by (unfold zlen in Hi; lia).
  rewrite lookup_app_l by (unfold zlen in *; lia).
  intros E. apply Hb. by apply list_elem_of_lookup_2 in E.
Qed.

Lemma loop_line fl pre body rest l l' st st' pos fuel :
  let str := pre ++ body ++ LF :: rest in
  LF ∉ body -> body <> [] -> zlen pre <= pos <= zlen pre + 1 ->
  nodes_line malloc_ok alloc fl l body st = Some (Go l', st') ->
  zlen str - pos <= Z.of_nat fuel ->
  let next := zlen (pre ++ body ++ [LF]) in
  exists fuel', nodes_loop malloc_ok alloc fuel fl str (zlen str) (zlen pre) pos l st =
      nodes_loop malloc_ok alloc fuel' fl str (zlen str) next (next + 1) l' st' /\
    zlen str - (next + 1) <= Z.of_nat fuel'.
Proof.
  intros str Hlf Hne Hpos Hline Hf next.
  assert (0 < zlen body) as Hb by (destruct body; [done|zlen_lia]).
  assert (zlen str = zlen pre + zlen body + 1 + zlen rest) as Hstr by (unfold str; zlen_lia).
  assert (next = zlen pre + zlen body + 1) as Hnext by (unfold next; zlen_lia).
  pose proof (zlen_nonneg pre). pose proof (zlen_nonneg rest).
  destruct (loop_scan fl str (zlen str) (zlen pre) l st (Z.to_nat (zlen pre + zlen body - pos)) pos fuel)
    as (fuel1 & -> & Hf1); try lia.
  { intros i Hi. apply body_byte; [done|lia]. }
  replace (pos + Z.of_nat (Z.to_nat (zlen pre + zlen body - pos))) with (zlen pre + zlen body) in * by lia.
  destruct fuel1 as [|fuel1]; [lia|]. exists fuel1. split; [|lia]. cbn [nodes_loop].
  destruct (Z.ltb_spec (zlen pre + zlen body) (zlen str)); [|lia]. cbn [negb].
  assert (byte_at str (zlen pre + zlen body) = Some LF) as Hc.
  { unfold str. rewrite app_assoc, <- zlen_app. apply byte_at_app. }
  rewrite (bind_eq _ _ _ LF st) by (unfold lift; by rewrite Hc).
  rewrite bool_decide_eq_true_2 by done. cbn [negb].
  assert (slice str (zlen pre) (zlen pre + zlen body) = body) as -> by apply slice_app.
  rewrite (bind_eq _ _ _ _ _ Hline). rewrite Hnext. f_equal; lia.
Qed.

Lemma add_nodes_app l k st : add_nodes (l ++ k) st = add_nodes k (add_nodes l st).
Proof. revert st. induction l as [|m l IH]; intros st; [done|]. apply IH. Qed.

Lemma addr_map_app l k : forall p g, addr_map (l ++ k) p g = addr_map k (p + zlen l) (addr_map l p g).
Proof.
  induction l as [|m l IH]; intros p g; cbn [app addr_map].
  { change (zlen (@nil master)) with 0. by rewrite Z.add_0_r. }
  rewrite IH. f_equal. zlen_lia.
Qed.

Lemma next_add_nodes l : forall st, next_ptr (add_nodes l st) = next_ptr st + zlen l.
Proof.
  induction l as [|m l IH]; intros st; cbn [add_nodes].
  - change (zlen (@nil master)) with 0. lia.
  - rewrite IH. cbn. zlen_lia.
Qed.

Lemma addr_map_None l a : a ∉ map m_addr l -> forall p g, addr_map l p g !! a = g !! a.
Proof.
  intros Ha. induction l as [|m l IH]; intros p g; cbn [addr_map map] in *; [done|].
  apply not_elem_of_cons in Ha as [Hne Ha]. rewrite IH by done. by rewrite lookup_insert_ne.
Qed.

Lemma masters_cons e l : masters (e :: l) = entry_masters e ++ masters l.
Proof. by destruct e. Qed.

Lemma join_free l : Forall field l -> LF ∉ join_bytes [SP] l.
Proof.
  induction 1 as [|x l [_ Hx] Hl IH]; [apply not_elem_of_nil|]. destruct l as [|y l]; [done|].
  change (join_bytes [SP] (x :: y :: l)) with (x ++ SP :: join_bytes [SP] (y :: l)).
  rewrite not_elem_of_app, not_elem_of_cons. done.
Qed.

Lemma body_nonempty e : entry_ok e -> join_bytes [SP] (parts_of e) <> [].
Proof.
  intros He E. destruct e as [m|parts]; cbn [parts_of entry_ok] in *.
  - destruct (ok_id m He). unfold master_parts, head_parts in E. cbn [app] in E.
    change (m_id m ++ SP :: join_bytes [SP] ((m_addr m :: ((if m_self m then s "myself," else []) ++
      s "master" ++ m_flags m) :: m_fields m) ++ map slot_text (m_slots m)) = []) in E.
    by apply app_eq_nil in E as [_ E].
  - destruct He as (_ & Hn & _). destruct parts as [|x [|y l]]; [cbn in Hn; lia..|].
    change (x ++ SP :: join_bytes [SP] (y :: l) = []) in E. by apply app_eq_nil in E as [_ E].
Qed.

Lemma nodes_loop_spec fl l : forall pre d st pos fuel,
  let str := pre ++ text l in
  plain fl -> Forall entry_ok l -> zlen str < 2 ^ 30 ->
  zlen pre <= pos <= zlen pre + 1 -> zlen str - pos <= Z.of_nat fuel ->
  dict_wf d -> dense d -> used d + zlen (masters l) < 2 ^ 30 ->
  NoDup (map m_addr (masters l)) -> (forall m, m ∈ masters l -> dict_map d !! m_addr m = None) ->
  exists d', nodes_loop malloc_ok alloc fuel fl str (zlen str) (zlen pre) pos (mk_locals d None) st =
      Some (Go (mk_locals d' None), add_nodes (masters l) st) /\
    all_added d (masters l) (next_ptr st) d'.
Proof.
  induction l as [|e l IH]; intros pre d st pos fuel str Hfl Hok Hlen Hpos Hf Hwf Hd Hu Hnd Hnew.
  { exists d. split.
    - unfold str. cbn [text map concat]. rewrite app_nil_r in *.
      assert (forall k, nodes_loop malloc_ok alloc k fl pre (zlen pre) (zlen pre) pos (mk_locals d None) st
        = Some (Go (mk_locals d None), st)) as Hk.
      { intros k. destruct k; cbn [nodes_loop]; destruct (Z.ltb_spec pos (zlen pre)); (lia || done). }
      apply Hk.
    - unfold all_added. cbn [addr_map masters]. change (zlen (@nil master)) with 0. split_and!; try done. lia. }
  apply Forall_cons in Hok as [He Hok]. rewrite masters_cons in *.
  rewrite map_app in Hnd. apply NoDup_app in Hnd as (_ & Hdisj & Hnd).
  rewrite zlen_app in Hu. pose proof (zlen_nonneg (masters l)). pose proof (zlen_nonneg (entry_masters e)).
  set (body := join_bytes [SP] (parts_of e)).
  assert (str = pre ++ body ++ LF :: text l) as Hstr.
  { unfold str, text. cbn [map concat]. unfold line. fold body. by rewrite <- !app_assoc. }
  assert (zlen body < 2 ^ 30) as Hlb.
  { rewrite Hstr in Hlen. pose proof (zlen_nonneg pre). pose proof (zlen_nonneg (text l)).
    rewrite !zlen_app, zlen_cons in Hlen. lia. }
  destruct (nodes_line_spec fl e d st Hfl He Hlb Hwf Hd ltac:(lia)) as (d1 & Hline & Hwf1 & Hd1 & Hm1 & Hu1).
  { intros m Hm. apply Hnew, elem_of_app. by left. }
  destruct (loop_line fl pre body (text l) (mk_locals d None) (mk_locals d1 None) st
    (add_nodes (entry_masters e) st) pos fuel) as (fuel1 & Hloop & Hf1); try done.
  { apply join_free, parts_field, He. }
  { by apply body_nonempty. }
  { by rewrite <- Hstr. }
  rewrite <- Hstr in Hloop, Hf1. rewrite Hloop.
  assert (str = (pre ++ body ++ [LF]) ++ text l) as Hstr2.
  { rewrite Hstr. by rewrite <- !app_assoc. }
  specialize (IH (pre ++ body ++ [LF]) d1 (add_nodes (entry_masters e) st)
    (zlen (pre ++ body ++ [LF]) + 1) fuel1). cbv zeta in IH. rewrite <- Hstr2 in IH.
  destruct IH as (d2 & Hl2 & Hwf2 & Hd2 & Hm2 & Hu2); try done; try lia.
  - intros m Hm. rewrite Hm1. rewrite addr_map_None.
    + apply Hnew, elem_of_app. by right.
    + intros Hin. apply (Hdisj (m_addr m)); [done|]. by apply list_elem_of_fmap_2.
  - exists d2. rewrite Hl2, add_nodes_app. split; [done|]. split_and!; try done.
    + rewrite Hm2, Hm1, addr_map_app, next_add_nodes. done.
    + rewrite Hu2, Hu1, zlen_app. lia.
Qed.

(** Reading the whole text. *)
Lemma parse_nodes_spec fl l st :
  plain fl -> Forall entry_ok l -> zlen (text l) < 2 ^ 30 -> NoDup (map m_addr (masters l)) ->
  zlen (masters l) < 2 ^ 30 ->
  exists d, parse_cluster_nodes malloc_ok alloc (text l) (zlen (text l)) fl st =
      Some (Some d, add_nodes (masters l) st) /\ all_added dictCreate (masters l) (next_ptr st) d.
Proof.
  intros Hfl Hok Hlen Hnd Hu. unfold parse_cluster_nodes.
  destruct (nodes_loop_spec fl l [] dictCreate st 0 (Z.to_nat (zlen (text l)))) as (d & Hl & Hd); try done.
  - change (zlen (@nil ascii)) with 0. cbn [app]. lia.
  - apply wf_create.
  - cbn [app] in Hl. change (zlen (@nil ascii)) with 0 in Hl.
    exists d. rewrite (bind_eq _ _ _ _ _ Hl). done.
Qed.
End spec.
