(* ===== verification/ClusterUpdateSpec.v ===== *)
(** * Updating the route

    What [cluster_update_route_by_addr] does with the topology a server reports:
    the slot table maps every slot to the new node of the master that owns it,
    connections to addresses that stay are kept, the old nodes are freed, and
    nothing in the context dangles. *)

From stdpp Require Import sorting.
From S2P Require Import Prelude Effects Hiutil Hiarray Reply Sds SdsSpec Dict DictSpec Command ClusterSlot ClusterNode ClusterTopology ClusterUpdate ClusterTopologySpec.

#[local] Existing Instance no_async.

(** ** The slot table *)

Definition covers (sl : cluster_slot ptr) (k : Z) : Prop := sl_start sl <= k <= sl_end sl.

Lemma fill_spec p last fuel : forall k t,
  last - k < Z.of_nat fuel ->
  match fill fuel k last p t with
  | Some t' => (forall j, k <= j <= last -> t !! j = None) /\
               (forall j, t' !! j = if decide (k <= j <= last) then Some p else t !! j)
  | None => exists j, k <= j <= last /\ is_Some (t !! j)
  end.
Proof.
  induction fuel as [|fuel IH]; intros k t Hf; cbn [fill].
  - destruct (Z.ltb_spec last k); [|lia]. split; [intros; lia|]. intros j. by rewrite decide_False by lia.
  - destruct (Z.ltb_spec last k).
    { split; [intros; lia|]. intros j. by rewrite decide_False by lia. }
    destruct (t !! k) as [q|] eqn:E; [exists k; split; [lia|by eexists]|].
    specialize (IH (k + 1) (<[k := p]> t) ltac:(lia)). destruct (fill _ _ _ _ _) as [t'|].
    + destruct IH as [H1 H2]. split.
      * intros j Hj. destruct (decide (j = k)) as [->|]; [done|].
        specialize (H1 j ltac:(lia)). by rewrite lookup_insert_ne in H1.
      * intros j. rewrite H2. destruct (decide (j = k)) as [->|].
        -- rewrite decide_False by lia. rewrite decide_True by lia. by rewrite lookup_insert_eq.
        -- rewrite lookup_insert_ne by done. destruct (decide (k + 1 <= j <= last)).
           ++ by rewrite decide_True by lia.
           ++ by rewrite decide_False by lia.
    + destruct IH as (j & Hj & Hs). exists j. split; [lia|].
      destruct (decide (j = k)) as [->|]; [lia|]. by rewrite lookup_insert_ne in Hs.
Qed.

(** No two regions share a slot. *)
Definition disjoint (l : list (cluster_slot ptr)) : Prop :=
  forall i j a b, l !! i = Some a -> l !! j = Some b -> i <> j -> forall k, ~ (covers a k /\ covers b k).

Lemma disjoint_cons x l : disjoint (x :: l) ->
  disjoint l /\ forall y k, y ∈ l -> ~ (covers x k /\ covers y k).
Proof.
  intros Hd. split.
  - intros i j a b Hi Hj Hne. by apply (Hd (S i) (S j) a b); [| |congruence].
  - intros y k [j Hj]%list_elem_of_lookup. by apply (Hd 0%nat (S j) x y).
Qed.

Lemma disjoint_perm l l' : l ≡ₚ l' -> disjoint l -> disjoint l'.
Proof.
  intros Hp Hd i j a b Hi Hj Hne k.
  pose proof (Permutation_inj l' l) as [Hpi _]. destruct (Hpi (symmetry Hp)) as (Hlen & f & Hf & Hl).
  rewrite Hl in Hi, Hj. apply (Hd (f i) (f j)); try done. intros E. by apply Hne, Hf.
Qed.

Lemma fill_table_spec l : forall t,
  disjoint l -> (forall x k, x ∈ l -> covers x k -> t !! k = None) ->
  exists t', fill_table l t = Some t' /\
    forall k, (forall x, x ∈ l -> covers x k -> t' !! k = Some (sl_node x)) /\
              ((forall x, x ∈ l -> ~ covers x k) -> t' !! k = t !! k).
Proof.
  induction l as [|x l IH]; intros t Hd Ht; cbn [fill_table].
  { exists t. split; [done|]. intros k. split; [by intros x Hx%elem_of_nil|done]. }
  destruct (disjoint_cons x l Hd) as [Hdl Hx].
  pose proof (fill_spec (sl_node x) (sl_end x) (Z.to_nat (sl_end x - sl_start x + 1)) (sl_start x) t
    ltac:(lia)) as Hf.
  destruct (fill _ _ _ _ _) as [t1|].
  2:{ destruct Hf as (j & Hj & [v Hv]). rewrite (Ht x j) in Hv; [done|left|done]. }
  destruct Hf as [_ Ht1]. cbn [mbind option_bind].
  destruct (IH t1 Hdl) as (t' & -> & Ht').
  { intros y k Hy Hk. rewrite Ht1. rewrite decide_False; [|intros Hc; by apply (Hx y k)].
    apply (Ht y k); [by right|done]. }
  exists t'. split; [done|]. intros k. destruct (Ht' k) as [Hin Hout]. split.
  - intros y Hy Hk. apply elem_of_cons in Hy as [->|Hy]; [|by apply Hin].
    rewrite Hout; [rewrite Ht1; by rewrite decide_True|]. intros y Hy Hc. by apply (Hx y k).
  - intros Hno. rewrite Hout by (intros y Hy; apply Hno; by right). rewrite Ht1.
    rewrite decide_False; [done|]. apply Hno. left.
Qed.

(** Disjoint regions in the slot space are not many. *)
Lemma disjoint_length l :
  disjoint l -> Forall (fun x => 0 <= sl_start x <= sl_end x /\ sl_end x < REDIS_CLUSTER_SLOTS) l ->
  zlen l <= REDIS_CLUSTER_SLOTS.
Proof.
  intros Hd Hl.
  assert (NoDup (map sl_start l)) as Hnd.
  { apply NoDup_fmap_2_strong; [|].
    - intros x y Hx Hy Hxy. apply list_elem_of_lookup in Hx as [i Hi], Hy as [j Hj].
      destruct (decide (i = j)) as [->|Hne]; [congruence|]. exfalso.
      rewrite Forall_lookup in Hl. pose proof (Hl i x Hi). pose proof (Hl j y Hj).
      apply (Hd i j x y Hi Hj Hne (sl_start x)). unfold covers. lia.
    - apply NoDup_alt. intros i j x Hi Hj. destruct (decide (i = j)) as [|Hne]; [done|]. exfalso.
      rewrite Forall_lookup in Hl. pose proof (Hl i x Hi).
      apply (Hd i j x x Hi Hj Hne (sl_start x)). unfold covers. lia. }
  assert (map sl_start l ⊆+ seqZ 0 REDIS_CLUSTER_SLOTS) as Hsub.
  { apply NoDup_submseteq; [done|]. intros k Hk. apply list_elem_of_fmap in Hk as (x & -> & Hx).
    rewrite Forall_forall in Hl. specialize (Hl x Hx). apply elem_of_seqZ. lia. }
  apply submseteq_length in Hsub. rewrite length_map, length_seqZ in Hsub. unfold zlen, REDIS_CLUSTER_SLOTS in *. lia.
Qed.

(** ** Loops over a dictionary *)

Section loops.
Context {W Ctx : Type} `{Transport W Ctx}.
Implicit Types (st : sys W Ctx) (d : dict bytes ptr).

Lemma dict_loop_each {L} d (f : L -> bytes * ptr -> prog (sys W Ctx) (flow L)) fuel : forall it x st,
  zlen (Dict.table d) = Dict.size d -> Dict.size d < 2 ^ 31 -> iter_ok d it ->
  (length (remaining d it) < fuel)%nat ->
  dict_loop fuel d it f x st = each_flow (remaining d it) f x st.
Proof.
  induction fuel as [|fuel IH]; intros it x st Hl Hs Hok Hf; [lia|]. cbn [dict_loop].
  destruct (dictNext_spec d it Hl Hs Hok) as (it' & Hn & Hok' & Hr & _).
  rewrite (bind_eq _ _ _ (head (remaining d it), it') st) by (unfold lift; by rewrite Hn).
  cbn [fst snd]. destruct (remaining d it) as [|e l] eqn:E; cbn [head tail each_flow] in *; [done|].
  unfold mbind, prog_bind. destruct (f x e st) as [[[y|y] st']|]; try done.
  rewrite IH; try done; rewrite Hr; [done|]. cbn in Hf. lia.
Qed.

Lemma dict_each_flow {L} d (f : L -> bytes * ptr -> prog (sys W Ctx) (flow L)) x st :
  dict_wf d -> Dict.size d < 2 ^ 31 -> dict_each d f x st = each_flow (entries d) f x st.
Proof.
  intros (Hl & _ & Hu & _) Hs. unfold dict_each.
  change (entries d) with (remaining d dictGetIterator).
  apply dict_loop_each; [done|done|by apply iter_ok_fresh|].
  change (remaining d dictGetIterator) with (entries d). unfold zlen in Hu. lia.
Qed.
End loops.

(** ** The steps of an update *)

Section steps.
Context {W Ctx : Type} `{Transport W Ctx}.
Context (malloc_ok : Z -> bool) (Hmalloc : forall n, malloc_ok n = true).
Implicit Types (st : sys W Ctx) (d : dict bytes ptr) (p : ptr) (n : cluster_node Ctx).

(** *** Collecting the slots *)

Definition region_ok (x : cluster_slot ptr) : Prop :=
  0 <= sl_start x <= sl_end x /\ sl_end x < REDIS_CLUSTER_SLOTS.

(** The array while it is filled: small enough to grow without wrap-around. *)
Definition collecting (a : hiarray (cluster_slot ptr)) : Prop :=
  nelem a = zlen (elem a) /\ nelem a <= nalloc a /\ 0 < nalloc a < 2 ^ 30.

Lemma push_collecting a x :
  collecting a -> nelem a < 2 ^ 29 ->
  exists a', hiarray_push malloc_ok a x = Pushed a' /\ collecting a' /\ elem a' = elem a ++ [x].
Proof.
  intros (Hn & Hle & Ha) Hs.
  assert (hiarray_wf a) as Hwf by (split_and!; try done; lia).
  pose proof (hiarray_push_spec malloc_ok a x Hwf) as Hp.
  destruct (hiarray_push malloc_ok a x) as [a'| |]; [|by rewrite Hmalloc in Hp; destruct Hp|done].
  destruct Hp as (He & Hn' & Hle' & _ & Hal). exists a'. split; [done|]. split; [|done]. unfold collecting. split_and!; lia.
Qed.

Lemma push_slots_spec sl : forall a dit lit st,
  Forall region_ok sl -> collecting a -> nelem a + zlen sl < 2 ^ 29 ->
  exists a', push_slots malloc_ok (mk_update a dit lit) sl st = Some (Go (mk_update a' dit lit), st) /\
    collecting a' /\ elem a' = elem a ++ sl.
Proof.
  induction sl as [|x sl IH]; intros a dit lit st Hok Ha Hs; cbn [push_slots].
  { exists a. by rewrite app_nil_r. }
  apply Forall_cons in Hok as [Hx Hok]. rewrite zlen_cons in Hs. pose proof (zlen_nonneg sl).
  destruct Hx as [Hx1 Hx2]. replace (_ || _) with false by lia.
  destruct (push_collecting a x Ha ltac:(lia)) as (a1 & Hp & Ha1 & He1).
  change (u_slots (mk_update a dit lit)) with a. rewrite Hp. cbn [u_dit u_lit].
  assert (nelem a1 = nelem a + 1) as Hn1.
  { destruct Ha as [-> _], Ha1 as [-> _]. rewrite He1. zlen_lia. }
  destruct (IH a1 dit lit st Hok Ha1 ltac:(lia)) as (a2 & -> & Ha2 & He2).
  exists a2. split; [done|]. split; [done|]. by rewrite He2, He1, <- app_assoc.
Qed.

(** The slots of the nodes of some entries, in order. *)
Definition slots_in (h : gmap ptr (cluster_node Ctx)) (l : list (bytes * ptr)) : list (cluster_slot ptr) :=
  concat (map (fun e => default [] (h !! e.2 ≫= slots)) l).

Definition gatherable (h : gmap ptr (cluster_node Ctx)) (e : bytes * ptr) : Prop :=
  exists n sl, h !! e.2 = Some n /\ role n = REDIS_ROLE_MASTER /\ slots n = Some sl /\ Forall region_ok sl.

Lemma gather_spec l : forall a dit lit st,
  Forall (gatherable (heap st)) l -> lit <> Live -> collecting a ->
  nelem a + zlen (slots_in (heap st) l) < 2 ^ 29 ->
  exists a' lit', each_flow l (gather_master malloc_ok) (mk_update a dit lit) st =
      Some (Go (mk_update a' dit lit'), st) /\
    lit' <> Live /\ collecting a' /\ elem a' = elem a ++ slots_in (heap st) l.
Proof.
  induction l as [|e l IH]; intros a dit lit st Hl Hlit Ha Hs; cbn [each_flow].
  { exists a, lit. by rewrite app_nil_r. }
  apply Forall_cons in Hl as [(n & sl & Hn & Hr & Hsl & Hok) Hl].
  assert (slots_in (heap st) (e :: l) = sl ++ slots_in (heap st) l) as Hin.
  { unfold slots_in. cbn [map concat]. by rewrite Hn; cbn; rewrite Hsl. }
  rewrite Hin, zlen_app in Hs. pose proof (zlen_nonneg (slots_in (heap st) l)).
  destruct (push_slots_spec sl a dit Live st Hok Ha ltac:(lia)) as (a1 & Hp & Ha1 & He1).
  assert (nelem a1 = nelem a + zlen sl) as Hn1.
  { destruct Ha as [-> _], Ha1 as [-> _]. rewrite He1. zlen_lia. }
  destruct (IH a1 dit Released st Hl ltac:(done) Ha1 ltac:(lia)) as (a2 & lit' & Hi & Hlit' & Ha2 & He2).
  exists a2, lit'. split_and!; try done; [|by rewrite He2, He1, Hin, <- app_assoc].
  rewrite (bind_eq _ _ _ (Go (mk_update a1 dit Released)) st); [exact Hi|]. unfold gather_master.
  rewrite (bind_eq _ _ _ n st) by (unfold load; by rewrite Hn).
  rewrite Hr, Hsl, Hmalloc. rewrite Z.eqb_refl. cbn [negb u_slots u_dit].
  rewrite (bind_eq _ _ _ _ _ Hp). done.
Qed.

(** *** Moving the connections *)

(** The connections of a node, of hiredis.c and of async.c. *)
Abbreviation conns_t := (option Ctx * option ptr)%type.
Definition conns n : conns_t := (con n, acon n).
Definition with_conns n (c : conns_t) : cluster_node Ctx := with_acon (with_con n c.1) c.2.

Lemma with_conns_id n : with_conns n (conns n) = n.
Proof. by destruct n. Qed.

(** The same node but for its connections. *)
Definition same_but_con n n' : Prop := exists c, n' = with_conns n c.
Definition heap_alike (h h' : gmap ptr (cluster_node Ctx)) : Prop :=
  forall p, match h !! p, h' !! p with
            | Some n, Some n' => same_but_con n n'
            | None, None => True
            | _, _ => False
            end.

#[export] Instance heap_alike_preorder : PreOrder heap_alike.
Proof.
  split.
  - intros h p. destruct (h !! p) as [n|]; [|done]. exists (conns n). by rewrite with_conns_id.
  - intros h1 h2 h3 H1 H2 p. specialize (H1 p). specialize (H2 p).
    destruct (h1 !! p), (h2 !! p), (h3 !! p); try done. destruct H1 as [x ->], H2 as [y ->]. by exists y.
Qed.

Lemma alike_insert h p n c : h !! p = Some n -> heap_alike h (<[p := with_conns n c]> h).
Proof.
  intros Hp q. destruct (decide (q = p)) as [->|].
  - rewrite lookup_insert_eq, Hp. by exists c.
  - rewrite lookup_insert_ne by done. destruct (h !! q) as [m|]; [|done]. exists (conns m). by rewrite with_conns_id.
Qed.

Lemma alike_lookup h h' p n : heap_alike h h' -> h !! p = Some n -> exists c, h' !! p = Some (with_conns n c).
Proof.
  intros Ha Hp. specialize (Ha p). rewrite Hp in Ha. destruct (h' !! p) as [n'|]; [|done].
  destruct Ha as [c ->]. by exists c.
Qed.

(** The addresses of the nodes of a dictionary are its keys. *)
Definition keyed (h : gmap ptr (cluster_node Ctx)) (m : gmap bytes ptr) : Prop :=
  forall a p, m !! a = Some p -> exists n, h !! p = Some n /\ addr n = Some a.

Lemma keyed_alike h h' m : heap_alike h h' -> keyed h m -> keyed h' m.
Proof.
  intros Ha Hk a p Hm. destruct (Hk a p Hm) as (n & Hn & Hna).
  destruct (alike_lookup _ _ _ _ Ha Hn) as [c Hc]. exists (with_conns n c). by split.
Qed.

Lemma keyed_inj h m a b p : keyed h m -> m !! a = Some p -> m !! b = Some p -> a = b.
Proof.
  intros Hk Ha Hb. destruct (Hk a p Ha) as (n & Hn & Hna), (Hk b p Hb) as (n' & Hn' & Hnb). congruence.
Qed.

(** The connections a dictionary holds for an address. *)
Definition con_of d (h : gmap ptr (cluster_node Ctx)) (a : bytes) : conns_t :=
  default (None, None) (conns <$> (dict_map d !! a ≫= (h !!.))).

Definition untouched d (l : list (bytes * ptr)) (h h' : gmap ptr (cluster_node Ctx)) : Prop :=
  forall p, (forall e, e ∈ l -> p <> e.2 /\ dict_map d !! e.1 <> Some p) -> h' !! p = h !! p.

(** Both exchanges leave the old node without, as the new node had none. *)
Lemma swap_con_spec p q n o st :
  p <> q -> heap st !! p = Some n -> heap st !! q = Some o -> con n = None ->
  swap_con p q st = Some ((), with_heap st (<[p := with_con n (con o)]> (<[q := with_con o None]> (heap st)))).
Proof.
  intros Hpq Hn Ho Hc. unfold swap_con. rewrite (bind_eq _ _ _ _ _ (load_eq _ _ _ Ho)).
  destruct (con o) as [c|] eqn:Ec.
  - rewrite (bind_eq _ _ _ _ _ (load_eq _ _ _ Hn)), Hc, (bind_eq _ _ _ _ _ (store_eq _ _ _ _ Ho)).
    assert (heap (put_node st q (with_con o None)) !! p = Some n) as Hn' by (cbn; by rewrite lookup_insert_ne).
    rewrite (bind_eq _ _ _ _ _ (load_eq _ _ _ Hn')). by rewrite (store_eq _ _ _ _ Hn').
  - do 2 f_equal. rewrite (insert_id (heap st) q), insert_id; [by destruct st|..].
    + rewrite Hn. f_equal. destruct n; cbn in *. by subst.
    + rewrite Ho. f_equal. destruct o; cbn in *. by subst.
Qed.

Lemma swap_acon_spec p q n o st :
  p <> q -> heap st !! p = Some n -> heap st !! q = Some o -> acon n = None ->
  swap_acon p q st = Some ((), with_heap st (<[p := with_acon n (acon o)]> (<[q := with_acon o None]> (heap st)))).
Proof.
  intros Hpq Hn Ho Hc. unfold swap_acon. rewrite (bind_eq _ _ _ _ _ (load_eq _ _ _ Ho)).
  destruct (acon o) as [c|] eqn:Ec.
  - rewrite (bind_eq _ _ _ _ _ (load_eq _ _ _ Hn)), Hc, (bind_eq _ _ _ _ _ (store_eq _ _ _ _ Ho)).
    assert (heap (put_node st q (with_acon o None)) !! p = Some n) as Hn' by (cbn; by rewrite lookup_insert_ne).
    rewrite (bind_eq _ _ _ _ _ (load_eq _ _ _ Hn')), (bind_eq _ _ _ _ _ (store_eq _ _ _ _ Hn')).
    set (st2 := put_node _ p _).
    assert (heap st2 !! q = Some (with_acon o None)) as Ho' by (cbn; by rewrite lookup_insert_ne, lookup_insert_eq).
    rewrite (bind_eq _ _ _ () st2) by done. by rewrite (bind_eq _ _ _ _ _ (load_eq _ _ _ Ho')).
  - do 2 f_equal. rewrite (insert_id (heap st) q), insert_id; [by destruct st|..].
    + rewrite Hn. f_equal. destruct n; cbn in *. by subst.
    + rewrite Ho. f_equal. destruct o; cbn in *. by subst.
Qed.

(** One new node: it takes the connections of the old one with its address. *)
Lemma swap_node_spec d0 e n st :
  dict_wf d0 -> keyed (heap st) (dict_map d0) -> heap st !! e.2 = Some n -> addr n = Some e.1 ->
  conns n = (None, None) -> dict_map d0 !! e.1 <> Some e.2 ->
  exists h', swap_node d0 e st = Some ((), with_heap st h') /\ heap_alike (heap st) h' /\
    untouched d0 [e] (heap st) h' /\ h' !! e.2 = Some (with_conns n (con_of d0 (heap st) e.1)).
Proof.
  intros Hwf Hk Hn Ha Hcn Hne. unfold swap_node. rewrite (bind_eq _ _ _ _ _ (load_eq _ _ _ Hn)), Ha.
  rewrite (bind_eq _ _ _ e.1 st) by done.
  rewrite (bind_eq _ _ _ ((e.1,.) <$> dict_map d0 !! e.1) st) by (unfold lift; by rewrite dictFind_spec).
  unfold con_of. destruct (dict_map d0 !! e.1) as [q|] eqn:Eq; cbn [fmap option_fmap option_map mbind option_bind].
  2:{ exists (heap st). split; [by destruct st|]. split_and!; [reflexivity|done|].
      cbn [default]. by rewrite <- Hcn, with_conns_id. }
  destruct (Hk _ _ Eq) as (o & Ho & Hoa). cbn [snd]. rewrite Ho. cbn [default].
  assert (e.2 <> q) as Hqe by congruence. injection Hcn as Hc1 Hc2.
  rewrite (bind_eq _ _ _ _ _ (swap_con_spec e.2 q n o st Hqe Hn Ho Hc1)). set (st1 := with_heap st _).
  assert (heap st1 !! e.2 = Some (with_con n (con o))) as Hn1 by (cbn; by rewrite lookup_insert_eq).
  assert (heap st1 !! q = Some (with_con o None)) as Ho1 by (cbn; by rewrite lookup_insert_ne, lookup_insert_eq).
  rewrite (swap_acon_spec e.2 q _ _ st1 Hqe Hn1 Ho1 Hc2). eexists. split; [reflexivity|].
  assert (forall p, p <> e.2 -> p <> q -> heap st1 !! p = heap st !! p) as Hst1.
  { intros p Hp1 Hp2. cbn. by rewrite !lookup_insert_ne by congruence. }
  split_and!; [intros p|intros p Hp|].
  - destruct (decide (p = e.2)) as [->|Hp1].
    { rewrite lookup_insert_eq, Hn. by eexists (_, _). }
    destruct (decide (p = q)) as [->|Hp2].
    { rewrite lookup_insert_ne, lookup_insert_eq, Ho by done. by eexists (_, _). }
    rewrite !lookup_insert_ne, Hst1 by congruence. destruct (heap st !! p) as [m|]; [|done].
    exists (conns m). by rewrite with_conns_id.
  - destruct (Hp e ltac:(left)) as [Hpe Hpq]. rewrite !lookup_insert_ne by congruence.
    apply Hst1; congruence.
  - by rewrite lookup_insert_eq.
Qed.

(** The nodes of a list of entries are new: no old node is among them. *)
Definition fresh_entry d0 (h : gmap ptr (cluster_node Ctx)) (e : bytes * ptr) : Prop :=
  (exists n, h !! e.2 = Some n /\ addr n = Some e.1 /\ conns n = (None, None)) /\
  forall a, dict_map d0 !! a <> Some e.2.

Lemma swap_all_spec d0 l : forall st,
  dict_wf d0 -> keyed (heap st) (dict_map d0) -> NoDup l.*1 -> NoDup l.*2 ->
  Forall (fresh_entry d0 (heap st)) l ->
  exists h', each_flow l (fun _ de => _ ← swap_node d0 de; mret (Go ())) () st =
      Some (Go (), with_heap st h') /\ heap_alike (heap st) h' /\ untouched d0 l (heap st) h' /\
    forall e n, e ∈ l -> heap st !! e.2 = Some n -> h' !! e.2 = Some (with_conns n (con_of d0 (heap st) e.1)).
Proof.
  induction l as [|e l IH]; intros st Hwf Hk Hn1 Hn2 Hl; cbn [each_flow].
  { exists (heap st). split; [by destruct st|]. split_and!; [reflexivity|done|].
    by intros e n He%elem_of_nil. }
  apply NoDup_cons in Hn1 as [He1 Hn1], Hn2 as [He2 Hn2].
  apply Forall_cons in Hl as [[(n & Hn & Ha & Hc) Hf] Hl].
  destruct (swap_node_spec d0 e n st Hwf Hk Hn Ha Hc (Hf e.1)) as (h1 & Hs & Hal & Hun & Hh1).
  assert (forall e', e' ∈ l -> h1 !! e'.2 = heap st !! e'.2) as Hsame.
  { intros e' He'. apply Hun. intros e'' ->%list_elem_of_singleton. split.
    - intros E. apply He2. rewrite <- E. by apply list_elem_of_fmap_2.
    - rewrite Forall_forall in Hl. apply (Hl e' He'). }
  assert (forall e', e' ∈ l -> con_of d0 h1 e'.1 = con_of d0 (heap st) e'.1) as Hcon.
  { intros e' He'. unfold con_of. destruct (dict_map d0 !! e'.1) as [q|] eqn:Eq; [|done]. cbn.
    rewrite Hun; [done|]. intros e'' ->%list_elem_of_singleton. split.
    - intros ->. by apply (Hf e'.1).
    - intros E. apply He1. rewrite (keyed_inj _ _ _ _ _ Hk E Eq). by apply list_elem_of_fmap_2. }
  destruct (IH (with_heap st h1)) as (h2 & Hi & Hal2 & Hun2 & Hh2); try done.
  { by eapply keyed_alike. }
  { apply Forall_forall. intros e' He'. rewrite Forall_forall in Hl. destruct (Hl e' He') as [Hx Hy].
    split; [|done]. cbn. by rewrite Hsame. }
  exists h2. cbn [heap with_heap] in *. split_and!.
  - rewrite (bind_eq _ _ _ (Go ()) (with_heap st h1)); [exact Hi|]. by rewrite (bind_eq _ _ _ _ _ Hs).
  - by etrans.
  - intros p Hp. rewrite Hun2 by (intros e' He'; apply Hp; by right).
    apply Hun. intros e' ->%list_elem_of_singleton. apply Hp. left.
  - intros e' n' He' Hn'. apply elem_of_cons in He' as [->|He'].
    + assert (n' = n) as -> by congruence. rewrite Hun2; [done|]. intros e' He'. split; [|apply Hf].
      intros E. apply He2. rewrite E. by apply list_elem_of_fmap_2.
    + rewrite <- Hcon by done. apply Hh2; [done|]. by rewrite Hsame.
Qed.

(** *** Releasing the old nodes *)

Definition alone n : Prop := default [] (slaves n) = [].

Lemma node_destroy_spec p n st :
  heap st !! p = Some n -> alone n ->
  exists w, node_destroy p st = Some ((), mk_sys (s_cc st) (delete p (heap st)) (next_ptr st) w).
Proof.
  intros Hp Hs. set (w := match con n with Some c => redisFree c (world st) | None => world st end).
  exists w. unfold node_destroy.
  rewrite (bind_eq _ _ _ () (put_node (with_world st w) p cluster_node_init)).
  - unfold free_node. rewrite put_node_lookup. unfold put_node, with_heap. cbn.
    by rewrite delete_insert_eq.
  - unfold cluster_node_deinit. rewrite (bind_eq _ _ _ st st) by done.
    destruct (base.size (heap st)) as [|k] eqn:Ek.
    { apply map_size_empty_inv in Ek. by rewrite Ek in Hp. }
    cbn [node_deinit]. rewrite (bind_eq _ _ _ _ _ (load_eq _ _ _ Hp)).
    rewrite (bind_eq _ _ _ () (with_world st w)).
    2:{ unfold w. destruct (con n); [done|]. by destruct st. }
    rewrite (bind_eq _ _ _ () (with_world st w)) by (by destruct (acon n)).
    rewrite (bind_eq _ _ _ n (with_world st w)) by (by apply load_eq).
    rewrite Hs. cbn [each]. rewrite (bind_eq _ _ _ () (with_world st w)) by done.
    by apply (store_eq (with_world st w) p n).
Qed.

Lemma destroy_all_spec l : forall st,
  NoDup l.*2 -> (forall e : bytes * ptr, e ∈ l -> exists n, heap st !! e.2 = Some n /\ alone n) ->
  exists h' w, each l (fun e => node_destroy e.2) st = Some ((), mk_sys (s_cc st) h' (next_ptr st) w) /\
    (forall e, e ∈ l -> h' !! e.2 = None) /\ (forall p, p ∉ l.*2 -> h' !! p = heap st !! p).
Proof.
  induction l as [|e l IH]; intros st Hnd Hl; cbn [each].
  { exists (heap st), (world st). split; [by destruct st|]. split; [by intros e He%elem_of_nil|done]. }
  apply NoDup_cons in Hnd as [He Hnd]. destruct (Hl e ltac:(left)) as (n & Hn & Hs).
  destruct (node_destroy_spec e.2 n st Hn Hs) as [w Hw]. rewrite (bind_eq _ _ _ _ _ Hw).
  destruct (IH (mk_sys (s_cc st) (delete e.2 (heap st)) (next_ptr st) w) Hnd) as (h' & w' & Hr & Hin & Hout).
  { intros e' He'. destruct (Hl e' ltac:(by right)) as (n' & Hn' & Hs'). exists n'. split; [|done]. cbn.
    rewrite lookup_delete_ne; [done|]. intros E. apply He. rewrite E. by apply list_elem_of_fmap_2. }
  exists h', w'. rewrite Hr. cbn [s_cc next_ptr heap] in *. split_and!; [done| |].
  - intros e' He'. apply elem_of_cons in He' as [->|He']; [|by apply Hin].
    rewrite Hout by done. apply lookup_delete_eq.
  - intros p Hp. cbn [fmap list_fmap] in Hp. apply not_elem_of_cons in Hp as [Hne Hp].
    rewrite Hout by done. by apply lookup_delete_ne.
Qed.
End steps.
