(* ===== verification/ClusterRefreshSpec.v ===== *)
(** * Refreshing the route

    [cluster_update_route_by_addr] as a whole: what the servers report becomes the
    route of the context.  [route_wf] is the invariant of a context and its nodes:
    the table and the dictionary only refer to live nodes, and a node's address is
    its key. *)

From stdpp Require Import sorting.
From S2P Require Import Prelude Effects Hiutil Hiarray Reply Sds SdsSpec Dict DictSpec Command ClusterSlot ClusterNode ClusterTopology ClusterUpdate Script ClusterTopologySpec ClusterUpdateSpec.

#[local] Existing Instance no_async.

(** ** The nodes that a text adds *)

Section nodes.
Context {W Ctx : Type} `{Transport W Ctx}.
Implicit Types (st : sys W Ctx) (d : dict bytes ptr) (p : ptr) (l : list master).

Fixpoint new_entries l p : list (bytes * ptr) :=
  match l with
  | [] => []
  | m :: l' => (m_addr m, p) :: new_entries l' (p + 1)
  end.

Lemma new_entries_keys l : forall p, (new_entries l p).*1 = map m_addr l.
Proof. induction l as [|m l IH]; intros p; [done|]. cbn. by rewrite IH. Qed.

Lemma new_entries_elem l : forall p e, e ∈ new_entries l p ->
  exists i m, l !! i = Some m /\ e = (m_addr m, p + Z.of_nat i).
Proof.
  induction l as [|m l IH]; intros p e He; [by apply elem_of_nil in He|].
  cbn [new_entries] in He. apply elem_of_cons in He as [->|He].
  - exists 0%nat, m. by rewrite Z.add_0_r.
  - destruct (IH _ _ He) as (i & m' & Hi & ->). exists (S i), m'. split; [done|]. f_equal. lia.
Qed.

Lemma new_entries_lookup l : forall p i m, l !! i = Some m -> (m_addr m, p + Z.of_nat i) ∈ new_entries l p.
Proof.
  induction l as [|m l IH]; intros p [|i] m' Hm; [done..| |]; cbn in *.
  - simplify_eq. rewrite Z.add_0_r. left.
  - right. replace (p + Z.of_nat (S i)) with (p + 1 + Z.of_nat i) by lia. by apply IH.
Qed.

Lemma addr_map_insert l a q : a ∉ map m_addr l -> forall p g,
  addr_map l p (<[a := q]> g) = <[a := q]> (addr_map l p g).
Proof.
  intros Ha. induction l as [|m l IH]; intros p g; cbn [addr_map map] in *; [done|].
  apply not_elem_of_cons in Ha as [Hne Ha]. rewrite <- IH by done. by rewrite insert_insert_ne by done.
Qed.

Lemma addr_map_entries l : NoDup (map m_addr l) -> forall p, addr_map l p ∅ = list_to_map (new_entries l p).
Proof.
  induction l as [|m l IH]; intros Hnd p; [done|]. cbn [addr_map new_entries map] in *.
  apply NoDup_cons in Hnd as [Hm Hnd]. rewrite addr_map_insert by done. by rewrite IH.
Qed.

Lemma all_added_entries l p d :
  NoDup (map m_addr l) -> all_added dictCreate l p d -> entries d ≡ₚ new_entries l p.
Proof.
  intros Hnd ((_ & _ & _ & _ & _ & Hk) & _ & Hm & _).
  apply (list_to_map_inj (M := gmap bytes)); [done|by rewrite new_entries_keys|].
  change (dict_map d = list_to_map (new_entries l p)). rewrite Hm.
  change (dict_map dictCreate) with (∅ : gmap bytes ptr). by apply addr_map_entries.
Qed.

Lemma add_nodes_rest l : forall st, s_cc (add_nodes l st) = s_cc st /\ world (add_nodes l st) = world st.
Proof. induction l as [|m l IH]; intros st; [done|]. cbn [add_nodes]. by destruct (IH (add_node st (node_of m (next_ptr st)))) as [-> ->]. Qed.

Lemma add_nodes_old l : forall st p, p < next_ptr st -> heap (add_nodes l st) !! p = heap st !! p.
Proof.
  induction l as [|m l IH]; intros st p Hp; [done|]. cbn [add_nodes]. rewrite IH by (cbn; lia).
  cbn. by rewrite lookup_insert_ne by lia.
Qed.

Lemma add_nodes_new l : forall st i m, l !! i = Some m ->
  heap (add_nodes l st) !! (next_ptr st + Z.of_nat i) = Some (node_of m (next_ptr st + Z.of_nat i)).
Proof.
  induction l as [|m l IH]; intros st [|i] m' Hm; [done..| |]; cbn [add_nodes lookup list_lookup] in *.
  - simplify_eq. rewrite Z.add_0_r. rewrite add_nodes_old by (cbn; lia). apply lookup_insert_eq.
  - replace (next_ptr st + Z.of_nat (S i)) with (next_ptr st + 1 + Z.of_nat i) by lia.
    by apply (IH (add_node st (node_of m (next_ptr st)))).
Qed.

End nodes.

Lemma zlen_masters (l : list entry) : zlen (masters l) <= zlen (text l).
Proof.
  induction l as [|e l IH]; [done|]. rewrite masters_cons. unfold text in *. cbn [map concat].
  rewrite !zlen_app. unfold line at 1. rewrite zlen_app. change (zlen [LF]) with 1.
  pose proof (zlen_nonneg (join_bytes [SP] (parts_of e))).
  assert (zlen (entry_masters e) <= 1) by (by destruct e). lia.
Qed.


(** ** The regions of the masters *)

Definition ranges_disjoint (l : list (Z * Z)) : Prop :=
  forall i j a b, l !! i = Some a -> l !! j = Some b -> i <> j ->
    forall k, ~ (a.1 <= k <= a.2 /\ b.1 <= k <= b.2).

(** The slots a master owns. *)
Definition owns (m : master) (k : Z) : Prop := exists r, r ∈ m_ranges m /\ r.1 <= k <= r.2.

Definition region (x : cluster_slot ptr) : Z * Z := (sl_start x, sl_end x).

Lemma disjoint_regions l : ranges_disjoint (map region l) -> disjoint l.
Proof.
  intros Hd i j a b Hi Hj Hne k. apply (Hd i j (region a) (region b)); [| |done];
    rewrite list_lookup_fmap; by rewrite ?Hi, ?Hj.
Qed.

Fixpoint all_slots (l : list master) (p : ptr) : list (cluster_slot ptr) :=
  match l with
  | [] => []
  | m :: l' => map (fun r => mk_slot r.1 r.2 p) (m_ranges m) ++ all_slots l' (p + 1)
  end.

Lemma all_slots_regions l : forall p, map region (all_slots l p) = concat (map m_ranges l).
Proof.
  induction l as [|m l IH]; intros p; [done|]. cbn [all_slots map concat]. rewrite map_app, IH. f_equal.
  rewrite map_map. cbn. rewrite <- (map_id (m_ranges m)) at 2. apply map_ext. by intros [a b].
Qed.

Lemma all_slots_elem l : forall p x, x ∈ all_slots l p <->
  exists i m r, l !! i = Some m /\ r ∈ m_ranges m /\ x = mk_slot r.1 r.2 (p + Z.of_nat i).
Proof.
  induction l as [|m l IH]; intros p x; cbn [all_slots].
  { split; [by intros ?%elem_of_nil|]. by intros (i & m & r & Hi & _). }
  rewrite elem_of_app, IH. split.
  - intros [Hx|(i & m' & r & Hi & Hr & ->)].
    + apply list_elem_of_fmap in Hx as (r & -> & Hr). exists 0%nat, m, r. by rewrite Z.add_0_r.
    + exists (S i), m', r. split_and!; try done. f_equal. lia.
  - intros ([|i] & m' & r & Hi & Hr & ->); cbn in Hi.
    + left. simplify_eq. rewrite Z.add_0_r. by apply (list_elem_of_fmap_2 (fun r => mk_slot r.1 r.2 p)).
    + right. exists i, m', r. split_and!; try done. f_equal. lia.
Qed.

Lemma m_ranges_ok m r : master_ok m -> r ∈ m_ranges m ->
  0 <= r.1 <= r.2 /\ r.2 < REDIS_CLUSTER_SLOTS.
Proof.
  intros Hm Hr. unfold m_ranges in Hr. apply list_elem_of_In, in_concat in Hr as (rs & Hrs & Hr).
  apply list_elem_of_In in Hrs, Hr. apply list_elem_of_fmap in Hrs as (sp & -> & Hsp).
  pose proof (ok_slots m Hm) as Hok. rewrite Forall_forall in Hok. specialize (Hok sp Hsp).
  destruct sp; cbn in *; try (by apply elem_of_nil in Hr); apply list_elem_of_singleton in Hr as ->; cbn; lia.
Qed.

(** ** The update *)

Section refresh.
Context {W Ctx : Type} `{Transport W Ctx}.
Context (malloc_ok : Z -> bool) (Hmalloc : forall n, malloc_ok n = true).
Context (alloc : Z -> option bytes).
Context (Halloc : forall n b, 0 <= n -> alloc n = Some b -> zlen b = n) (Hmem : forall n, alloc n <> None).
Implicit Types (st : sys W Ctx) (d : dict bytes ptr) (p : ptr) (h : gmap ptr (cluster_node Ctx)).

(** *** The invariant of a context *)

(** The nodes of a dictionary are live, are what they are filed under and have no
    slaves. *)
Record dict_ok st d : Prop := {
  ok_wf : dict_wf d;
  ok_size : Dict.size d < 2 ^ 31;
  ok_keyed : keyed (heap st) (dict_map d);
  ok_alone : forall a p n, dict_map d !! a = Some p -> heap st !! p = Some n -> alone n
}.
Definition refers_to d (t : gmap Z ptr) : Prop := forall k p, t !! k = Some p -> exists a, dict_map d !! a = Some p.

Definition route_wf st : Prop :=
  (forall p n, heap st !! p = Some n -> p < next_ptr st) /\
  match nodes (s_cc st) with
  | Some d => dict_ok st d /\ refers_to d (table (s_cc st))
  | None => table (s_cc st) = ∅
  end.

Lemma slots_in_new h l : forall p,
  (forall i m, l !! i = Some m -> h !! (p + Z.of_nat i) = Some (node_of m (p + Z.of_nat i))) ->
  slots_in h (new_entries l p) = all_slots l p.
Proof.
  induction l as [|m l IH]; intros p Hh; [done|]. unfold slots_in in *. cbn [new_entries map concat all_slots].
  rewrite IH.
  - f_equal. pose proof (Hh 0%nat m eq_refl) as E. rewrite Z.add_0_r in E. cbn [snd]. by rewrite E.
  - intros i m' Hm. specialize (Hh (S i) m' Hm). by replace (p + 1 + Z.of_nat i) with (p + Z.of_nat (S i)) by lia.
Qed.

Lemma slots_in_perm h (l l' : list (bytes * ptr)) : l ≡ₚ l' -> slots_in h l ≡ₚ slots_in h l'.
Proof. intros Hp. unfold slots_in. rewrite <- !flat_map_concat_map. by apply Permutation_flat_map. Qed.

Lemma entries_lookup d e : dict_wf d -> e ∈ entries d <-> dict_map d !! e.1 = Some e.2.
Proof.
  intros (_ & _ & _ & _ & _ & Hnd). unfold dict_map. destruct e as [a p].
  split; [by apply elem_of_list_to_map_1|apply elem_of_list_to_map_2].
Qed.

Lemma keyed_values h d : dict_wf d -> keyed h (dict_map d) -> NoDup (entries d).*2.
Proof.
  intros Hwf Hk. pose proof Hwf as (_ & _ & _ & _ & _ & Hnd). apply NoDup_fmap_2_strong.
  - intros [a p] [b q] Ha Hb E. cbn in E. subst q. apply entries_lookup in Ha, Hb; try done.
    f_equal. by eapply keyed_inj.
  - by eapply NoDup_fmap_1.
Qed.

(** The old nodes can be released, the rest stays. *)
Lemma release_nodes_spec st d :
  dict_ok st d ->
  exists h w, release_nodes d st = Some ((), mk_sys (s_cc st) h (next_ptr st) w) /\
    (forall p, (forall a, dict_map d !! a <> Some p) -> h !! p = heap st !! p) /\
    (forall a p, dict_map d !! a = Some p -> h !! p = None).
Proof.
  intros Hd. pose proof (ok_wf _ _ Hd) as Hwf. unfold release_nodes.
  destruct (destroy_all_spec (entries d) st) as (h & w & Hr & Hin & Hout).
  - by apply (keyed_values (heap st)); [|apply Hd].
  - intros e He. apply entries_lookup in He; [|done]. destruct (ok_keyed _ _ Hd _ _ He) as (n & Hn & _).
    exists n. split; [done|]. by eapply (ok_alone _ _ Hd).
  - exists h, w. split_and!; [done| |].
    + intros p Hp. apply Hout. intros Hin'. apply list_elem_of_fmap in Hin' as (e & -> & He).
      apply entries_lookup in He; [|done]. by apply (Hp e.1).
    + intros a p Ha. by apply (Hin (a, p)), entries_lookup.
Qed.

(** *** From the parsed nodes to the route *)

Definition old_con st (a : bytes) : option Ctx * option ptr :=
  match nodes (s_cc st) with Some d => con_of d (heap st) a | None => (None, None) end.

(** The route after an update: [ms] is what was reported, [p] the pointer of the
    first node. *)
Record refreshed (ms : list master) st st' : Prop := {
  re_wf : route_wf st';
  re_owned : forall i m k, ms !! i = Some m -> owns m k ->
    table (s_cc st') !! k = Some (next_ptr st + Z.of_nat i);
  re_rest : forall k, (forall m, m ∈ ms -> ~ owns m k) -> table (s_cc st') !! k = None;
  re_node : forall i m, ms !! i = Some m -> heap st' !! (next_ptr st + Z.of_nat i) =
    Some (with_conns (node_of m (next_ptr st + Z.of_nat i)) (old_con st (m_addr m)));
  re_freed : forall d a p, nodes (s_cc st) = Some d -> dict_map d !! a = Some p -> heap st' !! p = None;
  re_version : route_version (s_cc st') = u64 (route_version (s_cc st) + 1)
}.

Definition masters_ok (ms : list master) : Prop :=
  ms <> [] /\ Forall master_ok ms /\ NoDup (map m_addr ms) /\ zlen ms < 2 ^ 29 /\
  ranges_disjoint (concat (map m_ranges ms)).

(** The table of the collected slots. *)
Lemma table_spec ms p sl :
  masters_ok ms -> sl ≡ₚ all_slots ms p ->
  exists t, fill_table sl ∅ = Some t /\
    (forall i m k, ms !! i = Some m -> owns m k -> t !! k = Some (p + Z.of_nat i)) /\
    (forall k, (forall m, m ∈ ms -> ~ owns m k) -> t !! k = None) /\
    (forall k q, t !! k = Some q -> exists i m, ms !! i = Some m /\ q = p + Z.of_nat i).
Proof.
  intros (_ & _ & _ & _ & Hd) Hp.
  assert (disjoint sl) as Hds.
  { eapply disjoint_perm; [by symmetry|]. apply disjoint_regions. by rewrite all_slots_regions. }
  destruct (fill_table_spec sl ∅ Hds) as (t & -> & Ht); [done|]. exists t. split; [done|]. split_and!.
  - intros i m k Hm (r & Hr & Hk). destruct (Ht k) as [Hin _].
    apply (Hin (mk_slot r.1 r.2 (p + Z.of_nat i))); [|done].
    rewrite Hp. apply all_slots_elem. by exists i, m, r.
  - intros k Hno. destruct (Ht k) as [_ Hout]. rewrite Hout; [done|]. intros x Hx Hc. rewrite Hp in Hx.
    apply all_slots_elem in Hx as (i & m & r & Hi & Hr & ->). apply (Hno m).
    + by apply list_elem_of_lookup_2 in Hi.
    + by exists r.
  - intros k q Hq. destruct (Ht k) as [Hin Hout].
    destruct (decide (Exists (fun x => sl_start x <= k <= sl_end x) sl)) as [He|He].
    + apply Exists_exists in He as (x & Hx & Hc). rewrite (Hin x Hx Hc) in Hq. rewrite Hp in Hx.
      apply all_slots_elem in Hx as (i & m & r & Hi & Hr & ->). exists i, m. cbn in Hq. by simplify_eq.
    + rewrite Hout in Hq; [done|]. intros x Hx Hc. apply He, Exists_exists. by exists x.
Qed.

(** The slots of the new nodes are collected. *)
Lemma collect_spec ms d st dit :
  masters_ok ms -> entries d ≡ₚ new_entries ms (next_ptr st) -> used d = zlen ms ->
  exists a a' lit, hiarray_create malloc_ok (used d) 8 = Some a /\
    each_flow (entries d) (gather_master malloc_ok) (mk_update a dit NotYet) (add_nodes ms st) =
      Some (Go (mk_update a' dit lit), add_nodes ms st) /\
    lit <> Live /\ elem a' ≡ₚ all_slots ms (next_ptr st).
Proof.
  intros (Hne & Hok & Hnd & Hn & Hd) Hent Hu. unfold hiarray_create. rewrite Hmalloc.
  assert (0 < zlen ms) by (destruct ms; [done|zlen_lia]).
  set (a := {| elem := []; nelem := 0; esize := 8; nalloc := used d |}).
  assert (slots_in (heap (add_nodes ms st)) (entries d) ≡ₚ all_slots ms (next_ptr st)) as Hsl.
  { rewrite (slots_in_perm _ _ _ Hent), slots_in_new; [done|]. intros i m Hm. by apply add_nodes_new. }
  assert (zlen (all_slots ms (next_ptr st)) <= REDIS_CLUSTER_SLOTS) as Hlen.
  { apply disjoint_length.
    - apply disjoint_regions. by rewrite all_slots_regions.
    - apply Forall_forall. intros x Hx. apply all_slots_elem in Hx as (i & m & r & Hi & Hr & ->).
      apply list_elem_of_lookup_2 in Hi. rewrite Forall_forall in Hok. apply (m_ranges_ok m r); [by apply Hok|done]. }
  destruct (gather_spec malloc_ok Hmalloc (entries d) a dit NotYet (add_nodes ms st)) as (a' & lit & Hg & Hl & _ & He).
  - apply Forall_forall. intros e He. rewrite Hent in He. apply new_entries_elem in He as (i & m & Hi & ->).
    eexists _, _. split; [by apply add_nodes_new|]. split; [done|]. split; [done|].
    apply Forall_forall. intros x Hx. apply list_elem_of_fmap in Hx as (r & -> & Hr).
    apply list_elem_of_lookup_2 in Hi. rewrite Forall_forall in Hok. apply (m_ranges_ok m r); [by apply Hok|done].
  - done.
  - unfold collecting, a. cbn. rewrite Hu. change (zlen (@nil (cluster_slot ptr))) with 0. lia.
  - cbn [a nelem]. unfold zlen in *. rewrite Hsl. unfold REDIS_CLUSTER_SLOTS in Hlen. lia.
  - exists a, a', lit. split_and!; try done. rewrite He. done.
Qed.

Lemma add_nodes_bound ms st q n :
  route_wf st -> heap (add_nodes ms st) !! q = Some n -> q < next_ptr st + zlen ms.
Proof.
  intros [Hb _]. revert st Hb. induction ms as [|m ms IH]; intros st Hb Hq; cbn [add_nodes] in *.
  - change (zlen (@nil master)) with 0. specialize (Hb q n Hq). lia.
  - apply IH in Hq; [cbn in Hq; zlen_lia|]. intros q' n'. cbn [heap next_ptr add_node].
    intros [[<- _]|[_ Hq']]%lookup_insert_Some; [lia|]. specialize (Hb q' n' Hq'). lia.
Qed.

Lemma old_pointer st d0 a q :
  route_wf st -> nodes (s_cc st) = Some d0 -> dict_map d0 !! a = Some q -> q < next_ptr st.
Proof.
  intros [Hb Hn] Hd Ha. rewrite Hd in Hn. destruct Hn as [Hok _].
  destruct (ok_keyed _ _ Hok _ _ Ha) as (n & Hq & _). by eapply Hb.
Qed.

(** The old dictionary is as good while there are more nodes. *)
Lemma dict_ok_more ms st d0 : route_wf st -> nodes (s_cc st) = Some d0 -> dict_ok (add_nodes ms st) d0.
Proof.
  intros Hwf Hd. pose proof (fun a q => old_pointer st d0 a q Hwf Hd) as Hold.
  destruct Hwf as [Hb Hn]. rewrite Hd in Hn. destruct Hn as [[Hdw Hsz Hk Hal] _]. split; try done.
  - intros a q Ha. rewrite add_nodes_old by (by eapply Hold). by apply Hk.
  - intros a q n Ha. rewrite add_nodes_old by (by eapply Hold). by apply (Hal a).
Qed.

Lemma swap_ctx_spec ms d st :
  route_wf st -> NoDup (map m_addr ms) -> dict_wf d -> Dict.size d < 2 ^ 31 ->
  entries d ≡ₚ new_entries ms (next_ptr st) ->
  exists h1, cluster_nodes_swap_ctx (nodes (s_cc st)) d (add_nodes ms st) =
      Some ((), with_heap (add_nodes ms st) h1) /\ heap_alike (heap (add_nodes ms st)) h1 /\
    forall i m, ms !! i = Some m -> h1 !! (next_ptr st + Z.of_nat i) =
      Some (with_conns (node_of m (next_ptr st + Z.of_nat i)) (old_con st (m_addr m))).
Proof.
  intros Hwf Hnd Hdw Hsz Hent. unfold old_con. destruct (nodes (s_cc st)) as [d0|] eqn:Ed; cbn [cluster_nodes_swap_ctx].
  2:{ exists (heap (add_nodes ms st)). split; [by destruct (add_nodes ms st)|]. split; [reflexivity|].
      intros i m Hm. by rewrite (add_nodes_new ms st i m Hm). }
  pose proof (dict_ok_more ms st d0 Hwf Ed) as Hok0.
  destruct (swap_all_spec d0 (entries d) (add_nodes ms st)) as (h1 & Hs & Hal & _ & Hh).
  - apply Hok0.
  - apply Hok0.
  - apply Hdw.
  - rewrite Hent. pose proof (new_entries_keys ms (next_ptr st)) as Hkeys.
    apply NoDup_fmap_2_strong; [|apply (NoDup_fmap_1 fst); by rewrite Hkeys].
    intros e e' He He' E. apply new_entries_elem in He as (i & m & Hi & ->), He' as (j & m' & Hj & ->).
    cbn in E. assert (i = j) as -> by lia. congruence.
  - apply Forall_forall. intros e He. rewrite Hent in He. apply new_entries_elem in He as (i & m & Hi & ->).
    split; [eexists; split; [by apply add_nodes_new|done]|]. intros a Ha.
    pose proof (old_pointer st d0 a _ Hwf Ed Ha) as Hlt. cbn in Hlt. lia.
  - exists h1. split_and!; [|done|].
    + rewrite (bind_eq _ _ _ (Go ()) (with_heap (add_nodes ms st) h1)); [done|].
      by rewrite (dict_each_flow d).
    + intros i m Hm. pose proof (Hh (m_addr m, next_ptr st + Z.of_nat i)
        (node_of m (next_ptr st + Z.of_nat i))) as E. cbn [fst snd] in E. rewrite E.
      * do 2 f_equal. unfold con_of. destruct (dict_map d0 !! m_addr m) as [q|] eqn:Eq; [|done]. cbn.
        by rewrite add_nodes_old by (by eapply old_pointer).
      * rewrite Hent. by apply new_entries_lookup.
      * by apply add_nodes_new.
Qed.

(** What is left when the old nodes are released. *)
Lemma drop_old_spec ms st h1 :
  route_wf st -> heap_alike (heap (add_nodes ms st)) h1 ->
  exists h2 w, match nodes (s_cc st) with Some old => release_nodes old | None => mret () end
      (with_heap (add_nodes ms st) h1) = Some ((), mk_sys (s_cc st) h2 (next_ptr st + zlen ms) w) /\
    (forall q, next_ptr st <= q -> h2 !! q = h1 !! q) /\
    (forall q n, h2 !! q = Some n -> q < next_ptr st + zlen ms) /\
    (forall d a q, nodes (s_cc st) = Some d -> dict_map d !! a = Some q -> h2 !! q = None).
Proof.
  intros Hwf Hal. destruct (add_nodes_rest ms st) as [Hcc _].
  assert (forall q n, h1 !! q = Some n -> q < next_ptr st + zlen ms) as Hb.
  { intros q n Hq. specialize (Hal q). rewrite Hq in Hal.
    destruct (heap (add_nodes ms st) !! q) as [n'|] eqn:E; [|done]. by eapply add_nodes_bound. }
  destruct (nodes (s_cc st)) as [d0|] eqn:Ed.
  2:{ exists h1, (world (add_nodes ms st)). split_and!; try done.
      unfold mret, prog_ret, with_heap. by rewrite Hcc, next_add_nodes. }
  destruct (dict_ok_more ms st d0 Hwf Ed) as [Hdw Hsz Hk Hal0].
  destruct (release_nodes_spec (with_heap (add_nodes ms st) h1) d0) as (h2 & w & Hr & Hout & Hin).
  { split; try done; [by eapply keyed_alike|]. intros a q n Ha Hn. cbn in Hn. destruct (Hk _ _ Ha) as (n0 & Hn0 & _).
    destruct (alike_lookup _ _ _ _ Hal Hn0) as [c Hc]. rewrite Hc in Hn. simplify_eq. exact (Hal0 a q n0 Ha Hn0). }
  exists h2, w. split_and!.
  - rewrite Hr. cbn. by rewrite Hcc, next_add_nodes.
  - intros q Hq. apply Hout. intros a Ha. pose proof (old_pointer st d0 a q Hwf Ed Ha). lia.
  - intros q n Hq. destruct (h1 !! q) as [n'|] eqn:E; [by eapply Hb|].
    destruct (decide (Exists (fun e => e.2 = q) (entries d0))) as [He|He].
    + apply Exists_exists in He as (e & He & <-). apply entries_lookup in He; [|done].
      by rewrite (Hin _ _ He) in Hq.
    + rewrite Hout in Hq; [cbn in Hq; congruence|]. intros a Ha. apply He, Exists_exists.
      exists (a, q). split; [by apply entries_lookup|done].
  - intros d a q [= <-] Ha. by eapply Hin.
Qed.

Lemma install_spec ms c d st :
  route_wf st -> masters_ok ms -> all_added dictCreate ms (next_ptr st) d ->
  exists st', install_route malloc_ok c d (add_nodes ms st) = Some (REDIS_OK, st') /\ refreshed ms st st'.
Proof.
  intros Hwf Hms Hd. pose proof Hms as (Hne & Hok & Hnd & Hn & Hdisj).
  pose proof (all_added_entries ms _ d Hnd Hd) as Hent. destruct Hd as (Hdw & Hdense & Hdm & Hu).
  change (used dictCreate) with 0 in Hu. rewrite Z.add_0_l in Hu.
  assert (Dict.size d < 2 ^ 31) as Hsz by (unfold dense in Hdense; lia).
  destruct (collect_spec ms d st Live Hms Hent Hu) as (a & a' & lit & Ha & Hg & Hlit & Hel).
  unfold install_route. rewrite Ha.
  rewrite (bind_eq _ _ _ (Go (mk_update a' Live lit)) (add_nodes ms st)) by (by rewrite (dict_each_flow d)).
  cbn [u_dit u_slots]. rewrite (bind_eq _ _ _ Released (add_nodes ms st)) by done.
  destruct (table_spec ms (next_ptr st) (merge_sort start_le (elem a')) Hms) as (t & Ht & Hown & Hrest & Hptr).
  { by rewrite merge_sort_Permutation. }
  cbn [hiarray_sort elem]. rewrite Ht. destruct (add_nodes_rest ms st) as [Hcc _].
  rewrite (bind_eq _ _ _ (s_cc st) (add_nodes ms st)) by (unfold get_cc, gets; by rewrite Hcc).
  destruct (swap_ctx_spec ms d st Hwf Hnd Hdw Hsz Hent) as (h1 & Hs & Hal & Hh1).
  rewrite (bind_eq _ _ _ _ _ Hs).
  destruct (drop_old_spec ms st h1 Hwf Hal) as (h2 & w & Hr & Hnew & Hb & Hgone).
  rewrite (bind_eq _ _ _ _ _ Hr). eexists. split; [reflexivity|].
  assert (forall i m, ms !! i = Some m -> h2 !! (next_ptr st + Z.of_nat i) =
    Some (with_conns (node_of m (next_ptr st + Z.of_nat i)) (old_con st (m_addr m)))) as Hnode.
  { intros i m Hm. rewrite Hnew by lia. by apply Hh1. }
  assert (forall b q, dict_map d !! b = Some q -> exists i m, ms !! i = Some m /\ b = m_addr m /\
    q = next_ptr st + Z.of_nat i) as Hdict.
  { intros b q Hbq. apply (entries_lookup d (b, q) Hdw) in Hbq. rewrite Hent in Hbq.
    apply new_entries_elem in Hbq as (i & m & Hi & [= -> ->]). by exists i, m. }
  split; cbn; try done. split; [done|]. cbn. split; [split; try done|].
  - intros b q Hbq. destruct (Hdict _ _ Hbq) as (i & m & Hi & -> & ->). eexists. by split; [apply Hnode|].
  - intros b q n Hbq Hq. destruct (Hdict _ _ Hbq) as (i & m & Hi & -> & ->). cbn in Hq.
    rewrite (Hnode i m Hi) in Hq. by simplify_eq.
  - intros k q Hk. destruct (Hptr k q Hk) as (i & m & Hi & ->). exists (m_addr m).
    apply (entries_lookup d (m_addr m, next_ptr st + Z.of_nat i) Hdw). rewrite Hent. by apply new_entries_lookup.
Qed.

(** *** The whole update *)

(** Connecting to [ip:port] and asking it for the nodes gives the text [txt]. *)
Definition reports (cc : redisClusterContext) (ip : bytes) (port : Z) (txt : bytes) (w : W) : Prop :=
  exists c w1 w3,
    match connect_timeout cc with
    | Some tv => redisConnectWithTimeout ip port tv w
    | None => redisConnect ip port w
    end = (Some c, w1) /\ ctx_err w1 c = 0 /\
    redisCommand c (s "CLUSTER NODES") (match timeout cc with Some tv => (redisSetTimeout c tv w1).2 | None => w1 end)
      = (Some (createStringObject REDIS_REPLY_STRING txt), w3).

Definition report_ok (l : list entry) : Prop :=
  Forall entry_ok l /\ masters l <> [] /\ NoDup (map m_addr (masters l)) /\ zlen (text l) < 2 ^ 29 /\
  ranges_disjoint (concat (map m_ranges (masters l))).

Lemma masters_are_ok l : report_ok l -> masters_ok (masters l).
Proof.
  intros (Hok & Hne & Hnd & Hlen & Hd). pose proof (zlen_masters l). split_and!; try done; [|lia].
  clear -Hok. induction l as [|[m|parts] l IH]; cbn [masters]; [done|..];
    apply Forall_cons in Hok as [He Hok]; [constructor; [done|]|]; by apply IH.
Qed.

Lemma route_wf_world st w : route_wf st -> route_wf (with_world st w).
Proof.
  intros [Hb Hn]. split; [done|]. cbn. destruct (nodes (s_cc st)) as [d|]; [|done].
  by destruct Hn as [[] Hn].
Qed.

(** What asking the server comes to. *)
Lemma fetch_spec l ip port st :
  plain (flags (s_cc st)) -> report_ok l -> Z.land (flags (s_cc st)) HIRCLUSTER_FLAG_ROUTE_USE_SLOTS = 0 ->
  0 < port -> reports (s_cc st) ip port (text l) (world st) ->
  exists c w d, all_added dictCreate (masters l) (next_ptr st) d /\
    cluster_update_route_by_addr malloc_ok alloc ip port st =
    install_route malloc_ok c d (add_nodes (masters l) (with_world st w)).
Proof.
  intros Hfl (Hok & Hne & Hnd & Hlen & Hdisj) Hus Hport (c & w1 & w3 & Hc & Herr & Hrep).
  pose proof (zlen_masters l). pose proof (zlen_nonneg (text l)).
  destruct (parse_nodes_spec malloc_ok Hmalloc alloc Halloc Hmem (flags (s_cc st)) l (with_world st w3))
    as (d & Hp & Hd); try done; [lia..|].
  exists c, w3, d. split; [done|]. unfold cluster_update_route_by_addr.
  destruct (Z.leb_spec port 0); [lia|].
  rewrite (bind_eq _ _ _ (Some c) (with_world st w1)).
  2:{ unfold connect. rewrite (bind_eq _ _ _ (s_cc st) st) by done.
      destruct (connect_timeout (s_cc st)); unfold call; by rewrite Hc. }
  rewrite (bind_eq _ _ _ (with_world st w1) (with_world st w1)) by done. cbn [world with_world s_cc].
  rewrite Herr, Z.eqb_refl. cbn [negb].
  set (w2 := match timeout (s_cc st) with Some tv => (redisSetTimeout c tv w1).2 | None => w1 end) in *.
  rewrite (bind_eq _ _ _ () (with_world st w2)).
  2:{ unfold w2. destruct (timeout (s_cc st)) as [tv|]; [|done].
      unfold mbind, prog_bind, call. cbn [world with_world]. by destruct (redisSetTimeout c tv w1). }
  rewrite Hus, Z.eqb_refl. cbn [negb].
  set (r := createStringObject REDIS_REPLY_STRING (text l)) in *.
  rewrite (bind_eq _ _ _ (Some r, Some d) (add_nodes (masters l) (with_world st w3))); [done|].
  unfold fetch_nodes. rewrite (bind_eq _ _ _ (Some r) (with_world st w3)).
  2:{ unfold call. cbn [world with_world]. by rewrite Hrep. }
  change (rtype r =? REDIS_REPLY_STRING) with true. cbn [negb].
  rewrite (bind_eq _ _ _ (s_cc st) (with_world st w3)) by done.
  rewrite (bind_eq _ _ _ (text l) (with_world st w3)) by done.
  assert (rlen r = zlen (text l)) as -> by (unfold r; cbn; unfold i32; rewrite Z.mod_small; lia).
  by rewrite (bind_eq _ _ _ _ _ Hp).
Qed.
End refresh.

(** C1: after an update of the route from a server that reports a topology
    whose regions do not overlap, the slot table is the one reported: the entry of
    every slot that a master owns is a live node with the host, the port and the
    role of that master, with both connections of the old node of that address, and the
    other slots have no node; the old nodes are freed, the version counts up, and
    the context is well formed again. *)
Theorem cluster_update_route_by_addr_installs {W Ctx} `{Transport W Ctx} malloc_ok alloc l ip port
  (st : sys W Ctx) :
  (forall n, malloc_ok n = true) -> (forall n b, 0 <= n -> alloc n = Some b -> zlen b = n) ->
  (forall n, alloc n <> None) -> route_wf st -> plain (flags (s_cc st)) ->
  Z.land (flags (s_cc st)) HIRCLUSTER_FLAG_ROUTE_USE_SLOTS = 0 -> 0 < port ->
  report_ok l -> reports (s_cc st) ip port (text l) (world st) ->
  exists st', cluster_update_route_by_addr malloc_ok alloc ip port st = Some (REDIS_OK, st') /\
    route_wf st' /\
    (forall m k, m ∈ masters l -> owns m k -> exists p n,
       node_get_by_table (table (s_cc st')) k = Some p /\ heap st' !! p = Some n /\
       addr n = Some (m_addr m) /\ host n = Some (m_host m) /\ ClusterNode.port n = m_port m /\
       role n = REDIS_ROLE_MASTER /\ (con n, acon n) = old_con st (m_addr m)) /\
    (forall k, (forall m, m ∈ masters l -> ~ owns m k) -> node_get_by_table (table (s_cc st')) k = None) /\
    (forall d a p, nodes (s_cc st) = Some d -> dict_map d !! a = Some p -> heap st' !! p = None) /\
    route_version (s_cc st') = u64 (route_version (s_cc st) + 1).
Proof.
  intros Hmalloc Halloc Hmem Hwf Hfl Hus Hport Hrep Hsrv.
  destruct (fetch_spec malloc_ok Hmalloc alloc Halloc Hmem l ip port st) as (c & w & d & Hd & ->); try done.
  pose proof (masters_are_ok l Hrep) as Hms.
  destruct (install_spec malloc_ok Hmalloc (masters l) c d (with_world st w)) as (st' & Hi & []); [|done..|].
  { by apply route_wf_world. }
  exists st'. split_and!; try done.
  - intros m k Hm Hk. apply list_elem_of_lookup in Hm as [i Hi']. destruct Hms as (_ & Hok & _).
    pose proof Hk as (r & Hr & Hrk). rewrite Forall_lookup in Hok.
    pose proof (m_ranges_ok m r (Hok i m Hi') Hr).
    exists (next_ptr st + Z.of_nat i). eexists. split; [|split; [by apply re_node0|split_and!; try done; by destruct (old_con _ _)]].
    unfold node_get_by_table. destruct (Z.leb_spec REDIS_CLUSTER_SLOTS k); [lia|]. by apply (re_owned0 i m).
  - intros k Hk. unfold node_get_by_table. case_match; [done|]. by apply re_rest0.
Qed.

(** Two masters, a slave and a node without an address; one address is known
    already, with an open connection. *)
Definition master_a : master :=
  mk_master (s "id1") (s "10.0.0.1") 7000 true [] [s "-"; s "0"; s "0"; s "1"; s "connected"] [SlotRange 0 8191].
Definition master_b : master :=
  mk_master (s "id2") (s "10.0.0.2") 7001 false [] [s "-"; s "0"; s "0"; s "2"; s "connected"]
    [SlotRange 8192 16000; OneSlot 16001; OpenSlot 5 true (s "id1")].
Definition reported : list entry :=
  [Master master_a;
   Other [s "id3"; s "10.0.0.3:7002"; s "slave"; s "id1"; s "0"; s "0"; s "3"; s "connected"];
   Other [s "id4"; s ":0"; s "master,noaddr"; s "-"; s "0"; s "0"; s "4"; s "disconnected"];
   Master master_b].

Definition known_sys : sys script (bytes * Z) :=
  let d := default dictCreate (snd <$> dictAdd dictCreate (s "10.0.0.2:7001") 1) in
  mk_sys (mk_cc 0 [] None 0 REDIS_BLOCK None None None (Some d) {[3 := 1]} 7 5 0 None 0 0)
    {[1 := mk_node None (Some (s "10.0.0.2:7001")) (Some (s "10.0.0.2")) 7001 REDIS_ROLE_NULL 0
             (Some (s "10.0.0.2", 7001)) None None None 0 None None]} 2
    (mk_script [Some (createStringObject REDIS_REPLY_STRING (text reported))] []).

Lemma ranges_disjoint_cons r l :
  Forall (fun q => q.2 < r.1 \/ r.2 < q.1) l -> ranges_disjoint l -> ranges_disjoint (r :: l).
Proof.
  intros Hr Hl [|i] [|j] a b Ha Hb Hne k Hk; cbn in Ha, Hb; [done|..].
  - simplify_eq. rewrite Forall_lookup in Hr. specialize (Hr j b Hb). cbn in *. lia.
  - simplify_eq. rewrite Forall_lookup in Hr. specialize (Hr i a Ha). cbn in *. lia.
  - apply (Hl i j a b Ha Hb ltac:(congruence) k Hk).
Qed.


Lemma field_dec f : bool_decide (SP ∉ f) && bool_decide (LF ∉ f) = true -> field f.
Proof. intros [H1%bool_decide_eq_true H2%bool_decide_eq_true]%andb_true_iff. by split. Qed.

Ltac fields := repeat apply Forall_cons_2; try apply Forall_nil_2; apply field_dec; by vm_compute.

Lemma reported_ok : report_ok reported.
Proof.
  split_and!.
  - repeat apply Forall_cons_2; [| | | |done]; cbn [entry_ok].
    + split; try (apply field_dec; by vm_compute); try (eapply bool_decide_eq_true_1; by vm_compute); try done.
      repeat constructor; cbn; unfold REDIS_CLUSTER_SLOTS; lia.
    + split; [fields|]. split; [cbn; lia|]. split; [done|]. right. by eexists.
    + split; [fields|]. split; [cbn; lia|]. split; [done|]. by left.
    + split; try (apply field_dec; by vm_compute); try (eapply bool_decide_eq_true_1; by vm_compute); try done.
      repeat apply Forall_cons_2; [| | |done]; cbn; unfold REDIS_CLUSTER_SLOTS; try lia.
        split; [lia|]. split; [by apply field_dec; vm_compute|eapply bool_decide_eq_true_1; by vm_compute].
  - done.
  - apply (bool_decide_eq_true_1 _). by vm_compute.
  - zcompute.
  - repeat apply ranges_disjoint_cons; try (repeat constructor; cbn; lia). by intros i j a b Hi.
Qed.

Lemma known_dict : exists d, nodes (s_cc known_sys) = Some d /\ dict_wf d /\ Dict.size d < 2 ^ 31 /\
  dict_map d = {[s "10.0.0.2:7001" := 1]}.
Proof.
  destruct (dict_add_new dictCreate (s "10.0.0.2:7001") 1) as (d & Ha & Hwf & Hd & Hm & Hu);
    [apply wf_create|apply dense_create|done|apply lookup_empty|].
  exists d. split; [|split; [done|]].
  - cbn [s_cc known_sys nodes]. by rewrite Ha.
  - split; [|exact Hm]. unfold dense in Hd. rewrite Hu in Hd. change (used dictCreate) with 0 in Hd. lia.
Qed.

Lemma known_wf : route_wf known_sys.
Proof.
  split.
  - intros p n Hp. cbn [known_sys heap] in Hp. by apply lookup_singleton_Some in Hp as [<- _].
  - destruct known_dict as (d & -> & Hwf & Hsz & Hm). split; [split; try done|]; rewrite ?Hm.
    + intros a p [<- <-]%lookup_singleton_Some. by eexists.
    + intros a p n _ Hn. cbn [known_sys heap] in Hn. by apply lookup_singleton_Some in Hn as [_ <-].
    + cbn [known_sys s_cc table]. intros k p [_ <-]%lookup_singleton_Some. exists (s "10.0.0.2:7001"). rewrite Hm. apply lookup_singleton_eq.
Qed.

Lemma cluster_update_route_by_addr_installs_witness :
  exists st', cluster_update_route_by_addr (fun _ => true) (fun n => Some (replicate (Z.to_nat n) NUL))
      (s "10.0.0.1") 7000 known_sys = Some (REDIS_OK, st') /\
    route_wf st' /\
    (forall m k, m ∈ masters reported -> owns m k -> exists p n,
       node_get_by_table (table (s_cc st')) k = Some p /\ heap st' !! p = Some n /\
       addr n = Some (m_addr m) /\ host n = Some (m_host m) /\ ClusterNode.port n = m_port m /\
       role n = REDIS_ROLE_MASTER /\ (con n, acon n) = old_con known_sys (m_addr m)) /\
    (forall k, (forall m, m ∈ masters reported -> ~ owns m k) -> node_get_by_table (table (s_cc st')) k = None) /\
    (forall d a p, nodes (s_cc known_sys) = Some d -> dict_map d !! a = Some p -> heap st' !! p = None) /\
    route_version (s_cc st') = u64 (route_version (s_cc known_sys) + 1).
Proof.
  apply (cluster_update_route_by_addr_installs (fun _ => true)
    (fun n => Some (replicate (Z.to_nat n) NUL)) reported (s "10.0.0.1") 7000 known_sys).
  - done.
  - intros n b Hn [= <-]. unfold zlen. rewrite length_replicate. lia.
  - done.
  - apply known_wf.
  - done.
  - done.
  - lia.
  - apply reported_ok.
  - eexists _, _, _. split; [reflexivity|]. split; [done|]. cbn. reflexivity.
Defined.

(** The open connection of 10.0.0.2:7001 moves to its new node. *)
Example known_connection : old_con known_sys (m_addr master_b) = (Some (s "10.0.0.2", 7001), None).
Proof. vm_compute. reflexivity. Qed.
