(* ===== verification/ClusterFaults.v ===== *)
(** * hircluster.c: runs that go wrong

    Concrete runs in which the client frees something twice, hands out a freed
    reply or loses a node.  [None] is a memory fault of the model. *)

From S2P Require Import Prelude Effects Hiutil Hiarray Reply Sds Dict Command CommandParser ClusterSlot ClusterNode ClusterTopology ClusterUpdate ClusterExec ClusterPipeline Script ClusterTopologySpec.

#[local] Existing Instance no_async.

Definition block (n : Z) : option bytes := Some (replicate (Z.to_nat n) NUL).
Definition all_ok (_ : Z) : bool := true.
(** Every allocation but that of lists. *)
Definition no_lists (n : Z) : bool := negb (n =? LIST_SIZE).

Definition node_line (id host : string) (port : Z) (l : list slot_spec) : entry :=
  Master (mk_master (s id) (s host) port false [] [s "-"; s "0"; s "0"; s "1"; s "connected"] l).

Definition array (l : list (option redisReply)) : redisReply :=
  mk_reply REDIS_REPLY_ARRAY 0 0 None (zlen l) l.

(** An update of the route by a server that prints [l], with flags [fl]. *)
Definition update (ok : Z -> bool) (fl : Z) (l : list entry) : option (Z * sys script (bytes * Z)) :=
  cluster_update_route_by_addr ok block (s "10.0.0.1") 7000
    (start_sys (with_flags redisClusterContextInit fl)
       [Some (createStringObject REDIS_REPLY_STRING (text l))]).

(** Two masters that claim the same slot: the iterators, which were released
    already, are released again at the error label. *)
Example same_slot_frees_iterators_twice :
  update all_ok REDIS_BLOCK [node_line "id1" "10.0.0.1" 7000 [SlotRange 0 2];
                             node_line "id2" "10.0.0.2" 7001 [SlotRange 2 3]] = None.
Proof. vm_compute. reflexivity. Qed.

(** A region beyond the last slot is an ordinary error. *)
Example region_error_is_reported :
  (fun r => (r.1, err (s_cc r.2), base.size (heap r.2))) <$>
    cluster_update_route_by_addr all_ok block (s "10.0.0.1") 7000
      (start_sys (with_flags redisClusterContextInit (Z.lor REDIS_BLOCK HIRCLUSTER_FLAG_ROUTE_USE_SLOTS))
         [Some (array [Some (array
            [Some (createIntegerObject 0); Some (createIntegerObject 16384);
             Some (array [Some (createStringObject REDIS_REPLY_STRING (s "10.0.0.1"));
               Some (createIntegerObject 7000); Some (createStringObject REDIS_REPLY_STRING (s "id"))])])])])
  = Some (REDIS_ERR, REDIS_ERR_OTHER, 0%nat).
Proof. vm_compute. reflexivity. Qed.

(** When the list of slots cannot be created the node is freed twice. *)
Example list_failure_frees_node_twice :
  update no_lists REDIS_BLOCK [node_line "id1" "10.0.0.1" 7000 [SlotRange 0 2]] = None.
Proof. vm_compute. reflexivity. Qed.

(** Two masters of one name, when slaves are asked for: the second is freed but
    stays in the dictionary, which is then released. *)
Example same_name_frees_node_twice :
  update all_ok (Z.lor REDIS_BLOCK HIRCLUSTER_FLAG_ADD_SLAVE)
    [node_line "id1" "10.0.0.1" 7000 [SlotRange 0 2]; node_line "id1" "10.0.0.2" 7001 [SlotRange 3 4]] = None.
Proof. vm_compute. reflexivity. Qed.

(** A slave whose master is not in the text: its node is left in the heap,
    referred to by nothing. *)
Example orphan_slave_leaks :
  (fun r => (r.1, base.size (heap r.2), used <$> nodes (s_cc r.2))) <$>
    update all_ok (Z.lor REDIS_BLOCK HIRCLUSTER_FLAG_ADD_SLAVE)
      [node_line "id1" "10.0.0.1" 7000 [SlotRange 0 2];
       Other [s "id3"; s "10.0.0.3:7002"; s "slave"; s "id9"; s "0"; s "0"; s "3"; s "connected"]]
  = Some (REDIS_OK, 2%nat, Some 1).
Proof. vm_compute. reflexivity. Qed.

(** Addresses with a cluster bus port, as servers since 4.0 print them: the port
    of the node is -1, so no connection to it is ever made. *)
Example bus_port_is_misread :
  (fun r => map port (map snd (map_to_list (heap r.2)))) <$>
    update all_ok REDIS_BLOCK
      [Other [s "id1"; s "10.0.0.1:7000@17000"; s "master"; s "-"; s "0"; s "0"; s "1"; s "connected"; s "0-2"]]
  = Some [-1].
Proof. vm_compute. reflexivity. Qed.

(** ** The pipeline *)

(** A DEL that was split over two slots of one node, waiting for its replies. *)
Definition del_command (slot : Z) : cmd :=
  mk_cmd 1 CMD_PARSE_OK None CMD_REQ_REDIS_DEL [] 0 (mk_hiarray [] 0 24 1) None None 0 false false slot.
Definition split_del_sys (replies : list (option redisReply)) : sys script (bytes * Z) :=
  mk_sys (mk_cc 0 [] None 0 REDIS_BLOCK None None None None {[12182 := 1; 5061 := 1]} 0 5 0
            (Some [mk_queued (del_command (-1)) (Some [del_command 5061; del_command 12182]) (Some [12182; 5061])]) 0 0)
    {[1 := mk_node None (Some (s "a:1")) (Some (s "a")) 1 REDIS_ROLE_MASTER 0 (Some (s "a", 1)) None
             None None 0 None None]} 2
    (mk_script replies []).

(** When a fragment is answered with an error, [*reply] is the reply of a
    sub-command that is freed before the function returns. *)
Example error_fragment_hands_out_freed_reply :
  fst <$> redisClusterGetReply all_ok
    (split_del_sys [Some (createStringObject REDIS_REPLY_ERROR (s "ERR no")); Some (createIntegerObject 1)])
  = Some (REDIS_OK, Freed (createStringObject REDIS_REPLY_ERROR (s "ERR no"))).
Proof. vm_compute. reflexivity. Qed.

(** Without an error the merged reply is the caller's. *)
Example merged_reply_is_owned :
  fst <$> redisClusterGetReply all_ok
    (split_del_sys [Some (createIntegerObject 1); Some (createIntegerObject 1)])
  = Some (REDIS_OK, Owned (createIntegerObject 2)).
Proof. vm_compute. reflexivity. Qed.
