(* ===== verification/ClusterSafe.v ===== *)
(** * Nothing dangles

    The invariant [safe] of a context: every node that the dictionary or the slot
    table refers to is live.  Whatever the servers send and whichever allocations
    fail, every function of the client that returns keeps it: nodes are built
    beside the old ones, and what is freed is either only the new ones or only
    the old ones. *)

From stdpp Require Import sorting.
From S2P Require Import Prelude Effects Hiutil Hiarray Reply Sds Dict DictSpec Command CommandParser ClusterSlot ClusterNode ClusterTopology ClusterUpdate ClusterExec ClusterPipeline ClusterFrame.

#[local] Existing Instance no_async.

Section safe.
Context {W Ctx : Type} `{Transport W Ctx}.
Context (malloc_ok : Z -> bool) (alloc : Z -> option bytes).
Implicit Types (st : sys W Ctx) (d : dict bytes ptr) (p q : ptr) (n : cluster_node Ctx) (l : list ptr)
  (h : gmap ptr (cluster_node Ctx)).

Definition slaves_of n : list ptr := default [] (slaves n).
Definition slots_of_node n : list (cluster_slot ptr) := default [] (slots n).
Definition values d : list ptr := (entries d).*2.
Definition live st p : Prop := is_Some (heap st !! p).

(** Pointers are below the next one. *)
Definition bounded st : Prop :=
  forall p n, heap st !! p = Some n -> p < next_ptr st /\ Forall (fun q => q < next_ptr st) (slaves_of n).

Record safe st : Prop := {
  safe_bounded : bounded st;
  safe_nodes : forall d p, nodes (s_cc st) = Some d -> p ∈ values d -> live st p;
  safe_table : forall k p, table (s_cc st) !! k = Some p -> live st p
}.

(** ** Programs that touch no node *)

Definition quiet : relation (sys W Ctx) := fun st st' =>
  heap st' = heap st /\ next_ptr st' = next_ptr st /\ nodes (s_cc st') = nodes (s_cc st) /\
  table (s_cc st') = table (s_cc st).

#[export] Instance quiet_preorder : PreOrder quiet.
Proof. split; [done|]. intros x y z (? & ? & ? & ?) (? & ? & ? & ?). split_and!; congruence. Qed.

Lemma quiet_set_error e str : keeps quiet (__redisClusterSetError e str).
Proof. by apply keeps_modify. Qed.
Lemma quiet_clear_err : keeps quiet clear_err.
Proof. apply keeps_modify. intros st. cbn. by destruct (negb _). Qed.
Lemma quiet_call {A} (f : W -> A * W) : keeps quiet (call f).
Proof. intros st a st' E. unfold call in E. destruct (f (world st)). by simplify_eq. Qed.
Lemma quiet_range t a b : keeps quiet (sds_range t a b : prog (sys W Ctx) _).
Proof. unfold sds_range. keeps_steps. Qed.
Lemma quiet_slots_error str : keeps quiet (slots_error str).
Proof. apply quiet_set_error. Qed.
#[local] Hint Resolve quiet_preorder quiet_set_error quiet_clear_err quiet_call quiet_range
  quiet_slots_error : keeps.

(** A program that is quiet keeps what only depends on the nodes. *)
Definition steady (I : sys W Ctx -> Prop) : Prop := forall st st', quiet st st' -> I st -> I st'.

Lemma wlp_quiet {A} (m : prog (sys W Ctx) A) (I : sys W Ctx -> Prop) st :
  steady I -> keeps quiet m -> I st -> wlp m (fun _ => I) st.
Proof. intros HI Hm Hst a st' Ha. eapply HI; [|exact Hst]. by eapply Hm. Qed.

Lemma wlp_bind_quiet {A B} (m : prog (sys W Ctx) A) (f : A -> prog (sys W Ctx) B) I Q st :
  steady I -> keeps quiet m -> I st -> (forall a st', I st' -> wlp (f a) Q st') -> wlp (m ≫= f) Q st.
Proof.
  intros HI Hm Hst Hf. apply wlp_bind. eapply wlp_mono; [by apply (wlp_quiet m I)|]. intros a st' Ha. by apply Hf.
Qed.

Lemma steady_live p : steady (fun st => live st p).
Proof. intros st st' (Hh & _). unfold live. by rewrite Hh. Qed.

Lemma steady_safe : steady safe.
Proof.
  intros st st' (Hh & Hn & Hd & Ht) [Hb Hs Hk]. split; unfold bounded, live in *; rewrite ?Hh, ?Hn, ?Hd, ?Ht; done.
Qed.

(** ** Building beside the old nodes

    [st0] is the state before; pointers from [lo] on are new. *)

Record building (lo : ptr) st0 st : Prop := {
  b_next : lo <= next_ptr st;
  b_heap : forall p n, heap st !! p = Some n -> p < next_ptr st /\
    Forall (fun q => q < next_ptr st) (slaves_of n) /\
    (lo <= p -> Forall (fun q => lo <= q) (slaves_of n) /\
                Forall (fun x => sl_node x = p) (slots_of_node n));
  b_old : forall p, p < lo -> heap st !! p = heap st0 !! p;
  b_nodes : nodes (s_cc st) = nodes (s_cc st0);
  b_table : table (s_cc st) = table (s_cc st0)
}.

(** New nodes that are there. *)
Definition kept (lo : ptr) l st : Prop := Forall (fun p => lo <= p /\ live st p) l.
Definition built (lo : ptr) st0 l st : Prop := building lo st0 st /\ kept lo l st.

Lemma steady_building lo st0 : steady (building lo st0).
Proof.
  intros st st' (Hh & Hn & Hd & Ht) [Hb1 Hb2 Hb3 Hb4 Hb5].
  split; rewrite ?Hh, ?Hn, ?Hd, ?Ht; done.
Qed.

Lemma steady_built lo st0 l : steady (built lo st0 l).
Proof.
  intros st st' Hq [Hb Hk]. split; [by eapply steady_building|].
  unfold kept, live in *. by rewrite (proj1 Hq).
Qed.

Lemma safe_building st : safe st -> building (next_ptr st) st st.
Proof.
  intros [Hb _ _]. split; try done. intros p n Hp. destruct (Hb p n Hp) as [Hlt Hs]. split_and!; try done.
  intros Hge. lia.
Qed.

(** Whatever becomes of the new nodes, the context stays safe. *)
Lemma building_safe lo st0 st : building lo st0 st -> safe st0 -> next_ptr st0 = lo -> safe st.
Proof.
  intros [Hb1 Hb2 Hb3 Hb4 Hb5] [Hs1 Hs2 Hs3] Hn.
  assert (forall p, live st0 p -> live st p) as Hl.
  { intros p [n Hp]. unfold live. rewrite Hb3; [by rewrite Hp|]. subst lo. by eapply Hs1. }
  split.
  - intros p n Hp. destruct (Hb2 p n Hp) as (? & ? & _). done.
  - intros d p Hd Hp. apply Hl. apply (Hs2 d); [by rewrite <- Hb4|done].
  - intros k p Hk. apply Hl. apply (Hs3 k). by rewrite <- Hb5.
Qed.

Definition node_fits (lo : ptr) st p n : Prop :=
  Forall (fun q => lo <= q < next_ptr st) (slaves_of n) /\ Forall (fun x => sl_node x = p) (slots_of_node n).

Lemma building_node lo st0 st p n : building lo st0 st -> heap st !! p = Some n -> lo <= p ->
  p < next_ptr st /\ node_fits lo st p n.
Proof.
  intros [_ Hb _ _ _] Hp Hge. destruct (Hb p n Hp) as (Hlt & Hs & Hn). destruct (Hn Hge) as [Hs' Hsl].
  split; [done|]. split; [|done]. rewrite Forall_forall in *. intros q Hq. split; auto.
Qed.

Lemma wlp_load p (Q : cluster_node Ctx -> sys W Ctx -> Prop) st :
  (forall n, heap st !! p = Some n -> Q n st) -> wlp (load p) Q st.
Proof.
  intros HQ n st' E. unfold load in E. destruct (heap st !! p) as [n'|] eqn:Ep; [|done]. cbn in E. simplify_eq. auto.
Qed.

Lemma wlp_store lo st0 l p n st :
  built lo st0 l st -> lo <= p -> node_fits lo st p n ->
  wlp (store p n) (fun _ st' => built lo st0 l st' /\ next_ptr st' = next_ptr st) st.
Proof.
  intros [[Hb1 Hb2 Hb3 Hb4 Hb5] Hk] Hp [Hf1 Hf2] [] st' E. unfold store in E.
  destruct (heap st !! p) as [n1|] eqn:Ep; [|done]. simplify_eq. split; [|done]. split.
  - split; cbn; try done.
    + intros q m [[<- <-]|[_ Hq]]%lookup_insert_Some; [|by apply Hb2].
      rewrite Forall_forall in Hf1. split; [by eapply Hb2|]. split; [apply Forall_forall; intros q Hq; by apply Hf1|].
      intros _. split; [|done]. apply Forall_forall. intros q Hq. by apply Hf1.
    + intros q Hq. rewrite lookup_insert_ne by lia. by apply Hb3.
  - unfold kept, live in *. eapply Forall_impl; [exact Hk|]. intros q [Hq [m Hm]]. split; [done|]. cbn.
    destruct (decide (p = q)) as [->|]; [rewrite lookup_insert_eq; by eexists|]. rewrite lookup_insert_ne by done. by eexists.
Qed.

Lemma wlp_alloc lo st0 l st :
  built lo st0 l st ->
  wlp (alloc_node malloc_ok) (fun o st' =>
    match o with
    | Some p => built lo st0 (p :: l) st' /\ lo <= p
    | None => built lo st0 l st'
    end) st.
Proof.
  intros [[Hb1 Hb2 Hb3 Hb4 Hb5] Hk] o st' E. unfold alloc_node in E. destruct (malloc_ok _); simplify_eq.
  2:{ split; [split|]; done. }
  split; [|done]. split.
  - split; cbn; try done; [lia| |].
    + intros q m [[<- <-]|[_ Hq]]%lookup_insert_Some.
      * split; [lia|]. split; [done|]. done.
      * destruct (Hb2 q m Hq) as (Hlt & Hs & Hn). split; [lia|]. split; [|done].
        eapply Forall_impl; [exact Hs|]. intros x Hx. cbn in Hx. lia.
    + intros q Hq. rewrite lookup_insert_ne by lia. by apply Hb3.
  - unfold kept, live in *. constructor; cbn; [split; [done|]; rewrite lookup_insert_eq; by eexists|].
    eapply Forall_impl; [exact Hk|]. intros q [Hq [m Hm]]. split; [done|].
    rewrite lookup_insert_ne; [by eexists|]. destruct (Hb2 q m Hm). lia.
Qed.

Lemma wlp_free lo st0 p st :
  building lo st0 st -> lo <= p -> wlp (free_node p) (fun _ => building lo st0) st.
Proof.
  intros [Hb1 Hb2 Hb3 Hb4 Hb5] Hp [] st' E. unfold free_node in E. destruct (heap st !! p); [|done]. simplify_eq.
  split; cbn; try done.
  - intros q m [_ Hq]%lookup_delete_Some. by apply Hb2.
  - intros q Hq. rewrite lookup_delete_ne by lia. by apply Hb3.
Qed.

(** ** Freeing

    Destroying a node touches what can be reached from it through the slaves. *)

Definition closed (S : ptr -> Prop) st : Prop :=
  forall p n, S p -> heap st !! p = Some n -> Forall S (slaves_of n).

Definition touched (S : ptr -> Prop) st st' : Prop :=
  next_ptr st' = next_ptr st /\ s_cc st' = s_cc st /\ (forall q, ~ S q -> heap st' !! q = heap st !! q) /\
  (forall q n, heap st' !! q = Some n ->
     heap st !! q = Some n \/ (live st q /\ n = cluster_node_init)).

#[export] Instance touched_preorder S : PreOrder (touched S).
Proof.
  split.
  - intros st. split_and!; try done. intros q n Hq. by left.
  - intros x y z (Hn1 & Hc1 & Ho1 & Ht1) (Hn2 & Hc2 & Ho2 & Ht2). split_and!; try congruence.
    + intros q Hq. by rewrite Ho2, Ho1.
    + intros q n Hq. destruct (Ht2 q n Hq) as [Hq'|[[m Hq'] ->]]; [by apply Ht1|].
      right. split; [|done]. destruct (Ht1 q m Hq') as [Hq''|[? _]]; [by eexists|done].
Qed.

Lemma touched_closed S st st' : touched S st st' -> closed S st -> closed S st'.
Proof.
  intros (_ & _ & _ & Ht) Hc p n Hp Hn. destruct (Ht p n Hn) as [Hn'|[_ ->]]; [by eapply Hc|constructor].
Qed.

Lemma touched_call S {A} (f : W -> A * W) st : wlp (call f) (fun _ => touched S st) st.
Proof.
  intros a st' E. unfold call in E. destruct (f (world st)). simplify_eq. split_and!; try done.
  intros q n Hq. by left.
Qed.

Lemma touched_free (S : ptr -> Prop) p st : S p -> wlp (free_node p) (fun _ => touched S st) st.
Proof.
  intros Hp [] st' E. unfold free_node in E. destruct (heap st !! p); [|done]. simplify_eq. split_and!; try done.
  - intros q Hq. cbn. rewrite lookup_delete_ne; [done|]. by intros ->.
  - intros q n Hq. cbn in Hq. apply lookup_delete_Some in Hq as [_ Hq]. by left.
Qed.

Lemma touched_reset (S : ptr -> Prop) p st :
  S p -> wlp (store p cluster_node_init) (fun _ => touched S st) st.
Proof.
  intros Hp [] st' E. unfold store in E. destruct (heap st !! p) as [m|] eqn:Ep; [|done]. simplify_eq.
  split_and!; try done.
  - intros q Hq. cbn. rewrite lookup_insert_ne; [done|]. by intros ->.
  - intros q n Hq. cbn in Hq. apply lookup_insert_Some in Hq as [[<- <-]|[_ Hq]]; [|by left]. right. split; [by eexists|done].
Qed.

(** Compose with what was touched before. *)
Lemma wlp_touched S {A} (m : prog (sys W Ctx) A) st0 st :
  touched S st0 st -> wlp m (fun _ => touched S st) st -> wlp m (fun _ => touched S st0) st.
Proof. intros H1 Hm. eapply wlp_mono; [exact Hm|]. intros a st' H2. by etrans. Qed.

Lemma deinit_touched S fuel : forall p st,
  closed S st -> S p -> wlp (node_deinit fuel p) (fun _ => touched S st) st.
Proof.
  induction fuel as [|fuel IH]; intros p st Hc Hp; cbn [node_deinit]; [by apply wlp_fault|].
  apply wlp_bind, wlp_load. intros n Hn. apply wlp_bind.
  eapply wlp_mono with (Q := fun _ => touched S st).
  { destruct (con n); [apply touched_call|apply wlp_ret; reflexivity]. }
  intros [] st1 H1. apply wlp_bind. eapply wlp_mono with (Q := fun _ => touched S st).
  { destruct (acon n); by apply wlp_ret. }
  intros [] st1' H1'. apply wlp_bind, wlp_load. intros n' Hn'. apply wlp_bind. eapply wlp_mono with (Q := fun _ => touched S st).
  { apply wlp_each with (I := touched S st); [|done]. intros q st2 Hq H2. pose proof (touched_closed _ _ _ H2 Hc) as Hc2.
    assert (S q) as HSq.
    { pose proof (touched_closed _ _ _ H1' Hc p n' Hp Hn') as Hs. rewrite Forall_forall in Hs. by apply Hs. }
    apply wlp_bind. eapply wlp_mono; [apply wlp_touched; [exact H2|by apply IH]|].
    intros [] st3 H3. by apply wlp_touched; [|apply touched_free]. }
  intros [] st2 H2. by apply wlp_touched; [|apply touched_reset].
Qed.

Lemma destroy_touched (S : ptr -> Prop) p st :
  closed S st -> S p -> wlp (node_destroy p) (fun _ => touched S st) st.
Proof.
  intros Hc Hp. unfold node_destroy, cluster_node_deinit. apply wlp_bind, wlp_bind, wlp_gets.
  eapply wlp_mono; [by apply deinit_touched|]. intros [] st' Ht. by apply wlp_touched; [|apply touched_free].
Qed.

Lemma release_touched (S : ptr -> Prop) d st :
  closed S st -> Forall S (values d) -> wlp (release_nodes d) (fun _ => touched S st) st.
Proof.
  intros Hc Hd. unfold release_nodes. apply wlp_each with (I := touched S st); [|reflexivity].
  intros e st' He Ht. apply wlp_touched; [done|]. apply destroy_touched; [by eapply touched_closed|].
  rewrite Forall_forall in Hd. apply Hd. unfold values. by apply list_elem_of_fmap_2.
Qed.

(** What touches only new nodes. *)
Lemma building_touched lo st0 st st' :
  building lo st0 st -> touched (fun q => lo <= q) st st' -> building lo st0 st'.
Proof.
  intros [Hb1 Hb2 Hb3 Hb4 Hb5] (Hn & Hc & Ho & Ht). split; rewrite ?Hn, ?Hc; try done.
  - intros p n Hp. destruct (Ht p n Hp) as [Hp'|[[m Hm] ->]]; [by apply Hb2|].
    split; [by eapply Hb2|]. done.
  - intros p Hp. rewrite Ho by lia. by apply Hb3.
Qed.

Lemma building_closed lo st0 st : building lo st0 st -> closed (fun q => lo <= q) st.
Proof. intros Hb p n Hp Hn. destruct Hb as [_ Hb _ _ _]. by apply (Hb p n Hn). Qed.

Lemma wlp_destroy lo st0 p st :
  building lo st0 st -> lo <= p -> wlp (node_destroy p) (fun _ => building lo st0) st.
Proof.
  intros Hb Hp. eapply wlp_mono; [apply destroy_touched; [by eapply building_closed|exact Hp]|].
  intros a st' Ht. by eapply building_touched.
Qed.

Lemma wlp_deinit lo st0 p st :
  building lo st0 st -> lo <= p -> wlp (cluster_node_deinit p) (fun _ => building lo st0) st.
Proof.
  intros Hb Hp. unfold cluster_node_deinit. apply wlp_bind, wlp_gets.
  eapply wlp_mono; [apply deinit_touched; [by eapply building_closed|exact Hp]|].
  intros a st' Ht. by eapply building_touched.
Qed.

Lemma wlp_release_new lo st0 d st :
  building lo st0 st -> Forall (fun q => lo <= q) (values d) ->
  wlp (release_nodes d) (fun _ => building lo st0) st.
Proof.
  intros Hb Hd. eapply wlp_mono; [apply release_touched; [by eapply building_closed|done]|].
  intros a st' Ht. by eapply building_touched.
Qed.
End safe.

#[export] Hint Resolve quiet_preorder quiet_set_error quiet_clear_err quiet_call quiet_range
  quiet_slots_error : keeps.

(** Step over a quiet program. *)
Ltac quietly_with steady :=
  eapply wlp_bind_quiet;
    [eapply steady
    |solve [eauto with keeps typeclass_instances | keeps_steps]
    |eassumption
    |let Hq := fresh "Hq" in intros ? ? Hq; cbn beta in Hq |- *].
Ltac quietly := cbn beta in *; first [quietly_with steady_built | quietly_with steady_building | quietly_with steady_safe].

(** After an error message nothing else changes. *)
Ltac fails := quietly; apply wlp_ret; first [done | eapply proj1; eassumption].
