(* ===== verification/ClusterSafeParse.v ===== *)
(** * Nothing dangles: reading the topology

    [parse_cluster_nodes] and [parse_cluster_slots] on whatever a server sends:
    they build new nodes and leave the old ones alone; the nodes of the dictionary
    they return are live, and after an error only new nodes were freed. *)

From S2P Require Import Prelude Effects Hiutil Hiarray Reply Sds Dict DictSpec Command ClusterSlot ClusterNode ClusterTopology ClusterUpdate ClusterExec ClusterFrame ClusterSafe.

#[local] Existing Instance no_async.

(** ** The values of a dictionary *)

Section values.
Implicit Types (d : dict bytes ptr) (P : ptr -> Prop).

Lemma values_add d key val r x : dictAdd d key val = Some r -> x ∈ values r.2 -> x = val \/ x ∈ values d.
Proof.
  intros Ha Hx. apply list_elem_of_fmap in Hx as (e & -> & He).
  apply (dictAdd_elem _ _ _ _ _ Ha) in He as [->|He]; [by left|]. right. by apply list_elem_of_fmap_2.
Qed.

Lemma values_find d key e : dictFind d key = Some (Some e) -> e.2 ∈ values d.
Proof. intros Hf. apply list_elem_of_fmap_2. by eapply dictFind_elem. Qed.

Lemma set_chain_elem {K V} `{DictType K} (key : K) (val : V) he e :
  e ∈ set_chain key val he -> e.2 = val \/ e ∈ he.
Proof.
  induction he as [|e' he IH]; cbn [set_chain]; [by intros ?%elem_of_nil|].
  destruct (keyCompare key e'.1); intros [->|He]%elem_of_cons.
  - by left.
  - right. by right.
  - right. left.
  - destruct (IH He) as [?|?]; [by left|right; by right].
Qed.

Lemma values_set d key val d' x : dictSetHashVal d key val = Some d' -> x ∈ values d' -> x = val \/ x ∈ values d.
Proof.
  unfold dictSetHashVal. destruct (bucket _ _) as [he|] eqn:E; [|done]. cbn [mbind option_bind].
  intros [= <-] Hx. apply list_elem_of_fmap in Hx as (e & -> & He). unfold entries in He. cbn [Dict.table] in He.
  apply update_elem in He as [He|He]; [|right; by apply list_elem_of_fmap_2].
  apply set_chain_elem in He as [?|He]; [by left|]. right. apply list_elem_of_fmap_2. by eapply bucket_elem.
Qed.

Lemma values_add_all d key val r P :
  dictAdd d key val = Some r -> Forall P (values d) -> P val -> Forall P (values r.2).
Proof.
  intros Ha Hd Hv. apply Forall_forall. intros x Hx. rewrite Forall_forall in Hd.
  destruct (values_add _ _ _ _ _ Ha Hx) as [->|?]; auto.
Qed.
End values.

Section parse.
Context {W Ctx : Type} `{Transport W Ctx}.
Context (malloc_ok : Z -> bool) (alloc : Z -> option bytes).
Implicit Types (st : sys W Ctx) (d : dict bytes ptr) (p q lo : ptr) (n : cluster_node Ctx) (l : list ptr).

Definition news lo d : Prop := Forall (fun q => lo <= q) (values d).

Lemma kept_sub lo l l' st : (forall x, x ∈ l' -> x ∈ l) -> kept lo l st -> kept lo l' st.
Proof. intros Hs Hk. unfold kept in *. rewrite Forall_forall in *. auto. Qed.

Lemma built_sub lo st0 l l' st : (forall x, x ∈ l' -> x ∈ l) -> built lo st0 l st -> built lo st0 l' st.
Proof. intros Hs [Hb Hk]. split; [done|by eapply kept_sub]. Qed.

Lemma built_news lo st0 d st : built lo st0 (values d) st -> news lo d.
Proof. intros [_ Hk]. eapply Forall_impl; [exact Hk|]. by intros x [? _]. Qed.

(** An update of a new node. *)
Lemma wlp_update lo st0 l p n n' st :
  built lo st0 l st -> lo <= p -> heap st !! p = Some n -> slaves n' = slaves n ->
  Forall (fun x => sl_node x = p) (slots_of_node n') ->
  wlp (store p n') (fun _ => built lo st0 l) st.
Proof.
  intros Hb Hp Hn Hs Hsl. eapply wlp_mono; [apply wlp_store; [exact Hb|done|]|by intros ? ? [? _]].
  split; [|done]. unfold slaves_of. rewrite Hs. by eapply building_node; [apply Hb| |].
Qed.

Lemma slots_fit lo st0 l p n st :
  built lo st0 l st -> lo <= p -> heap st !! p = Some n -> Forall (fun x => sl_node x = p) (slots_of_node n).
Proof. intros [Hb _] Hp Hn. by eapply building_node. Qed.

Lemma slot_create_built lo st0 l p a b st :
  built lo st0 l st -> lo <= p -> wlp (cluster_slot_create malloc_ok p a b) (fun _ => built lo st0 l) st.
Proof.
  intros Hb Hp. unfold cluster_slot_create. wlp_step; [by apply wlp_ret|]. apply wlp_bind, wlp_load. intros n Hn.
  pose proof (slots_fit _ _ _ _ _ _ Hb Hp Hn) as Hf. unfold slots_of_node in Hf.
  destruct (slots n) as [sl|] eqn:E; [|wlp_step; [by apply wlp_ret|]]; apply wlp_bind;
    (eapply wlp_mono; [eapply wlp_update; try done|intros ? ? ?; by apply wlp_ret]); cbn.
  - apply Forall_app_2; [done|by repeat constructor].
  - by repeat constructor.
Qed.

Lemma slot_ref_built lo st0 l p a b st :
  built lo st0 l st -> lo <= p -> wlp (cluster_slot_ref_node malloc_ok a b p) (fun _ => built lo st0 l) st.
Proof.
  intros Hb Hp. unfold cluster_slot_ref_node. apply wlp_bind, wlp_load. intros n Hn.
  wlp_step; [by apply wlp_ret|].
  pose proof (slots_fit _ _ _ _ _ _ Hb Hp Hn) as Hf. unfold slots_of_node in Hf.
  destruct (slots n) as [sl|] eqn:E; [|wlp_step; [by apply wlp_ret|]]; apply wlp_bind;
    (eapply wlp_mono; [eapply wlp_update; try done|intros ? ? ?; by apply wlp_ret]); cbn.
  - apply Forall_app_2; [done|by repeat constructor].
  - by repeat constructor.
Qed.

Lemma open_slot_built lo st0 l p t0 t1 t2 st :
  built lo st0 l st -> lo <= p ->
  wlp (add_open_slot malloc_ok p t0 t1 t2) (fun _ => built lo st0 l) st.
Proof.
  intros Hb Hp. unfold add_open_slot. quietly. quietly.
  wlp_step; [|wlp_step; [|by apply wlp_ret]];
    (destruct (cluster_open_slot_create _ _ _ _ _) as [o|]; [|fails]);
    apply wlp_bind, wlp_load; intros n Hn;
    (destruct (push_open _ _ _) as [[a'| |]|]; [|fails|apply wlp_fault|fails]);
    apply wlp_bind; (eapply wlp_mono; [eapply wlp_update; try done|intros ? ? ?; by apply wlp_ret]);
    exact (slots_fit _ _ _ _ n _ ltac:(eassumption) Hp Hn).
Qed.

Lemma add_slots_built lo st0 l fl p part st :
  built lo st0 l st -> lo <= p -> wlp (add_slots malloc_ok alloc fl p part) (fun _ => built lo st0 l) st.
Proof.
  intros Hb Hp. unfold add_slots. quietly. case_match; [|fails]. apply wlp_bind.
  eapply wlp_mono with (Q := fun _ => built lo st0 l).
  { repeat case_match; try (by apply wlp_ret). by apply open_slot_built. }
  intros ok st1 H1. wlp_step; [by apply wlp_ret|]. destruct (slot_range _) as [sa sb].
  wlp_step; [by apply wlp_ret|]. apply wlp_bind. eapply wlp_mono; [by apply slot_create_built|].
  intros [] st2 H2; [by apply wlp_ret|fails].
Qed.

Lemma add_all_slots_built lo st0 l fl p parts : forall st,
  built lo st0 l st -> lo <= p -> wlp (add_all_slots malloc_ok alloc fl p parts) (fun _ => built lo st0 l) st.
Proof.
  induction parts as [|part parts IH]; intros st Hb Hp; cbn [add_all_slots]; [by apply wlp_ret|].
  apply wlp_bind. eapply wlp_mono; [by apply add_slots_built|]. intros [] st1 H1; [by apply IH|by apply wlp_ret].
Qed.

(** A new node, or none. *)
Definition fresh_node_post lo st0 l (o : option ptr) st : Prop :=
  match o with
  | Some p => built lo st0 (p :: l) st /\ lo <= p
  | None => building lo st0 st
  end.

(** The node of a call to [alloc_node], filled. *)
Lemma fill_fresh lo st0 l p n st :
  built lo st0 (p :: l) st -> lo <= p -> slaves n = None -> slots_of_node n = [] ->
  wlp (_ ← store p n; mret (Some p)) (fresh_node_post lo st0 l) st.
Proof.
  intros Hb Hp Hs Hsl. apply wlp_bind. eapply wlp_mono; [apply wlp_store; [exact Hb|done|]|].
  - split; [by unfold slaves_of; rewrite Hs|by rewrite Hsl].
  - intros [] st1 [H1 _]. by apply wlp_ret.
Qed.

Lemma node_get_with_nodes_built lo st0 l infos r st :
  built lo st0 l st ->
  wlp (node_get_with_nodes malloc_ok alloc infos r) (fresh_node_post lo st0 l) st.
Proof.
  intros Hb. unfold node_get_with_nodes. wlp_step; [by apply wlp_ret, Hb|].
  apply wlp_bind. eapply wlp_mono; [by apply wlp_alloc|]. intros [p|] st1 H1.
  2:{ destruct H1 as [H1 _]. fails. }
  destruct H1 as [H1 Hp]. pose proof (proj1 H1) as H1b. wlp_step.
  - apply wlp_bind. eapply wlp_mono; [by apply wlp_free|]. intros [] st2 H2. quietly.
    apply wlp_bind. eapply wlp_mono; [by apply wlp_free|]. intros [] st4 H4. by apply wlp_ret.
  - quietly. quietly. quietly.
    match goal with |- context [match ?x with _ => _ end] => destruct x as [[|t0 [|t1 [|t2 tl]]]|] end;
      try (quietly; apply wlp_bind; eapply wlp_mono; [eapply wlp_free; [eapply (proj1 Hq2)|done]|];
           intros [] st6 H6; by apply wlp_ret).
    eapply fill_fresh; try done. by destruct (r =? REDIS_ROLE_MASTER).
Qed.

(** *** Masters and slaves *)

Lemma slaves_fit lo st0 l p n st :
  built lo st0 l st -> lo <= p -> heap st !! p = Some n ->
  p < next_ptr st /\ Forall (fun q => lo <= q < next_ptr st) (slaves_of n).
Proof. intros [Hb _] Hp Hn. destruct (building_node _ _ _ _ _ Hb Hn Hp) as [? [? _]]. done. Qed.

(** An update of the slaves of a new node. *)
Lemma wlp_set_slaves lo st0 l p n o st :
  built lo st0 l st -> lo <= p -> heap st !! p = Some n ->
  Forall (fun q => lo <= q < next_ptr st) (default [] o) ->
  wlp (store p (with_slaves n o)) (fun _ st' => built lo st0 l st' /\ next_ptr st' = next_ptr st) st.
Proof.
  intros Hb Hp Hn Ho. apply wlp_store; [done..|]. split; [done|]. exact (slots_fit _ _ _ _ _ _ Hb Hp Hn).
Qed.

Lemma mapping_built lo st0 l names p nm st :
  built lo st0 l st -> lo <= p -> news lo (default dictCreate names) ->
  wlp (cluster_master_slave_mapping_with_name malloc_ok names p nm)
    (fun r st' => built lo st0 l st' /\ news lo r.2) st.
Proof.
  intros Hb Hp Hn. unfold cluster_master_slave_mapping_with_name.
  apply wlp_bind, wlp_lift. intros [e|] Hf; cbn beta iota.
  2:{ apply wlp_bind, wlp_lift. intros [ret d] Ha. pose proof (values_add_all _ _ _ _ _ Ha Hn Hp) as Hn'.
      wlp_step; [quietly|]; by apply wlp_ret. }
  assert (lo <= e.2) as He.
  { unfold news in Hn. rewrite Forall_forall in Hn. by apply Hn, (values_find _ nm). }
  apply wlp_bind, wlp_load. intros n Hnp. apply wlp_bind, wlp_load. intros o Hno.
  destruct (slaves_fit _ _ _ _ _ _ Hb Hp Hnp) as [Hlt Hsn].
  destruct (slaves_fit _ _ _ _ _ _ Hb He Hno) as [Hlte Hso].
  wlp_step; [quietly; by apply wlp_ret|]. wlp_step.
  - destruct (match slaves n with Some l => Some l | None => _ end) as [sl|] eqn:Es; [|quietly; by apply wlp_ret].
    assert (Forall (fun q => lo <= q < next_ptr st) sl) as Hsl.
    { unfold slaves_of in Hsn. destruct (slaves n); [by simplify_eq/=|]. destruct (list_create_ok _); [|done].
      by simplify_eq/=. }
    apply wlp_bind. eapply wlp_mono; [by eapply wlp_set_slaves|]. intros [] st1 [H1 Hx1].
    apply wlp_bind. eapply wlp_mono; [eapply wlp_store; [exact H1|done|]|].
    { split; cbn.
      - rewrite Hx1. constructor; [done|]. apply Forall_app_2; [|done]. by apply Forall_rev.
      - exact (slots_fit _ _ _ _ _ _ Hb Hp Hnp). }
    intros [] st2 [H2 _]. apply wlp_bind, wlp_lift. intros d Hd. apply wlp_ret. split; [done|].
    apply Forall_forall. intros x Hx. unfold news in Hn. rewrite Forall_forall in Hn.
    destruct (values_set _ _ _ _ _ Hd Hx) as [->|?]; [done|by apply Hn].
  - wlp_step; [|by apply wlp_ret].
    destruct (match slaves o with Some l => Some l | None => _ end) as [sl|] eqn:Es; [|quietly; by apply wlp_ret].
    assert (Forall (fun q => lo <= q < next_ptr st) sl) as Hsl.
    { unfold slaves_of in Hso. destruct (slaves o); [by simplify_eq/=|]. destruct (list_create_ok _); [|done].
      by simplify_eq/=. }
    apply wlp_bind. eapply wlp_mono; [eapply wlp_set_slaves; try done|].
    + cbn. apply Forall_app_2; [done|]. by repeat constructor.
    + intros [] st1 [H1 _]. by apply wlp_ret.
Qed.

(** What a line leaves: the nodes of the dictionary, or after an error only new
    nodes in it. *)
Definition line_post lo st0 (r : flow parse_locals) st : Prop :=
  news lo (default dictCreate (l_names (locals r))) /\
  match r with
  | Go x => built lo st0 (values (l_nodes x)) st
  | Stop x => building lo st0 st /\ news lo (l_nodes x)
  end.

Lemma line_stop lo st0 x st :
  built lo st0 (values (l_nodes x)) st -> news lo (default dictCreate (l_names x)) ->
  line_post lo st0 (Stop x) st.
Proof. intros Hb Hn. split; [done|]. split; [apply Hb|by eapply built_news]. Qed.

Lemma myself_built lo st0 l (b : bool) p st :
  built lo st0 l st -> lo <= p ->
  wlp (if b then n ← load p; store p (with_myself n 1) else mret ()) (fun _ => built lo st0 l) st.
Proof.
  intros Hb Hp. destruct b; [|by apply wlp_ret]. apply wlp_bind, wlp_load. intros n Hn.
  eapply wlp_update; try done. exact (slots_fit _ _ _ _ _ _ Hb Hp Hn).
Qed.

Lemma add_master_post lo st0 fl x part myself st :
  built lo st0 (values (l_nodes x)) st -> news lo (default dictCreate (l_names x)) ->
  wlp (add_master malloc_ok alloc fl x part myself) (line_post lo st0) st.
Proof.
  intros Hb Hn. pose proof (built_news _ _ _ _ Hb) as Hnew. unfold add_master. apply wlp_bind.
  eapply wlp_mono; [by apply node_get_with_nodes_built|]. intros [p|] st1 H1; [destruct H1 as [H1 Hp]|];
    [|apply wlp_ret; by split].
  apply wlp_bind, wlp_load. intros n Hp1. quietly. apply wlp_bind, wlp_lift. intros r Ha. cbv zeta.
  assert (built lo st0 (values r.2) st') as H2.
  { eapply built_sub; [|done]. intros y Hy. destruct (values_add _ _ _ _ _ Ha Hy) as [->|?]; [left|by right]. }
  pose proof (built_news _ _ _ _ H2) as Hnr. clear Hq.
  wlp_step.
  { quietly. apply wlp_bind. eapply wlp_mono; [eapply wlp_destroy; [apply Hq|done]|]. intros [] st3 H3.
    apply wlp_ret. by split. }
  quietly. apply wlp_bind. cbn [l_nodes l_names] in *.
  eapply wlp_mono with (Q := fun m st' => built lo st0 (values r.2) st' /\ news lo (default dictCreate m.2)).
  { wlp_step; [|by apply wlp_ret]. apply wlp_bind. eapply wlp_mono; [by apply mapping_built|].
    intros m st3 H3. by apply wlp_ret. }
  intros m st3 [H3 Hm]. cbv zeta. cbn [l_nodes l_names]. wlp_step.
  { apply wlp_bind. eapply wlp_mono; [eapply wlp_destroy; [apply H3|done]|]. intros [] st4 H4.
    apply wlp_ret. by split. }
  apply wlp_bind. eapply wlp_mono; [by apply myself_built|]. intros [] st4 H4.
  apply wlp_bind. eapply wlp_mono; [by apply add_all_slots_built|]. intros [] st5 H5; apply wlp_ret.
  - by split.
  - by apply line_stop.
Qed.

Lemma add_slave_post lo st0 x part myself st :
  built lo st0 (values (l_nodes x)) st -> news lo (default dictCreate (l_names x)) ->
  wlp (add_slave malloc_ok alloc x part myself) (line_post lo st0) st.
Proof.
  intros Hb Hn. pose proof (built_news _ _ _ _ Hb) as Hnew. unfold add_slave. apply wlp_bind.
  eapply wlp_mono; [by apply node_get_with_nodes_built|]. intros [p|] st1 H1; [destruct H1 as [H1 Hp]|];
    [|apply wlp_ret; by split].
  quietly. apply wlp_bind. eapply wlp_mono; [by apply mapping_built|]. intros r st3 [H3 Hr]. cbv zeta. wlp_step.
  { apply wlp_bind. eapply wlp_mono; [eapply wlp_destroy; [apply H3|done]|]. intros [] st4 H4.
    apply wlp_ret. by split. }
  apply wlp_bind. eapply wlp_mono; [by apply myself_built|]. intros [] st4 H4. apply wlp_ret.
  split; [done|]. eapply built_sub; [|done]. intros y Hy. by right.
Qed.

Lemma nodes_line_post lo st0 fl x line st :
  built lo st0 (values (l_nodes x)) st -> news lo (default dictCreate (l_names x)) ->
  wlp (nodes_line malloc_ok alloc fl x line) (line_post lo st0) st.
Proof.
  intros Hb Hn. unfold nodes_line. quietly.
  case_match; [|quietly; apply wlp_ret; by apply line_stop].
  wlp_step; [quietly; apply wlp_ret; by apply line_stop|]. quietly. quietly.
  wlp_step; [by apply wlp_ret|]. wlp_step; [by apply add_master_post|]. wlp_step; [by apply add_slave_post|].
  by apply wlp_ret.
Qed.

Lemma nodes_loop_post lo st0 fuel fl str last : forall start pos x st,
  built lo st0 (values (l_nodes x)) st -> news lo (default dictCreate (l_names x)) ->
  wlp (nodes_loop malloc_ok alloc fuel fl str last start pos x) (line_post lo st0) st.
Proof.
  induction fuel as [|fuel IH]; intros start pos x st Hb Hn; cbn [nodes_loop];
    (wlp_step; [by apply wlp_ret|]); [by apply wlp_fault|].
  quietly. wlp_step; [by apply IH|]. apply wlp_bind. eapply wlp_mono; [by apply nodes_line_post|].
  intros [y|y] st2 [Hm H2]; [by apply IH|]. by apply wlp_ret.
Qed.

(** The parsed nodes, or only new nodes. *)
Definition parsed lo st0 (o : option (dict bytes ptr)) st : Prop :=
  match o with
  | Some d => built lo st0 (values d) st
  | None => building lo st0 st
  end.

Lemma built_create lo st0 st : building lo st0 st -> built lo st0 (values dictCreate) st.
Proof. intros Hb. split; [done|]. apply Forall_nil_2. Qed.

Lemma parse_nodes_safe lo st0 str len fl st :
  building lo st0 st -> wlp (parse_cluster_nodes malloc_ok alloc str len fl) (parsed lo st0) st.
Proof.
  intros Hb. unfold parse_cluster_nodes. apply wlp_bind.
  eapply wlp_mono; [apply nodes_loop_post; [by apply built_create|apply Forall_nil_2]|].
  intros [x|x] st1 [_ H1]; [by apply wlp_ret|]. destruct H1 as [H1 Hn].
  apply wlp_bind. eapply wlp_mono; [by apply wlp_release_new|]. intros [] st2 H2. by apply wlp_ret.
Qed.

(** *** CLUSTER SLOTS *)

Lemma quiet_sub_reply r i : keeps (quiet (W := W)) (sub_reply r i : prog (sys W Ctx) _).
Proof. unfold sub_reply. keeps_steps. Qed.
#[local] Hint Resolve quiet_sub_reply : keeps.

Lemma kept_live lo l p st : kept lo l st -> p ∈ l -> lo <= p /\ live st p.
Proof. intros Hk Hp. unfold kept in Hk. rewrite Forall_forall in Hk. auto. Qed.

Lemma node_get_with_slots_built lo st0 l he pe r st :
  built lo st0 l st -> wlp (node_get_with_slots malloc_ok he pe r) (fresh_node_post lo st0 l) st.
Proof.
  intros Hb. pose proof (proj1 Hb) as Hbb. unfold node_get_with_slots.
  do 3 (wlp_step; [fails|]).
  apply wlp_bind. eapply wlp_mono; [by apply wlp_alloc|]. intros [p|] st1 H1.
  2:{ destruct H1 as [H1 _]. fails. }
  destruct H1 as [H1 Hp]. pose proof (proj1 H1) as H1b. wlp_step.
  - apply wlp_bind. eapply wlp_mono; [by apply wlp_free|]. intros [] st2 H2. quietly.
    apply wlp_bind. eapply wlp_mono; [by apply wlp_free|]. intros [] st4 H4. by apply wlp_ret.
  - quietly. eapply fill_fresh; try done. by destruct (r =? REDIS_ROLE_MASTER).
Qed.

Lemma region_master_post lo st0 d e a b st :
  built lo st0 (values d) st ->
  wlp (region_master malloc_ok d e a b) (fun r st' =>
    match r.2 with
    | Some (p, known) => built lo st0 (values r.1) st' /\ lo <= p
    | None => building lo st0 st' /\ news lo r.1
    end) st.
Proof.
  intros Hb. pose proof (built_news _ _ _ _ Hb) as Hd. pose proof (proj1 Hb) as Hbb. unfold region_master.
  quietly. case_match; [|by apply wlp_ret; split; [apply Hq|]]. case_match. quietly.
  apply wlp_bind, wlp_lift. intros [en|] Hf; cbn beta iota.
  - assert (lo <= en.2) as Hen.
    { unfold news in Hd. rewrite Forall_forall in Hd. by apply Hd, (values_find _ _ _ Hf). }
    apply wlp_bind. eapply wlp_mono; [by apply slot_ref_built|]. intros ret st3 H3. wlp_step; [|by apply wlp_ret].
    quietly. apply wlp_ret. split; [apply Hq1|done].
  - apply wlp_bind. eapply wlp_mono; [by apply node_get_with_slots_built|].
    intros [q|] st3 H3; [destruct H3 as [H3 Hp]|by apply wlp_ret].
    apply wlp_bind, wlp_load. intros n Hn. quietly. apply wlp_bind, wlp_lift. intros x Ha.
    assert (built lo st0 (values x.2) st'1) as H4.
    { eapply built_sub; [|done]. intros y Hy. destruct (values_add _ _ _ _ _ Ha Hy) as [->|?]; [left|by right]. }
    clear Hq1. pose proof (built_news _ _ _ _ H4) as Hx. wlp_step.
    + quietly. apply wlp_bind. eapply wlp_mono; [eapply wlp_destroy; [apply Hq1|done]|]. intros [] st5 H5.
      by apply wlp_ret.
    + apply wlp_bind. eapply wlp_mono; [by apply slot_ref_built|]. intros ret st5 H5. wlp_step; [|by apply wlp_ret].
      quietly. apply wlp_ret. split; [apply Hq1|done].
Qed.

Lemma region_slave_built lo st0 l fl p e st :
  built lo st0 l st -> lo <= p ->
  wlp (region_slave malloc_ok fl p e) (fun ok st' =>
    if ok : bool then built lo st0 l st' else building lo st0 st') st.
Proof.
  intros Hb Hp. unfold region_slave. quietly. quietly. case_match; [|apply wlp_ret, Hq0]. case_match.
  wlp_step; [by apply wlp_ret|].
  apply wlp_bind. eapply wlp_mono; [by apply node_get_with_slots_built|].
  intros [q|] st3 H3; [destruct H3 as [H3 Hqp]|by apply wlp_ret]. pose proof (proj1 H3) as H3b.
  apply wlp_bind, wlp_load. intros n Hn. destruct (slaves_fit _ _ _ _ _ _ H3 Hp Hn) as [Hlt Hsn].
  destruct (match slaves n with Some l => Some l | None => _ end) as [sl|] eqn:Es.
  - assert (Forall (fun q => lo <= q < next_ptr st3) sl) as Hsl.
    { unfold slaves_of in Hsn. destruct (slaves n); [by simplify_eq/=|]. destruct (list_create_ok _); [|done].
      by simplify_eq/=. }
    destruct (kept_live _ _ q _ (proj2 H3)) as [_ [m Hm]]; [left|].
    destruct (slaves_fit _ _ _ _ _ _ H3 Hqp Hm) as [Hltq _].
    apply wlp_bind. eapply wlp_mono; [eapply wlp_set_slaves; try done|].
    + cbn. apply Forall_app_2; [done|]. by repeat constructor.
    + intros [] st4 [H4 _]. apply wlp_ret. eapply built_sub; [|exact H4]. intros y Hy. by right.
  - quietly. apply wlp_bind. eapply wlp_mono; [eapply wlp_deinit; [apply Hq1|done]|].
    intros [] st5 H5. by apply wlp_ret.
Qed.

Lemma region_slaves_built lo st0 l fl p es : forall k st,
  built lo st0 l st -> lo <= p ->
  wlp (region_slaves malloc_ok fl p es k) (fun ok st' =>
    if ok : bool then built lo st0 l st' else building lo st0 st') st.
Proof.
  induction es as [|e es IH]; intros k st Hb Hp; cbn [region_slaves]; (wlp_step; [by apply wlp_ret|]);
    [by apply wlp_fault|].
  apply wlp_bind. eapply wlp_mono; [by apply region_slave_built|]. intros [] st1 H1; [by apply IH|by apply wlp_ret].
Qed.

Definition region_post lo st0 (r : flow (dict bytes ptr)) st : Prop :=
  match r with
  | Go d => built lo st0 (values d) st
  | Stop d => building lo st0 st /\ news lo d
  end.

Lemma region_stop lo st0 d st : built lo st0 (values d) st -> region_post lo st0 (Stop d) st.
Proof. intros Hb. split; [apply Hb|by eapply built_news]. Qed.

Lemma slots_region_post lo st0 fl d e st :
  built lo st0 (values d) st -> wlp (slots_region malloc_ok fl d e) (region_post lo st0) st.
Proof.
  intros Hb. unfold slots_region.
  do 2 (wlp_step; [quietly; apply wlp_ret; by apply region_stop|]). quietly.
  wlp_step; [quietly; apply wlp_ret; by apply region_stop|]. quietly.
  wlp_step; [quietly; apply wlp_ret; by apply region_stop|]. cbv zeta.
  wlp_step; [quietly; apply wlp_ret; by apply region_stop|]. quietly.
  apply wlp_bind. eapply wlp_mono; [by apply region_master_post|]. intros [d' [[p []]|]] st3 H3; cbn [fst snd] in H3.
  - destruct H3 as [H3 _]. by apply wlp_ret.
  - destruct H3 as [H3 Hp]. pose proof (built_news _ _ _ _ H3). apply wlp_bind.
    eapply wlp_mono; [by apply region_slaves_built|]. intros [] st4 H4; by apply wlp_ret.
  - by apply wlp_ret.
Qed.

Lemma slots_loop_post lo st0 fl es : forall k d st,
  built lo st0 (values d) st -> wlp (slots_loop malloc_ok fl es k d) (region_post lo st0) st.
Proof.
  induction es as [|e es IH]; intros k d st Hb; cbn [slots_loop]; (wlp_step; [by apply wlp_ret|]);
    [by apply wlp_fault|].
  quietly. apply wlp_bind. eapply wlp_mono; [by apply slots_region_post|].
  intros [d'|d'] st1 H1; [by apply IH|by apply wlp_ret].
Qed.

Lemma parse_slots_safe lo st0 r fl st :
  building lo st0 st -> wlp (parse_cluster_slots malloc_ok r fl) (parsed lo st0) st.
Proof.
  intros Hb. unfold parse_cluster_slots. destruct r as [r|]; [|by apply wlp_ret]. wlp_step; [fails|].
  apply wlp_bind. eapply wlp_mono; [apply slots_loop_post; by apply built_create|].
  intros [d|d] st1 H1; [by apply wlp_ret|]. destruct H1 as [H1 Hn].
  apply wlp_bind. eapply wlp_mono; [by apply wlp_release_new|]. intros [] st2 H2. by apply wlp_ret.
Qed.
End parse.
