(* ===== verification/ClusterSafeApi.v ===== *)
(** * Nothing dangles: the whole client

    Installing a route, following redirections, adding nodes, clearing
    connections: every call of the synchronous interface keeps [safe], so every
    state that a client can reach from a new context is safe. *)

From stdpp Require Import sorting.
From S2P Require Import Prelude Effects Hiutil Hiarray Vformat Reply Sds Dict DictSpec Resp Command CommandParser ClusterSlot ClusterFragment ClusterMerge ClusterNode ClusterTopology ClusterUpdate ClusterExec ClusterPipeline ClusterFrame Script ClusterTopologySpec ClusterUpdateSpec ClusterRefreshSpec ClusterSafe ClusterSafeParse.

#[local] Existing Instance no_async.

Section install.
Context {W Ctx : Type} `{Transport W Ctx}.
Context (malloc_ok : Z -> bool) (alloc : Z -> option bytes).
Implicit Types (st : sys W Ctx) (d : dict bytes ptr) (p q lo : ptr) (n : cluster_node Ctx) (l : list ptr).

(** ** Loops over a dictionary *)

Lemma wlp_dict_loop {L} d (f : L -> bytes * ptr -> prog (sys W Ctx) (flow L)) (I : L -> sys W Ctx -> Prop) fuel :
  (forall x e st, e ∈ entries d -> I x st -> wlp (f x e) (fun r => I (locals r)) st) ->
  forall it x st, iter_within d it -> I x st ->
  wlp (dict_loop fuel d it f x) (fun r => I (locals r)) st.
Proof.
  intros Hf. induction fuel as [|fuel IH]; intros it x st Hit Hx; cbn [dict_loop]; [by apply wlp_fault|].
  apply wlp_bind, wlp_lift. intros [e it'] Hn. cbn [fst snd].
  destruct (dictNext_elem d it e it' Hit Hn) as [He Hit']. destruct e as [e|]; [|by apply wlp_ret].
  apply wlp_bind. eapply wlp_mono; [by apply Hf; [apply He|]|].
  intros [y|y] st' Hy; [by apply IH|by apply wlp_ret].
Qed.

Lemma wlp_dict_each {L} d (f : L -> bytes * ptr -> prog (sys W Ctx) (flow L)) (I : L -> sys W Ctx -> Prop) x st :
  (forall x e st, e ∈ entries d -> I x st -> wlp (f x e) (fun r => I (locals r)) st) ->
  I x st -> wlp (dict_each d f x) (fun r => I (locals r)) st.
Proof. intros Hf Hx. apply wlp_dict_loop; [done| |done]. by intros he e Hhe. Qed.

(** ** Installing *)

Lemma push_elem {A} (a : hiarray A) x a' :
  hiarray_push malloc_ok a x = Pushed a' -> elem a' = elem a ++ [x].
Proof. unfold hiarray_push. repeat case_match; try done; by intros [= <-]. Qed.

(** The slots collected so far are those of the new nodes. *)
Definition gathered d (u : update_locals) : Prop := Forall (fun x => sl_node x ∈ values d) (elem (u_slots u)).

Lemma push_slots_gathered lo st0 d sl : forall u st,
  built lo st0 (values d) st -> gathered d u -> Forall (fun x => sl_node x ∈ values d) sl ->
  wlp (push_slots malloc_ok u sl) (fun r st' => built lo st0 (values d) st' /\ gathered d (locals r)) st.
Proof.
  induction sl as [|x sl IH]; intros u st Hb Hu Hsl; cbn [push_slots]; [by apply wlp_ret|].
  apply Forall_cons in Hsl as [Hx Hsl]. wlp_step; [quietly; by apply wlp_ret|].
  destruct (hiarray_push _ _ _) as [a| |] eqn:E; [|apply wlp_fault..]. apply IH; [done| |done].
  unfold gathered. cbn [u_slots]. rewrite (push_elem _ _ _ E). apply Forall_app_2; [done|by constructor].
Qed.

Lemma gather_gathered lo st0 d u e st :
  e ∈ entries d -> built lo st0 (values d) st /\ gathered d u ->
  wlp (gather_master malloc_ok u e) (fun r st' => built lo st0 (values d) st' /\ gathered d (locals r)) st.
Proof.
  intros He [Hb Hu]. assert (e.2 ∈ values d) as Hv by (by apply list_elem_of_fmap_2).
  destruct (kept_live _ _ _ _ (proj2 Hb) Hv) as [Hlo _].
  unfold gather_master. apply wlp_bind, wlp_load. intros n Hn. wlp_step; [quietly; by apply wlp_ret|].
  destruct (slots n) as [sl|] eqn:Es; [|by apply wlp_ret]. wlp_step; [quietly; by apply wlp_ret|].
  assert (Forall (fun x => sl_node x ∈ values d) sl) as Hsl.
  { pose proof (slots_fit _ _ _ _ _ _ Hb Hlo Hn) as Hf. unfold slots_of_node in Hf. rewrite Es in Hf.
    eapply Forall_impl; [exact Hf|]. by intros x ->. }
  apply wlp_bind. eapply wlp_mono; [by apply push_slots_gathered|]. intros [y|y] st1 [H1 Hy]; [|by apply wlp_ret].
  quietly. by apply wlp_ret.
Qed.

Lemma fill_values p last fuel : forall k t t' j q,
  fill fuel k last p t = Some t' -> t' !! j = Some q -> q = p \/ t !! j = Some q.
Proof.
  induction fuel as [|fuel IH]; intros k t t' j q; cbn [fill]; (case_match; [intros [= <-]; by right|]); [done|].
  case_match; [done|]. intros Hf Hq. destruct (IH _ _ _ _ _ Hf Hq) as [?|Hq']; [by left|].
  apply lookup_insert_Some in Hq' as [[_ ->]|[_ ?]]; [by left|by right].
Qed.

Lemma fill_table_values sl : forall t t' j q,
  fill_table sl t = Some t' -> t' !! j = Some q -> (exists x, x ∈ sl /\ q = sl_node x) \/ t !! j = Some q.
Proof.
  induction sl as [|x sl IH]; intros t t' j q; cbn [fill_table]; [intros [= <-]; by right|].
  destruct (fill _ _ _ _ _) as [t1|] eqn:E; [|done]. cbn [mbind option_bind]. intros Hf Hq.
  destruct (IH _ _ _ _ Hf Hq) as [(y & Hy & ->)|Hq']; [left; exists y; by split; [right|]|].
  destruct (fill_values _ _ _ _ _ _ _ _ E Hq') as [->|?]; [left; exists x; by split; [left|]|by right].
Qed.

(** Moving connections changes nothing but connections. *)
Definition recon st st' : Prop :=
  heap_alike (heap st) (heap st') /\ next_ptr st' = next_ptr st /\ s_cc st' = s_cc st.

Lemma recon_store st st' p n c : recon st st' -> heap st' !! p = Some n ->
  wlp (store p (with_conns n c)) (fun _ => recon st) st'.
Proof.
  intros (Ha & Hn & Hc) Hp [] st2 E. unfold store in E. rewrite Hp in E. simplify_eq.
  split; [|done]. cbn. etrans; [exact Ha|by apply alike_insert].
Qed.

Lemma recon_con st st' p n c : recon st st' -> heap st' !! p = Some n ->
  wlp (store p (with_con n c)) (fun _ => recon st) st'.
Proof. intros Hr Hp. apply (recon_store st st' p n (c, acon n) Hr Hp). Qed.

Lemma recon_acon st st' p n a : recon st st' -> heap st' !! p = Some n ->
  wlp (store p (with_acon n a)) (fun _ => recon st) st'.
Proof. intros Hr Hp. apply (recon_store st st' p n (con n, a) Hr Hp). Qed.

Lemma swap_con_recon st st' p q : recon st st' -> wlp (swap_con p q) (fun _ => recon st) st'.
Proof.
  intros Hr. unfold swap_con. apply wlp_bind, wlp_load. intros o Ho.
  destruct (con o) as [c|]; [|by apply wlp_ret]. apply wlp_bind, wlp_load. intros n Hn.
  apply wlp_bind. eapply wlp_mono; [by apply recon_con|]. intros [] st2 H2.
  apply wlp_bind, wlp_load. intros n2 Hn2. by apply recon_con.
Qed.

Lemma swap_acon_recon st st' p q : recon st st' -> wlp (swap_acon p q) (fun _ => recon st) st'.
Proof.
  intros Hr. unfold swap_acon. apply wlp_bind, wlp_load. intros o Ho.
  destruct (acon o) as [c|]; [|by apply wlp_ret]. apply wlp_bind, wlp_load. intros n Hn.
  apply wlp_bind. eapply wlp_mono; [by apply recon_acon|]. intros [] st2 H2.
  apply wlp_bind, wlp_load. intros n2 Hn2.
  apply wlp_bind. eapply wlp_mono; [by apply recon_acon|]. intros [] st3 H3.
  apply wlp_bind, wlp_ret, wlp_bind, wlp_load. intros o3 Ho3. destruct (acon o3); by apply wlp_ret.
Qed.

Lemma swap_recon st st' d e : recon st st' -> wlp (swap_node d e) (fun _ => recon st) st'.
Proof.
  intros Hr. unfold swap_node. apply wlp_bind, wlp_load. intros n Hn.
  apply wlp_bind, wlp_lift. intros a Ha. apply wlp_bind, wlp_lift. intros [en|] Hf; [|by apply wlp_ret].
  apply wlp_bind. eapply wlp_mono; [by apply swap_con_recon|]. intros [] st2 H2. by apply swap_acon_recon.
Qed.

Lemma swap_ctx_recon a d st : wlp (cluster_nodes_swap_ctx a d) (fun _ => recon st) st.
Proof.
  assert (recon st st) as Hr by (by split).
  unfold cluster_nodes_swap_ctx. destruct a as [a|]; [|by apply wlp_ret]. apply wlp_bind.
  eapply wlp_mono; [apply (wlp_dict_each d _ (fun _ => recon st)); [|exact Hr]|].
  - intros x e st' _ Hst'. apply wlp_bind. eapply wlp_mono; [by apply swap_recon|]. intros [] st2 H2. by apply wlp_ret.
  - intros r st' Hst'. by apply wlp_ret.
Qed.

Lemma recon_live st st' p : recon st st' -> live st p -> live st' p.
Proof.
  intros (Ha & _ & _) [n Hp]. destruct (alike_lookup _ _ _ _ Ha Hp) as [c Hc]. by eexists.
Qed.

(** What is left when the old nodes are released: the new ones, untouched. *)
Lemma release_old lo st0 d st1 st2 old :
  safe st0 -> next_ptr st0 = lo -> built lo st0 (values d) st1 -> recon st1 st2 -> nodes (s_cc st0) = Some old ->
  wlp (release_nodes old) (fun _ st3 => bounded st3 /\ forall p, p ∈ values d -> live st3 p) st2.
Proof.
  intros Hs Hlo [Hb Hk] Hr Hold. destruct Hb as [Hb1 Hb2 Hb3 Hb4 Hb5]. destruct Hs as [Hs1 Hs2 _].
  assert (forall p n, heap st2 !! p = Some n -> exists n1, heap st1 !! p = Some n1 /\ slaves_of n = slaves_of n1) as Hback.
  { intros p n Hp. destruct Hr as (Ha & _ & _). specialize (Ha p). rewrite Hp in Ha.
    destruct (heap st1 !! p) as [n1|]; [|done]. destruct Ha as [c ->]. by exists n1. }
  eapply wlp_mono; [apply (release_touched (fun q => q < lo))|].
  - intros p n Hp Hn. destruct (Hback p n Hn) as (n1 & Hn1 & ->). rewrite Hb3 in Hn1 by done. subst lo.
    by apply (Hs1 p n1).
  - apply Forall_forall. intros p Hp. destruct (Hs2 old p Hold Hp) as [n Hn]. subst lo. by apply (Hs1 p n).
  - intros [] st3 (Hn & Hc & Ho & Ht). pose proof Hr as (_ & Hn2 & _). split.
    + intros p n Hp. rewrite Hn, Hn2. assert (live st2 p) as [m Hm].
      { destruct (Ht p n Hp) as [?|[? _]]; [by eexists|done]. }
      destruct (Hback p m Hm) as (m1 & Hm1 & Hsl). destruct (Hb2 p m1 Hm1) as (Hlt & Hsm & _). split; [done|].
      destruct (Ht p n Hp) as [Hp2|[_ ->]]; [|constructor]. assert (n = m) as -> by congruence. by rewrite Hsl.
    + intros p Hp. destruct (kept_live _ _ _ _ Hk Hp) as [Hge Hl].
      destruct (recon_live _ _ _ Hr Hl) as [m Hm]. exists m. rewrite Ho; [done|lia].
Qed.

Lemma failed_safe c o a b lo st0 st :
  safe st0 -> next_ptr st0 = lo ->
  match o with Some d => built lo st0 (values d) st | None => building lo st0 st end ->
  wlp (update_failed c o a b) (fun _ => safe) st.
Proof.
  intros Hs Hlo Hb. unfold update_failed.
  assert (building lo st0 st) as Hbb by (destruct o; [apply Hb|done]).
  assert (match o with Some d => news lo d | None => True end) as Hnew by (destruct o; [by eapply built_news|done]).
  clear Hb. quietly. quietly. apply wlp_bind. eapply wlp_mono with (Q := fun _ => building lo st0).
  { destruct o; [by apply wlp_release_new|by apply wlp_ret]. }
  intros [] st3 H3. quietly. apply wlp_ret. by eapply building_safe.
Qed.

Lemma install_safe c d lo st0 st :
  safe st0 -> next_ptr st0 = lo -> built lo st0 (values d) st ->
  wlp (install_route malloc_ok c d) (fun _ => safe) st.
Proof.
  intros Hs Hlo Hb. unfold install_route. case_match; [|quietly; by eapply failed_safe].
  apply wlp_bind.
  eapply wlp_mono; [apply (wlp_dict_each d _ (fun u st' => built lo st0 (values d) st' /\ gathered d u))|].
  { intros u e st' He Hu. by apply gather_gathered. }
  { split; [done|]. unfold hiarray_create in *. unfold gathered. case_match; simplify_eq/=. apply Forall_nil_2. }
  intros [u|u] st1 [H1 Hg]; [|by eapply failed_safe]. cbn [locals] in Hg. quietly. cbv zeta.
  destruct (fill_table _ _) as [t|] eqn:Ht; [|quietly; by eapply failed_safe].
  apply wlp_bind, wlp_gets. apply wlp_bind. eapply wlp_mono; [apply swap_ctx_recon|]. intros [] st2 H2.
  apply wlp_bind.
  assert (wlp (match nodes (s_cc st') with Some old => release_nodes old | None => mret () end)
    (fun _ st3 => bounded st3 /\ forall p, p ∈ values d -> live st3 p) st2) as Hrel.
  { rewrite (b_nodes _ _ _ (proj1 Hq)). destruct (nodes (s_cc st0)) as [old|] eqn:Eo; [by eapply release_old|].
    apply wlp_ret. destruct Hq as [Hqb Hqk]. split.
    - intros p n Hp. pose proof H2 as (Ha & -> & _). specialize (Ha p). rewrite Hp in Ha.
      destruct (heap st' !! p) as [n1|] eqn:E1; [|done]. destruct Ha as [x ->].
      destruct (b_heap _ _ _ Hqb p n1 E1) as (? & ? & _). done.
    - intros p Hp. eapply recon_live; [exact H2|]. by apply (kept_live _ _ _ _ Hqk). }
  eapply wlp_mono; [exact Hrel|]. intros [] st3 [Hbd Hlv]. apply wlp_bind. unfold upd_cc. apply wlp_modify.
  assert (safe (with_cc st3 (with_route (s_cc st3) d (hiarray_sort (u_slots u)) t))) as Hsafe.
  { split; cbn; [done| |].
    - intros d' p [= <-] Hp. by apply Hlv.
    - intros k p Hk. apply Hlv. destruct (fill_table_values _ _ _ _ _ Ht Hk) as [(x & Hx & ->)|Hn]; [|by rewrite lookup_empty in Hn].
      cbn [hiarray_sort elem] in Hx. rewrite merge_sort_Permutation in Hx. unfold gathered in Hg.
      rewrite Forall_forall in Hg. by apply Hg. }
  quietly. by apply wlp_ret.
Qed.

Lemma fetch_slots_parsed c lo st0 st :
  building lo st0 st -> wlp (fetch_slots malloc_ok c) (fun r => parsed lo st0 r.2) st.
Proof.
  intros Hb. unfold fetch_slots. quietly. case_match; [|quietly; quietly; by apply wlp_ret].
  wlp_step; [quietly; by apply wlp_ret|]. quietly. apply wlp_bind.
  eapply wlp_mono; [by apply parse_slots_safe|]. intros o st3 H3. by apply wlp_ret.
Qed.

Lemma fetch_nodes_parsed c lo st0 st :
  building lo st0 st -> wlp (fetch_nodes malloc_ok alloc c) (fun r => parsed lo st0 r.2) st.
Proof.
  intros Hb. unfold fetch_nodes. quietly. case_match; [|quietly; quietly; by apply wlp_ret].
  wlp_step; [quietly; by apply wlp_ret|]. quietly. quietly. apply wlp_bind.
  eapply wlp_mono; [by apply parse_nodes_safe|]. intros o st3 H3. by apply wlp_ret.
Qed.

Lemma update_by_addr_safe h p st :
  safe st -> wlp (cluster_update_route_by_addr malloc_ok alloc h p) (fun _ => safe) st.
Proof.
  intros Hs. pose proof (safe_building st Hs) as Hb. unfold cluster_update_route_by_addr.
  wlp_step; [quietly; by apply wlp_ret, (building_safe (next_ptr st) st)|]. quietly.
  case_match; [|quietly; by apply wlp_ret, (building_safe (next_ptr st) st)].
  quietly. wlp_step; [quietly; by eapply failed_safe|]. quietly. apply wlp_bind.
  eapply wlp_mono with (Q := fun r => parsed (next_ptr st) st r.2).
  { wlp_step; [by apply fetch_slots_parsed|by apply fetch_nodes_parsed]. }
  intros [r [d|]] st3 H3; cbn [snd] in *; [by eapply install_safe|by eapply failed_safe].
Qed.
End install.

(** ** What a client can do *)

(** The calls of the synchronous interface (hircluster.h); [id], [buf] and [fuel]
    are the counter of [command_get], an uninitialised buffer and the bound of the
    partial writes, as in the definitions. *)
Inductive api_call :=
| Connect (addrs : bytes) (flags : Z)
| ConnectWithTimeout (addrs : bytes) (tv : timeval) (flags : Z)
| ConnectNonBlock (addrs : bytes) (flags : Z)
| SetOptionAddNode (addr : bytes)
| SetOptionAddNodes (addrs : bytes)
| SetOptionConnectBlock
| SetOptionConnectNonBlock
| SetOptionParseSlaves
| SetOptionParseOpenSlots
| SetOptionRouteUseSlots
| SetOptionConnectTimeout (tv : timeval)
| SetOptionTimeout (tv : timeval)
| SetOptionMaxRedirect (n : Z)
| SetMaxRedirect (n : Z)
| Connect2
| FormattedCommand (data : bytes) (id : Z) (buf : bytes)
| CommandArgv (argc : Z) (argv : list bytes) (argvlen : option (list Z)) (id : Z) (buf : bytes)
| VCommand (format : bytes) (ap : list vararg) (id : Z) (buf : bytes)
| AppendFormattedCommand (data : bytes) (id : Z) (buf : bytes)
| AppendVCommand (format : bytes) (ap : list vararg) (id : Z) (buf : bytes)
| AppendCommandArgv (argc : Z) (argv : list bytes) (argvlen : option (list Z)) (id : Z) (buf : bytes)
| GetReply
| Reset (fuel : nat)
| UpdateRoute
| Free.

Section run.
Context {W Ctx : Type} `{Transport W Ctx} (malloc_ok : Z -> bool) (alloc : Z -> option bytes).
Context (printf : bytes -> vararg -> bytes).

Definition run_call (c : api_call) : prog (sys W Ctx) () :=
  match c with
  | Connect addrs fl => redisClusterConnect malloc_ok alloc addrs fl
  | ConnectWithTimeout addrs tv fl => redisClusterConnectWithTimeout malloc_ok alloc addrs tv fl
  | ConnectNonBlock addrs fl => redisClusterConnectNonBlock malloc_ok alloc addrs fl
  | SetOptionAddNode a => ignore (redisClusterSetOptionAddNode malloc_ok alloc a)
  | SetOptionAddNodes a => ignore (redisClusterSetOptionAddNodes malloc_ok alloc a)
  | SetOptionConnectBlock => ignore redisClusterSetOptionConnectBlock
  | SetOptionConnectNonBlock => ignore redisClusterSetOptionConnectNonBlock
  | SetOptionParseSlaves => ignore redisClusterSetOptionParseSlaves
  | SetOptionParseOpenSlots => ignore redisClusterSetOptionParseOpenSlots
  | SetOptionRouteUseSlots => ignore redisClusterSetOptionRouteUseSlots
  | SetOptionConnectTimeout tv => ignore (redisClusterSetOptionConnectTimeout tv)
  | SetOptionTimeout tv => ignore (redisClusterSetOptionTimeout tv)
  | SetOptionMaxRedirect n => ignore (redisClusterSetOptionMaxRedirect n)
  | SetMaxRedirect n => redisClusterSetMaxRedirect n
  | Connect2 => ignore (redisClusterConnect2 malloc_ok alloc)
  | FormattedCommand data id buf => ignore (redisClusterFormattedCommand malloc_ok alloc data id buf)
  | CommandArgv argc argv lens id buf => ignore (redisClusterCommandArgv malloc_ok alloc argc argv lens id buf)
  | VCommand format ap id buf => ignore (redisClusterCommand malloc_ok alloc printf format ap id buf)
  | AppendFormattedCommand data id buf => ignore (redisClusterAppendFormattedCommand malloc_ok data id buf)
  | AppendCommandArgv argc argv lens id buf =>
      ignore (redisClusterAppendCommandArgv malloc_ok alloc argc argv lens id buf)
  | AppendVCommand format ap id buf =>
      ignore (redisClusterAppendCommand malloc_ok alloc printf format ap id buf)
  | GetReply => ignore (redisClusterGetReply malloc_ok)
  | Reset fuel => redisClusterReset malloc_ok alloc fuel
  | UpdateRoute => ignore (cluster_update_route malloc_ok alloc)
  | Free => redisClusterFree
  end.

End run.

(** ** Every function keeps the invariant *)

Section api.
Context {W Ctx : Type} `{Transport W Ctx}.
Context (malloc_ok : Z -> bool) (alloc : Z -> option bytes).
Implicit Types (st : sys W Ctx) (d : dict bytes ptr) (p q : ptr) (n : cluster_node Ctx).

Definition safely : relation (sys W Ctx) := fun st st' => safe st -> safe st'.
#[local] Instance safely_preorder : PreOrder safely.
Proof. split; [by intros st Hs|]. intros x y z H1 H2 Hx. auto. Qed.

Lemma keeps_safe {A} (m : prog (sys W Ctx) A) : (forall st, safe st -> wlp m (fun _ => safe) st) -> keeps safely m.
Proof. intros Hm st a st' Ha Hs. by eapply Hm. Qed.

Lemma keeps_quiet {A} (m : prog (sys W Ctx) A) : keeps quiet m -> keeps safely m.
Proof. intros Hm. apply keeps_safe. intros st Hs. by apply wlp_quiet; [apply steady_safe| |]. Qed.

Lemma safely_set_error e str : keeps safely (__redisClusterSetError e str).
Proof. apply keeps_quiet, quiet_set_error. Qed.
Lemma safely_clear_err : keeps safely clear_err.
Proof. apply keeps_quiet, quiet_clear_err. Qed.
Lemma safely_call {A} (f : W -> A * W) : keeps safely (call f).
Proof. apply keeps_quiet, quiet_call. Qed.
(** An assignment to fields of the context other than the route. *)
Lemma safely_upd f : (forall cc, nodes (f cc) = nodes cc /\ table (f cc) = table cc) -> keeps safely (upd_cc f).
Proof. intros Hf. apply keeps_quiet, keeps_modify. intros st. by destruct (Hf (s_cc st)). Qed.
Lemma safely_update_by_addr h p : keeps safely (cluster_update_route_by_addr malloc_ok alloc h p).
Proof. apply keeps_safe. intros st. apply update_by_addr_safe. Qed.
#[local] Hint Resolve safely_preorder safely_set_error safely_clear_err safely_call safely_update_by_addr : keeps.
#[local] Hint Extern 1 (keeps _ (upd_cc _)) => apply safely_upd; intros; repeat case_match; done : keeps.

(** A node whose connection changes. *)
Lemma safe_con st p n c : safe st -> heap st !! p = Some n -> safe (with_heap st (<[p := with_con n c]> (heap st))).
Proof.
  intros [Hb Hd Ht] Hp.
  assert (forall q, live st q -> live (with_heap st (<[p := with_con n c]> (heap st))) q) as Hl.
  { intros q [m Hm]. unfold live. cbn. destruct (decide (p = q)) as [->|]; [rewrite lookup_insert_eq; by eexists|].
    rewrite lookup_insert_ne by done. by eexists. }
  split; cbn; [|intros d q Hn Hq; by eapply Hl, Hd|intros k q Hk; by eapply Hl, Ht].
  intros q m Hq. cbn in Hq. apply lookup_insert_Some in Hq as [[<- <-]|[_ Hq]]; [|by apply Hb]. exact (Hb p n Hp).
Qed.

Lemma wlp_store_con st st' p n c :
  safe st -> quiet st st' -> heap st !! p = Some n ->
  wlp (store p (with_con n c)) (fun _ => safe) st'.
Proof.
  intros Hs Hq Hp [] st2 E. pose proof (steady_safe _ _ Hq Hs) as Hs'. unfold store in E.
  rewrite (proj1 Hq), Hp in E. simplify_eq. rewrite <- (proj1 Hq). apply safe_con; [done|]. by rewrite (proj1 Hq).
Qed.

(** Step over a quiet program and remember that nothing changed. *)
Lemma wlp_bind_same {A B} (m : prog (sys W Ctx) A) (f : A -> prog (sys W Ctx) B) Q st st0 :
  keeps quiet m -> quiet st0 st -> (forall a st', quiet st0 st' -> wlp (f a) Q st') -> wlp (m ≫= f) Q st.
Proof.
  intros Hm Hst Hf. apply (wlp_bind_quiet m f (quiet st0)); try done. intros x y Hxy Hx. by etrans.
Qed.

Lemma safely_ctx_get_by_node p : keeps safely (ctx_get_by_node p).
Proof.
  apply keeps_safe. intros st Hs. unfold ctx_get_by_node. apply wlp_bind, wlp_load. intros n Hn.
  destruct (con n) as [c|].
  - quietly. wlp_step; [quietly; quietly; by apply wlp_ret|by apply wlp_ret].
  - destruct (host n); [|by apply wlp_ret]. wlp_step; [by apply wlp_ret|].
    eapply (wlp_bind_same _ _ _ st st); [eauto with keeps typeclass_instances|reflexivity|]. intros c st1 H1.
    eapply (wlp_bind_same _ _ _ st1 st); [destruct c; eauto with keeps typeclass_instances|done|]. intros [] st2 H2.
    apply wlp_bind. eapply wlp_mono; [by eapply wlp_store_con|]. intros [] st3 H3. by apply wlp_ret.
Qed.
#[local] Hint Resolve safely_ctx_get_by_node : keeps.

(** A new node that is filed under a key. *)
Lemma file_node key p n d st :
  safe st -> nodes (s_cc st) = Some d -> slaves n = None ->
  p = next_ptr st ->
  wlp (_ ← store p n; r ← lift (dictAdd d key p); upd_cc (fun cc => with_nodes cc (Some r.2))) (fun _ => safe)
    (mk_sys (s_cc st) (<[p := cluster_node_init]> (heap st)) (next_ptr st + 1) (world st)).
Proof.
  intros [Hb Hd Ht] Hn Hs ->. apply wlp_bind. intros [] st1 E. unfold store in E. cbn [heap] in E.
  rewrite lookup_insert_eq in E. simplify_eq. apply wlp_bind, wlp_lift. intros r Ha. apply wlp_modify. cbn.
  rewrite insert_insert_eq.
  assert (forall q, live st q -> is_Some ((<[next_ptr st := n]> (heap st)) !! q)) as Hl.
  { intros q [m Hm]. rewrite lookup_insert_ne; [by eexists|]. destruct (Hb q m Hm). lia. }
  split; cbn.
  - intros q m Hq. cbn in Hq. apply lookup_insert_Some in Hq as [[<- <-]|[_ Hq]]; cbn.
    + split; [lia|]. unfold slaves_of. by rewrite Hs.
    + destruct (Hb q m Hq) as [Hlt Hf]. split; [lia|]. eapply Forall_impl; [exact Hf|]. cbn. intros. lia.
  - intros d' q [= <-] Hq. destruct (values_add _ _ _ _ _ Ha Hq) as [->|Hq']; [|by eapply Hl, Hd].
    unfold live. cbn. rewrite lookup_insert_eq. by eexists.
  - intros k q Hk. by eapply Hl, Ht.
Qed.

Lemma wlp_alloc_node st (Q : option ptr -> sys W Ctx -> Prop) :
  Q None st ->
  Q (Some (next_ptr st)) (mk_sys (s_cc st) (<[next_ptr st := cluster_node_init]> (heap st)) (next_ptr st + 1) (world st)) ->
  wlp (alloc_node malloc_ok) Q st.
Proof. intros H1 H2 o st' E. unfold alloc_node in E. destruct (malloc_ok _); by simplify_eq. Qed.

(** The same with a result. *)
Lemma file_node_ret {A} key p n d st (x : A) :
  safe st -> nodes (s_cc st) = Some d -> slaves n = None -> p = next_ptr st ->
  wlp (_ ← store p n; r ← lift (dictAdd d key p); _ ← upd_cc (fun cc => with_nodes cc (Some r.2)); mret x)
    (fun _ => safe)
    (mk_sys (s_cc st) (<[p := cluster_node_init]> (heap st)) (next_ptr st + 1) (world st)).
Proof.
  intros H1 H2 H3 H4. pose proof (file_node key p n d st H1 H2 H3 H4) as Hf.
  intros a st' E. revert E. unfold mbind, prog_bind. intros E.
  destruct (store p n _) as [[u st1]|] eqn:E1; [|done]. destruct (lift _ _) as [[r st2]|] eqn:E2; [|done].
  destruct (upd_cc _ _) as [[v st3]|] eqn:E3; [|done]. cbv in E. simplify_eq. apply (Hf v st').
  unfold mbind, prog_bind. by rewrite E1, E2.
Qed.

Lemma safely_ask r : keeps safely (node_get_by_ask_error_reply malloc_ok alloc r).
Proof.
  apply keeps_safe. intros st Hs. unfold node_get_by_ask_error_reply. wlp_step; [fails|]. quietly. quietly.
  destruct a0 as [[|t0 [|t1 [|t2 [|t3 tl]]]]|]; try fails. quietly.
  destruct a0 as [[|h [|pt [|t3 tl]]]|]; try fails. apply wlp_bind, wlp_gets.
  apply wlp_bind, wlp_lift. intros d Hd. apply wlp_bind, wlp_lift. intros [e|] _; [by apply wlp_ret|].
  apply wlp_bind, wlp_alloc_node; [fails|]. by apply file_node_ret.
Qed.
#[local] Hint Resolve safely_ask : keeps.

Lemma safely_AddNode address : keeps safely (redisClusterSetOptionAddNode malloc_ok alloc address).
Proof.
  apply keeps_safe. intros st Hs. unfold redisClusterSetOptionAddNode. apply wlp_bind, wlp_gets. cbv zeta.
  apply wlp_bind. unfold upd_cc at 1. apply wlp_modify. set (d := default dictCreate (nodes (s_cc st))).
  assert (safe (with_cc st (with_nodes (s_cc st) (Some d)))) as Hs1.
  { destruct Hs as [Hb Hd Ht]. split; try done. cbn. intros d' q [= <-] Hq. unfold d in Hq.
    destruct (nodes (s_cc st)) as [d1|] eqn:E; [by apply (Hd d1)|]. by apply elem_of_nil in Hq. }
  set (st1 := with_cc st (with_nodes (s_cc st) (Some d))) in *. assert (nodes (s_cc st1) = Some d) as Hn by done.
  clearbody st1 d. clear Hs st. apply wlp_bind, wlp_lift. intros [e|] _; [by apply wlp_ret|].
  eapply (wlp_bind_same _ _ _ st1 st1); [eauto with keeps typeclass_instances|reflexivity|]. intros toks st2 H2.
  pose proof (steady_safe _ _ H2 Hs1) as Hs2.
  destruct toks as [[|t0 [|t1 [|t2 tl]]]|]; try fails. wlp_step; [fails|]. cbv zeta. wlp_step; [fails|].
  apply wlp_bind, wlp_alloc_node; [fails|]. apply file_node_ret; [done| |done|done].
  destruct H2 as (_ & _ & Hd & _). by rewrite Hd.
Qed.
#[local] Hint Resolve safely_AddNode : keeps.

Lemma safely_AddNodes addrs : keeps safely (redisClusterSetOptionAddNodes malloc_ok alloc addrs).
Proof.
  unfold redisClusterSetOptionAddNodes. keeps_steps.
  match goal with |- keeps _ (ClusterUpdate.add_nodes _ _ ?l) => generalize l end.
  intros l0. induction l0 as [|a0 l0 IH]; cbn [ClusterUpdate.add_nodes]; keeps_steps.
Qed.
#[local] Hint Resolve safely_AddNodes : keeps.

Lemma safely_set_con_timeout tv c : keeps safely (set_con_timeout tv c).
Proof. unfold set_con_timeout. keeps_steps. Qed.
#[local] Hint Resolve safely_set_con_timeout : keeps.

Lemma safely_timeout tv : keeps safely (redisClusterSetOptionTimeout tv).
Proof. unfold redisClusterSetOptionTimeout. keeps_steps. Qed.

(** *** Executing *)

Lemma safely_find_connection command : keeps safely (find_connection command).
Proof. unfold find_connection, count_retry, too_many. keeps_steps. Qed.
#[local] Hint Resolve safely_find_connection : keeps.

Lemma safely_ask_retry command c : keeps safely (ask_retry malloc_ok alloc command c).
Proof. unfold ask_retry, on_reply, count_retry, too_many. keeps_steps. Qed.
#[local] Hint Resolve safely_ask_retry : keeps.

Lemma safely_execute command : keeps safely (redis_cluster_command_execute malloc_ok alloc command).
Proof.
  unfold redis_cluster_command_execute. keeps_steps. generalize (Retry : label Ctx). generalize (execute_fuel a).
  intros fuel. induction fuel as [|fuel IH]; intros lb; cbn [execute]; unfold execute_step; keeps_steps.
Qed.
#[local] Hint Resolve safely_execute : keeps.

Lemma safely_execute_all l : forall done, keeps safely (execute_all malloc_ok alloc l done).
Proof. induction l as [|x l IH]; intros done; cbn [execute_all]; keeps_steps. Qed.
#[local] Hint Resolve safely_execute_all : keeps.

Lemma safely_FormattedCommand data cmd_id num_str :
  keeps safely (redisClusterFormattedCommand malloc_ok alloc data cmd_id num_str).
Proof. unfold redisClusterFormattedCommand, run_formatted. keeps_steps. Qed.
#[local] Hint Resolve safely_FormattedCommand : keeps.

(** *** The pipeline *)

Lemma safely_append command : keeps safely (__redisClusterAppendCommand command).
Proof. unfold __redisClusterAppendCommand. keeps_steps. Qed.
Lemma safely_get_reply sl : keeps safely (__redisClusterGetReply sl).
Proof. unfold __redisClusterGetReply. keeps_steps. Qed.
#[local] Hint Resolve safely_append safely_get_reply : keeps.

Lemma safely_append_all l : keeps safely (append_all l).
Proof. induction l as [|x l IH]; cbn [append_all]; keeps_steps. Qed.
Lemma safely_collect l : forall done, keeps safely (collect l done).
Proof. induction l as [|x l IH]; intros done; cbn [collect]; keeps_steps. Qed.
#[local] Hint Resolve safely_append_all safely_collect : keeps.

Lemma safely_AppendFormattedCommand data cmd_id num_str :
  keeps safely (redisClusterAppendFormattedCommand malloc_ok data cmd_id num_str).
Proof. unfold redisClusterAppendFormattedCommand, add_request. keeps_steps. Qed.
Lemma safely_GetReply : keeps safely (redisClusterGetReply malloc_ok).
Proof. unfold redisClusterGetReply. keeps_steps. Qed.
Lemma safely_SendAll fuel : keeps safely (redisCLusterSendAll fuel).
Proof. unfold redisCLusterSendAll. keeps_steps. Qed.
#[local] Hint Resolve safely_AppendFormattedCommand safely_GetReply safely_SendAll : keeps.

Lemma safely_ClearAll : keeps safely redisCLusterClearAll.
Proof.
  unfold redisCLusterClearAll. keeps_steps. apply (keeps_dict_each safely). intros [] de. apply keeps_safe. intros st Hs. apply wlp_bind, wlp_load. intros n Hn.
  destruct (con n) as [c|]; [|by apply wlp_ret].
  eapply (wlp_bind_same _ _ _ st st); [eauto with keeps typeclass_instances|reflexivity|]. intros [] st1 H1.
  apply wlp_bind. eapply wlp_mono; [by eapply wlp_store_con|]. intros [] st2 H2. by apply wlp_ret.
Qed.
#[local] Hint Resolve safely_ClearAll : keeps.

Lemma safely_drain fuel : keeps safely (drain malloc_ok fuel).
Proof. induction fuel as [|fuel IH]; cbn [drain]; keeps_steps. Qed.
#[local] Hint Resolve safely_drain : keeps.

Lemma safely_Reset fuel : keeps safely (redisClusterReset malloc_ok alloc fuel).
Proof. unfold redisClusterReset. keeps_steps. Qed.

(** *** Connecting and freeing *)

Lemma safe_new st f : bounded st -> nodes f = None -> table f = ∅ -> safe (with_cc st f).
Proof.
  intros Hb Hn Ht. split; cbn; [done| |].
  - intros d p Hd. congruence.
  - intros k p Hk. rewrite Ht in Hk. by rewrite lookup_empty in Hk.
Qed.

Lemma safely_new f : nodes f = None -> table f = ∅ -> keeps safely (upd_cc (fun _ => f)).
Proof.
  intros Hn Ht. apply keeps_safe. intros st [Hb _ _]. unfold upd_cc. apply wlp_modify. by apply safe_new.
Qed.

Lemma safely_connect addrs : keeps safely (_redisClusterConnect malloc_ok alloc addrs).
Proof. unfold _redisClusterConnect. keeps_steps. Qed.

Lemma safely_Free : keeps safely redisClusterFree.
Proof.
  apply keeps_safe. intros st [Hb Hd Ht]. unfold redisClusterFree. apply wlp_bind, wlp_gets. apply wlp_bind.
  eapply wlp_mono with (Q := fun _ => bounded).
  - destruct (nodes (s_cc st)) as [d|]; [|by apply wlp_ret].
    eapply wlp_mono; [apply (release_touched (fun _ => True))|].
    + intros p n _ _. by apply Forall_true.
    + by apply Forall_true.
    + intros [] st1 (Hn & Hc & _ & Hto) p n Hp. rewrite Hn. destruct (Hto p n Hp) as [Hp'|[[m Hm] ->]]; [by apply Hb|].
      split; [by destruct (Hb p m Hm)|constructor].
  - intros [] st1 H1. unfold upd_cc. apply wlp_modify. by apply safe_new.
Qed.
#[local] Hint Resolve safely_timeout safely_Reset safely_connect safely_Free : keeps.

Lemma run_call_safely printf c : keeps safely (run_call malloc_ok alloc printf c).
Proof.
  assert (forall f, nodes f = None -> table f = ∅ ->
    keeps safely (upd_cc (W := W) (Ctx := Ctx) (fun _ => f))) as Hnew by (intros; by apply safely_new).
  destruct c; cbn [run_call];
    unfold ignore, redisClusterSetOptionConnectBlock, redisClusterSetOptionConnectNonBlock,
      redisClusterSetOptionParseSlaves, redisClusterSetOptionParseOpenSlots,
      redisClusterSetOptionRouteUseSlots, redisClusterSetOptionConnectTimeout,
      redisClusterSetOptionMaxRedirect, redisClusterSetMaxRedirect, set_flag, redisClusterConnect2,
      redisClusterConnect, redisClusterConnectWithTimeout, redisClusterConnectNonBlock,
      redisClusterCommandArgv, redisClusterAppendCommandArgv, redisClusterCommand, redisClustervCommand,
      redisClusterAppendCommand, redisClustervAppendCommand.
  1-3: apply (keeps_bind safely); [by apply Hnew|intros; apply safely_connect].
  all: keeps_steps.
Qed.

Lemma run_calls_safe printf calls st st' :
  each calls (run_call malloc_ok alloc printf) st = Some ((), st') -> safe st -> safe st'.
Proof. intros Hr. exact (keeps_each safely calls _ (run_call_safely printf) st _ _ Hr). Qed.
End api.

(** C2: whatever a client does - connecting, options, commands, the
    pipeline, refreshing the route, freeing, in any order - and whatever the
    servers answer and whichever allocations fail, in every state it reaches each
    node that [cc->nodes] or a slot of [cc->table] refers to is a live object:
    looking up a slot never gives a dangling node. *)
Theorem client_never_dangles {W Ctx} `{Transport W Ctx} malloc_ok alloc printf (calls : list api_call) w
  (st : sys W Ctx) :
  each calls (run_call malloc_ok alloc printf) (mk_sys redisClusterContextInit ∅ 1 w) = Some ((), st) ->
  (forall d a p, nodes (s_cc st) = Some d -> (a, p) ∈ concat (Dict.table d) -> is_Some (heap st !! p)) /\
  forall slot p, node_get_by_table (table (s_cc st)) slot = Some p -> is_Some (heap st !! p).
Proof.
  intros Hr. apply run_calls_safe in Hr.
  - destruct Hr as [_ Hd Ht]. split.
    + intros d a p Hn Hp. apply (Hd d p Hn). by apply (list_elem_of_fmap_2 snd) in Hp.
    + intros slot p. unfold node_get_by_table. case_match; [done|]. apply Ht.
  - by split.
Qed.

(** Two masters with a few slots; connect, a GET that is redirected with MOVED, a
    pipelined GET. *)
Definition few_slots : list entry :=
  [Master (mk_master (s "id1") (s "10.0.0.1") 7000 true [] [s "-"; s "0"; s "0"; s "1"; s "connected"] [SlotRange 0 2]);
   Master (mk_master (s "id2") (s "10.0.0.2") 7001 false [] [s "-"; s "0"; s "0"; s "2"; s "connected"]
     [OneSlot 12182])].
Definition some_calls : list api_call :=
  [Connect (s "10.0.0.1:7000") 0; FormattedCommand (request [s "GET"; s "foo"]) 0 (repeat NUL 12);
   AppendFormattedCommand (request [s "GET"; s "foo"]) 1 (repeat NUL 12); GetReply].
Definition some_replies : list (option redisReply) :=
  [Some (createStringObject REDIS_REPLY_STRING (text few_slots));
   Some (createStringObject REDIS_REPLY_ERROR (s "MOVED 12182 10.0.0.2:7001"));
   Some (createStringObject REDIS_REPLY_STRING (text few_slots));
   Some (createStringObject REDIS_REPLY_STRING (s "bar"));
   Some (createStringObject REDIS_REPLY_STRING (s "bar"))].

Definition some_block (n : Z) : option bytes := Some (replicate (Z.to_nat n) NUL).
Definition some_run : option (() * sys script (bytes * Z)) :=
  each some_calls (run_call (fun _ => true) some_block (fun _ _ => []))
    (mk_sys redisClusterContextInit ∅ 1 (mk_script some_replies [])).

(** That run ends without an error, with two live nodes and all replies used. *)
Example some_calls_end :
  (fun r => (err (s_cc r.2), base.size (heap r.2), replies (world r.2))) <$> some_run = Some (0, 2%nat, []).
Proof. vm_compute. reflexivity. Qed.

Lemma client_never_dangles_witness :
  exists st, some_run = Some ((), st) /\
    (forall d a p, nodes (s_cc st) = Some d -> (a, p) ∈ concat (Dict.table d) -> is_Some (heap st !! p)) /\
    forall slot p, node_get_by_table (table (s_cc st)) slot = Some p -> is_Some (heap st !! p).
Proof.
  destruct (proj1 (fmap_Some _ _ _) some_calls_end) as ([[] st] & E & _).
  exists st. split; [exact E|]. unfold some_run in E.
  apply (client_never_dangles (fun _ => true) some_block (fun _ _ => []) some_calls (mk_script some_replies []) st E).
Defined.
