(* ===== verification/ClusterAsync.v ===== *)
(** * hircluster.c: the asynchronous interface

    A [redisClusterAsyncContext] sends every command through the context of
    async.c of the node of its slot.  What waits for a reply is a
    [cluster_async_data]; its callback in async.c is [redisClusterAsyncCallback],
    which runs the user's callback, or sends the command again after a redirection.

    Each context of async.c is one state of [Async] in a table, and [enter] runs a
    function of async.c on it; whenever such a function calls a callback, the state
    goes back into the table, so that the callback sees the whole client and can
    call any function on it, with the same connection or with others.  The system
    behind these connections is a [Posix] system, the one behind the blocking
    connections a [Transport].  What is freed is not in its table any more:
    using it is a fault.

    The user's functions are a parameter.  They and [redisClusterAsyncCallback] can
    be called while a connection is freed inside [cluster_update_route], which they
    can call: [async_conns] unfolds this as often as its fuel says. *)

From S2P Require Import Prelude Effects Hiutil Hiarray Format Vformat Net Context Async Reply Sds Dict Command CommandParser ClusterSlot ClusterFragment ClusterMerge ClusterNode ClusterTopology ClusterUpdate ClusterExec.

(** ** The state *)

(** [F] are functions of the user, [P] their private data.  [cad_acc]: the pointer
    to the context, there is one, is not NULL. *)
Record cluster_async_data (F P : Type) := mk_cad {
  cad_acc : bool;
  cad_command : option cmd;
  cad_callback : option F;
  cad_privdata : option P;
  cad_retry_count : Z
}.
Arguments mk_cad {F P}.
Arguments cad_acc {F P}.
Arguments cad_command {F P}.
Arguments cad_callback {F P}.
Arguments cad_privdata {F P}.
Arguments cad_retry_count {F P}.

(** The cluster context of [cc] is the one of the state; [acc_attach_fn] is the
    function of the event library, called with its [adapter]. *)
Record redisClusterAsyncContext (F : Type) := mk_acc {
  acc_err : Z;
  acc_errstr : bytes;
  acc_attach_fn : option F;
  acc_onDisconnect : option F;
  acc_onConnect : option F
}.
Arguments mk_acc {F}.
Arguments acc_err {F}.
Arguments acc_errstr {F}.
Arguments acc_attach_fn {F}.
Arguments acc_onDisconnect {F}.
Arguments acc_onConnect {F}.

(** The functions a context of async.c holds: the two of this file, and the
    user's. *)
Inductive afn (F : Type) :=
| ClusterCallback
| Unlink
| UserFn (fn : F).
Arguments ClusterCallback {F}.
Arguments Unlink {F}.
Arguments UserFn {F}.

(** A context of async.c, with its field [data]. *)
Record actx (F : Type) := mk_actx {
  ax_ctx : option (redisAsyncContext (afn F) ptr);
  ax_nodes : gmap Z (redisCallback (afn F) ptr);
  ax_fresh : Z;
  ax_log : list (Async.event (afn F) ptr);
  ax_data : option ptr
}.
Arguments mk_actx {F}.
Arguments ax_ctx {F}.
Arguments ax_nodes {F}.
Arguments ax_fresh {F}.
Arguments ax_log {F}.
Arguments ax_data {F}.

(** Calls of the user's functions, in the log with those steps of a request that
    end it or put it into the queue of a connection. *)
Inductive uevent (F P : Type) :=
| UserCallback (request : ptr) (fn : F) (reply : option redisReply) (privdata : option P)
| Attach (fn : F) (ac : ptr)
| OnConnection (ac : ptr) (e : Async.event (afn F) ptr)
| Submitted (request : ptr) (ac : ptr)
| Discarded (request : ptr).
Arguments UserCallback {F P}.
Arguments Attach {F P}.
Arguments OnConnection {F P}.
Arguments Submitted {F P}.
Arguments Discarded {F P}.

Record aworld (F P V : Type) := mk_aworld {
  w_acc : option (redisClusterAsyncContext F);
  w_cads : gmap ptr (cluster_async_data F P);
  w_actxs : gmap ptr (actx F);
  w_fresh : ptr;
  w_log : list (uevent F P);
  w_os : V
}.
Arguments mk_aworld {F P V}.
Arguments w_acc {F P V}.
Arguments w_cads {F P V}.
Arguments w_actxs {F P V}.
Arguments w_fresh {F P V}.
Arguments w_log {F P V}.
Arguments w_os {F P V}.

(** [gettimeofday]; [None] is an error. *)
Class Clock (V : Type) := gettimeofday : V -> option timeval * V.

(** ** Contexts of async.c in the state of the client *)

Section client.
Context {F P V Ctx : Type} `{Posix V} `{Transport V Ctx} `{Clock V}.
Context (malloc_ok : Z -> bool) (alloc : Z -> option bytes) (printf : bytes -> vararg -> bytes).
Abbreviation world_t := (aworld F P V).
Abbreviation client := (sys world_t Ctx).
Abbreviation M := (prog client).
Abbreviation acontext := (redisAsyncContext (afn F) ptr).
Abbreviation async := (async_state (afn F) ptr client).
Implicit Types (w : world_t) (st : client) (x : actx F) (cad : cluster_async_data F P) (a p : ptr).

Definition with_os w (v : V) : world_t :=
  mk_aworld (w_acc w) (w_cads w) (w_actxs w) (w_fresh w) (w_log w) v.
Definition with_acc w (c : option (redisClusterAsyncContext F)) : world_t :=
  mk_aworld c (w_cads w) (w_actxs w) (w_fresh w) (w_log w) (w_os w).
Definition with_cads w (m : gmap ptr (cluster_async_data F P)) : world_t :=
  mk_aworld (w_acc w) m (w_actxs w) (w_fresh w) (w_log w) (w_os w).
Definition with_actxs w (m : gmap ptr (actx F)) : world_t :=
  mk_aworld (w_acc w) (w_cads w) m (w_fresh w) (w_log w) (w_os w).
Definition with_log w (e : uevent F P) : world_t :=
  mk_aworld (w_acc w) (w_cads w) (w_actxs w) (w_fresh w) (w_log w ++ [e]) (w_os w).

(** A call of the system. *)
Definition on_os {A} (f : V -> A * V) w : A * world_t :=
  let '(a, v) := f (w_os w) in (a, with_os w v).

(** The blocking connections of the nodes. *)
#[global] Instance aworld_transport : Transport world_t Ctx := {
  redisConnect h q := on_os (ClusterNode.redisConnect h q);
  redisConnectWithTimeout h q tv := on_os (ClusterNode.redisConnectWithTimeout h q tv);
  redisReconnect c := on_os (ClusterNode.redisReconnect c);
  redisSetTimeout c tv := on_os (ClusterNode.redisSetTimeout c tv);
  redisFree c w := with_os w (ClusterNode.redisFree c (w_os w));
  ctx_err w c := ctx_err (w_os w) c;
  ctx_errstr w c := ctx_errstr (w_os w) c;
  ctx_flags w c := ctx_flags (w_os w) c;
  redisAppend c d := on_os (redisAppend c d);
  redisGetReply c := on_os (ClusterNode.redisGetReply c);
  redisCommand c d := on_os (ClusterNode.redisCommand c d);
  redisBufferWrite c := on_os (ClusterNode.redisBufferWrite c)
}.

(** The system as the functions of async.c see it, the whole client behind it. *)
Definition sys_os {A} (f : V -> A * V) st : A * client :=
  let '(a, w) := on_os f (world st) in (a, with_world st w).
#[global] Instance client_posix : Posix client := {
  errno st := errno (w_os (world st));
  set_errno e st := with_world st (with_os (world st) (set_errno e (w_os (world st))));
  strerror := strerror;
  gai_strerror := gai_strerror;
  sys_socket d t q := sys_os (sys_socket d t q);
  sys_close fd st := with_world st (with_os (world st) (sys_close fd (w_os (world st))));
  sys_fcntl fd c v := sys_os (sys_fcntl fd c v);
  sys_setsockopt fd l n v := sys_os (sys_setsockopt fd l n v);
  sys_getsockopt_error fd := sys_os (sys_getsockopt_error fd);
  sys_bind fd sa := sys_os (sys_bind fd sa);
  sys_connect fd sa := sys_os (sys_connect fd sa);
  sys_poll fd ms := sys_os (sys_poll fd ms);
  sys_getaddrinfo n sv f := sys_os (sys_getaddrinfo n sv f);
  sys_read fd n := sys_os (sys_read fd n);
  sys_write fd d := sys_os (sys_write fd d)
}.

Definition upd_world (f : world_t -> world_t) : M () := modify (fun st => with_world st (f (world st))).
Definition note (e : uevent F P) : M () := upd_world (fun w => with_log w e).

(** *** Running a function of async.c *)

(** The state of a context, with the client as its system, and back.  While the
    function runs, the entry of the table is out of date. *)
Definition focus a st : option async :=
  x ← w_actxs (world st) !! a;
  Some (mk_async (ax_ctx x) (ax_nodes x) (ax_fresh x) st (ax_log x)).
Definition unfocus a (s : async) : option client :=
  let st := a_os s in
  x ← w_actxs (world st) !! a;
  Some (with_world st (with_actxs (world st)
    (<[a := mk_actx (a_ctx s) (a_nodes s) (a_fresh s) (a_log s) (ax_data x)]> (w_actxs (world st))))).

Definition enter {A} a (m : prog async A) : M A := fun st =>
  s ← focus a st;
  r ← m s;
  st' ← unfocus a r.2;
  Some (r.1, st').

(** A callback: the state goes back, the callback runs, the state is taken again. *)
Definition leave a (m : M ()) : prog async () := fun s =>
  st ← unfocus a s;
  r ← m st;
  s' ← focus a r.2;
  Some ((), s').

(** Fields of a context; one that was freed faults. *)
Definition get_actx a : M (actx F) := x ← gets (fun st => w_actxs (world st) !! a); lift x.
Definition get_acontext a : M acontext := x ← get_actx a; lift (ax_ctx x).
Definition put_actx a x : M () := upd_world (fun w => with_actxs w (<[a := x]> (w_actxs w))).
Definition set_data a (d : ptr) : M () :=
  _ ← get_acontext a;
  x ← get_actx a;
  put_actx a (mk_actx (ax_ctx x) (ax_nodes x) (ax_fresh x) (ax_log x) (Some d)).
Definition set_dataHandler (f : afn F) (ac : acontext) : acontext :=
  mk_ac (ac_c ac) (ac_err ac) (ac_errstr ac) (Some f) (ac_ev ac) (ac_onDisconnect ac) (ac_onConnect ac)
    (ac_replies ac) (ac_invalid ac) (ac_channels ac) (ac_patterns ac).

(** A new context in the table. *)
Definition add_actx (ac : acontext) : M ptr := fun st =>
  let w := world st in
  Some (w_fresh w, with_world st (mk_aworld (w_acc w) (w_cads w)
    (<[w_fresh w := mk_actx (Some ac) ∅ 0 [] None]> (w_actxs w)) (w_fresh w + 1) (w_log w) (w_os w))).
Definition redisAsyncConnect (ip : bytes) (port : Z) : M (option ptr) := fun st =>
  match Async.redisAsyncConnect (F := afn F) (P := ptr) alloc malloc_ok ip port (w_os (world st)) with
  | Some (None, v) => Some (None, with_world st (with_os (world st) v))
  | Some (Some ac, v) =>
      r ← add_actx ac (with_world st (with_os (world st) v));
      Some (Some r.1, r.2)
  | None => None
  end.

(** ** The context and the requests *)

Definition get_acc : M (redisClusterAsyncContext F) := c ← gets (fun st => w_acc (world st)); lift c.
Definition upd_acc (f : redisClusterAsyncContext F -> redisClusterAsyncContext F) : M () :=
  c ← get_acc; upd_world (fun w => with_acc w (Some (f c))).
Definition set_acc_err (e : Z) (str : bytes) (c : redisClusterAsyncContext F) : redisClusterAsyncContext F :=
  mk_acc e str (acc_attach_fn c) (acc_onDisconnect c) (acc_onConnect c).

(** [__redisClusterAsyncCopyError] and [__redisClusterAsyncSetError] with a string. *)
Definition __redisClusterAsyncCopyError : M () :=
  cc ← get_cc; upd_acc (set_acc_err (err cc) (errstr cc)).
Definition __redisClusterAsyncSetError (type : Z) (str : bytes) : M () :=
  upd_acc (set_acc_err type (take 127 (until_nul str))).
(** [__redisClusterAsyncSetError(acc, cc->err, cc->errstr)] and the one with the
    error of a connection, whose string is set since it was made. *)
Definition error_of_cc : M () := cc ← get_cc; __redisClusterAsyncSetError (err cc) (errstr cc).
Definition error_of_actx (ac : acontext) : M () :=
  __redisClusterAsyncSetError (ac_err ac) (default [] (ac_errstr ac)).
(** [if(acc->err) { acc->err = 0; memset(acc->errstr, ...); }] *)
Definition clear_acc_err : M () :=
  upd_acc (fun c => if negb (acc_err c =? 0) then set_acc_err 0 [] c else c).

Definition sizeof_acc : Z := 176.
Definition sizeof_cad : Z := 40.

Definition load_cad p : M (cluster_async_data F P) := x ← gets (fun st => w_cads (world st) !! p); lift x.
Definition store_cad p cad : M () := upd_world (fun w => with_cads w (<[p := cad]> (w_cads w))).
Definition cluster_async_data_get : M (option ptr) := fun st =>
  if negb (malloc_ok sizeof_cad) then Some (None, st) else
  let w := world st in
  Some (Some (w_fresh w), with_world st (mk_aworld (w_acc w)
    (<[w_fresh w := mk_cad false None None None 0]> (w_cads w)) (w_actxs w) (w_fresh w + 1) (w_log w) (w_os w))).
(** The command goes with it. *)
Definition cluster_async_data_free p : M () :=
  _ ← load_cad p; upd_world (fun w => with_cads w (delete p (w_cads w))).

(** [hi_usec_now] and [hi_msec_now] of hiutil.c. *)
Definition hi_usec_now : M Z :=
  now ← call (fun w => on_os gettimeofday w);
  mret (match now with
        | Some tv => i64 (tv_sec tv * 1000000 + tv_usec tv)
        | None => -1
        end).
Definition hi_msec_now : M Z := usec ← hi_usec_now; mret (Z.quot usec 1000).

(** *** Functions of the user *)

Context (user : AsyncConns world_t Ctx -> uevent F P -> M ()).

Section callbacks.
Context {conns : AsyncConns world_t Ctx}.

(** A function of the user: the call is logged. *)
Definition call_user (e : uevent F P) : M () := _ ← note e; user conns e.

(** ** Connections of nodes *)

(** The node is not set free before its connection, which would then write to it. *)
Definition unlinkAsyncContextAndNode a : M () :=
  x ← get_actx a;
  match ax_data x with
  | Some p => n ← load p; store p (with_acon n None)
  | None => mret ()
  end.

(** The functions of async.c that [actx_get_by_node] and sending call: none of
    them calls a callback. *)
Definition redisAsyncSetConnectCallback a (fn : option F) : M Z :=
  enter a (Async.redisAsyncSetConnectCallback (UserFn <$> fn)).
Definition redisAsyncSetDisconnectCallback a (fn : option F) : M Z :=
  enter a (Async.redisAsyncSetDisconnectCallback (UserFn <$> fn)).
Definition redisAsyncFormattedCommand a (fn : option (afn F)) (privdata : option ptr) (data : bytes) : M Z :=
  enter a (Async.redisAsyncFormattedCommand alloc malloc_ok fn privdata data (zlen data)).
Definition redisAsyncCommand a (format : bytes) : M Z :=
  enter a (Async.redisAsyncCommand alloc malloc_ok printf None None format []).

(** [NOT_REACHED()] is empty: after an error a second connection is opened. *)
Definition actx_get_by_node p : M (option ptr) :=
  node ← load p;
  usable ← (match acon node with
            | Some a => ac ← get_acontext a; mret (if c_err (ac_c ac) =? 0 then Some a else None)
            | None => mret None
            end);
  match usable with
  | Some a => mret (Some a)
  | None =>
      let failed : M (option ptr) :=
        _ ← __redisClusterAsyncSetError REDIS_ERR_OTHER (s "node host or port is error"); mret None in
      match host node with
      | None => failed
      | Some h =>
          if port node <=? 0 then failed else
          ac ← redisAsyncConnect h (port node);
          match ac with
          | None => failed
          | Some a =>
              acc ← get_acc;
              _ ← (if acc_attach_fn acc is Some fn then call_user (Attach fn a) else mret ());
              acc ← get_acc;
              _ ← (if acc_onConnect acc is Some fn
                   then _ ← redisAsyncSetConnectCallback a (Some fn); mret () else mret ());
              acc ← get_acc;
              _ ← (if acc_onDisconnect acc is Some fn
                   then _ ← redisAsyncSetDisconnectCallback a (Some fn); mret () else mret ());
              _ ← set_data a p;
              _ ← enter a (upd_ac (set_dataHandler Unlink));
              node ← load p;
              _ ← store p (with_acon node (Some a));
              mret (Some a)
          end
      end
  end.

(** A connection without error, or the error of the context says why not. *)
Definition usable_actx p : M (option ptr) :=
  a ← actx_get_by_node p;
  match a with
  | None =>
      _ ← __redisClusterAsyncSetError REDIS_ERR_OTHER (s "actx get by node error"); mret None
  | Some a =>
      ac ← get_acontext a;
      if negb (ac_err ac =? 0) then _ ← error_of_actx ac; mret None else mret (Some a)
  end.

(** The node of a slot in the table. *)
Definition table_actx (slot_num : Z) : M (option ptr) :=
  cc ← get_cc;
  match node_get_by_table (table cc) (u32 slot_num) with
  | None =>
      _ ← __redisClusterAsyncSetError REDIS_ERR_OTHER (s "node get by table error"); mret None
  | Some p => usable_actx p
  end.

Definition actx_get_after_update_route_by_slot (slot_num : Z) : M (option ptr) :=
  if slot_num <? 0 then mret None else
  ret ← cluster_update_route malloc_ok alloc;
  if negb (ret =? REDIS_OK) then
    _ ← __redisClusterAsyncSetError REDIS_ERR_OTHER
          (s "route update error, please recreate redisClusterContext!");
    mret None
  else table_actx slot_num.

(** ** redisClusterAsyncCallback *)

(** Where the code jumps to. *)
Inductive outcome := Done | ResendOn (ac_retry : ptr) | Failed.

(** The time of the next update, once a node has not replied too often. *)
Definition schedule_update : M () :=
  str ← cluster_config_get (s "cluster-node-timeout");
  match str with
  | None => error_of_cc
  | Some (str, len) =>
      let cluster_timeout := hi_atoi str len in
      if cluster_timeout <=? 0 then
        __redisClusterAsyncSetError REDIS_ERR_OTHER (s "cluster_timeout_str convert to integer error")
      else
        now ← hi_usec_now;
        if now <? 0 then __redisClusterAsyncSetError REDIS_ERR_OTHER (s "get now usec time error")
        else upd_cc (fun cc => with_route_time cc (i64 (now + cluster_timeout * 1000)))
  end.

(** [reply == NULL] *)
Definition no_reply a : M () :=
  x ← get_actx a;
  ac ← lift (ax_ctx x);
  _ ← error_of_actx ac;
  cc ← get_cc;
  if negb (update_route_time cc =? 0) then
    now ← hi_usec_now;
    if update_route_time cc <=? now then
      ret ← cluster_update_route malloc_ok alloc;
      _ ← (if negb (ret =? REDIS_OK)
           then __redisClusterAsyncSetError REDIS_ERR_OTHER
                  (s "route update error, please recreate redisClusterContext!")
           else mret ());
      upd_cc (fun cc => with_route_time cc 0)
    else mret ()
  else
    p ← lift (ax_data x);
    node ← load p;
    let k := i32 (failure_count node + 1) in
    if k <=? max_redirect_count cc then store p (with_failures node k)
    else _ ← store p (with_failures node 0); schedule_update.

(** The [switch] on the type of an error reply. *)
Definition on_redirection a (command : cmd) (reply : redisReply) : M outcome :=
  let error_type := cluster_reply_error_type (Some reply) in
  if error_type =? CLUSTER_ERR_MOVED then
    ac_retry ← actx_get_after_update_route_by_slot (slot_num command);
    mret (if ac_retry is Some b then ResendOn b else Done)
  else if error_type =? CLUSTER_ERR_ASK then
    node ← node_get_by_ask_error_reply malloc_ok alloc reply;
    match node with
    | None => _ ← error_of_cc; mret Done
    | Some p =>
        ac_retry ← usable_actx p;
        match ac_retry with
        | None => mret Done
        | Some b =>
            ret ← redisAsyncCommand b (s "ASKING");
            mret (if ret =? REDIS_OK then ResendOn b else Failed)
        end
    end
  else mret (ResendOn a).

Definition on_error_reply a p (command : cmd) (reply : redisReply) : M outcome :=
  if is_redirection (cluster_reply_error_type (Some reply)) then
    cad ← load_cad p;
    let k := i32 (cad_retry_count cad + 1) in
    let cad_with k := mk_cad (cad_acc cad) (cad_command cad) (cad_callback cad) (cad_privdata cad) k in
    _ ← store_cad p (cad_with k);
    cc ← get_cc;
    if max_redirect_count cc <? k then
      _ ← store_cad p (cad_with 0);
      _ ← __redisClusterAsyncSetError REDIS_ERR_CLUSTER_TOO_MANY_REDIRECT (s "too many cluster redirect");
      mret Done
    else on_redirection a command reply
  else mret Done.

(** [done]: the user's callback gets NULL when there is an error. *)
Definition finish p (r : option redisReply) : M () :=
  acc ← get_acc;
  cad ← load_cad p;
  fn ← lift (cad_callback cad);
  _ ← call_user (UserCallback p fn (if acc_err acc =? 0 then r else None) (cad_privdata cad));
  _ ← clear_err;
  _ ← clear_acc_err;
  cluster_async_data_free p.

(** [error] *)
Definition discard p : M () := _ ← note (Discarded p); cluster_async_data_free p.

(** [retry] *)
Definition resend p (command : cmd) (ac_retry : ptr) : M () :=
  ret ← redisAsyncFormattedCommand ac_retry (Some ClusterCallback) (Some p) (cmd_buf command);
  if negb (ret =? REDIS_OK) then discard p else note (Submitted p ac_retry).

Definition redisClusterAsyncCallback a (r : option redisReply) (privdata : option ptr) : M () :=
  match privdata with
  | None => mret ()
  | Some p =>
      cad ← load_cad p;
      if negb (cad_acc cad) then discard p else
      _ ← get_acc;
      match cad_command cad with
      | None => discard p
      | Some command =>
          o ← (match r with
               | None => _ ← no_reply a; mret Done
               | Some reply => on_error_reply a p command reply
               end);
          match o with
          | Done => finish p r
          | ResendOn ac_retry => resend p command ac_retry
          | Failed => discard p
          end
      end
  end.

(** ** Sending *)

(** The error label of [redisClusterAsyncFormattedCommand] frees the command, not
    the request: one that was not sent stays. *)
Definition submit (fn : option F) (privdata : option P) (command : cmd) (data : bytes) a : M Z :=
  p ← cluster_async_data_get;
  match p with
  | None => _ ← __redisClusterAsyncSetError REDIS_ERR_OOM (s "Out of memory"); mret REDIS_ERR
  | Some p =>
      _ ← store_cad p (mk_cad true (Some command) fn privdata 0);
      status ← redisAsyncFormattedCommand a (Some ClusterCallback) (Some p) data;
      if negb (status =? REDIS_OK) then mret REDIS_ERR
      else _ ← note (Submitted p a); mret REDIS_OK
  end.

Definition send_formatted (fn : option F) (privdata : option P) (data : bytes) (fm : formatted) : M Z :=
  if fm_slot fm <? 0 then _ ← error_of_cc; mret REDIS_ERR
  else if REDIS_CLUSTER_SLOTS <=? fm_slot fm then
    _ ← __redisClusterAsyncSetError REDIS_ERR_OTHER (s "slot_num is out of range"); mret REDIS_ERR
  else
  match fm_commands fm with
  | _ :: _ =>
      _ ← __redisClusterAsyncSetError REDIS_ERR_OTHER (s "Asynchronous API now not support multi-key command");
      mret REDIS_ERR
  | [] =>
      a ← table_actx (fm_slot fm);
      match a with
      | None => mret REDIS_ERR
      | Some a => submit fn privdata (fm_command fm) data a
      end
  end.

(** [cmd_id] and [num_str] as in [redisClusterFormattedCommand]. *)
Definition redisClusterAsyncFormattedCommand (fn : option F) (privdata : option P) (data : bytes)
  (cmd_id : Z) (num_str : bytes) : M Z :=
  let out_of_memory : M Z :=
    _ ← __redisClusterAsyncSetError REDIS_ERR_OOM (s "Out of memory"); mret REDIS_ERR in
  _ ← get_acc;
  _ ← clear_err;
  _ ← clear_acc_err;
  match command_get malloc_ok cmd_id with
  | None => out_of_memory
  | Some command =>
      if negb (malloc_ok (zlen data)) || negb (list_create_ok malloc_ok) then out_of_memory else
      fm ← format_by_slot malloc_ok (with_request command data) cmd_id num_str;
      send_formatted fn privdata data fm
  end.

(** What a formatter returned; a request that overflowed its block faults, and so
    does using the pointer after an error that is not looked at. *)
Definition send_request (f : fmt_result) (fn : option F) (privdata : option P) (cmd_id : Z)
  (num_str : bytes) : M Z :=
  match f with
  | FmtOk target len =>
      redisClusterAsyncFormattedCommand fn privdata (take (Z.to_nat len) target) cmd_id num_str
  | FmtError len =>
      if len =? -1 then
        _ ← __redisClusterAsyncSetError REDIS_ERR_OOM (s "Out of memory"); mret REDIS_ERR
      else if len =? -2 then
        _ ← __redisClusterAsyncSetError REDIS_ERR_OTHER (s "Invalid format string"); mret REDIS_ERR
      else fault
  | FmtOverflow => fault
  end.
Definition redisClustervAsyncCommand (fn : option F) (privdata : option P) (format : bytes)
  (ap : list vararg) (cmd_id : Z) (num_str : bytes) : M Z :=
  send_request (redisvFormatCommand alloc printf format ap) fn privdata cmd_id num_str.
Definition redisClusterAsyncCommand := redisClustervAsyncCommand.
(** This formatter has no error -2. *)
Definition redisClusterAsyncCommandArgv (fn : option F) (privdata : option P) (argc : Z)
  (argv : list bytes) (argvlen : option (list Z)) (cmd_id : Z) (num_str : bytes) : M Z :=
  send_request (redisFormatCommandArgv alloc argc argv argvlen) fn privdata cmd_id num_str.

(** ** Connecting, disconnecting, freeing *)

Definition redisClusterAsyncInitialize : M bool :=
  if negb (malloc_ok sizeof_acc) then mret false else
  _ ← upd_world (fun w => with_acc w (Some (mk_acc 0 [] None None None)));
  mret true.

(** Whether the result is not NULL. *)
Definition redisClusterAsyncConnect (addrs : bytes) (fl : Z) : M bool :=
  _ ← redisClusterConnectNonBlock malloc_ok alloc addrs fl;
  ok ← redisClusterAsyncInitialize;
  if ok : bool then _ ← __redisClusterAsyncCopyError; mret true
  else _ ← redisClusterFree; mret false.

Definition redisClusterAsyncSetConnectCallback (fn : option F) : M Z :=
  acc ← get_acc;
  match acc_onConnect acc with
  | None =>
      _ ← upd_acc (fun c => mk_acc (acc_err c) (acc_errstr c) (acc_attach_fn c) (acc_onDisconnect c) fn);
      mret REDIS_OK
  | Some _ => mret REDIS_ERR
  end.
Definition redisClusterAsyncSetDisconnectCallback (fn : option F) : M Z :=
  acc ← get_acc;
  match acc_onDisconnect acc with
  | None =>
      _ ← upd_acc (fun c => mk_acc (acc_err c) (acc_errstr c) (acc_attach_fn c) fn (acc_onConnect c));
      mret REDIS_OK
  | Some _ => mret REDIS_ERR
  end.

(** *** Callbacks of connections

    What a context of async.c calls, and the functions of async.c that call
    callbacks. *)

Definition on_event a (e : Async.event (afn F) ptr) : M () :=
  match e with
  | Callback ClusterCallback r privdata => redisClusterAsyncCallback a r privdata
  | DataHandler Unlink => unlinkAsyncContextAndNode a
  | _ => call_user (OnConnection a e)
  end.
Definition calls a (e : Async.event (afn F) ptr) : prog async () := leave a (on_event a e).

Definition redisAsyncDisconnect a : M () := enter a (Async.redisAsyncDisconnect (calls a)).
(** The events of a socket. *)
Definition redisAsyncHandleRead a : M () :=
  enter a (Async.redisAsyncHandleRead alloc malloc_ok (calls a)).
Definition redisAsyncHandleWrite a : M () :=
  enter a (Async.redisAsyncHandleWrite alloc (calls a)).

Definition disconnect_node (de : bytes * ptr) : M () :=
  node ← load de.2;
  match acon node with
  | None => mret ()
  | Some a =>
      ac ← get_acontext a;
      if negb (ac_err ac =? 0) then mret () else
      _ ← redisAsyncDisconnect a;
      node ← load de.2;
      store de.2 (with_acon node None)
  end.
Definition redisClusterAsyncDisconnect : M () :=
  _ ← get_acc;
  cc ← get_cc;
  match nodes cc with
  | None => mret ()
  | Some d => _ ← dict_each d (fun _ de => _ ← disconnect_node de; mret (Go ())) (); mret ()
  end.

Definition redisClusterAsyncFree : M () :=
  _ ← get_acc;
  _ ← redisClusterFree;
  upd_world (fun w => with_acc w None).
End callbacks.

(** Connections that are freed with callbacks, [fuel] of them one inside the
    other. *)
Fixpoint async_conns (fuel : nat) : AsyncConns world_t Ctx :=
  match fuel with
  | O => {| redisAsyncFree _ := fault; set_actx_data := set_data |}
  | S fuel' => {|
      redisAsyncFree a := enter a (Async.redisAsyncFree (calls (conns := async_conns fuel') a));
      set_actx_data := set_data
    |}
  end.
End client.

(** ** A client

    The calls of the interface and the events of the sockets.  The user's functions
    are given by [react]: the calls they make, which can depend on everything that
    was called before.  [depth] bounds the calls inside calls. *)

Inductive async_call (F P : Type) :=
| CommandArgv (fn : option F) (privdata : option P) (argv : list bytes) (argvlen : option (list Z))
    (cmd_id : Z) (num_str : bytes)
| FormattedCommand (fn : option F) (privdata : option P) (data : bytes) (cmd_id : Z) (num_str : bytes)
| VCommand (fn : option F) (privdata : option P) (format : bytes) (ap : list vararg) (cmd_id : Z)
    (num_str : bytes)
| SetConnectCallback (fn : option F)
| SetDisconnectCallback (fn : option F)
| Disconnect
| Free.
Arguments CommandArgv {F P}.
Arguments FormattedCommand {F P}.
Arguments VCommand {F P}.
Arguments SetConnectCallback {F P}.
Arguments SetDisconnectCallback {F P}.
Arguments Disconnect {F P}.
Arguments Free {F P}.

Inductive input (F P : Type) :=
| Call (c : async_call F P)
| Readable (ac : ptr)
| Writable (ac : ptr).
Arguments Call {F P}.
Arguments Readable {F P}.
Arguments Writable {F P}.

Section run.
Context {F P V Ctx : Type} `{Posix V} `{Transport V Ctx} `{Clock V}.
Context (malloc_ok : Z -> bool) (alloc : Z -> option bytes) (printf : bytes -> vararg -> bytes).
Abbreviation world_t := (aworld F P V).
Abbreviation M := (prog (sys world_t Ctx)).

Definition run_async_call (user : AsyncConns world_t Ctx -> uevent F P -> M ()) (conns : AsyncConns world_t Ctx)
  (c : async_call F P) : M () :=
  match c with
  | CommandArgv fn privdata argv argvlen cmd_id num_str =>
      ignore (redisClusterAsyncCommandArgv malloc_ok alloc user fn privdata (zlen argv) argv argvlen cmd_id num_str)
  | FormattedCommand fn privdata data cmd_id num_str =>
      ignore (redisClusterAsyncFormattedCommand malloc_ok alloc user fn privdata data cmd_id num_str)
  | VCommand fn privdata format ap cmd_id num_str =>
      ignore (redisClusterAsyncCommand malloc_ok alloc printf user fn privdata format ap cmd_id num_str)
  | SetConnectCallback fn => ignore (redisClusterAsyncSetConnectCallback fn)
  | SetDisconnectCallback fn => ignore (redisClusterAsyncSetDisconnectCallback fn)
  | Disconnect => redisClusterAsyncDisconnect malloc_ok alloc printf user
  | Free => redisClusterAsyncFree
  end.

Context (react : list (uevent F P) -> list (async_call F P)).

Fixpoint reacting (depth : nat) (conns : AsyncConns world_t Ctx) (e : uevent F P) : M () :=
  match depth with
  | O => fault
  | S depth' =>
      log ← gets (fun st => w_log (world st));
      each (react log) (run_async_call (reacting depth') conns)
  end.

Definition run_input (depth : nat) (i : input F P) : M () :=
  let user := reacting depth in
  let conns := async_conns malloc_ok alloc printf user depth in
  match i with
  | Call c => run_async_call user conns c
  | Readable a => redisAsyncHandleRead malloc_ok alloc printf user (conns := conns) a
  | Writable a => redisAsyncHandleWrite malloc_ok alloc printf user (conns := conns) a
  end.
Definition run_client (depth : nat) (l : list (input F P)) : M () := each l (run_input depth).
End run.
