(* ===== verification/ClusterAsyncScript.v ===== *)
(** * A scripted cluster for asynchronous clients

    A system for concrete runs: the blocking connections follow a [script], the
    sockets of the asynchronous ones are those of [net], one stream of input for
    all of them, and the clock follows a list. *)

From S2P Require Import Prelude Effects Format Net NetSpec NetScript Context Async Reply Sds Dict Command ClusterSlot ClusterNode ClusterUpdate ClusterExec Script ClusterAsync.

Record sim := mk_sim { sim_script : script; sim_net : net; sim_time : list timeval }.

Definition on_script {A} (f : script -> A * script) (w : sim) : A * sim :=
  let '(a, x) := f (sim_script w) in (a, mk_sim x (sim_net w) (sim_time w)).
Definition on_net {A} (f : net -> A * net) (w : sim) : A * sim :=
  let '(a, x) := f (sim_net w) in (a, mk_sim (sim_script w) x (sim_time w)).

#[global] Instance sim_transport : Transport sim (bytes * Z) := {
  redisConnect h p := on_script (ClusterNode.redisConnect h p);
  redisConnectWithTimeout h p tv := on_script (ClusterNode.redisConnectWithTimeout h p tv);
  redisReconnect c := on_script (ClusterNode.redisReconnect c);
  redisSetTimeout c tv := on_script (ClusterNode.redisSetTimeout c tv);
  redisFree c w := mk_sim (ClusterNode.redisFree c (sim_script w)) (sim_net w) (sim_time w);
  ctx_err w c := ctx_err (sim_script w) c;
  ctx_errstr w c := ctx_errstr (sim_script w) c;
  ctx_flags w c := ctx_flags (sim_script w) c;
  redisAppend c d := on_script (redisAppend c d);
  redisGetReply c := on_script (ClusterNode.redisGetReply c);
  redisCommand c d := on_script (ClusterNode.redisCommand c d);
  redisBufferWrite c := on_script (ClusterNode.redisBufferWrite c)
}.
#[global] Instance sim_posix : Posix sim := {
  errno w := errno (sim_net w);
  set_errno e w := mk_sim (sim_script w) (set_errno e (sim_net w)) (sim_time w);
  strerror := strerror (W := net);
  gai_strerror := gai_strerror (W := net);
  sys_socket d t q := on_net (sys_socket d t q);
  sys_close fd w := mk_sim (sim_script w) (sys_close fd (sim_net w)) (sim_time w);
  sys_fcntl fd c v := on_net (sys_fcntl fd c v);
  sys_setsockopt fd l n v := on_net (sys_setsockopt fd l n v);
  sys_getsockopt_error fd := on_net (sys_getsockopt_error fd);
  sys_bind fd sa := on_net (sys_bind fd sa);
  sys_connect fd sa := on_net (sys_connect fd sa);
  sys_poll fd ms := on_net (sys_poll fd ms);
  sys_getaddrinfo n sv f := on_net (sys_getaddrinfo n sv f);
  sys_read fd n := on_net (sys_read fd n);
  sys_write fd d := on_net (sys_write fd d)
}.
#[global] Instance sim_clock : Clock sim := fun w =>
  match sim_time w with
  | [] => (None, w)
  | t :: l => (Some t, mk_sim (sim_script w) (sim_net w) l)
  end.
