(* ===== verification/ClusterAsyncSpec.v ===== *)
(** * Asynchronous requests end once

    Whatever the servers send, the system answers and the user's functions do, a
    request that was put into the queue of a connection ends once, by the call of
    its callback or by being dropped, and until then it is sent at most as often as
    the maximum of redirections allows.  The proof accounts, for every request, for
    the ends in the log and for the sends that are still allowed. *)

From S2P Require Import Prelude Effects Hiutil Hiarray Format Vformat Net Context Async AsyncFrame Reply Sds Dict Command CommandParser ClusterSlot ClusterFragment ClusterMerge ClusterNode ClusterTopology ClusterUpdate ClusterExec ClusterPipeline ClusterFrame ClusterAsync.

(** ** What the log says of a request *)

Section log.
Context {F P : Type}.
Implicit Types (e : uevent F P) (l : list (uevent F P)) (p : ptr).

Definition is_end p e : bool :=
  match e with UserCallback q _ _ _ | Discarded q => bool_decide (q = p) | _ => false end.
Definition is_sent p e : bool :=
  match e with Submitted q _ => bool_decide (q = p) | _ => false end.

Definition ends p l : Z := zlen (filter (fun e => is_end p e) l).
(** How often it was sent before its end. *)
Fixpoint sent p l : Z :=
  match l with
  | [] => 0
  | e :: l' => if is_end p e then 0 else (if is_sent p e then 1 else 0) + sent p l'
  end.
Definition submitted p l : Prop := exists e, e ∈ l /\ is_sent p e.

Lemma ends_app p l k : ends p (l ++ k) = ends p l + ends p k.
Proof. unfold ends. by rewrite filter_app, zlen_app. Qed.

Lemma ends_one p e : ends p [e] = if is_end p e then 1 else 0.
Proof. unfold ends. rewrite filter_cons, filter_nil. by destruct (is_end p e). Qed.

Lemma ends_nonneg p l : 0 <= ends p l.
Proof. apply zlen_nonneg. Qed.

Lemma ends_prefix p l k : l `prefix_of` k -> ends p l <= ends p k.
Proof. intros [x ->]. rewrite ends_app. pose proof (ends_nonneg p x). lia. Qed.

Lemma sent_nonneg p l : 0 <= sent p l.
Proof. induction l as [|e l IH]; cbn [sent]; [done|]. destruct (is_end p e), (is_sent p e); lia. Qed.

Lemma sent_app p l k : sent p (l ++ k) = sent p l + (if ends p l =? 0 then sent p k else 0).
Proof.
  induction l as [|e l IH]; [done|].
  change (e :: l) with ([e] ++ l). rewrite ends_app, ends_one. cbn [app sent]. pose proof (ends_nonneg p l).
  destruct (is_end p e).
  - destruct (Z.eqb_spec (1 + ends p l) 0); lia.
  - rewrite IH, Z.add_0_l. lia.
Qed.

Lemma submitted_app p l k : submitted p (l ++ k) <-> submitted p l \/ submitted p k.
Proof.
  unfold submitted. split.
  - intros (e & He & Hs). apply elem_of_app in He as [He|He]; [left|right]; eauto.
  - intros [(e & He & Hs)|(e & He & Hs)]; exists e; rewrite elem_of_app; auto.
Qed.
End log.

Section accounts.
Context {F P V Ctx : Type} (maximum : Z).
Abbreviation world_t := (aworld F P V).
Abbreviation client := (sys world_t Ctx).
Implicit Types (st : client) (p q : ptr) (cad : cluster_async_data F P).

(** Ends, counting the one a live request will have. *)
Definition total p st : Z :=
  (if w_cads (world st) !! p is Some _ then 1 else 0) + ends p (w_log (world st)).
(** Sends, counting those that are still allowed. *)
Definition allowed p st : Z :=
  match w_cads (world st) !! p with
  | Some cad => if ends p (w_log (world st)) =? 0 then Z.max 0 (maximum - cad_retry_count cad) else 0
  | None => 0
  end.
Definition budget p st : Z := sent p (w_log (world st)) + allowed p st.

(** The maximum is the one of the context, while there is one, and the counters
    of the requests are below it. *)
Record regular st : Prop := {
  reg_max : w_acc (world st) = None \/ max_redirect_count (s_cc st) = maximum;
  reg_range : forall p cad, w_cads (world st) !! p = Some cad -> 0 <= cad_retry_count cad <= maximum
}.

(** What a step does to the state as a whole, and to the account of [p]. *)
Record advances st st' : Prop := {
  ad_fresh : w_fresh (world st) <= w_fresh (world st');
  ad_gone : w_acc (world st) = None -> w_acc (world st') = None;
  ad_log : w_log (world st) `prefix_of` w_log (world st');
  ad_regular : regular st -> regular st'
}.
Record account p st st' : Prop := {
  at_more : total p st <= total p st';
  at_old : p < w_fresh (world st) -> total p st' <= total p st;
  at_budget : p < w_fresh (world st) -> regular st -> budget p st' <= budget p st;
  at_new : w_fresh (world st) <= p -> total p st = 0 -> budget p st = 0 -> regular st ->
    total p st' <= 1 /\ budget p st' <= maximum + 1 /\
    (w_fresh (world st') <= p -> total p st' = 0 /\ budget p st' = 0);
  at_submitted : submitted p (w_log (world st')) -> submitted p (w_log (world st)) \/ 1 <= total p st'
}.

#[local] Instance advances_preorder : PreOrder advances.
Proof.
  split.
  - intros st. by split.
  - intros x y z [] []. split; [lia|auto|by etrans|auto].
Qed.

Lemma account_refl p st : 0 <= maximum -> account p st st.
Proof. intros Hm. split; [lia|done|done|intros _ -> -> _; lia|by left]. Qed.

Lemma total_nonneg p st : 0 <= total p st.
Proof. unfold total. pose proof (ends_nonneg p (w_log (world st))). case_match; lia. Qed.
Lemma budget_nonneg p st : 0 <= budget p st.
Proof. unfold budget, allowed. pose proof (sent_nonneg p (w_log (world st))). repeat case_match; lia. Qed.

Lemma account_trans p x y z :
  advances x y -> advances y z -> account p x y -> account p y z -> account p x z.
Proof.
  intros Hxy Hyz [H1 H2 H3 H4 H5] [K1 K2 K3 K4 K5]. destruct Hxy as [A1 _ _ A4], Hyz as [B1 _ _ _].
  split.
  - lia.
  - intros Hp. specialize (H2 Hp). assert (p < w_fresh (world y)) as Hy by lia. specialize (K2 Hy). lia.
  - intros Hp Hr. specialize (H3 Hp Hr). assert (p < w_fresh (world y)) as Hy by lia.
    specialize (K3 Hy (A4 Hr)). lia.
  - intros Hp Ht Hb Hr. destruct (H4 Hp Ht Hb Hr) as (Ht' & Hb' & Hn).
    destruct (Z.le_gt_cases (w_fresh (world y)) p) as [Hy|Hy].
    + destruct (Hn Hy) as [Hty Hby]. exact (K4 Hy Hty Hby (A4 Hr)).
    + specialize (K2 Hy). specialize (K3 Hy (A4 Hr)). split_and!; [lia|lia|]. intros Hz. lia.
  - intros Hs. destruct (K5 Hs) as [Hs'|]; [|by right]. destruct (H5 Hs') as [|]; [by left|]. right. lia.
Qed.

(** All requests, or all but one. *)
Definition accounts (but : option ptr) st st' : Prop :=
  advances st st' /\ forall p, but <> Some p -> account p st st'.

Lemma accounts_preorder but : 0 <= maximum -> PreOrder (accounts but).
Proof.
  intros Hm. split.
  - intros st. split; [reflexivity|]. intros p _. by apply account_refl.
  - intros x y z [Hxy Axy] [Hyz Ayz]. split; [by etrans|]. intros p Hp. eapply account_trans; eauto.
Qed.

Lemma accounts_all p st st' : accounts (Some p) st st' -> account p st st' -> accounts None st st'.
Proof.
  intros [Ha Ho] Hp. split; [done|]. intros q _. destruct (decide (q = p)) as [->|Hne]; [done|].
  apply Ho. congruence.
Qed.
Lemma accounts_but p st st' : accounts None st st' -> accounts (Some p) st st'.
Proof. intros [Ha Ho]. split; [done|]. intros q _. by apply Ho. Qed.

(** ** Steps that are no business of a request *)

Record quiet st st' : Prop := {
  qu_acc : w_acc (world st) = None -> w_acc (world st') = None;
  qu_max : w_acc (world st') = None \/ max_redirect_count (s_cc st') = max_redirect_count (s_cc st);
  qu_cads : w_cads (world st') = w_cads (world st);
  qu_fresh : w_fresh (world st) <= w_fresh (world st');
  qu_log : w_log (world st') = w_log (world st)
}.

Lemma quiet_regular st st' : quiet st st' -> regular st -> regular st'.
Proof.
  intros [Ha Hm Hc _ _] [Rm Rr]. split; [|by rewrite Hc]. destruct Rm as [Rm|Rm]; [left; auto|].
  destruct Hm as [Hm|Hm]; [by left|right; congruence].
Qed.

Lemma quiet_accounts but st st' : 0 <= maximum -> quiet st st' -> accounts but st st'.
Proof.
  intros Hm Hq. pose proof (quiet_regular _ _ Hq) as Hr. destruct Hq as [Ha Hmx Hc Hf Hl].
  assert (forall p, total p st' = total p st) as Ht by (intros p; unfold total; by rewrite Hc, Hl).
  assert (forall p, budget p st' = budget p st) as Hb by (intros p; unfold budget, allowed; by rewrite Hc, Hl).
  split; [split; try done; by rewrite Hl|]. intros p _. split; rewrite ?Ht, ?Hb, ?Hl; try done; [|by left].
  intros _ -> -> _. lia.
Qed.

(** What an event in the log does to the account of [p]. *)
Lemma total_note p st e :
  total p (with_world st (with_log (world st) e)) = total p st + (if is_end p e then 1 else 0).
Proof. unfold total. cbn. rewrite ends_app, ends_one. lia. Qed.

Lemma budget_note p st e :
  budget p (with_world st (with_log (world st) e)) =
  if is_end p e then sent p (w_log (world st))
  else budget p st + (if (ends p (w_log (world st)) =? 0) && is_sent p e then 1 else 0).
Proof.
  unfold budget, allowed. cbn [world with_world w_log with_log w_cads]. rewrite sent_app, ends_app, ends_one.
  cbn [sent]. pose proof (ends_nonneg p (w_log (world st))).
  destruct (is_end p e).
  - replace (_ + 1 =? 0) with false by lia. destruct (w_cads _ !! p), (ends _ _ =? 0); lia.
  - rewrite !Z.add_0_r. destruct (w_cads _ !! p), (ends _ _ =? 0), (is_sent p e); cbn; lia.
Qed.

Lemma note_advances st e : advances st (with_world st (with_log (world st) e)).
Proof. split; try done; [by eexists|]. intros []. by split. Qed.

(** An event that is about [q] at most. *)
Lemma note_accounts but st e :
  0 <= maximum -> (forall p, but <> Some p -> is_end p e = false /\ is_sent p e = false) ->
  accounts but st (with_world st (with_log (world st) e)).
Proof.
  intros Hm He. split; [apply note_advances|]. intros p Hp. destruct (He p Hp) as [He1 He2].
  split; rewrite ?total_note, ?budget_note, ?He1, ?He2, ?andb_false_r, ?Z.add_0_r; try done.
  - intros _ -> -> _. lia.
  - cbn. rewrite submitted_app. intros [Hs|(x & Hx & Hsx)]; [by left|]. apply list_elem_of_singleton in Hx as ->.
    by rewrite He2 in Hsx.
Qed.

(** Other requests do not see what happens to the object of one. *)
Lemma cads_accounts st m but p :
  0 <= maximum -> (forall q, q <> p -> m !! q = w_cads (world st) !! q) -> but = Some p ->
  (regular st -> forall cad, m !! p = Some cad -> 0 <= cad_retry_count cad <= maximum) ->
  accounts but st (with_world st (with_cads (world st) m)).
Proof.
  intros Hm Hq -> Hr. split.
  - split; try done. intros R. pose proof (Hr R) as Hp. destruct R as [Rm Rr]. split; [done|].
    intros q cad Hc. cbn in Hc. destruct (decide (q = p)) as [->|Hne]; [eauto|]. rewrite Hq in Hc by done. eauto.
  - intros q Hne. assert (q <> p) as Hqp by congruence. specialize (Hq q Hqp).
    assert (total q (with_world st (with_cads (world st) m)) = total q st) as Ht by
      (unfold total; cbn; by rewrite Hq).
    assert (budget q (with_world st (with_cads (world st) m)) = budget q st) as Hb by
      (unfold budget, allowed; cbn; by rewrite Hq).
    split; rewrite ?Ht, ?Hb; try done; [|by left]. intros _ -> -> _. lia.
Qed.
End accounts.

(** ** The functions of the client

    [calls_keep] is what [R] asks of the system calls; nothing the client does
    besides ends, sends or drops a request. *)

Section client.
Context {F P V Ctx : Type} `{Posix V} `{Transport V Ctx} `{Clock V}.
Context (malloc_ok : Z -> bool) (alloc : Z -> option bytes) (printf : bytes -> vararg -> bytes).
Context (maximum : Z) (Hm : 0 <= maximum < 2 ^ 31 - 1).
Abbreviation world_t := (aworld F P V).
Abbreviation client := (sys world_t Ctx).
Abbreviation R := (accounts (F := F) (P := P) (V := V) (Ctx := Ctx) maximum None).
Implicit Types (st : client) (a p q : ptr).

#[local] Instance R_preorder : PreOrder R.
Proof. apply accounts_preorder. lia. Qed.

Lemma quiet_refl st : quiet st st.
Proof. split; auto. lia. Qed.
Hint Resolve quiet_refl : core.

Lemma keeps_quiet_call {A} (m : prog client A) : (forall st x st', m st = Some (x, st') -> quiet st st') -> keeps R m.
Proof. intros Hq st x st' E. apply quiet_accounts; [lia|eauto]. Qed.

Lemma keeps_quiet_modify (f : client -> client) : (forall st, quiet st (f st)) -> keeps R (modify f).
Proof. intros Hf. apply keeps_quiet_call. intros st x st' E. unfold modify in E. simplify_eq. apply Hf. Qed.

(** *** The system *)

Lemma keeps_routing f : routing f -> keeps R (upd_cc f).
Proof.
  intros Hf. apply keeps_quiet_modify. intros st. split; try done. right. apply Hf.
Qed.

Lemma on_os_quiet {A} (f : V -> A * V) st : quiet st (with_world st (on_os f (world st)).2).
Proof. unfold on_os. destruct (f _) as [x v]. split; cbn; auto; lia. Qed.

Lemma keeps_os {A} (f : V -> A * V) : keeps R (call (on_os f)).
Proof.
  apply keeps_quiet_call. intros st x st' E. unfold call in E. pose proof (on_os_quiet f st) as Hq.
  destruct (on_os f (world st)) as [y w]. by simplify_eq.
Qed.

Lemma keeps_transported {A} (f : world_t -> A * world_t) : transported f -> keeps R (call f).
Proof.
  intros Hf. destruct Hf; try apply keeps_os.
  apply keeps_quiet_call. intros st x st' E. unfold call in E. simplify_eq. split; cbn; auto; lia.
Qed.

#[local] Instance system_calls : CallsKeep client R.
Proof.
  assert (forall A (f : V -> A * V) st, R st (sys_os f st).2) as Hs.
  { intros A f st. apply quiet_accounts; [lia|]. unfold sys_os. pose proof (on_os_quiet f st) as Hq.
    by destruct (on_os f (world st)). }
  split; intros; try apply Hs; (apply quiet_accounts; [lia|]); split; cbn; auto; lia.
Qed.

Lemma keeps_heap_store p n : keeps R (store p n).
Proof.
  apply keeps_quiet_call. intros st x st' E. unfold store in E. destruct (heap st !! p); [|done]. simplify_eq.
  split; cbn; auto; lia.
Qed.
Lemma keeps_heap_free p : keeps R (free_node p).
Proof.
  apply keeps_quiet_call. intros st x st' E. unfold free_node in E. destruct (heap st !! p); [|done]. simplify_eq.
  split; cbn; auto; lia.
Qed.
Lemma keeps_heap_alloc : keeps R (alloc_node malloc_ok).
Proof.
  apply keeps_quiet_call. intros st x st' E. unfold alloc_node in E. destruct (malloc_ok _); simplify_eq;
    split; cbn; auto; lia.
Qed.

(** *** Contexts of async.c *)

Lemma actxs_quiet st m : quiet st (with_world st (with_actxs (world st) m)).
Proof. split; cbn; auto; lia. Qed.

Lemma focus_spec a st s : focus a st = Some s -> a_os s = st.
Proof. unfold focus. destruct (w_actxs _ !! a); [|done]. by intros [= <-]. Qed.
Lemma unfocus_accounts a (s : async_state (afn F) ptr client) st : unfocus a s = Some st -> R (a_os s) st.
Proof.
  unfold unfocus. destruct (w_actxs _ !! a); [|done]. intros [= <-]. apply quiet_accounts; [lia|]. apply actxs_quiet.
Qed.

Lemma keeps_enter {A} a (m : prog (async_state (afn F) ptr client) A) :
  keeps (on_system R) m -> keeps R (enter a m).
Proof.
  intros Hk st x st' E. unfold enter in E. apply bind_Some in E as (s & Ef & E).
  apply bind_Some in E as ([y s'] & Em & E). apply bind_Some in E as (st2 & Eu & E). simplify_eq/=.
  pose proof (Hk _ _ _ Em) as Hs. unfold on_system in Hs. rewrite (focus_spec _ _ _ Ef) in Hs.
  etrans; [exact Hs|]. by eapply unfocus_accounts.
Qed.

Lemma keeps_leave a (m : prog client ()) : keeps R m -> keeps (on_system R) (leave a m).
Proof.
  intros Hk s x s' E. unfold leave in E. apply bind_Some in E as (st & Eu & E).
  apply bind_Some in E as ([[] st2] & Em & E). apply bind_Some in E as (s2 & Ef & E). simplify_eq/=.
  unfold on_system.
  rewrite (focus_spec _ _ _ Ef). etrans; [by eapply unfocus_accounts|]. by eapply Hk.
Qed.

Lemma keeps_put_actx a x : keeps R (put_actx a x).
Proof. apply keeps_quiet_modify. intros st. apply actxs_quiet. Qed.
#[local] Hint Resolve keeps_put_actx : keeps.
Lemma keeps_get_actx a : keeps R (get_actx a).
Proof. unfold get_actx. keeps_steps. Qed.
#[local] Hint Resolve keeps_get_actx : keeps.
Lemma keeps_get_acontext a : keeps R (get_acontext a).
Proof. unfold get_acontext. keeps_steps. Qed.
#[local] Hint Resolve keeps_get_acontext : keeps.
Lemma keeps_set_data a d : keeps R (set_data a d).
Proof. unfold set_data. keeps_steps. Qed.
Lemma keeps_async_connect h k : keeps R (redisAsyncConnect malloc_ok alloc h k).
Proof.
  apply keeps_quiet_call. intros st x st' E. unfold redisAsyncConnect in E.
  destruct (Async.redisAsyncConnect _ _ _ _ _) as [[[ac|] v]|]; cbn in E; simplify_eq; split; cbn; auto; lia.
Qed.

(** *** The context of the interface *)

Lemma keeps_get_acc : keeps R get_acc.
Proof. unfold get_acc. keeps_steps. Qed.
#[local] Hint Resolve keeps_get_acc : keeps.

Lemma upd_acc_quiet f st x st' : upd_acc f st = Some (x, st') -> quiet st st'.
Proof.
  unfold upd_acc, get_acc. intros E. apply bind_inv in E as (c & st1 & E1 & E).
  apply bind_inv in E1 as (d & st2 & E0 & E1). unfold gets in E0. unfold lift in E1.
  destruct d as [d|]; cbn in E1; [|done]. unfold upd_world, modify in E. simplify_eq.
  split; cbn; auto; [congruence|lia].
Qed.
Lemma keeps_upd_acc f : keeps R (upd_acc f).
Proof. apply keeps_quiet_call. intros st x st'. apply upd_acc_quiet. Qed.
#[local] Hint Resolve keeps_upd_acc : keeps.

Lemma keeps_load_cad p : keeps R (load_cad p).
Proof. unfold load_cad. keeps_steps. Qed.
Lemma keeps_usec_now : keeps R hi_usec_now.
Proof. unfold hi_usec_now. apply (keeps_bind R); [apply keeps_os|]. intros x. apply keeps_ret, _. Qed.

Lemma keeps_acc_err e str : keeps R (__redisClusterAsyncSetError e str).
Proof. apply keeps_upd_acc. Qed.
Lemma keeps_error_of_cc : keeps R error_of_cc.
Proof. unfold error_of_cc. apply (keeps_bind R); [apply keeps_gets, _|]. intros cc. apply keeps_acc_err. Qed.
Lemma keeps_error_of_actx ac : keeps R (error_of_actx ac).
Proof. apply keeps_acc_err. Qed.
Lemma keeps_clear_acc : keeps R clear_acc_err.
Proof. apply keeps_upd_acc. Qed.

(** *** With the user's functions *)

Context (user : AsyncConns world_t Ctx -> uevent F P -> prog client ()).
Context (conns : AsyncConns world_t Ctx).
Context (Huser : forall e, keeps R (user conns e)).
Context (Hfree : forall a, keeps R (ClusterNode.redisAsyncFree a)).
Context (Hdata : forall a p, keeps R (set_actx_data a p)).

#[local] Hint Resolve keeps_routing keeps_transported keeps_heap_store keeps_heap_free keeps_heap_alloc
  keeps_set_data keeps_async_connect keeps_load_cad keeps_usec_now keeps_acc_err keeps_error_of_cc
  keeps_error_of_actx keeps_clear_acc Huser Hfree Hdata R_preorder : keeps.

Lemma keeps_route_now : keeps R (cluster_update_route malloc_ok alloc).
Proof. apply keeps_whole_route; auto with keeps. Qed.
Lemma keeps_config name : keeps R (cluster_config_get name).
Proof. apply keeps_config_get; auto with keeps. Qed.
Lemma keeps_ask_for r : keeps R (node_get_by_ask_error_reply malloc_ok alloc r).
Proof. apply keeps_ask; auto with keeps. Qed.
Lemma keeps_clear_cc : keeps R clear_err.
Proof. apply keeps_routing. intros cc. by destruct (negb _). Qed.
#[local] Hint Resolve keeps_route_now keeps_config keeps_ask_for keeps_clear_cc : keeps.

Lemma keeps_note_other e : (forall p, is_end p e = false /\ is_sent p e = false) -> keeps R (note e).
Proof.
  intros He st x st' E. unfold note, upd_world, modify in E. simplify_eq. apply note_accounts; [lia|]. auto.
Qed.
Lemma keeps_call_user e : (forall p, is_end p e = false /\ is_sent p e = false) -> keeps R (call_user user e).
Proof. intros He. apply (keeps_bind R); [by apply keeps_note_other|]. intros []. apply Huser. Qed.
#[local] Hint Extern 1 (keeps _ (call_user _ _)) => by apply keeps_call_user : keeps.

Lemma keeps_unlink a : keeps R (unlinkAsyncContextAndNode a).
Proof. unfold unlinkAsyncContextAndNode. keeps_steps. Qed.
Lemma keeps_on_connect a fn : keeps R (redisAsyncSetConnectCallback a fn).
Proof. apply keeps_enter, system_on_connect, _. Qed.
Lemma keeps_on_disconnect a fn : keeps R (redisAsyncSetDisconnectCallback a fn).
Proof. apply keeps_enter, system_on_disconnect, _. Qed.
Lemma keeps_formatted a fn privdata data :
  keeps R (redisAsyncFormattedCommand malloc_ok alloc a fn privdata data).
Proof. apply keeps_enter, system_command; apply _. Qed.
Lemma keeps_command a format : keeps R (redisAsyncCommand malloc_ok alloc printf a format).
Proof. apply keeps_enter, system_formatted; apply _. Qed.
Lemma keeps_handler a f : keeps R (enter a (upd_ac (set_dataHandler f))).
Proof. apply keeps_enter, system_upd_ac, _. Qed.
#[local] Hint Resolve keeps_unlink keeps_on_connect keeps_on_disconnect keeps_formatted keeps_command
  keeps_handler : keeps.

Lemma keeps_actx_get_by_node p : keeps R (actx_get_by_node malloc_ok alloc user p).
Proof. unfold actx_get_by_node. keeps_steps. Qed.
#[local] Hint Resolve keeps_actx_get_by_node : keeps.
Lemma keeps_usable p : keeps R (usable_actx malloc_ok alloc user p).
Proof. unfold usable_actx. keeps_steps. Qed.
#[local] Hint Resolve keeps_usable : keeps.
Lemma keeps_table_actx k : keeps R (table_actx malloc_ok alloc user k).
Proof. unfold table_actx. keeps_steps. Qed.
#[local] Hint Resolve keeps_table_actx : keeps.
Lemma keeps_after_update k : keeps R (actx_get_after_update_route_by_slot malloc_ok alloc user k).
Proof. unfold actx_get_after_update_route_by_slot. keeps_steps. Qed.
#[local] Hint Resolve keeps_after_update : keeps.
Lemma keeps_route_time t : keeps R (upd_cc (fun cc => with_route_time cc t)).
Proof. by apply keeps_routing. Qed.
#[local] Hint Resolve keeps_route_time : keeps.
Lemma keeps_schedule : keeps R schedule_update.
Proof. unfold schedule_update. keeps_steps. Qed.
#[local] Hint Resolve keeps_schedule : keeps.
Lemma keeps_no_reply a : keeps R (no_reply malloc_ok alloc a).
Proof. unfold no_reply. keeps_steps. Qed.
Lemma keeps_redirection a command r : keeps R (on_redirection malloc_ok alloc printf user a command r).
Proof. unfold on_redirection. keeps_steps. Qed.

(** ** The end of a request *)

(** A step that concerns the request [p]: it may be sent [k] times more than was
    accounted for, unless it has ended. *)
Definition step_of p (k : Z) st st' : Prop :=
  accounts maximum (Some p) st st' /\ total p st <= total p st' /\
  (p < w_fresh (world st) -> total p st' <= total p st /\
    (regular maximum st ->
     budget maximum p st' <= budget maximum p st + (if ends p (w_log (world st)) =? 0 then k else 0))).

Lemma step_accounts p st st' : R st st' -> step_of p 0 st st'.
Proof.
  intros Hr. split; [by apply accounts_but|]. destruct Hr as [_ Ha]. destruct (Ha p ltac:(done)) as [K1 K2 K3 _ _].
  split; [done|]. intros Hp. split; [auto|]. intros Hg. case_match; specialize (K3 Hp Hg); lia.
Qed.

Lemma step_trans p k k' x y z : 0 <= k' -> step_of p k x y -> step_of p k' y z -> step_of p (k + k') x z.
Proof.
  intros Hk (A1 & T1 & B1) (A2 & T2 & B2). split; [|split; [lia|]].
  { destruct (accounts_preorder (F := F) (P := P) (V := V) (Ctx := Ctx) maximum (Some p)) as [_ Ht]; [lia|]. by eapply Ht. }
  destruct A1 as [[F1 _ L1 G1] _]. intros Hp. destruct (B1 Hp) as [C1 D1].
  assert (p < w_fresh (world y)) as Hy by lia. destruct (B2 Hy) as [C2 D2]. split; [lia|]. intros Hg.
  specialize (D1 Hg). specialize (D2 (G1 Hg)). pose proof (ends_prefix p _ _ L1). pose proof (ends_nonneg p (w_log (world x))).
  destruct (Z.eqb_spec (ends p (w_log (world x))) 0), (Z.eqb_spec (ends p (w_log (world y))) 0); lia.
Qed.

Lemma step_weaken p k k' st st' : k <= k' -> step_of p k st st' -> step_of p k' st st'.
Proof.
  intros Hk (Ha & Ht & Ho). split; [done|]. split; [done|]. intros Hp. destruct (Ho Hp) as [K1 K2].
  split; [done|]. intros Hg. specialize (K2 Hg). case_match; lia.
Qed.

(** What was accounted for is accounted for. *)
Lemma step_done p k st st' : k <= 0 -> 1 <= total p st -> step_of p k st st' -> R st st'.
Proof.
  intros Hk Ht (Ha & Hm1 & Ho). apply (accounts_all maximum p); [done|]. split; [done|..].
  - intros Hp. by apply Ho.
  - intros Hp Hg. destruct (Ho Hp) as [_ Hb]. specialize (Hb Hg). case_match; lia.
  - intros _ Hz. lia.
  - intros _. right. lia.
Qed.

Lemma load_cad_inv p st cad st' : load_cad p st = Some (cad, st') -> st' = st /\ w_cads (world st) !! p = Some cad.
Proof.
  unfold load_cad. intros E. apply bind_inv in E as (x & st1 & E1 & E). unfold gets in E1. simplify_eq.
  unfold lift in E. destruct (w_cads (world st1) !! p); cbn in E; by simplify_eq.
Qed.

Lemma live_total p st cad : w_cads (world st) !! p = Some cad -> 1 <= total p st.
Proof. intros E. unfold total. rewrite E. pose proof (ends_nonneg p (w_log (world st))). lia. Qed.

(** It will not be sent any more. *)
Definition ended p st st' : Prop :=
  accounts maximum (Some p) st st' /\ total p st <= total p st' /\
  (p < w_fresh (world st) -> total p st' <= total p st /\
    (regular maximum st -> budget maximum p st' <= sent p (w_log (world st)))).

(** The event that ends it, what follows, and the object is freed. *)
Lemma end_step e p st st2 st' :
  is_end p e = true -> is_sent p e = false -> (forall q, q <> p -> is_end q e = false /\ is_sent q e = false) ->
  R (with_world st (with_log (world st) e)) st2 -> cluster_async_data_free p st2 = Some ((), st') ->
  ended p st st'.
Proof.
  intros He Hs Hq Hr E. set (st1 := with_world _ _) in Hr.
  unfold cluster_async_data_free in E. apply bind_inv in E as (cad & st3 & E1 & E).
  apply load_cad_inv in E1 as [-> Hc]. unfold upd_world, modify in E. simplify_eq.
  set (st4 := with_world st2 _). pose proof (note_advances maximum st e) as Hn. fold st1 in Hn.
  assert (accounts maximum (Some p) st st1) as A1.
  { apply note_accounts; [lia|]. intros q Hne. apply Hq. congruence. }
  assert (accounts maximum (Some p) st2 st4) as A4.
  { apply (cads_accounts maximum st2 _ (Some p) p); [lia| |done|].
    - intros q Hne. by rewrite lookup_delete_ne.
    - intros _ c. by rewrite lookup_delete_eq. }
  pose proof (total_note p st e) as T1. rewrite He in T1. fold st1 in T1.
  pose proof (budget_note maximum p st e) as B1. rewrite He in B1. fold st1 in B1.
  assert (total p st4 = total p st2 - 1) as T4.
  { unfold total, st4. cbn. rewrite lookup_delete_eq, Hc. lia. }
  assert (budget maximum p st4 <= budget maximum p st2) as B4.
  { unfold budget, allowed, st4. cbn. rewrite lookup_delete_eq, Hc. case_match; lia. }
  destruct (accounts_preorder (F := F) (P := P) (V := V) (Ctx := Ctx) maximum (Some p)) as [_ Ht]; [lia|].
  split; [eapply Ht; [exact A1|eapply Ht; [by apply accounts_but|exact A4]]|].
  destruct Hr as [_ Ha]. destruct (Ha p ltac:(done)) as [M2 O2 G2 _ _]. split; [lia|]. intros Hp.
  assert (p < w_fresh (world st1)) as Hp1 by done. specialize (O2 Hp1). split; [lia|]. intros Hg.
  destruct Hn as [_ _ _ Hn]. specialize (G2 Hp1 (Hn Hg)). lia.
Qed.

Lemma end_is_step p st st' : ended p st st' -> step_of p 0 st st'.
Proof.
  intros (Ha & Ht & Ho). split; [done|]. split; [done|]. intros Hp. destruct (Ho Hp) as [K1 K2].
  split; [done|]. intros Hg. specialize (K2 Hg). unfold budget at 2, allowed. repeat case_match; lia.
Qed.

(** ** redisClusterAsyncCallback *)

Lemma is_end_other p q (fn : F) r (privdata : option P) : q <> p ->
  is_end q (UserCallback p fn r privdata) = false /\ is_sent q (UserCallback p fn r privdata) = false.
Proof. intros Hne. cbn. split; [|done]. apply bool_decide_eq_false. congruence. Qed.

Lemma finish_ended p r st st' : finish user p r st = Some ((), st') -> ended p st st'.
Proof.
  intros E. unfold finish in E. apply bind_inv in E as (acc & st1 & E1 & E).
  assert (st1 = st) as ->.
  { unfold get_acc in E1. apply bind_inv in E1 as (d & st2 & E0 & E1). unfold gets in E0.
    destruct d; cbn in E1; by simplify_eq. }
  apply bind_inv in E as (cad & st2 & E2 & E). apply load_cad_inv in E2 as [-> Hc].
  apply bind_inv in E as (fn & st2 & E2 & E). assert (st2 = st) as ->.
  { destruct (cad_callback cad); cbn in E2; by simplify_eq. }
  apply bind_inv in E as ([] & st2 & E3 & E). apply bind_inv in E as ([] & st3 & E4 & E).
  apply bind_inv in E as ([] & st4 & E5 & E). unfold call_user in E3. apply bind_inv in E3 as ([] & st5 & En & Eu).
  unfold note, upd_world, modify in En. injection En as En.
  eapply (end_step (UserCallback p fn (if acc_err acc =? 0 then r else None) (cad_privdata cad))).
  - cbn. by apply bool_decide_eq_true.
  - done.
  - intros q. apply is_end_other.
  - rewrite En. etrans; [by eapply Huser|]. etrans; [by eapply keeps_clear_cc|by eapply keeps_clear_acc].
  - exact E.
Qed.

Lemma discard_ended p st st' : discard p st = Some ((), st') -> ended p st st'.
Proof.
  intros E. unfold discard in E. apply bind_inv in E as ([] & st1 & En & E).
  unfold note, upd_world, modify in En. injection En as En. eapply (end_step (Discarded p)).
  - cbn. by apply bool_decide_eq_true.
  - done.
  - intros q Hne. cbn. split; [|done]. apply bool_decide_eq_false. congruence.
  - rewrite En. reflexivity.
  - exact E.
Qed.

Lemma submitted_step p a st : step_of p 1 st (with_world st (with_log (world st) (Submitted p a))).
Proof.
  split; [|split].
  - apply note_accounts; [lia|]. intros q Hne. cbn. split; [done|]. apply bool_decide_eq_false. congruence.
  - rewrite total_note. cbn. lia.
  - intros _. rewrite total_note, budget_note. cbn. rewrite bool_decide_true by done. split; [lia|].
    intros _. destruct (ends _ _ =? 0); cbn; lia.
Qed.

Lemma resend_step p command a st st' :
  resend malloc_ok alloc p command a st = Some ((), st') -> step_of p 1 st st'.
Proof.
  intros E. unfold resend in E. apply bind_inv in E as (ret & st1 & E1 & E).
  apply keeps_formatted, (step_accounts p) in E1. change 1 with (0 + 1). destruct (negb _).
  - apply discard_ended, end_is_step, (step_weaken p 0 1) in E; [|lia]. by eapply step_trans; [|exact E1|].
  - unfold note, upd_world, modify in E. injection E as <-. eapply step_trans; [lia|exact E1|apply submitted_step].
Qed.

(** Only the object of [p] is replaced, by one with the counter [k]. *)
Definition recounted p (k : Z) st st' : Prop :=
  exists m cad, st' = with_world st (with_cads (world st) m) /\ m !! p = Some cad /\ cad_retry_count cad = k /\
    forall q, q <> p -> m !! q = w_cads (world st) !! q.

Lemma recount p cad cad' st st' :
  w_cads (world st) !! p = Some cad -> store_cad p cad' st = Some ((), st') ->
  recounted p (cad_retry_count cad') st st'.
Proof.
  intros Hc E. unfold store_cad, upd_world, modify in E. injection E as <-. eexists _, cad'.
  split; [done|]. rewrite lookup_insert_eq. split_and!; [done..|]. intros q Hne. by rewrite lookup_insert_ne.
Qed.

Lemma recounted_trans p k k' x y z : recounted p k x y -> recounted p k' y z -> recounted p k' x z.
Proof.
  intros (m & c & -> & _ & _ & Ho) (m' & c' & -> & Hc & Hk & Ho'). exists m', c'. split_and!; try done.
  intros q Hne. rewrite Ho' by done. by apply Ho.
Qed.

Lemma recounted_accounts p k st st' :
  recounted p k st st' -> (regular maximum st -> 0 <= k <= maximum) -> accounts maximum (Some p) st st'.
Proof.
  intros (m & c & -> & Hc & Hk & Ho) Hr. apply (cads_accounts maximum st _ (Some p) p); [lia|done|done|].
  intros Hg d Hd. rewrite Hc in Hd. simplify_eq. auto.
Qed.

Lemma recounted_total p k cad st st' :
  w_cads (world st) !! p = Some cad -> recounted p k st st' ->
  total p st' = total p st /\ w_log (world st') = w_log (world st).
Proof. intros Hc (m & c & -> & Hm' & _). split; [|done]. unfold total. cbn. by rewrite Hm', Hc. Qed.

(** The counter of a request goes up, still within the maximum. *)
Lemma count_step p cad k st st' :
  w_cads (world st) !! p = Some cad -> recounted p k st st' ->
  (regular maximum st -> k = cad_retry_count cad + 1 /\ 0 <= cad_retry_count cad /\ k <= maximum) ->
  step_of p (-1) st st'.
Proof.
  intros Hc Hr Hk. destruct (recounted_total p k cad st st' Hc Hr) as [Ht _]. split; [|rewrite Ht; split; [done|]].
  - eapply recounted_accounts; [done|]. intros Hg. specialize (Hk Hg). lia.
  - intros _. split; [done|]. intros Hg. specialize (Hk Hg). destruct Hr as (m & c & -> & Hm' & Hck & _).
    unfold budget, allowed. cbn. rewrite Hm', Hc, Hck. destruct (ends _ _ =? 0); lia.
Qed.

(** The one that is refused starts again at 0, but ends at once. *)
Lemma refused_step p cad st st1 st' r :
  w_cads (world st) !! p = Some cad -> recounted p 0 st st1 ->
  (_ ← __redisClusterAsyncSetError REDIS_ERR_CLUSTER_TOO_MANY_REDIRECT (s "too many cluster redirect");
   finish user p r) st1 = Some ((), st') -> ended p st st'.
Proof.
  intros Hc Hz E. apply bind_inv in E as ([] & st2 & E2 & E). apply finish_ended in E as (Ha & Ht & Ho).
  assert (accounts maximum (Some p) st st1) as A1 by (eapply recounted_accounts; [done|lia]).
  destruct (recounted_total p 0 cad st st1 Hc Hz) as [T1 L1].
  pose proof (upd_acc_quiet _ _ _ _ E2) as Hq. assert (R st1 st2) as A2 by (apply quiet_accounts; [lia|done]).
  destruct Hq as [_ _ _ _ Hl]. assert (w_log (world st2) = w_log (world st)) as Hl' by congruence.
  destruct (accounts_preorder (F := F) (P := P) (V := V) (Ctx := Ctx) maximum (Some p)) as [_ Htr]; [lia|].
  split; [eapply Htr; [exact A1|eapply Htr; [by apply accounts_but|exact Ha]]|].
  destruct A2 as [[F2 _ _ G2] A2]. destruct (A2 p ltac:(done)) as [M2 O2 _ _ _]. split; [lia|]. intros Hp.
  destruct A1 as [[F1 _ _ G1] _]. assert (p < w_fresh (world st1)) as Hp1 by lia.
  assert (p < w_fresh (world st2)) as Hp2 by lia.
  destruct (Ho Hp2) as [Ho1 Ho2]. specialize (O2 Hp1). split; [lia|]. intros Hg. rewrite <- Hl'. apply Ho2, G2, G1, Hg.
Qed.

(** From the label that the code jumps to. *)
Definition after p r (command : cmd) (o : outcome) : prog client () :=
  match o with
  | Done => finish user p r
  | ResendOn ac_retry => resend malloc_ok alloc p command ac_retry
  | Failed => discard p
  end.

Lemma after_step p r command o st st' : after p r command o st = Some ((), st') -> step_of p 1 st st'.
Proof.
  intros E. destruct o; cbn [after] in E.
  - eapply (step_weaken p 0); [done|]. by eapply end_is_step, finish_ended.
  - by eapply resend_step.
  - eapply (step_weaken p 0); [done|]. by eapply end_is_step, discard_ended.
Qed.

Lemma get_acc_inv st c st' : get_acc st = Some (c, st') -> st' = st /\ w_acc (world st) = Some c.
Proof.
  unfold get_acc. intros E. apply bind_inv in E as (x & st1 & E1 & E). unfold gets in E1. simplify_eq.
  destruct (w_acc (world st1)); cbn in E; by simplify_eq.
Qed.

(** A request that is live is accounted for by what its callback does. *)
Lemma error_reply_accounts a p command reply cad st st' :
  w_cads (world st) !! p = Some cad -> w_acc (world st) <> None ->
  (o ← on_error_reply malloc_ok alloc printf user a p command reply;
   after p (Some reply) command o) st = Some ((), st') -> R st st'.
Proof.
  intros Hc Hacc E. pose proof (live_total p st cad Hc) as Hlive. apply bind_inv in E as (o & st5 & E & Ho).
  unfold on_error_reply in E. destruct (is_redirection _).
  2:{ apply ret_inv in E as [-> ->]. cbn [after] in Ho. apply finish_ended, end_is_step in Ho.
      by eapply step_done; [|exact Hlive|exact Ho]. }
  apply bind_inv in E as (cad0 & st1 & E1 & E). apply load_cad_inv in E1 as [-> Hc0].
  assert (cad0 = cad) as -> by congruence. clear Hc0.
  apply bind_inv in E as ([] & st2 & E2 & E). pose proof (recount p cad _ _ _ Hc E2) as Hr.
  cbn [cad_retry_count] in Hr. apply bind_inv in E as (cc & st3 & E3 & E).
  unfold get_cc, gets in E3. injection E3 as <- <-.
  assert (s_cc st2 = s_cc st) as Hcc by (unfold store_cad, upd_world, modify in E2; by injection E2 as <-).
  destruct (Z.ltb_spec (max_redirect_count (s_cc st2)) (i32 (cad_retry_count cad + 1))) as [Hlt|Hle].
  - apply bind_inv in E as ([] & st4 & E4 & E). pose proof Hr as (m & c2 & Hst2 & Hm2 & _).
    assert (w_cads (world st2) !! p = Some c2) as Hc2 by (by rewrite Hst2).
    pose proof (recount p c2 _ _ _ Hc2 E4) as Hr2. cbn [cad_retry_count] in Hr2.
    apply bind_inv in E as ([] & st6 & E6 & E). apply ret_inv in E as [-> ->].
    eapply (step_done p 0); [lia|exact Hlive|]. eapply end_is_step, refused_step; [exact Hc|by eapply recounted_trans|].
    rewrite (bind_eq _ _ _ _ _ E6). exact Ho.
  - eapply (step_done p (-1 + (0 + 1))); [lia|exact Hlive|].
    eapply step_trans; [lia| |eapply step_trans; [lia|by eapply step_accounts, keeps_redirection|by eapply after_step]].
    eapply count_step; [exact Hc|exact Hr|]. intros [Hmx Hrange]. specialize (Hrange p cad Hc).
    rewrite i32_small in * by lia. destruct Hmx as [|Hmx]; [done|]. rewrite Hcc in Hle. lia.
Qed.

Lemma keeps_callback a r privdata :
  keeps R (redisClusterAsyncCallback malloc_ok alloc printf user a r privdata).
Proof.
  intros st [] st' E. unfold redisClusterAsyncCallback in E. destruct privdata as [p|].
  2:{ apply ret_inv in E as [_ ->]. reflexivity. }
  apply bind_inv in E as (cad & st1 & E1 & E). apply load_cad_inv in E1 as [-> Hc].
  pose proof (live_total p st cad Hc) as Hlive.
  assert (forall st', discard p st = Some ((), st') -> R st st') as Hd.
  { intros st2 Hd. eapply step_done; [|exact Hlive|by apply end_is_step, discard_ended]. done. }
  destruct (negb (cad_acc cad)); [by apply Hd|]. apply bind_inv in E as (acc & st1 & E1 & E).
  apply get_acc_inv in E1 as [-> Hacc]. destruct (cad_command cad) as [command|]; [|by apply Hd].
  destruct r as [reply|].
  - eapply (error_reply_accounts a p command reply); [exact Hc|by rewrite Hacc|exact E].
  - apply bind_inv in E as (o & st2 & E2 & E). apply bind_inv in E2 as ([] & st3 & E3 & E2).
    apply ret_inv in E2 as [-> ->]. etrans; [by eapply keeps_no_reply|].
    apply finish_ended, end_is_step in E. eapply step_done; [..|exact E]; [done|].
    apply keeps_no_reply in E3 as [_ Ha]. destruct (Ha p ltac:(done)) as [K1 _ _ _ _]. lia.
Qed.
#[local] Hint Resolve keeps_callback : keeps.

(** ** Events of connections *)

Lemma keeps_on_event a e : keeps R (on_event malloc_ok alloc printf user a e).
Proof. unfold on_event. keeps_steps. Qed.
Lemma keeps_calls a e : keeps (on_system R) (calls malloc_ok alloc printf user a e).
Proof. apply keeps_leave, keeps_on_event. Qed.
Lemma keeps_freeing a : keeps R (enter a (Async.redisAsyncFree (calls malloc_ok alloc printf user a))).
Proof. apply keeps_enter, system_redisAsyncFree; [apply _..|apply keeps_calls]. Qed.
Lemma keeps_disconnecting a : keeps R (redisAsyncDisconnect malloc_ok alloc printf user a).
Proof. apply keeps_enter, system_redisAsyncDisconnect; [apply _..|apply keeps_calls]. Qed.
Lemma keeps_readable a : keeps R (redisAsyncHandleRead malloc_ok alloc printf user a).
Proof. apply keeps_enter, system_handle_read; [apply _..|apply keeps_calls]. Qed.
Lemma keeps_writable a : keeps R (redisAsyncHandleWrite malloc_ok alloc printf user a).
Proof. apply keeps_enter, system_handle_write; [apply _..|apply keeps_calls]. Qed.
#[local] Hint Resolve keeps_disconnecting : keeps.

(** ** Sending *)

(** A request that was made just now and is sent [k] times. *)
Lemma born_account p k cad st st1 st2 :
  w_fresh (world st) <= p < w_fresh (world st1) -> w_cads (world st1) !! p = Some cad -> cad_retry_count cad = 0 ->
  w_log (world st1) = w_log (world st) -> accounts maximum (Some p) st st1 -> step_of p k st1 st2 -> k <= 1 ->
  accounts maximum None st st2.
Proof.
  intros Hp Hc Hz Hl A1 S1 Hk. pose proof S1 as (A2 & T2 & O2).
  destruct (accounts_preorder (F := F) (P := P) (V := V) (Ctx := Ctx) maximum (Some p)) as [_ Htr]; [lia|].
  apply (accounts_all maximum p); [by eapply Htr|]. destruct A1 as [[_ _ _ G1] _]. destruct A2 as [[F2 _ _ _] _].
  assert (total p st1 = 1 + ends p (w_log (world st))) as T1 by (unfold total; by rewrite Hc, Hl).
  pose proof (ends_nonneg p (w_log (world st))). pose proof (sent_nonneg p (w_log (world st))).
  destruct (O2 ltac:(lia)) as [O3 O4]. split; [|lia|lia|..].
  - unfold total at 1. destruct (w_cads (world st) !! p); lia.
  - intros _ Ht Hb Hg. specialize (O4 (G1 Hg)).
    assert (ends p (w_log (world st)) = 0) as He by (unfold total in Ht; case_match; lia).
    assert (sent p (w_log (world st)) = 0) as Hs.
    { unfold budget, allowed in Hb. repeat case_match; lia. }
    assert (budget maximum p st1 = maximum) as B1.
    { unfold budget, allowed. rewrite Hc, Hl, He, Hs, Hz. cbn. lia. }
    rewrite Hl, He in O4. cbn in O4. split_and!; [lia|lia|]. intros. lia.
  - intros _. right. lia.
Qed.

Lemma keeps_submit fn privdata command data a :
  keeps R (submit malloc_ok alloc fn privdata command data a).
Proof.
  intros st z st' E. unfold submit in E. apply bind_inv in E as (o & st1 & E1 & E).
  unfold cluster_async_data_get in E1. destruct (negb (malloc_ok _)).
  { simplify_eq. apply bind_inv in E as ([] & st2 & E2 & E). apply ret_inv in E as [_ ->]. by eapply keeps_acc_err. }
  simplify_eq. apply bind_inv in E as ([] & st2 & E2 & E). unfold store_cad, upd_world, modify in E2. injection E2 as E2.
  set (p := w_fresh (world st)) in *. set (cad := mk_cad true (Some command) fn privdata 0) in *.
  apply bind_inv in E as (status & st3 & E3 & E). apply keeps_formatted, (step_accounts p) in E3.
  assert (accounts maximum (Some p) st st2) as A1.
  { destruct (accounts_preorder (F := F) (P := P) (V := V) (Ctx := Ctx) maximum (Some p)) as [_ Htr]; [lia|].
    eapply (Htr _ (with_world st (with_cads (world st) (<[p := cad]> (w_cads (world st)))))).
    - apply (cads_accounts maximum st _ (Some p) p); [lia| |done|].
      + intros q Hne. by rewrite lookup_insert_ne.
      + intros _ c. rewrite lookup_insert_eq. intros [= <-]. cbn. lia.
    - apply quiet_accounts; [lia|]. rewrite <- E2. split; cbn; auto; [|lia]. by rewrite insert_insert_eq. }
  assert (w_cads (world st2) !! p = Some cad) as Hc by (rewrite <- E2; cbn; by rewrite lookup_insert_eq).
  assert (w_fresh (world st) <= p < w_fresh (world st2)) as Hp by (rewrite <- E2; cbn; lia).
  assert (w_log (world st2) = w_log (world st)) as Hl by (by rewrite <- E2).
  destruct (negb _).
  - apply ret_inv in E as [_ ->]. by eapply (born_account p 0 cad).
  - apply bind_inv in E as ([] & st4 & E4 & E). apply ret_inv in E as [_ ->].
    unfold note, upd_world, modify in E4. injection E4 as <-.
    eapply (born_account p (0 + 1) cad); try done. eapply step_trans; [lia|exact E3|apply submitted_step].
Qed.
#[local] Hint Resolve keeps_submit : keeps.

Lemma keeps_send fn privdata data fm :
  keeps R (send_formatted malloc_ok alloc user fn privdata data fm).
Proof. unfold send_formatted. keeps_steps. Qed.
Lemma keeps_async_format command cmd_id num_str : keeps R (format_by_slot malloc_ok command cmd_id num_str).
Proof.
  apply keeps_format_by_slot; [apply R_preorder|]. intros e str. by apply keeps_routing.
Qed.
#[local] Hint Resolve keeps_send keeps_async_format : keeps.
Lemma keeps_async_formatted fn privdata data cmd_id num_str :
  keeps R (redisClusterAsyncFormattedCommand malloc_ok alloc user fn privdata data cmd_id num_str).
Proof. unfold redisClusterAsyncFormattedCommand. keeps_steps. Qed.
#[local] Hint Resolve keeps_async_formatted : keeps.
Lemma keeps_send_request f fn privdata cmd_id num_str :
  keeps R (send_request malloc_ok alloc user f fn privdata cmd_id num_str).
Proof. unfold send_request. keeps_steps. Qed.

(** ** The other calls *)

Lemma keeps_set_connect fn : keeps R (redisClusterAsyncSetConnectCallback fn).
Proof. unfold redisClusterAsyncSetConnectCallback. keeps_steps. Qed.
Lemma keeps_set_disconnect fn : keeps R (redisClusterAsyncSetDisconnectCallback fn).
Proof. unfold redisClusterAsyncSetDisconnectCallback. keeps_steps. Qed.
Lemma keeps_disconnect_node de : keeps R (disconnect_node malloc_ok alloc printf user de).
Proof. unfold disconnect_node. keeps_steps. Qed.
#[local] Hint Resolve keeps_disconnect_node : keeps.
Lemma keeps_async_disconnect : keeps R (redisClusterAsyncDisconnect malloc_ok alloc printf user).
Proof. unfold redisClusterAsyncDisconnect. keeps_steps. Qed.

Lemma keeps_release_all d : keeps R (release_nodes d).
Proof. apply (keeps_release_nodes R); auto with keeps. Qed.
(** Once it is freed there is neither context nor maximum. *)
Lemma keeps_async_free : keeps R redisClusterAsyncFree.
Proof.
  intros st [] st' E. unfold redisClusterAsyncFree in E. apply bind_inv in E as (acc & st1 & E1 & E).
  apply get_acc_inv in E1 as [-> _]. apply bind_inv in E as ([] & st2 & E2 & E).
  unfold redisClusterFree in E2. apply bind_inv in E2 as (cc & st3 & E3 & E2). unfold get_cc, gets in E3. simplify_eq.
  apply bind_inv in E2 as ([] & st4 & E4 & E2). assert (R st3 st4) as Hr.
  { destruct (nodes (s_cc st3)); [by eapply keeps_release_all|]. apply ret_inv in E4 as [_ ->]. reflexivity. }
  etrans; [exact Hr|]. apply quiet_accounts; [lia|]. unfold upd_cc, upd_world, modify in *. simplify_eq.
  split; cbn; auto. lia.
Qed.
End client.
