(* ===== verification/ClusterAsyncRun.v ===== *)
(** * Runs of an asynchronous client

    The calls of the interface, from the outside and from callbacks, and the events
    of the sockets keep the accounts of [ClusterAsyncSpec]; so what they say holds
    of every run, and runs on a scripted cluster show what it is like. *)

From S2P Require Import Prelude Effects Format Vformat Resp Net NetSpec NetScript Context Async AsyncFrame Reply Sds Dict Command ClusterSlot ClusterNode ClusterUpdate ClusterExec ClusterFrame Script ClusterAsync ClusterAsyncScript ClusterAsyncSpec.

Section run.
Context {F P V Ctx : Type} `{Posix V} `{Transport V Ctx} `{Clock V}.
Context (malloc_ok : Z -> bool) (alloc : Z -> option bytes) (printf : bytes -> vararg -> bytes).
Context (maximum : Z) (Hm : 0 <= maximum < 2 ^ 31 - 1).
Abbreviation world_t := (aworld F P V).
Abbreviation client := (sys world_t Ctx).
Abbreviation R := (accounts (F := F) (P := P) (V := V) (Ctx := Ctx) maximum None).
Context (react : list (uevent F P) -> list (async_call F P)).

#[local] Instance run_preorder : PreOrder R.
Proof. apply accounts_preorder. lia. Qed.

(** Connections that keep the accounts when they are freed. *)
Record fair (conns : AsyncConns world_t Ctx) : Prop := {
  fair_free : forall a, keeps R (ClusterNode.redisAsyncFree a);
  fair_data : forall a p, keeps R (set_actx_data a p)
}.

Lemma keeps_run_async_call user conns c :
  fair conns -> (forall e, keeps R (user conns e)) -> keeps R (run_async_call malloc_ok alloc printf user conns c).
Proof.
  intros [Hf Hd] Hu. destruct c; cbn [run_async_call]; try apply (keeps_ignore R).
  - by apply keeps_send_request.
  - by apply keeps_async_formatted.
  - by apply keeps_send_request.
  - by apply keeps_set_connect.
  - by apply keeps_set_disconnect.
  - by apply keeps_async_disconnect.
  - by apply keeps_async_free.
Qed.

Lemma keeps_reacting depth : forall conns e,
  fair conns -> keeps R (reacting malloc_ok alloc printf react depth conns e).
Proof.
  induction depth as [|depth IH]; intros conns e Hf; cbn [reacting]; [apply keeps_fault|].
  apply (keeps_bind R); [apply keeps_gets, _|]. intros log. apply (keeps_each R). intros c.
  apply keeps_run_async_call; auto.
Qed.

Lemma fair_conns user fuel :
  (forall conns e, fair conns -> keeps R (user conns e)) -> fair (async_conns malloc_ok alloc printf user fuel).
Proof.
  intros Hu. induction fuel as [|fuel IH]; split; cbn; intros.
  - apply keeps_fault.
  - by apply keeps_set_data.
  - pose proof IH as [Hf Hd]. apply keeps_freeing; auto.
  - by apply keeps_set_data.
Qed.

Lemma keeps_run_client depth l : keeps R (run_client malloc_ok alloc printf react depth l).
Proof.
  apply (keeps_each R). intros i.
  pose proof (fair_conns _ depth (fun conns e => keeps_reacting depth conns e)) as Hc.
  pose proof (fun e => keeps_reacting depth _ e Hc) as Hu. pose proof Hc as [Hf Hd].
  destruct i; cbn [run_input].
  - by apply keeps_run_async_call.
  - by apply keeps_readable.
  - by apply keeps_writable.
Qed.
End run.

(** A client that has not sent anything yet. *)
Record new_client {F P V Ctx} (st : sys (aworld F P V) Ctx) : Prop := {
  new_cads : w_cads (world st) = ∅;
  new_log : w_log (world st) = [];
  new_max : 0 <= max_redirect_count (s_cc st) < 2 ^ 31 - 1
}.


(** One node, asked to try again once; the callback sends the next command. *)
Definition one_node : sys (aworld Z Z sim) (bytes * Z) :=
  mk_sys (mk_cc 0 [] None 0 REDIS_BLOCK None None None None {[12182 := 1]} 0 5 0 None 0 0)
    {[1 := mk_node None (Some (s "a:1")) (Some (s "a")) 1 REDIS_ROLE_MASTER 0 None None None None 0 None None]} 2
    (mk_aworld (Some (mk_acc 0 [] None None None)) ∅ ∅ 1 [] (mk_sim (mk_script [] [])
      (mk_net 0 {[0; 1; 2]} [RdData (s "-TRYAGAIN later" ++ CRLF); RdData (s "+A" ++ CRLF)] [] [] [] [] []) [])).
Definition get_foo (fn : Z) : async_call Z Z := CommandArgv (Some fn) None [s "GET"; s "foo"] None 0 [].
Definition again_once (log : list (uevent Z Z)) : list (async_call Z Z) :=
  if decide (length log = 3%nat) then [get_foo 2] else [].
Abbreviation one_node_run :=
  (run_client (fun _ => true) (fun n => Some (replicate (Z.to_nat n) NUL)) (fun _ _ => []) again_once 3
    [Call (get_foo 1); Writable 1; Readable 1; Writable 1; Readable 1] one_node).

Example one_node_log :
  (fun r => let log := w_log (world r.2) in (ends 2 log, sent 2 log, ends 3 log, sent 3 log)) <$> one_node_run =
  Some (1, 2, 0, 1).
Proof. vm_compute. reflexivity. Qed.

