(* ===== verification/ClusterAsyncSend.v ===== *)
(** * An asynchronous command is sent

    [redisClusterAsyncFormattedCommand] with a command of one key, when the node of
    its slot has a connection in use: the request goes into the output buffer of
    that connection, and its callback to the end of the queue. *)

From S2P Require Import Prelude Effects Hiutil Hiarray Resp Format Vformat Net Context Async AsyncSpec Reply Sds SdsSpec Dict Command CommandParser CommandSpec ClusterSlot ClusterFragment ClusterMerge ClusterRoute ClusterNode ClusterUpdate ClusterExec Script NetScript ClusterAsync ClusterAsyncScript.

(** ** A command of one key *)

Lemma one_key_args args t i : spec_parse args = Some (t, [i]) -> tail args <> [].
Proof.
  destruct args as [|name rest]; [done|]. cbn [spec_parse tail]. intros Hs ->.
  destruct (command_of_name name) as [e|]; [|done]. cbn [mbind option_bind] in Hs.
  destruct (arity_of e.1.2) as [a|]; [|done]. cbn [mbind option_bind] in Hs. by destruct a.
Qed.

Lemma bulks_nonempty args more : args <> [] -> bulks args ++ more <> [].
Proof. destruct args as [|a args]; [done|]. intros _. by rewrite bulks_cons. Qed.

Lemma format_one_key malloc_ok args r0 t i cmd_id num_str :
  (forall n, malloc_ok n = true) -> zlen (request args) <= 2 ^ 28 -> fresh args r0 ->
  spec_parse args = Some (t, [i]) ->
  let slot := keyHashSlot (default [] (args !! i)) in
  exists command, command_format_by_slot malloc_ok r0 cmd_id num_str = Some (mk_formatted slot command [] None None) /\
    cmd_buf command = request args /\ slot_num command = slot.
Proof.
  intros Hm Hl Hf Hs slot. unfold command_format_by_slot. rewrite (format_fresh args r0 Hf).
  destruct (parse_meets malloc_ok args r0) as (r & Hp & Hr); [done|lia|done|]. rewrite Hp. rewrite Hs in Hr.
  destruct Hr as (-> & _ & _ & -> & _ & Hb & _). cbn [map]. eexists. split; [by rewrite key_bytes_request|].
  by split.
Qed.

(** ** The connection *)

Section send.
Context {W : Type} `{Posix W} (alloc : Z -> option bytes) (malloc_ok : Z -> bool).
Hypothesis Halloc : forall n b, 0 <= n -> alloc n = Some b -> zlen b = n.
Hypothesis Hmem : forall n, alloc n <> None.
Hypothesis Hmalloc : forall n, malloc_ok n = true.

(** A connection without error that takes commands: [ps] are the pending callbacks,
    [out] the bytes not yet written. *)
Record in_use {F P} (ac : redisAsyncContext F P) (h : gmap Z (redisCallback F P)) (fresh : Z)
  (ps : list (Z * (option F * option P))) (out : bytes) : Prop := {
  iu_err : c_err (ac_c ac) = 0;
  iu_ac_err : ac_err ac = 0;
  iu_takes : refuses (ac_c ac) = false;
  iu_plain : has_flag (ac_c ac) REDIS_SUBSCRIBED = false;
  iu_queue : queue h (ac_replies ac) ps;
  iu_nodes : forall p, is_Some (h !! p) -> p < fresh;
  iu_out : exists o, c_obuf (ac_c ac) = Some o /\ sds_wf o /\ sds_value o = out
}.

Lemma append_eq c (w : W) o o' data :
  c_obuf c = Some o -> sdscatlen alloc o data = Ok o' ->
  __redisAppendCommand alloc data (mk_conn c w) = Some (REDIS_OK, mk_conn (set_bufs (Some o') (c_reader c) c) w).
Proof.
  intros Ho Hcat. unfold __redisAppendCommand. rewrite (bind_eq _ _ _ c (mk_conn c w)) by done.
  rewrite (bind_eq _ _ _ o (mk_conn c w)) by (unfold lift; by rewrite Ho).
  by rewrite (bind_eq _ _ _ (Some o') (mk_conn c w)) by (unfold lift; by rewrite Hcat).
Qed.

Lemma command_queued {F P} (st : async_state F P W) ac ps out args fn privdata :
  a_ctx st = Some ac -> in_use ac (a_nodes st) (a_fresh st) ps out -> regular args = true -> tail args <> [] ->
  zlen (request args) < 2 ^ 31 -> zlen out + zlen (request args) < 2 ^ 30 - 1 ->
  exists ac' st', __redisAsyncCommand alloc malloc_ok fn privdata (request args) (zlen (request args)) st =
      Some (REDIS_OK, st') /\ a_ctx st' = Some ac' /\ a_os st' = a_os st /\
    in_use ac' (a_nodes st') (a_fresh st') (ps ++ [(a_fresh st, (fn, privdata))]) (out ++ request args).
Proof.
  intros Hc [He Hae Ht Hpl Hq Hn (o & Ho & Hw & Hv)] Hr Hne Hl Hs.
  pose proof (regular_command_in alloc malloc_ok st ac args [] fn privdata Hc Hr Hl Hpl) as E.
  rewrite (app_nil_r (request args)) in E. rewrite E by by apply bulks_nonempty.
  rewrite Ht. destruct (push_spec malloc_ok Replies (mk_callback None fn privdata) st ac ps (Hmalloc _) Hc Hq Hn)
    as (l & h & Hpush & Hq' & Hn').
  unfold queue_and_send. rewrite (bind_eq _ _ _ _ _ Hpush). set (st1 := mk_async _ h _ _ _).
  destruct (yields_catlen alloc Halloc Hmem o (request args) Hw) as (o' & Hcat & Hw' & Hv'); [by rewrite Hv|].
  set (ac2 := set_c (set_bufs (Some o') (c_reader (ac_c ac)) (ac_c ac)) (with_list Replies l ac)).
  set (st2 := mk_async (Some ac2) h (a_fresh st + 1) (a_os st) (a_log st)).
  assert (on_c (F := F) (P := P) (__redisAppendCommand alloc (request args)) st1 = Some (REDIS_OK, st2)) as Happ.
  { unfold on_c. rewrite (bind_eq _ _ _ (with_list Replies l ac) st1) by done. cbn [a_os st1].
    rewrite (append_eq (ac_c (with_list Replies l ac)) (a_os st) o o') by done. reflexivity. }
  rewrite (bind_eq _ _ _ _ _ Happ).
  assert (in_use ac2 h (a_fresh st + 1) (ps ++ [(a_fresh st, (fn, privdata))]) (out ++ request args)) as Hu.
  { split; try done. exists o'. split_and!; try done. by rewrite Hv', Hv. }
  unfold _EL, get_ac, mbind, prog_bind, gets, lift, st2. cbn [a_ctx fmap option_fmap option_map].
  destruct (hook_set AddWrite (ac_ev ac2)); eexists _, _; (split; [reflexivity|]); by split_and!.
Qed.
End send.

Section cluster.
Context {F P V Ctx : Type} `{Posix V} `{Transport V Ctx} `{Clock V}.
Context (alloc : Z -> option bytes) (malloc_ok : Z -> bool).
Hypothesis Halloc : forall n b, 0 <= n -> alloc n = Some b -> zlen b = n.
Hypothesis Hmem : forall n, alloc n <> None.
Hypothesis Hmalloc : forall n, malloc_ok n = true.
Abbreviation client := (sys (aworld F P V) Ctx).
Implicit Types (st : client) (a p : ptr).

(** The node of [slot] has a connection in use. *)
Record linked st (slot : Z) (a : ptr) (ps : list (Z * (option (afn F) * option ptr))) (out : bytes) : Prop := {
  li_node : exists p n, table (s_cc st) !! slot = Some p /\ heap st !! p = Some n /\ acon n = Some a;
  li_conn : exists x ac, w_actxs (world st) !! a = Some x /\ ax_ctx x = Some ac /\
    in_use ac (ax_nodes x) (ax_fresh x) ps out
}.

Lemma get_acontext_eq st a x ac :
  w_actxs (world st) !! a = Some x -> ax_ctx x = Some ac -> get_acontext a st = Some (ac, st).
Proof.
  intros Hx Hc. unfold get_acontext, get_actx, mbind, prog_bind, gets, lift. rewrite Hx. cbn. by rewrite Hc.
Qed.

Lemma table_actx_eq user (conns : AsyncConns (aworld F P V) Ctx) st slot a ps out :
  linked st slot a ps out -> 0 <= slot < REDIS_CLUSTER_SLOTS ->
  table_actx malloc_ok alloc user (conns := conns) slot st = Some (Some a, st).
Proof.
  intros [(p & n & Ht & Hp & Ha) (x & ac & Hx & Hc & [He Hae _ _ _ _ _])] Hs. unfold table_actx.
  rewrite (bind_eq _ _ _ (s_cc st) st) by done. unfold node_get_by_table.
  rewrite u32_small by (unfold REDIS_CLUSTER_SLOTS in Hs; lia).
  destruct (Z.leb_spec REDIS_CLUSTER_SLOTS slot); [lia|]. rewrite Ht.
  unfold usable_actx. rewrite (bind_eq _ _ _ (Some a) st).
  2:{ unfold actx_get_by_node. rewrite (bind_eq _ _ _ n st) by (unfold load; by rewrite Hp). rewrite Ha.
      rewrite (bind_eq _ _ _ (Some a) st); [done|].
      rewrite (bind_eq _ _ _ _ _ (get_acontext_eq st a x ac Hx Hc)). by rewrite He. }
  rewrite (bind_eq _ _ _ _ _ (get_acontext_eq st a x ac Hx Hc)). by rewrite Hae.
Qed.

(** A function of async.c that calls nothing. *)
Lemma enter_eq {A} a (m : prog (async_state (afn F) ptr client) A) st x r s :
  w_actxs (world st) !! a = Some x ->
  m (mk_async (ax_ctx x) (ax_nodes x) (ax_fresh x) st (ax_log x)) = Some (r, s) -> a_os s = st ->
  enter a m st = Some (r, with_world st (with_actxs (world st)
    (<[a := mk_actx (a_ctx s) (a_nodes s) (a_fresh s) (a_log s) (ax_data x)]> (w_actxs (world st))))).
Proof.
  intros Hx Hm Hos. unfold enter, focus, unfocus. rewrite Hx. cbn [mbind option_bind]. rewrite Hm.
  cbn [mbind option_bind fst snd]. rewrite Hos, Hx. done.
Qed.

(** What it takes to send [data] on [a] once more. *)
Definition sent_on a p (st st' : client) (slot : Z) ps out data : Prop :=
  linked st' slot a ps (out ++ data) /\ w_log (world st') = w_log (world st) ++ [Submitted p a] /\
  heap st' = heap st /\ forall b, b <> a -> w_actxs (world st') !! b = w_actxs (world st) !! b.

Lemma submit_eq fn privdata command args st slot a ps out :
  linked st slot a ps out -> regular args = true -> tail args <> [] -> zlen (request args) < 2 ^ 31 ->
  zlen out + zlen (request args) < 2 ^ 30 - 1 ->
  exists st' q, submit malloc_ok alloc fn privdata command (request args) a st = Some (REDIS_OK, st') /\
    sent_on a (w_fresh (world st)) st st' slot
      (ps ++ [(q, (Some ClusterCallback, Some (w_fresh (world st))))]) out (request args) /\
    w_cads (world st') = <[w_fresh (world st) := mk_cad true (Some command) fn privdata 0]> (w_cads (world st)).
Proof.
  intros [Hn (x & ac & Hx & Hc & Hu)] Hr Hne Hl Hs. unfold submit.
  set (p := w_fresh (world st)). set (cad := mk_cad true (Some command) fn privdata 0).
  set (w1 := mk_aworld (w_acc (world st)) (<[p := mk_cad false None None None 0]> (w_cads (world st)))
    (w_actxs (world st)) (p + 1) (w_log (world st)) (w_os (world st))).
  rewrite (bind_eq _ _ _ (Some p) (with_world st w1)).
  2:{ unfold cluster_async_data_get. by rewrite Hmalloc. }
  set (st2 := with_world st (with_cads w1 (<[p := cad]> (w_cads w1)))).
  rewrite (bind_eq _ _ _ () st2) by done.
  destruct (command_queued alloc malloc_ok Halloc Hmem Hmalloc
    (mk_async (ax_ctx x) (ax_nodes x) (ax_fresh x) st2 (ax_log x)) ac ps out args (Some ClusterCallback) (Some p))
    as (ac' & s & E & Hc' & Hos & Hu'); try done.
  pose proof (enter_eq a _ st2 x _ _ Hx E Hos) as He. set (st3 := with_world st2 _) in He.
  unfold redisAsyncFormattedCommand, Async.redisAsyncFormattedCommand. rewrite (bind_eq _ _ _ _ _ He).
  rewrite Z.eqb_refl. cbn [negb]. eexists _, (ax_fresh x). split; [reflexivity|]. split; [|by apply insert_insert_eq].
  split; [split; [exact Hn|]|].
  - eexists _, ac'. split; [by apply lookup_insert_eq|]. by split.
  - split_and!; [done..|]. intros b Hb. cbn. by apply lookup_insert_ne.
Qed.
End cluster.

Lemma fresh_request malloc_ok cmd_id args :
  (forall n, malloc_ok n = true) ->
  exists command, command_get malloc_ok cmd_id = Some command /\
    CommandSpec.fresh args (with_request command (request args)).
Proof.
  intros Hm. unfold command_get, hiarray_create. rewrite !Hm. eexists. split; [reflexivity|]. by repeat split.
Qed.

(** C14: An asynchronous command of one key reaches the connection of its slot.  When
    the node that the slot table has for the slot of the key has a connection in
    use, [redisClusterAsyncFormattedCommand] returns REDIS_OK: the request is
    appended to the output buffer of that connection and nothing else is, its
    callback is the last in the queue of that connection, and the new request
    object keeps the bytes, the slot and the user's callback for a redirection;
    nodes and other connections are as before. *)
Theorem async_command_sent {F P V Ctx} `{Posix V} `{Transport V Ctx} `{Clock V} alloc malloc_ok user
  (conns : AsyncConns (aworld F P V) Ctx) (st : sys (aworld F P V) Ctx) args t i a ps out fn privdata cmd_id num_str :
  (forall n b, 0 <= n -> alloc n = Some b -> zlen b = n) -> (forall n, alloc n <> None) ->
  (forall n, malloc_ok n = true) -> w_acc (world st) <> None ->
  spec_parse args = Some (t, [i]) -> regular args = true -> zlen (request args) <= 2 ^ 28 ->
  let slot := keyHashSlot (default [] (args !! i)) in let p := w_fresh (world st) in
  linked st slot a ps out -> zlen out + zlen (request args) < 2 ^ 30 - 1 ->
  exists st' q command,
    redisClusterAsyncFormattedCommand malloc_ok alloc user (conns := conns) fn privdata (request args)
      cmd_id num_str st = Some (REDIS_OK, st') /\
    linked st' slot a (ps ++ [(q, (Some ClusterCallback, Some p))]) (out ++ request args) /\
    w_cads (world st') = <[p := mk_cad true (Some command) fn privdata 0]> (w_cads (world st)) /\
    cmd_buf command = request args /\ slot_num command = slot /\
    w_log (world st') = w_log (world st) ++ [Submitted p a] /\ heap st' = heap st /\
    forall b, b <> a -> w_actxs (world st') !! b = w_actxs (world st) !! b.
Proof.
  intros Halloc Hmem Hmalloc Hacc Hsp Hr Hl slot p Hli Hs.
  destruct (w_acc (world st)) as [acc|] eqn:Ea; [|done]. unfold redisClusterAsyncFormattedCommand.
  assert (forall s' : sys (aworld F P V) Ctx, w_acc (world s') = Some acc -> get_acc s' = Some (acc, s')) as Hget.
  { intros s' E. unfold get_acc, mbind, prog_bind, gets, lift. by rewrite E. }
  rewrite (bind_eq _ _ _ _ _ (Hget st Ea)).
  set (st1 := with_cc st (if negb (err (s_cc st) =? 0) then with_err (s_cc st) 0 [] else s_cc st)).
  rewrite (bind_eq _ _ _ () st1) by done.
  set (acc' := if negb (acc_err acc =? 0) then set_acc_err 0 [] acc else acc).
  set (st2 := with_world st1 (with_acc (world st1) (Some acc'))).
  rewrite (bind_eq _ _ _ () st2).
  2:{ unfold clear_acc_err, upd_acc. by rewrite (bind_eq _ _ _ _ _ (Hget st1 Ea)). }
  destruct (fresh_request malloc_ok cmd_id args Hmalloc) as (command & -> & Hf).
  unfold list_create_ok. rewrite !Hmalloc. cbn [negb orb].
  destruct (format_one_key malloc_ok args _ t i cmd_id num_str Hmalloc Hl Hf Hsp) as (command' & Hfmt & Hb & Hsl).
  fold slot in Hfmt, Hsl. rewrite (bind_eq _ _ _ (mk_formatted slot command' [] None None) st2).
  2:{ unfold format_by_slot. rewrite (bind_eq _ _ _ (mk_formatted slot command' [] None None) st2);
        [done|]. unfold lift. by rewrite Hfmt. }
  pose proof (keyHashSlot_range (default [] (args !! i))) as Hrange. fold slot in Hrange.
  unfold send_formatted. cbn [fm_slot fm_commands fm_command].
  destruct (Z.ltb_spec slot 0); [lia|]. destruct (Z.leb_spec REDIS_CLUSTER_SLOTS slot); [lia|].
  assert (linked st2 slot a ps out) as Hli2.
  { destruct Hli as [(q & n & Ht & Hn) Hx]. split; [|exact Hx]. exists q, n. split; [|exact Hn].
    cbn. by destruct (negb (err (s_cc st) =? 0)). }
  rewrite (bind_eq _ _ _ _ _ (table_actx_eq alloc malloc_ok user conns st2 slot a ps out Hli2 Hrange)).
  destruct (submit_eq alloc malloc_ok Halloc Hmem Hmalloc fn privdata command' args st2 slot a ps out)
    as (st' & q & E & (H4 & H5 & H6 & H7) & H8); try done; [by eapply one_key_args|lia|].
  exists st', q, command'. by split_and!.
Qed.

(** One node with an idle connection: object 2. *)
Definition idle_actx : actx Z :=
  mk_actx (Some (mk_ac (mk_context 0 [] 3 0 (Some (mk_sds 0 0 [NUL])) None REDIS_CONN_TCP None None None 0 None)
    0 None None (mk_ev false false false false false) None None (mk_cblist None None) (mk_cblist None None)
    dictCreate dictCreate)) ∅ 0 [] (Some 1).
Definition one_connection : sys (aworld Z Z sim) (bytes * Z) :=
  mk_sys (mk_cc 0 [] None 0 REDIS_BLOCK None None None None {[12182 := 1]} 0 5 0 None 0 0)
    {[1 := mk_node None (Some (s "a:1")) (Some (s "a")) 1 REDIS_ROLE_MASTER 0 None (Some 2) None None 0 None None]} 2
    (mk_aworld (Some (mk_acc 0 [] None None None)) ∅ {[2 := idle_actx]} 3 []
      (mk_sim (mk_script [] []) (mk_net 0 {[0; 1; 2; 3]} [] [] [] [] [] []) [])).
Definition memory (n : Z) : option bytes := Some (replicate (Z.to_nat n) NUL).

Lemma async_command_sent_witness :
  exists st' q command,
    redisClusterAsyncFormattedCommand (fun _ => true) memory (fun _ _ => mret ()) (conns := no_async)
      (Some 7) (Some 8) (request [s "GET"; s "foo"]) 0 [] one_connection = Some (REDIS_OK, st') /\
    linked st' 12182 2 [(q, (Some ClusterCallback, Some 3))] (request [s "GET"; s "foo"]) /\
    w_cads (world st') = {[3 := mk_cad true (Some command) (Some 7) (Some 8) 0]} /\
    cmd_buf command = request [s "GET"; s "foo"] /\ slot_num command = 12182 /\
    w_log (world st') = [Submitted 3 2] /\ heap st' = heap one_connection /\
    forall b, b <> 2 -> w_actxs (world st') !! b = w_actxs (world one_connection) !! b.
Proof.
  apply (async_command_sent memory (fun _ => true) (fun _ _ => mret ()) no_async one_connection
    [s "GET"; s "foo"] CMD_REQ_REDIS_GET 1%nat 2 [] []); try done.
  - intros n b Hn [= <-]. unfold zlen. rewrite length_replicate. lia.
  - split; [by eexists 1, _|]. eexists _, _. split; [reflexivity|]. split; [reflexivity|]. split; try done.
    + split; try done. by apply NoDup_nil_2.
    + intros p [x Hx]. by cbn in Hx; rewrite lookup_empty in Hx.
    + eexists. split_and!; [reflexivity| |reflexivity]. by repeat split.
Defined.
