(* ===== verification/ClusterAsyncFaults.v ===== *)
(** * hircluster.c: asynchronous runs

    Concrete runs of a client on a scripted cluster of two nodes: what a failover
    looks like, and the runs that go wrong.  [None] is a memory fault of the
    model. *)

From S2P Require Import Prelude Effects Format Vformat Resp Net NetSpec NetScript Context Async Reply Sds Dict Command ClusterSlot ClusterNode ClusterTopologySpec ClusterUpdate ClusterExec ClusterFaults Script ClusterAsync ClusterAsyncScript.

(** The cluster: both nodes serve slots, or one of them is a slave now. *)
Definition line_a : entry := node_line "id1" "10.0.0.1" 7000 [OneSlot 12182].
Definition line_b (l : list slot_spec) : entry := node_line "id2" "10.0.0.2" 7001 l.
Definition slave_a : entry :=
  Other [s "id1"; s "10.0.0.1:7000"; s "slave"; s "id2"; s "0"; s "0"; s "3"; s "connected"].
Definition healthy : list entry := [line_a; line_b [OneSlot 5061]].
Definition moved : list entry :=
  [node_line "id1" "10.0.0.1" 7000 [OneSlot 5061]; line_b [OneSlot 12182]].
Definition failed_over : list entry := [slave_a; line_b [OneSlot 5061; OneSlot 12182]].

Definition nodes_reply (l : list entry) : option redisReply :=
  Some (createStringObject REDIS_REPLY_STRING (text l)).

Abbreviation demo := (sys (aworld Z Z sim) (bytes * Z)).

(** Private data are not printed. *)
Definition no_printf (_ : bytes) (_ : vararg) : bytes := [].

(** A client that has connected; [sync] are the answers on the blocking
    connections, [reads] the input of the asynchronous ones. *)
Definition connected (sync : list (list entry)) (reads : list rd) (connects : list Z) : option demo :=
  snd <$> redisClusterAsyncConnect all_ok block (conns := async_conns all_ok block no_printf (fun _ _ => mret ()) 0)
    (s "10.0.0.1:7000") 0
    (mk_sys redisClusterContextInit ∅ 1 (mk_aworld None ∅ ∅ 1 []
      (mk_sim (mk_script (map nodes_reply sync) []) (mk_net 0 {[0; 1; 2]} reads [] [] [] connects []) []))).

(** Calls of callbacks, with the text of the reply, and requests that were dropped
    or are still there. *)
Definition told (e : uevent Z Z) : option (Z * option bytes) :=
  match e with
  | UserCallback _ fn r _ => Some (fn, r ≫= rstr)
  | Discarded _ => Some (-1, None)
  | _ => None
  end.
Definition outcome_of (st : demo) : list (Z * option bytes) * nat :=
  (omap told (w_log (world st)), base.size (w_cads (world st))).

Definition run (react : list (uevent Z Z) -> list (async_call Z Z)) (sync : list (list entry))
  (reads : list rd) (connects : list Z) (l : list (input Z Z)) : option demo :=
  st ← connected sync reads connects;
  snd <$> run_client all_ok block no_printf react 4 l st.
Definition idle (_ : list (uevent Z Z)) : list (async_call Z Z) := [].

Definition get (fn : Z) : async_call Z Z := CommandArgv (Some fn) (Some fn) [s "GET"; s "foo"] None 0 [].
Definition status (x : string) : rd := RdData (s "+" ++ s x ++ CRLF).
Definition failure (x : string) : rd := RdData (s "-" ++ s x ++ CRLF).

(** ** Runs as they should be *)

Example replies_in_order :
  outcome_of <$> run idle [healthy] [status "A"; status "B"] []
    [Call (get 1); Call (get 2); Writable 1; Readable 1; Readable 1] =
  Some ([(1, Some (s "A")); (2, Some (s "B"))], 0%nat).
Proof. vm_compute. reflexivity. Qed.

Example asked_to_try_again :
  outcome_of <$> run idle [healthy] [failure "TRYAGAIN later"; status "A"] []
    [Call (get 1); Writable 1; Readable 1; Writable 1; Readable 1] =
  Some ([(1, Some (s "A"))], 0%nat).
Proof. vm_compute. reflexivity. Qed.

(** The slot moves to the other node, which has no connection yet: it is the third
    object, after the connection of the first node and the request. *)
Example slot_moves :
  outcome_of <$> run idle [healthy; moved] [failure "MOVED 12182 10.0.0.2:7001"; status "A"] []
    [Call (get 1); Writable 1; Readable 1; Writable 3; Readable 3] =
  Some ([(1, Some (s "A"))], 0%nat).
Proof. vm_compute. reflexivity. Qed.

(** A callback sends the next command. *)
Definition get_another (log : list (uevent Z Z)) : list (async_call Z Z) :=
  if decide (length (omap told log) = 1%nat) then [get 2] else [].
Example callback_sends :
  outcome_of <$> run get_another [healthy] [status "A"; status "B"] []
    [Call (get 1); Writable 1; Readable 1; Writable 1; Readable 1] =
  Some ([(1, Some (s "A")); (2, Some (s "B"))], 0%nat).
Proof. vm_compute. reflexivity. Qed.

Example too_many_redirections :
  outcome_of <$> run idle [healthy] (repeat (failure "TRYAGAIN later") 6) []
    (Call (get 1) :: concat (repeat [Writable 1; Readable 1] 6)) = Some ([(1, None)], 0%nat).
Proof. vm_compute. reflexivity. Qed.

(** ** Runs that go wrong *)

(** A failover: the node that answers MOVED is a slave of the other one now, and no
    longer among the nodes.  It is freed inside the callback of its connection,
    which writes to it when the callback has returned. *)
Example failover_writes_to_freed_node :
  outcome_of <$> run idle [healthy; failed_over] [failure "MOVED 12182 10.0.0.2:7001"] []
    [Call (get 1); Writable 1; Readable 1] = None.
Proof. vm_compute. reflexivity. Qed.

(** Disconnecting with a reply to come: when it is a redirection, the command cannot
    be sent again, and the callback is never called. *)
Example disconnect_drops_request :
  outcome_of <$> run idle [healthy] [failure "TRYAGAIN later"] []
    [Call (get 1); Writable 1; Call Disconnect; Readable 1] = Some ([(-1, None)], 0%nat).
Proof. vm_compute. reflexivity. Qed.

(** Disconnecting, then freeing: the connection has left its node and is not freed;
    its reply finds neither context nor node. *)
Example free_after_disconnect_dangles :
  outcome_of <$> run idle [healthy] [status "A"] []
    [Call (get 1); Writable 1; Call Disconnect; Call Free; Readable 1] = None.
Proof. vm_compute. reflexivity. Qed.
Example free_calls_back :
  outcome_of <$> run idle [healthy] [] [] [Call (get 1); Writable 1; Call Free] =
  Some ([(1, None)], 0%nat).
Proof. vm_compute. reflexivity. Qed.

(** A callback that is called because its connection is freed sends a command: the
    connection refuses it, and the request stays. *)
Example refused_request_leaks :
  outcome_of <$> run get_another [healthy] [] [] [Call (get 1); Writable 1; Call Free] =
  Some ([(1, None)], 1%nat).
Proof. vm_compute. reflexivity. Qed.

(** The server closes the connection.  Its callback sends the next command while
    the node still has the broken connection: a second one is opened, and then the
    first takes itself out of the node, which the second one is linked to.  So the
    third command opens a third connection. *)
Definition connections (st : demo) : nat * list (option ptr) :=
  (length (filter (fun x => bool_decide (is_Some (ax_ctx x.2))) (map_to_list (w_actxs (world st)))),
   map (fun x => acon x.2) (map_to_list (heap st))).
Example reconnect_is_forgotten :
  (fun st => (outcome_of st, connections st)) <$> run get_another [healthy] [] []
    [Call (get 1); Writable 1; Readable 1] = Some (([(1, None)], 1%nat), (1%nat, [None; None])).
Proof. vm_compute. reflexivity. Qed.

(** A connection that could not be made stays in its node; the next command leaves
    it behind for a second one. *)
Example failed_connection_leaks :
  (fun st => (outcome_of st, connections st)) <$> run idle [healthy] [status "A"] [111]
    [Call (get 1); Call (get 2); Writable 2; Readable 2] = Some (([(2, Some (s "A"))], 0%nat), (2%nat, [None; Some 2])).
Proof. vm_compute. reflexivity. Qed.
