(* ===== verification/Adapters.v ===== *)
(** * src/adapters: the adapters of event loops

    An adapter connects the hooks of a [redisAsyncContext] with an event library:
    [ev.data] is an object of the adapter, a hook starts or stops waiting for an
    event of the socket, and the library calls the handlers of async.c.  The
    libraries are parameters, a class each, with the functions that the adapter
    calls; their constants are those of their headers.

    The state of an adapter is that of the library with [ev.data]: [None] is NULL
    or an object that was freed, and using it is a fault.  The hooks are called with
    [ev.data].  [malloc] of the adapters is not checked, but for libuv. *)

From S2P Require Import Prelude Effects Reply Net Context Async AsyncWatch ClusterNode ClusterAsync.

Record attached (L E : Type) := mk_attached { lib : L; ev_data : option E }.
Arguments mk_attached {L E}.
Arguments lib {L E}.
Arguments ev_data {L E}.

(** The function that the library calls for an event. *)
Inductive handler := ReadEvent | WriteEvent.

Section adapters.
Context {L E : Type}.
Abbreviation M := (prog (attached L E)).

Definition get_data : M E := e ← gets ev_data; lift e.
Definition put_data (e : option E) : M () := modify (fun st => mk_attached (lib st) e).
Definition on_lib (f : L -> L) : M () := modify (fun st => mk_attached (f (lib st)) (ev_data st)).

(** [ac->ev.addRead = ...; ...; ac->ev.data = e; return REDIS_OK;], unless there is
    an object already. *)
Definition attach_data (e : E) (ev : ev_hooks) : M (Z * ev_hooks) :=
  old ← gets ev_data;
  match old with
  | Some _ => mret (REDIS_ERR, ev)
  | None => _ ← put_data (Some e); mret (REDIS_OK, all_hooks)
  end.
End adapters.

(** ** ae.h *)

Class AeLoop (L : Type) := {
  aeCreateFileEvent : L -> Z -> Z -> handler -> L;
  aeDeleteFileEvent : L -> Z -> Z -> L
}.
Definition AE_READABLE : Z := 1.
Definition AE_WRITABLE : Z := 2.

Record redisAeEvents := mk_ae { ae_fd : Z; ae_reading : bool; ae_writing : bool }.

Section ae.
Context {L : Type} `{AeLoop L}.
Abbreviation M := (prog (attached L redisAeEvents)).

Definition redisAeAddRead : M () :=
  e ← get_data;
  if negb (ae_reading e) then
    _ ← put_data (Some (mk_ae (ae_fd e) true (ae_writing e)));
    on_lib (fun loop => aeCreateFileEvent loop (ae_fd e) AE_READABLE ReadEvent)
  else mret ().
Definition redisAeDelRead : M () :=
  e ← get_data;
  if ae_reading e then
    _ ← put_data (Some (mk_ae (ae_fd e) false (ae_writing e)));
    on_lib (fun loop => aeDeleteFileEvent loop (ae_fd e) AE_READABLE)
  else mret ().
Definition redisAeAddWrite : M () :=
  e ← get_data;
  if negb (ae_writing e) then
    _ ← put_data (Some (mk_ae (ae_fd e) (ae_reading e) true));
    on_lib (fun loop => aeCreateFileEvent loop (ae_fd e) AE_WRITABLE WriteEvent)
  else mret ().
Definition redisAeDelWrite : M () :=
  e ← get_data;
  if ae_writing e then
    _ ← put_data (Some (mk_ae (ae_fd e) (ae_reading e) false));
    on_lib (fun loop => aeDeleteFileEvent loop (ae_fd e) AE_WRITABLE)
  else mret ().
Definition redisAeCleanup : M () := _ ← redisAeDelRead; _ ← redisAeDelWrite; put_data None.
Definition redisAeAttach (fd : Z) (ev : ev_hooks) : M (Z * ev_hooks) := attach_data (mk_ae fd false false) ev.

(** The function has no [return]: the caller must not use its result. *)
Definition redisAeAttach_link (fd : Z) (ev : ev_hooks) : M ev_hooks := r ← redisAeAttach fd ev; mret r.2.

Definition ae_hook (h : hook) : M () :=
  match h with
  | AddRead => redisAeAddRead
  | DelRead => redisAeDelRead
  | AddWrite => redisAeAddWrite
  | DelWrite => redisAeDelWrite
  | Cleanup => redisAeCleanup
  end.
End ae.

(** ** libev.h *)

Record ev_io := mk_ev_io { io_cb : handler; io_fd : Z; io_events : Z }.
Class EvLoop (L : Type) := { ev_io_start : L -> ev_io -> L; ev_io_stop : L -> ev_io -> L }.
Definition EV_READ : Z := 1.
Definition EV_WRITE : Z := 2.

Record redisLibevEvents := mk_libev { libev_reading : bool; libev_writing : bool; libev_rev : ev_io; libev_wev : ev_io }.

Section libev.
Context {L : Type} `{EvLoop L}.
Abbreviation M := (prog (attached L redisLibevEvents)).

Definition libev_flags (r w : bool) (e : redisLibevEvents) : M () :=
  put_data (Some (mk_libev r w (libev_rev e) (libev_wev e))).
Definition redisLibevAddRead : M () :=
  e ← get_data;
  if negb (libev_reading e) then
    _ ← libev_flags true (libev_writing e) e; on_lib (fun loop => ev_io_start loop (libev_rev e))
  else mret ().
Definition redisLibevDelRead : M () :=
  e ← get_data;
  if libev_reading e then
    _ ← libev_flags false (libev_writing e) e; on_lib (fun loop => ev_io_stop loop (libev_rev e))
  else mret ().
Definition redisLibevAddWrite : M () :=
  e ← get_data;
  if negb (libev_writing e) then
    _ ← libev_flags (libev_reading e) true e; on_lib (fun loop => ev_io_start loop (libev_wev e))
  else mret ().
Definition redisLibevDelWrite : M () :=
  e ← get_data;
  if libev_writing e then
    _ ← libev_flags (libev_reading e) false e; on_lib (fun loop => ev_io_stop loop (libev_wev e))
  else mret ().
Definition redisLibevCleanup : M () := _ ← redisLibevDelRead; _ ← redisLibevDelWrite; put_data None.
Definition redisLibevAttach (fd : Z) (ev : ev_hooks) : M (Z * ev_hooks) :=
  attach_data (mk_libev false false (mk_ev_io ReadEvent fd EV_READ) (mk_ev_io WriteEvent fd EV_WRITE)) ev.

Definition libev_hook (h : hook) : M () :=
  match h with
  | AddRead => redisLibevAddRead
  | DelRead => redisLibevDelRead
  | AddWrite => redisLibevAddWrite
  | DelWrite => redisLibevDelWrite
  | Cleanup => redisLibevCleanup
  end.
End libev.

(** ** libevent.h

    Events without EV_PERSIST: one that happens is not pending any more. *)

Record struct_event := mk_event { e_fd : Z; e_events : Z; e_callback : handler }.
Class EventBase (L : Type) := { event_add : L -> struct_event -> L; event_del : L -> struct_event -> L }.
Module Libevent.
Definition EV_READ : Z := 2.
Definition EV_WRITE : Z := 4.
End Libevent.

Record redisLibeventEvents := mk_libevent { libevent_rev : struct_event; libevent_wev : struct_event }.

Section libevent.
Context {L : Type} `{EventBase L}.
Abbreviation M := (prog (attached L redisLibeventEvents)).

Definition redisLibeventAddRead : M () := e ← get_data; on_lib (fun base => event_add base (libevent_rev e)).
Definition redisLibeventDelRead : M () := e ← get_data; on_lib (fun base => event_del base (libevent_rev e)).
Definition redisLibeventAddWrite : M () := e ← get_data; on_lib (fun base => event_add base (libevent_wev e)).
Definition redisLibeventDelWrite : M () := e ← get_data; on_lib (fun base => event_del base (libevent_wev e)).
Definition redisLibeventCleanup : M () :=
  e ← get_data;
  _ ← on_lib (fun base => event_del base (libevent_rev e));
  _ ← on_lib (fun base => event_del base (libevent_wev e));
  put_data None.
Definition redisLibeventAttach (fd : Z) (ev : ev_hooks) : M (Z * ev_hooks) :=
  attach_data (mk_libevent (mk_event fd Libevent.EV_READ ReadEvent) (mk_event fd Libevent.EV_WRITE WriteEvent)) ev.

Definition redisLibeventAttach_link (fd : Z) (ev : ev_hooks) : M (Z * ev_hooks) := redisLibeventAttach fd ev.

Definition libevent_hook (h : hook) : M () :=
  match h with
  | AddRead => redisLibeventAddRead
  | DelRead => redisLibeventDelRead
  | AddWrite => redisLibeventAddWrite
  | DelWrite => redisLibeventDelWrite
  | Cleanup => redisLibeventCleanup
  end.
End libevent.

(** ** libuv.h

    One handle of the library for both directions. *)

Class UvLoop (L : Type) := {
  sizeof_uv_poll_t : Z;
  uv_poll_init : L -> Z -> Z * L;
  uv_poll_start : L -> Z -> L;
  uv_poll_stop : L -> L;
  uv_close : L -> L
}.
Definition UV_READABLE : Z := 1.
Definition UV_WRITABLE : Z := 2.

Record redisLibuvEvents := mk_libuv { libuv_events : Z }.

Section libuv.
Context {L : Type} `{UvLoop L}.
Abbreviation M := (prog (attached L redisLibuvEvents)).

(** A pointer before the handle, an integer with padding after it. *)
Definition sizeof_libuv : Z := 8 + sizeof_uv_poll_t + 8.

Definition set_events (f : Z -> Z) : M Z :=
  p ← get_data; _ ← put_data (Some (mk_libuv (f (libuv_events p)))); mret (f (libuv_events p)).
Definition start_or_stop (events : Z) : M () :=
  if negb (events =? 0) then on_lib (fun l => uv_poll_start l events) else on_lib uv_poll_stop.
Definition redisLibuvAddRead : M () :=
  events ← set_events (fun m => Z.lor m UV_READABLE); on_lib (fun l => uv_poll_start l events).
Definition redisLibuvDelRead : M () := events ← set_events (fun m => Z.ldiff m UV_READABLE); start_or_stop events.
Definition redisLibuvAddWrite : M () :=
  events ← set_events (fun m => Z.lor m UV_WRITABLE); on_lib (fun l => uv_poll_start l events).
Definition redisLibuvDelWrite : M () := events ← set_events (fun m => Z.ldiff m UV_WRITABLE); start_or_stop events.
(** The object is freed when the library calls [on_close]. *)
Definition redisLibuvCleanup : M () := _ ← get_data; on_lib uv_close.
Definition on_close : M () := _ ← get_data; put_data None.

(** The hooks are set before anything can fail. *)
Definition redisLibuvAttach (malloc_ok : Z -> bool) (fd : Z) (ev : ev_hooks) : M (Z * ev_hooks) :=
  old ← gets ev_data;
  match old with
  | Some _ => mret (REDIS_ERR, ev)
  | None =>
      if negb (malloc_ok sizeof_libuv) then mret (REDIS_ERR, all_hooks) else
      l ← gets lib;
      let '(r, l) := uv_poll_init l fd in
      _ ← on_lib (fun _ => l);
      if negb (r =? 0) then mret (REDIS_ERR, all_hooks)
      else _ ← put_data (Some (mk_libuv 0)); mret (REDIS_OK, all_hooks)
  end.

Definition libuv_hook (h : hook) : M () :=
  match h with
  | AddRead => redisLibuvAddRead
  | DelRead => redisLibuvDelRead
  | AddWrite => redisLibuvAddWrite
  | DelWrite => redisLibuvDelWrite
  | Cleanup => redisLibuvCleanup
  end.
End libuv.

(** ** glib.h

    The library reads the events to wait for in the source itself. *)

Class GMain (L : Type) := {
  g_main_context_wakeup : L -> L;
  g_source_add_poll : L -> L;
  g_source_remove_poll : L -> L
}.
Definition G_IO_IN : Z := 1.
Definition G_IO_OUT : Z := 4.

Record RedisSource := mk_source { poll_fd : Z; poll_events : Z; poll_revents : Z }.

Section glib.
Context {L : Type} `{GMain L}.
Abbreviation M := (prog (attached L RedisSource)).

(** [g_return_if_fail(source);]: here the object is never freed, [None] is NULL. *)
Definition with_source (f : RedisSource -> M ()) : M () :=
  data ← gets ev_data;
  match data with Some source => f source | None => mret () end.
Definition poll_for (f : Z -> Z) : M () :=
  with_source (fun source =>
    _ ← put_data (Some (mk_source (poll_fd source) (f (poll_events source)) (poll_revents source)));
    on_lib g_main_context_wakeup).
Definition redis_source_add_read : M () := poll_for (fun m => Z.lor m G_IO_IN).
Definition redis_source_del_read : M () := poll_for (fun m => Z.ldiff m G_IO_IN).
Definition redis_source_add_write : M () := poll_for (fun m => Z.lor m G_IO_OUT).
Definition redis_source_del_write : M () := poll_for (fun m => Z.ldiff m G_IO_OUT).
Definition redis_source_finalize : M () :=
  source ← get_data;
  if 0 <=? poll_fd source then
    _ ← on_lib g_source_remove_poll;
    put_data (Some (mk_source (-1) (poll_events source) (poll_revents source)))
  else mret ().
(** Its end is that of [redis_source_finalize]. *)
Definition redis_source_cleanup : M () :=
  with_source (fun _ => _ ← redis_source_del_read; _ ← redis_source_del_write; redis_source_finalize).

Definition redis_source_ready (source : RedisSource) : bool :=
  negb (Z.land (poll_events source) (poll_revents source) =? 0).
(** Whether there is something to do, and the timeout. *)
Definition redis_source_prepare : M (bool * Z) := source ← get_data; mret (redis_source_ready source, -1).
Definition redis_source_check : M bool := source ← get_data; mret (redis_source_ready source).

(** [ac->ev.data] is not looked at. *)
Definition redis_source_new (fd : Z) (ev : ev_hooks) : M (Z * ev_hooks) :=
  _ ← put_data (Some (mk_source fd 0 0));
  _ ← on_lib g_source_add_poll;
  mret (REDIS_OK, all_hooks).

Definition glib_hook (h : hook) : M () :=
  match h with
  | AddRead => redis_source_add_read
  | DelRead => redis_source_del_read
  | AddWrite => redis_source_add_write
  | DelWrite => redis_source_del_write
  | Cleanup => redis_source_cleanup
  end.
End glib.

(** ** Events of the socket

    The context is the one of the state; a handler of a context that was freed
    faults. *)

Section events.
Context {F P W : Type} `{Posix W} (alloc : Z -> option bytes) (malloc_ok : Z -> bool).
Abbreviation M := (prog (async_state F P W)).
Context (user : Async.event F P -> M ()).

(** The handlers of ae, libev and libevent. *)
Definition run_handler (h : handler) : M () :=
  match h with
  | ReadEvent => Async.redisAsyncHandleRead alloc malloc_ok user
  | WriteEvent => Async.redisAsyncHandleWrite alloc user
  end.

Definition redisLibuvPoll (status events : Z) : M () :=
  if negb (status =? 0) then mret () else
  _ ← (if negb (Z.land events UV_READABLE =? 0) then run_handler ReadEvent else mret ());
  if negb (Z.land events UV_WRITABLE =? 0) then run_handler WriteEvent else mret ().

(** The result with the field [revents] after it; [callback] is the function that the
    application gave the source. *)
Definition redis_source_dispatch (revents : Z) (callback : option (M bool)) : M (bool * Z) :=
  revents ← (if negb (Z.land revents G_IO_OUT =? 0)
             then _ ← run_handler WriteEvent; mret (Z.ldiff revents G_IO_OUT) else mret revents);
  revents ← (if negb (Z.land revents G_IO_IN =? 0)
             then _ ← run_handler ReadEvent; mret (Z.ldiff revents G_IO_IN) else mret revents);
  match callback with
  | Some f => r ← f; mret (r, revents)
  | None => mret (true, revents)
  end.
End events.

(** ** The asynchronous cluster client

    [base]: the loop is not NULL; [link] is [redisAeAttach_link] or
    [redisLibeventAttach_link], which attaches a connection of a node. *)

Section cluster.
Context {F P V Ctx : Type}.
Definition redisClusterAeAttach (base : bool) (link : F) : prog (sys (aworld F P V) Ctx) Z :=
  acc ← gets (fun st : sys (aworld F P V) Ctx => w_acc (world st));
  match acc with
  | None => mret REDIS_ERR
  | Some c =>
      if negb base then mret REDIS_ERR else
      _ ← upd_world (fun w =>
            with_acc w (Some (mk_acc (acc_err c) (acc_errstr c) (Some link) (acc_onDisconnect c) (acc_onConnect c))));
      mret REDIS_OK
  end.
Definition redisClusterLibeventAttach := redisClusterAeAttach.
End cluster.
