(* ===== verification/AdapterSpec.v ===== *)
(** * Adapters serve the hooks

    What an adapter promises to async.c ([LawfulAdapter]): attached to a socket it
    never faults before the cleanup, and the library waits for exactly the events
    that the hooks asked for ([asked]).  Each of the five adapters keeps this promise
    when its library does what its documentation says.  With [AsyncWatch], no
    output of a context is forgotten by its event loop. *)

From S2P Require Import Prelude Effects Reply Resp Format Sds SdsSpec Dict Net NetSpec NetScript Context Async AsyncSpec AsyncOrder AsyncWatch ClusterNode ClusterAsync Adapters.

(** ** The interface *)

Definition nothing : interest := mk_interest false false.

(** [fresh fd s]: nothing is attached and nothing waits for the socket [fd];
    [polls fd s]: the events of [fd] that the library waits for. *)
Class Adapter (S : Type) := {
  attach : Z -> ev_hooks -> prog S (Z * ev_hooks);
  on_hook : hook -> prog S ();
  fresh : Z -> S -> Prop;
  serving : Z -> S -> Prop;
  polls : Z -> S -> interest
}.
Class LawfulAdapter (S : Type) `{Adapter S} := {
  attach_served fd ev s : fresh fd s ->
    wp (attach fd ev) (fun r s' => r = (REDIS_OK, all_hooks) /\ serving fd s' /\ polls fd s' = nothing) s;
  hook_served fd h s : h <> Cleanup -> serving fd s ->
    wp (on_hook h) (fun _ s' => serving fd s' /\ polls fd s' = ask (polls fd s) h) s;
  cleanup_served fd s : serving fd s -> wp (on_hook Cleanup) (fun _ s' => polls fd s' = nothing) s
}.

Lemma hooks_served {S : Type} `{LawfulAdapter S} fd hs : forall s, serving fd s -> Cleanup ∉ hs ->
  wp (each hs on_hook) (fun _ s' => serving fd s' /\ polls fd s' = fold_left ask hs (polls fd s)) s.
Proof.
  induction hs as [|h hs IH]; intros s Hs Hn; cbn [each fold_left]; [by apply wp_ret|].
  apply not_elem_of_cons in Hn as [Hh Hn]. apply wp_bind.
  eapply wp_mono; [by apply hook_served|]. intros _ s' [Hs' Hp]. rewrite <- Hp. by apply IH.
Qed.

#[global] Instance handler_eq_dec : EqDecision handler.
Proof. solve_decision. Defined.
#[global] Instance ev_io_eq_dec : EqDecision ev_io.
Proof. solve_decision. Defined.
#[global] Instance struct_event_eq_dec : EqDecision struct_event.
Proof. solve_decision. Defined.

Lemma same_is_same {A} `{EqDecision A} (x : A) : bool_decide (x = x) = true.
Proof. by apply bool_decide_eq_true_2. Qed.

(** Runs the code of a hook. *)
Ltac run_hook := eexists _, _; split; [cbv [mbind prog_bind gets modify mret prog_ret lift]; cbn; reflexivity|].

(** ** ae *)

(** What ae.c documents; a descriptor has to be below the size of the loop. *)
Class AeLaws (L : Type) `{AeLoop L} := {
  ae_setsize : L -> Z;
  ae_registered : L -> Z -> Z -> option handler;
  ae_created l fd mask proc fd' mask' : 0 <= fd < ae_setsize l -> mask ∈ [1; 2] -> mask' ∈ [1; 2] ->
    ae_registered (aeCreateFileEvent l fd mask proc) fd' mask' =
    if (fd' =? fd) && (mask' =? mask) then Some proc else ae_registered l fd' mask';
  ae_deleted l fd mask fd' mask' : mask ∈ [1; 2] -> mask' ∈ [1; 2] ->
    ae_registered (aeDeleteFileEvent l fd mask) fd' mask' =
    if (fd' =? fd) && (mask' =? mask) then None else ae_registered l fd' mask';
  ae_created_size l fd mask proc : ae_setsize (aeCreateFileEvent l fd mask proc) = ae_setsize l;
  ae_deleted_size l fd mask : ae_setsize (aeDeleteFileEvent l fd mask) = ae_setsize l
}.

Section ae.
Context {L : Type} `{AeLaws L}.
Definition ae_polls (fd : Z) (l : L) : interest :=
  mk_interest (bool_decide (ae_registered l fd AE_READABLE = Some ReadEvent))
    (bool_decide (ae_registered l fd AE_WRITABLE = Some WriteEvent)).
Arguments ae_polls : simpl never.
Definition ae_data (fd : Z) (i : interest) : option redisAeEvents := Some (mk_ae fd (for_reading i) (for_writing i)).
#[global] Instance ae_adapter : Adapter (attached L redisAeEvents) := {
  attach := redisAeAttach;
  on_hook := ae_hook;
  fresh fd s := ev_data s = None /\ 0 <= fd < ae_setsize (lib s) /\ ae_polls fd (lib s) = nothing;
  serving fd s := ev_data s = ae_data fd (ae_polls fd (lib s)) /\ 0 <= fd < ae_setsize (lib s);
  polls fd s := ae_polls fd (lib s)
}.

Lemma ae_polls_created fd l mask proc : 0 <= fd < ae_setsize l -> mask ∈ [1; 2] ->
  ae_polls fd (aeCreateFileEvent l fd mask proc) =
  if mask =? 1 then mk_interest (bool_decide (proc = ReadEvent)) (for_writing (ae_polls fd l))
  else mk_interest (for_reading (ae_polls fd l)) (bool_decide (proc = WriteEvent)).
Proof.
  intros Hl Hm. unfold ae_polls, AE_READABLE, AE_WRITABLE. rewrite !ae_created by (done || set_solver).
  set_unfold in Hm. destruct Hm as [->|[->|[]]]; rewrite Z.eqb_refl; by destruct proc.
Qed.
Lemma ae_polls_deleted fd l mask : mask ∈ [1; 2] ->
  ae_polls fd (aeDeleteFileEvent l fd mask) =
  if mask =? 1 then mk_interest false (for_writing (ae_polls fd l)) else mk_interest (for_reading (ae_polls fd l)) false.
Proof.
  intros Hm. unfold ae_polls, AE_READABLE, AE_WRITABLE. rewrite !ae_deleted by (done || set_solver).
  set_unfold in Hm. by destruct Hm as [->|[->|[]]]; rewrite Z.eqb_refl.
Qed.
Lemma ae_served fd h s : h <> Cleanup -> serving fd s ->
  wp (ae_hook h) (fun _ s' => serving fd s' /\ polls fd s' = ask (polls fd s) h) s.
Proof.
  destruct s as [l d]. intros Hh [Hd Hf]. cbn [ev_data lib polls] in *. destruct (ae_polls fd l) as [r w] eqn:Ep.
  unfold ae_data in Hd. cbn [for_reading for_writing] in Hd. subst d.
  destruct h; [destruct r|destruct r|destruct w|destruct w|done]; run_hook; cbn;
    rewrite ?ae_polls_created, ?ae_polls_deleted, ?ae_created_size, ?ae_deleted_size by (done || set_solver);
    rewrite Ep; (split; [split; [reflexivity|exact Hf]|reflexivity]).
Qed.
#[global] Instance ae_lawful : LawfulAdapter (attached L redisAeEvents).
Proof.
  split.
  - intros fd ev [l d] (Hd & Hf & Hp). cbn in Hd, Hf, Hp. subst d. run_hook. cbn. by rewrite Hp.
  - apply ae_served.
  - intros fd [l d] [Hd Hf]. cbn [ev_data lib polls] in *. destruct (ae_polls fd l) as [r w] eqn:Ep.
    unfold ae_data in Hd. cbn [for_reading for_writing] in Hd. subst d. destruct r, w; run_hook; cbn;
      rewrite ?ae_polls_deleted, ?Ep by set_solver; done.
Qed.
End ae.

(** ** libev and libevent

    Both have a watcher for each direction, that is active or not. *)

Class EvLaws (L : Type) `{EvLoop L} := {
  ev_active : L -> ev_io -> bool;
  ev_started l x y : ev_active (ev_io_start l x) y = bool_decide (y = x) || ev_active l y;
  ev_stopped l x y : ev_active (ev_io_stop l x) y = negb (bool_decide (y = x)) && ev_active l y
}.

Section libev.
Context {L : Type} `{EvLaws L}.
Definition libev_read (fd : Z) : ev_io := mk_ev_io ReadEvent fd EV_READ.
Definition libev_write (fd : Z) : ev_io := mk_ev_io WriteEvent fd EV_WRITE.
Definition libev_polls (fd : Z) (l : L) : interest :=
  mk_interest (ev_active l (libev_read fd)) (ev_active l (libev_write fd)).
Arguments libev_polls : simpl never.
Definition libev_data (fd : Z) (i : interest) : option redisLibevEvents :=
  Some (mk_libev (for_reading i) (for_writing i) (libev_read fd) (libev_write fd)).
#[global] Instance libev_adapter : Adapter (attached L redisLibevEvents) := {
  attach := redisLibevAttach;
  on_hook := libev_hook;
  fresh fd s := ev_data s = None /\ libev_polls fd (lib s) = nothing;
  serving fd s := ev_data s = libev_data fd (libev_polls fd (lib s));
  polls fd s := libev_polls fd (lib s)
}.
Lemma libev_started fd l h : h = AddRead \/ h = AddWrite ->
  libev_polls fd (ev_io_start l (if h is AddRead then libev_read fd else libev_write fd)) = ask (libev_polls fd l) h.
Proof.
  intros [-> | ->]; unfold libev_polls; rewrite !ev_started; rewrite same_is_same, bool_decide_eq_false_2 by done; done.
Qed.
Lemma libev_stopped fd l h : h = DelRead \/ h = DelWrite ->
  libev_polls fd (ev_io_stop l (if h is DelRead then libev_read fd else libev_write fd)) = ask (libev_polls fd l) h.
Proof.
  intros [-> | ->]; unfold libev_polls; rewrite !ev_stopped; rewrite same_is_same, bool_decide_eq_false_2 by done; done.
Qed.
#[global] Instance libev_lawful : LawfulAdapter (attached L redisLibevEvents).
Proof.
  split.
  - intros fd ev [l d] (Hd & Hp). cbn in Hd, Hp. subst d. run_hook. cbn. by rewrite Hp.
  - intros fd h [l d] Hh Hd. cbn [serving libev_adapter ev_data lib polls] in *.
    pose proof (fun k => libev_started fd l k) as Hs. pose proof (fun k => libev_stopped fd l k) as Hp.
    destruct (libev_polls fd l) as [r w] eqn:Ep. unfold libev_data in Hd. cbn [for_reading for_writing] in Hd. subst d.
    destruct h; [destruct r|destruct r|destruct w|destruct w|done]; run_hook; cbn;
      first [rewrite Ep | rewrite (Hs AddRead) by auto | rewrite (Hs AddWrite) by auto
            | rewrite (Hp DelRead) by auto | rewrite (Hp DelWrite) by auto]; done.
  - intros fd [l d] Hd. cbn [serving libev_adapter ev_data lib polls] in *.
    pose proof (fun l k => libev_stopped fd l k) as Hp.
    destruct (libev_polls fd l) as [r w] eqn:Ep. unfold libev_data in Hd. cbn [for_reading for_writing] in Hd. subst d.
    destruct r, w; run_hook; cbn; rewrite ?(Hp _ DelWrite), ?(Hp _ DelRead), Ep by auto; done.
Qed.
End libev.

(** An event that happened is not pending any more. *)
Class EventLaws (L : Type) `{EventBase L} := {
  event_pending : L -> struct_event -> bool;
  event_happens : L -> struct_event -> L;
  event_added l x y : event_pending (event_add l x) y = bool_decide (y = x) || event_pending l y;
  event_deleted l x y : event_pending (event_del l x) y = negb (bool_decide (y = x)) && event_pending l y;
  event_happened l x y : event_pending (event_happens l x) y = negb (bool_decide (y = x)) && event_pending l y
}.

Section libevent.
Context {L : Type} `{EventLaws L}.
Definition libevent_read (fd : Z) : struct_event := mk_event fd Libevent.EV_READ ReadEvent.
Definition libevent_write (fd : Z) : struct_event := mk_event fd Libevent.EV_WRITE WriteEvent.
Definition libevent_polls (fd : Z) (l : L) : interest :=
  mk_interest (event_pending l (libevent_read fd)) (event_pending l (libevent_write fd)).
Arguments libevent_polls : simpl never.
#[global] Instance libevent_adapter : Adapter (attached L redisLibeventEvents) := {
  attach := redisLibeventAttach;
  on_hook := libevent_hook;
  fresh fd s := ev_data s = None /\ libevent_polls fd (lib s) = nothing;
  serving fd s := ev_data s = Some (mk_libevent (libevent_read fd) (libevent_write fd));
  polls fd s := libevent_polls fd (lib s)
}.
#[global] Instance libevent_lawful : LawfulAdapter (attached L redisLibeventEvents).
Proof.
  split.
  - intros fd ev [l d] (Hd & Hp). cbn in Hd, Hp. subst d. by run_hook.
  - intros fd h [l d] Hh Hd. cbn in Hd. subst d. destruct h; [..|done]; run_hook; cbn; (split; [done|]); unfold libevent_polls;
      rewrite ?event_added, ?event_deleted, ?event_added, ?event_deleted;
      rewrite same_is_same, bool_decide_eq_false_2 by done; done.
  - intros fd [l d] Hd. cbn in Hd. subst d. run_hook. cbn. unfold libevent_polls. rewrite !event_deleted.
    rewrite !same_is_same. by rewrite andb_false_r.
Qed.
End libevent.

(** ** libuv

    The handle of the connection: starting it again replaces its events. *)

Class UvLaws (L : Type) `{UvLoop L} := {
  uv_events : L -> Z;
  uv_inited l fd : (uv_poll_init l fd).1 = 0 -> uv_events (uv_poll_init l fd).2 = 0;
  uv_started l events : uv_events (uv_poll_start l events) = events;
  uv_stopped l : uv_events (uv_poll_stop l) = 0;
  uv_closed l : uv_events (uv_close l) = 0
}.

Section libuv.
Context {L : Type} `{UvLaws L} (malloc_ok : Z -> bool).
Definition mask_polls (input output m : Z) : interest := mk_interest (negb (Z.land m input =? 0)) (negb (Z.land m output =? 0)).
Definition uv_polls (l : L) : interest := mask_polls UV_READABLE UV_WRITABLE (uv_events l).
Definition libuv_adapter : Adapter (attached L redisLibuvEvents) := {|
  attach := redisLibuvAttach malloc_ok;
  on_hook := libuv_hook;
  fresh fd s := ev_data s = None /\ (uv_poll_init (lib s) fd).1 = 0;
  serving fd s := ev_data s = Some (mk_libuv (uv_events (lib s))) /\ uv_events (lib s) ∈ [0; 1; 2; 3];
  polls fd s := uv_polls (lib s)
|}.
Lemma libuv_lawful : malloc_ok sizeof_libuv = true -> @LawfulAdapter _ libuv_adapter.
Proof.
  intros Hm. split.
  - intros fd ev [l d] [Hd Hi]. cbn in Hd, Hi. subst d. cbn [attach libuv_adapter]. unfold redisLibuvAttach. rewrite Hm.
    pose proof (uv_inited l fd Hi) as Hu. unfold wp, mbind, prog_bind, gets. cbn. destruct (uv_poll_init l fd) as [z l'].
    cbn in Hi, Hu. subst z. run_hook. cbn. unfold uv_polls. rewrite Hu. split_and!; [done|done|set_solver|done].
  - intros fd h [l d] Hh [Hd Hi]. cbn in Hd, Hi. subst d. cbn [polls libuv_adapter on_hook serving lib ev_data].
    unfold uv_polls. set_unfold in Hi.
    destruct Hi as [E|[E|[E|[E|[]]]]], h; rewrite ?E; try done; run_hook; cbn;
      rewrite ?uv_started, ?uv_stopped; (split; [split; [done|set_solver]|done]).
  - intros fd [l d] [Hd _]. cbn in Hd. subst d. run_hook. cbn. unfold uv_polls. by rewrite uv_closed.
Qed.
End libuv.

(** ** glib *)

Class GLaws (L : Type) `{GMain L} := {
  g_polled : L -> bool;
  g_woken l : g_polled (g_main_context_wakeup l) = g_polled l;
  g_added l : g_polled (g_source_add_poll l) = true;
  g_removed l : g_polled (g_source_remove_poll l) = false
}.

Section glib.
Context {L : Type} `{GLaws L}.
Definition g_polls (s : attached L RedisSource) : interest :=
  match ev_data s with
  | Some source => if g_polled (lib s) then mask_polls G_IO_IN G_IO_OUT (poll_events source) else nothing
  | None => nothing
  end.
#[global] Instance glib_adapter : Adapter (attached L RedisSource) := {
  attach := redis_source_new;
  on_hook := glib_hook;
  fresh fd s := 0 <= fd;
  serving fd s := 0 <= fd /\ g_polled (lib s) = true /\
    exists m r, ev_data s = Some (mk_source fd m r) /\ m ∈ [0; 1; 4; 5];
  polls fd s := g_polls s
}.
#[global] Instance glib_lawful : LawfulAdapter (attached L RedisSource).
Proof.
  split.
  - intros fd ev [l d] Hf. run_hook. cbn. unfold g_polls. cbn. rewrite g_added. split_and!; try done.
    exists 0, 0. split; [done|set_solver].
  - intros fd h [l d] Hh (Hf & Hg & m & r & Hd & Hi). cbn in Hg, Hd. subst d. cbn [polls glib_adapter]. set_unfold in Hi.
    destruct Hi as [->|[->|[->|[->|[]]]]], h; try done; run_hook; unfold g_polls; cbn; rewrite ?g_woken, Hg;
      (split; [split_and!; [done|done|eexists _, _; split; [done|set_solver]]|done]).
  - intros fd [l d] (Hf & Hg & m & r & Hd & Hi). cbn in Hg, Hd. subst d.
    cbn [on_hook glib_adapter glib_hook]. unfold redis_source_cleanup, redis_source_finalize, wp.
    cbv [mbind prog_bind gets modify mret prog_ret lift redis_source_del_read redis_source_del_write poll_for with_source get_data put_data on_lib].
    cbn. rewrite (proj2 (Z.leb_le 0 fd) Hf). run_hook. cbn. unfold g_polls. cbn. by rewrite g_removed.
Qed.
End glib.

(** ** No output is forgotten *)

Definition set_ev {F P} (ev : ev_hooks) (ac : redisAsyncContext F P) : redisAsyncContext F P :=
  mk_ac (ac_c ac) (ac_err ac) (ac_errstr ac) (ac_dataHandler ac) ev (ac_onDisconnect ac) (ac_onConnect ac)
    (ac_replies ac) (ac_invalid ac) (ac_channels ac) (ac_patterns ac).


(** A loop of 1024 descriptors; the write of the run is short. *)
Definition ae_table : Type := Z -> Z -> option handler.
#[local] Instance table_loop : AeLoop ae_table := {
  aeCreateFileEvent l fd mask proc := fun fd' mask' => if (fd' =? fd) && (mask' =? mask) then Some proc else l fd' mask';
  aeDeleteFileEvent l fd mask := fun fd' mask' => if (fd' =? fd) && (mask' =? mask) then None else l fd' mask'
}.
#[local, refine] Instance table_laws : AeLaws ae_table := { ae_setsize _ := 1024; ae_registered l := l }.
Proof. all: done. Defined.
Definition no_events : attached ae_table redisAeEvents := mk_attached (fun _ _ => None) None.
Definition short_write : net := mk_net 0 {[0; 1; 2]} [] [WrSome 5] [] [] [] [].
Definition polled_steps : list (async_step Z Z) := [Act (Command (Some 1) None [s "GET"; s "k"]); HandleWrite].

(** The connection, what its adapter did and the output that is left. *)
Definition polled_run :=
  r ← start short_write;
  ac ← redisAsyncInitialize (fun _ => true) r.1;
  a ← redisAeAttach (c_fd r.1) (ac_ev ac) no_events;
  x ← each polled_steps (run_async_step plenty (fun _ => true) (code_of plenty (fun _ => true) (fun _ => [])))
    (mk_async (Some (set_ev a.1.2 ac)) ∅ 0 r.2 []);
  c ← a_ctx x.2;
  Some (r, ac, a, x.2, c).
Example output_left :
  (fun x => let '(r, ac, a, st, c) := x in
     (has_output r.1, has_output (ac_c c), bool_decide (0 <= c_fd r.1 < 1024))) <$> polled_run = Some (false, true, true).
Proof. vm_compute. reflexivity. Qed.

