(* ===== verification/AdapterFaults.v ===== *)
(** * Adapters that go wrong

    Runs of the adapters: handlers of a context that was freed, hooks that are set
    without an object. *)

From S2P Require Import Prelude Effects Reply Resp Format Sds SdsSpec Dict Net NetSpec NetScript Context Async AsyncSpec AsyncOrder AsyncWatch ClusterNode ClusterAsync Adapters.

Definition EBADF : Z := 9.
Definition ECONNRESET : Z := 104.

(** A connection on a system, commands in its buffer, then one call of the library;
    whether the context is freed after it. *)
Definition call_library (w : net) (f : prog (async_state Z Z net) ()) : option bool :=
  r ← start w;
  ac ← redisAsyncInitialize (fun _ => true) r.1;
  x ← each [Act (Command (Some 1) None [s "PING"])]
        (run_async_step plenty (fun _ => true) (code_of plenty (fun _ => true) (fun _ => [])))
        (mk_async (Some ac) ∅ 0 r.2 []);
  (fun x => bool_decide (a_ctx x.2 = None)) <$> f x.2.
Definition poll (status events : Z) : prog (async_state Z Z net) () :=
  redisLibuvPoll plenty (fun _ => true) (fun _ => mret ()) status events.
Definition dispatch (revents : Z) : prog (async_state Z Z net) () :=
  _ ← redis_source_dispatch plenty (fun _ => true) (fun _ => mret ()) revents None; mret ().
Definition peer_closed : net := mk_net 0 {[0; 1; 2]} [] [] [] [] [] [].
Definition peer_reset : net := mk_net 0 {[0; 1; 2]} [RdData (s "+PONG" ++ CRLF)] [WrErr ECONNRESET] [] [] [] [].

(** libuv: the error of a socket is ignored, its context and callbacks stay; an end of
    file frees the context, and when the socket is writable too the context is used
    again. *)
Example libuv_ignores_errors : call_library peer_closed (poll (-ECONNRESET) 3) = Some false.
Proof. vm_compute. reflexivity. Qed.
Example libuv_reads_end : call_library peer_closed (poll 0 UV_READABLE) = Some true.
Proof. vm_compute. reflexivity. Qed.
Example libuv_uses_freed_context : call_library peer_closed (poll 0 (Z.lor UV_READABLE UV_WRITABLE)) = None.
Proof. vm_compute. reflexivity. Qed.

(** glib writes first: a write that fails frees the context before the read. *)
Example glib_write_fails : call_library peer_reset (dispatch G_IO_OUT) = Some true.
Proof. vm_compute. reflexivity. Qed.
Example glib_uses_freed_context : call_library peer_reset (dispatch (Z.lor G_IO_IN G_IO_OUT)) = None.
Proof. vm_compute. reflexivity. Qed.

(** A loop of libuv that knows the events of its handle; [uv_poll_init] refuses
    descriptor 9. *)
#[local] Instance handle_loop : UvLoop Z := {
  sizeof_uv_poll_t := 160;
  uv_poll_init l fd := if fd =? 9 then (-EBADF, l) else (0, 0);
  uv_poll_start _ events := events;
  uv_poll_stop _ := 0;
  uv_close _ := 0
}.
Definition libuv_run (malloc_ok : Z -> bool) (fd : Z) (hs : list hook) : option (Z * ev_hooks * Z) :=
  r ← redisLibuvAttach malloc_ok fd (mk_ev false false false false false) (mk_attached 0 None);
  x ← each hs libuv_hook r.2;
  Some (r.1, lib x.2).
Example libuv_polls : libuv_run (fun _ => true) 3 [AddRead; AddWrite; DelRead] = Some (REDIS_OK, all_hooks, UV_WRITABLE).
Proof. vm_compute. reflexivity. Qed.

(** When attaching fails the hooks are set all the same: the first one that async.c
    calls uses the object that is not there. *)
Example libuv_fails_with_hooks :
  libuv_run (fun _ => true) 9 [] = Some (REDIS_ERR, all_hooks, 0) /\
  libuv_run (fun _ => false) 3 [] = Some (REDIS_ERR, all_hooks, 0).
Proof. by vm_compute. Qed.
Example libuv_hook_without_object :
  libuv_run (fun _ => true) 9 [AddWrite] = None /\ libuv_run (fun _ => false) 3 [AddWrite] = None.
Proof. by vm_compute. Qed.

(** A second adapter for the same connection is refused, but by glib, which forgets
    the source that was there. *)
#[local] Instance no_wakeups : GMain () := {
  g_main_context_wakeup l := l; g_source_add_poll l := l; g_source_remove_poll l := l
}.
Example glib_attaches_twice :
  (fun x => (x.1, x.2.2)) <$> (r ← redis_source_new 3 (mk_ev false false false false false) (mk_attached () None);
    x ← redis_source_add_write r.2; y ← redis_source_new 3 all_hooks x.2; Some (y.1.1, (r.1.1, ev_data y.2))) =
  Some (REDIS_OK, Some (mk_source 3 0 0)).
Proof. vm_compute. reflexivity. Qed.
